(* ===== verification/_CoqProject ===== *)
-Q . S2P
Prelude.v
Crc.v
RangeAllocator.v
Bitmap.v
FreeList.v
Slab.v
Buddy.v
Physical.v
Errors.v
Pages.v
Storage.v
RamDisk.v
Names.v
LemonDisk.v
LemonLinks.v
LemonFile.v
LemonDir.v
LemonFS.v
LemonExamples.v
Gpt.v
GptExamples.v
Virt.v
PageTables.v
Elf.v
VirtExamples.v
Helpers.v
Locks.v
Scheduler.v
Context.v
SchedExamples.v
Hardware.v
Ahci.v
AhciTransfer.v
AhciExamples.v
Pci.v
PciScan.v
PciExamples.v
AhciInit.v
AhciInitExamples.v
Acpi.v
AcpiTables.v
AcpiExamples.v
AcpiWalk.v
Drivers.v
Descriptors.v
Timer.v
Ipi.v
Terminal.v
DirectMap.v
DirectMapExamples.v
Owned.v
Ps2.v
Syscalls.v
Smp.v
SmpMemory.v
Startup.v
Xtask.v
Text.v
