(* ===== verification/Prelude.v ===== *)
(** * MaramOS: a verification development of the kernel

    MaramOS is a 64-bit kernel for x86 written in Rust (src/kernel/src/).  It
    boots through Limine, manages physical and virtual memory, finds its devices
    through ACPI and PCI Express, reads disks over AHCI, mounts LemonFS from a
    GPT partition, schedules kernel and user tasks on several processors and
    draws a terminal into the framebuffer.  A program of the host
    (src/xtask/src/main.rs) builds it and makes the disk it boots from.
    This library models these parts as Rocq functions and proves what makes them
    correct.  File names below are relative to src/kernel/src/.

    ** Conventions

    Integers are [Z]; the release build wraps around, so arithmetic goes through
    [u8] ... [u64] or the operators [⊞ ⊟ ⊠].  A fallible function returns [res]:
    [Ok], [Err], [Panic] (a panic, an index out of range, an assertion) or [Loop]
    (out of fuel).  Stateful code runs in the monad [M S E A].  [wp m Q R s] says
    that [m], run from [s], returns, and that [Q] holds of a result and [R] of an
    error; it excludes [Panic] and [Loop], so every theorem stated with it is one
    of total correctness.  [wpp m Q R P s] also allows a panic, if [P] holds.  Code outside the kernel (crates, the boot loader, the
    hardware) is a type class or a section variable, with what the code relies on
    as a class of laws ([MapperLaws], [DriveLaws], [HbaLaws], [ConfigLaws],
    [IoApicLaws], [ClockLaws], [RegisterLaws], [TimerLaws], [AllocLaws], [FontLaws],
    [TableLaws], [I8042], [Abi], [ToolLaws], ...).  The files named [...Examples]
    and [RamDisk] give concrete instances on which the hypotheses of the theorems
    hold and run the code on them.

    ** Memory

    - [RangeAllocator]: allocators/range.rs.  The vector of free ranges is a
      normal form of the set of free addresses; allocating is first fit, but for the
      sums that wrap at 2^64, and reserving and freeing change exactly the range
      given.
    - [FreeList], [Slab], [Buddy]: allocators/slab.rs and buddy.rs, with the free
      lists in an explicit memory.
    - [Physical]: memory/physical.rs and heap.rs.  Frames that are handed out never
      overlap, and heap blocks have the size and alignment of their layout.
    - [DirectMap]: the rest of memory/physical.rs.  Allocating pages may merge page
      tables of the direct map into huge pages; the tables lie in the memory they
      map, and every translation stays.
    - [Owned]: [PhysPage] of memory/wrappers.rs and the frame allocator of
      memory/virt.rs on top of it.  Whatever is allocated, dropped, leaked, zeroed
      and written, the pages owned are apart and hold what their owners wrote.
    - [Virt], [PageTables]: memory/virt.rs and user.rs.  Mapping a fixed range is
      atomic; a new address space starts with exactly the ranges that the page
      walk of the processor finds unused.
    - [Pages], [Hardware]: memory/wrappers.rs, once as the contents of pages and
      once with their place in the memory that devices share.

    ** Devices

    - [Hardware]: volatile accesses, memory and the clock of acpi/hpet.rs, with the
      waits of [Helpers]: how long a wait lasts, and when the time falls back.
    - [Acpi], [AcpiTables], [AcpiWalk]: acpi/.  The walk from the RSDP over the tables on
      every branch, the round trip and the termination of the MADT parser, and the
      redirection entries of the I/O APICs.
    - [Pci], [PciScan]: drivers/pci/.  The scan ends and finds every function once;
      probing base address registers leaves them as they were.
    - [Ahci], [AhciTransfer], [AhciInit]: drivers/storage/ahci/.  A transfer moves
      exactly the blocks asked for, as seen by a controller that reads the command
      structures from memory; bringing up a controller yields well-formed drives and
      leaks no pages.
    - [Drivers]: the initialisers of drivers/pci/mod.rs and drivers/storage/mod.rs.
      Each PCI function keeps one owner, whatever fails ([one_owner], for any
      [ahci::init] and [gpt::init] that return).

    - [Terminal]: display/ and stdout.rs.  The pixels always show an abstract grid of
      text cells, through scrolling, wrapping, tabs and colours, on a screen of any
      height.
    - [Ps2]: drivers/ps2/.  Bringing up the controller ends with the keyboard
      scanning; key presses come out of the buffer in order.

    ** Storage and files

    - [Storage]: drivers/storage/mod.rs and fs/lba_abstractor.rs.  A partition of
      native blocks is a disk of 512-byte sectors and never touches the rest of the
      drive.  The class [SectorLaws] is all that the file system relies on.
    - [Crc], [Gpt]: helpers/crc.rs and drivers/storage/gpt/.  The tables compute the
      bit-serial remainder; accepted partitions are disjoint; when the scan ends.
    - [Names], [Bitmap], [LemonDisk], [LemonLinks], [LemonFile], [LemonDir],
      [LemonFS]: fs/lemonfs/ and fs/mod.rs, from paths and the block bitmap to
      formatting, mounting, reading and writing, with round trips at each layer.

    ** Tasks

    - [Helpers]: helpers/.  Time, waits, [LateInit] and the nesting of
      [InterruptMutex] guards.
    - [Locks]: helpers/interrupt_mutex.rs between processors, instruction by
      instruction, with guards dropped in any order.  Mutexes exclude each other in
      every interleaving, no interrupt comes between where guards are dropped in the
      order of scopes, and taking them in an order excludes deadlock.
    - [Timer]: [scheduling::init].  The first processor measures the interval of its
      timer against the clock, and all processors use it.
    - [Scheduler]: scheduling/scheduler.rs and mod.rs.  No interleaving of ticks,
      faults, new tasks and balancing loses or duplicates a task, and a ready task
      runs within a bounded number of ticks.
    - [Ipi]: smp/ipi.rs.  In every interleaving a TLB shootdown leaves no old
      translation on any processor that runs, unless it gives up or not all processors
      are online, and a request to halt reaches every other processor.
    - [Descriptors], [Smp], [SmpMemory]: descriptors/, smp/mod.rs and smp/init.rs.  The selectors,
      the interrupt table and what an exception does to the running task; every
      processor gets its own data and stacks and finds them; the page allocator
      keeps what this relies on, so that no two stacks overlap.
    - [Syscalls]: syscalls/.  The entry code, instruction by instruction, returns to
      user mode with its registers.
    - [Startup]: main.rs, requests.rs and [memory::init].  Without an answer of the
      boot loader [kmain] stops before any part has run, and it goes on only with a
      drive on an AHCI controller that the scan has found.
    - [Context], [Elf]: scheduling/task.rs and elf/loader.rs.  Saving and restoring a
      context is the identity; whatever a file holds, the loader maps its segments or
      fails, with a panic at the very end of user space only, and a program that is
      loaded starts at its entry point with a fresh stack.
    - [Errors]: errors.rs and the error enums of the modules.

    ** Fuel

    Loops that are not structural take fuel, and the theorems show that it is
    enough: the number of sectors plus one for chains of disk blocks, the length of
    the table for the MADT, 256 buses per segment for the PCI scan, the number of
    blocks for a transfer, the limit divided by the tick of the clock for a wait,
    the turns a PS/2 controller takes to answer.

    ** The host

    - [Xtask]: src/xtask/src/main.rs.  The commands on the files of the host, with
      tools that may fail at any point and a mount daemon that runs beside them:
      nothing runs after a failure, cleaning removes exactly the artifacts, and [disk]
      copies the program of every source to the mounted file system, under the name
      the kernel starts, before it unmounts it.
    - [Text]: the [Debug] and [Display] implementations of drivers/storage/gpt/ and
      drivers/pci/mod.rs.  The text of a GUID can be read back, and the type that
      [Xtask] gives to its partition is the one the kernel looks for.

    ** Not modelled

    - Locks in the models of single components: a lock is held for one step there,
      which [Locks] justifies for [InterruptMutex]; the plain mutex of the spin crate
      and weak memory orders are not modelled.
    - The local TLB, but for the shootdowns of [Ipi].
    - The initialisers that [kmain] calls are parameters in [Startup.kmain]; they are
      modelled in the files of their components, on states of their own.
    - The loop of [kmain] that prints keys ([Ps2] has the buffer it reads) and the
      panic handler, which prints and then calls [halt_other_cpus] ([Ipi]).
    - Text that only people read: log messages, derived [Debug] implementations and
      what the build tool prints.
    - What the processor does when a table or a register is loaded
      ([Selectors::load], the loads of the descriptor tables, CR3).
    - The crates and the tools of the host: the page table mapper, the tables of
      x86_64, the scancode decoder, the font, the boot loader's protocol, cargo, the
      partition tools and the mount daemon are parameters. *)

From stdpp Require Export base numbers list gmap sorting.
From Stdlib Require Export ZArith Lia.
Open Scope Z_scope.

(** ** Machine integers

    The kernel is built with [cargo build --release], so [+], [-] and [*] on
    [u8], [u16], [u32], [u64] and [usize] wrap around.  A machine integer is a
    [Z] in range; [u8], ..., [u64] reduce to the width; the 64-bit operators
    have the notations [⊞], [⊟] and [⊠]. *)

Definition u8 (x : Z) : Z := x mod 256.
Definition u16 (x : Z) : Z := x mod 65536.
Definition u32 (x : Z) : Z := x mod 4294967296.
Definition u64 (x : Z) : Z := x mod 18446744073709551616.

Arguments u8 : simpl never.
Arguments u16 : simpl never.
Arguments u32 : simpl never.
Arguments u64 : simpl never.

Definition U64_MAX : Z := 18446744073709551615.
Definition U32_MAX : Z := 4294967295.
Definition PAGE_SIZE : Z := 4096.

Definition in_u8 (x : Z) : Prop := 0 <= x < 256.
Definition in_u16 (x : Z) : Prop := 0 <= x < 65536.
Definition in_u32 (x : Z) : Prop := 0 <= x < 4294967296.
Definition in_u64 (x : Z) : Prop := 0 <= x < 18446744073709551616.

Declare Scope uint_scope.
Delimit Scope uint_scope with uint.
Notation "a ⊞ b" := (u64 (a + b)) (at level 50, left associativity) : uint_scope.
Notation "a ⊟ b" := (u64 (a - b)) (at level 50, left associativity) : uint_scope.
Notation "a ⊠ b" := (u64 (a * b)) (at level 40, left associativity) : uint_scope.
Open Scope uint_scope.

Definition checked_add (a b : Z) : option Z :=
  if a + b <? 18446744073709551616 then Some (a + b) else None.
Definition checked_sub (a b : Z) : option Z :=
  if b <=? a then Some (a - b) else None.
Definition checked_mul (a b : Z) : option Z :=
  if a * b <? 18446744073709551616 then Some (a * b) else None.
Definition saturating_sub (a b : Z) : Z := Z.max 0 (a - b).

(** [usize::div_ceil], [usize::next_multiple_of] (wrapping), its checked form
    and [usize::is_multiple_of]. *)
Definition div_ceil (a b : Z) : Z :=
  if a mod b =? 0 then a / b else a / b + 1.
Definition next_multiple_of (a b : Z) : Z :=
  if a mod b =? 0 then a else a ⊞ (b - a mod b).
Definition checked_next_multiple_of (a b : Z) : option Z :=
  if a mod b =? 0 then Some a else checked_add a (b - a mod b).
Definition is_multiple_of (a b : Z) : bool :=
  if b =? 0 then a =? 0 else a mod b =? 0.

(** Powers of two: [is_power_of_two], [next_power_of_two] (which wraps to zero
    in release builds) and [trailing_zeros] (64 on zero). *)
Definition is_power_of_two (x : Z) : bool := (0 <? x) && (x =? 2 ^ Z.log2 x).
Definition next_power_of_two (x : Z) : Z :=
  if x <=? 1 then 1 else u64 (2 ^ Z.log2_up x).
Fixpoint pos_ctz (p : positive) : Z :=
  match p with
  | xO p => 1 + pos_ctz p
  | _ => 0
  end.
Definition trailing_zeros (x : Z) : Z :=
  match x with
  | Zpos p => pos_ctz p
  | _ => 64
  end.

(** Bitwise complement at a width. *)
Definition not8 (x : Z) : Z := Z.lxor 0xFF x.
Definition not16 (x : Z) : Z := Z.lxor 0xFFFF x.
Definition not32 (x : Z) : Z := Z.lxor 0xFFFFFFFF x.
Definition not64 (x : Z) : Z := Z.lxor 0xFFFFFFFFFFFFFFFF x.

(** ** Results

    [res E A] is what a Rust call of type [Result<A, E>] can do: return a
    value, return an error, panic, or not return within the fuel the model
    gives it ([Loop]). *)

Inductive res (E A : Type) : Type :=
| Ok (a : A)
| Err (e : E)
| Panic
| Loop.
Arguments Ok {E A} a.
Arguments Err {E A} e.
Arguments Panic {E A}.
Arguments Loop {E A}.

#[export] Instance res_ret {E} : MRet (res E) := λ A a, Ok a.
#[export] Instance res_bind {E} : MBind (res E) := λ A B f m,
  match m with
  | Ok a => f a
  | Err e => Err e
  | Panic => Panic
  | Loop => Loop
  end.

Definition ok_or {E A} (o : option A) (e : E) : res E A :=
  match o with Some a => Ok a | None => Err e end.
Definition map_err {E F A} (f : E → F) (r : res E A) : res F A :=
  match r with
  | Ok a => Ok a
  | Err e => Err (f e)
  | Panic => Panic
  | Loop => Loop
  end.

(** [M S E A]: code that also changes a state [S].  The state survives an
    error return, as it does in the code. *)
Definition M (S E A : Type) : Type := S → res E A * S.

#[export] Instance M_ret {S E} : MRet (M S E) := λ A a s, (Ok a, s).
#[export] Instance M_bind {S E} : MBind (M S E) := λ A B f m s,
  match m s with
  | (Ok a, s') => f a s'
  | (Err e, s') => (Err e, s')
  | (Panic, s') => (Panic, s')
  | (Loop, s') => (Loop, s')
  end.

Definition fail {S E A} (e : E) : M S E A := λ s, (Err e, s).
Definition panic {S E A} : M S E A := λ s, (Panic, s).
Definition lift {S E A} (r : res E A) : M S E A := λ s, (r, s).
Definition gets {S E A} (f : S → A) : M S E A := λ s, (Ok (f s), s).
Definition modify {S E} (f : S → S) : M S E unit := λ s, (Ok tt, f s).
Definition map_errM {S E F A} (f : E → F) (m : M S E A) : M S F A := λ s,
  (map_err f (m s).1, (m s).2).

(** [for x in l { f(x)?; }] *)
Fixpoint forM {S E A} (l : list A) (f : A → M S E unit) : M S E unit :=
  match l with
  | [] => mret tt
  | x :: l => f x ≫= λ _, forM l f
  end.

(** A loop that carries a value. *)
Fixpoint foldM {S E A B} (f : B → A → M S E B) (b : B) (l : list A) : M S E B :=
  match l with
  | [] => mret b
  | x :: l => f b x ≫= λ b, foldM f b l
  end.

(** Division, which panics on zero. *)
Definition div_panic {S E} (a b : Z) : M S E Z :=
  if b =? 0 then panic else mret (a / b).
Definition div_ceil_panic {S E} (a b : Z) : M S E Z :=
  if b =? 0 then panic else mret (div_ceil a b).

Section monad_laws.
Context {S E : Type}.

Lemma bind_Ok {A B} (m : M S E A) (f : A → M S E B) s a s' :
  m s = (Ok a, s') → (m ≫= f) s = f a s'.
Proof. intros H. unfold mbind, M_bind. by rewrite H. Qed.

Lemma bind_Ok_inv {A B} (m : M S E A) (f : A → M S E B) s b s' :
  (m ≫= f) s = (Ok b, s') → ∃ a s1, m s = (Ok a, s1) ∧ f a s1 = (Ok b, s').
Proof. unfold mbind, M_bind. destruct (m s) as [[a| | |] s1]; [by eauto|done..]. Qed.

Lemma gets_bind {A B} (g : S → A) (f : A → M S E B) s : (gets g ≫= f) s = f (g s) s.
Proof. done. Qed.

Lemma modify_bind {B} (g : S → S) (f : unit → M S E B) s : (modify g ≫= f) s = f tt (g s).
Proof. done. Qed.

Lemma mret_bind {A B} (a : A) (f : A → M S E B) s : (mret a ≫= f) s = f a s.
Proof. done. Qed.
End monad_laws.

Lemma bind_ext {S E A B} (m : M S E A) (f g : A → M S E B) s :
  (∀ a s, f a s = g a s) → (m ≫= f) s = (m ≫= g) s.
Proof. intros Hfg. unfold mbind, M_bind. destruct (m s) as [[] ?]; auto. Qed.

Lemma foldM_ext {S E A B} (f g : B → A → M S E B) b l s :
  (∀ b x s, f b x s = g b x s) → foldM f b l s = foldM g b l s.
Proof.
  intros Hfg. revert b s. induction l as [|x l IH]; intros b s; [done|].
  cbn [foldM]. unfold mbind, M_bind. rewrite Hfg. destruct (g b x s) as [[] ?]; auto.
Qed.

(** [wp m Q R s]: from [s], [m] returns a value with [Q] or an error with [R];
    it neither panics nor loops. *)
Definition wp {S E A} (m : M S E A) (Q : A → S → Prop) (R : E → S → Prop) (s : S) : Prop :=
  match m s with
  | (Ok a, s') => Q a s'
  | (Err e, s') => R e s'
  | _ => False
  end.

Section wp_rules.
Context {S E : Type}.
Implicit Types R : E → S → Prop.

Lemma wp_bind {A B} (m : M S E A) (f : A → M S E B) Q R s :
  wp m (λ a, wp (f a) Q R) R s → wp (m ≫= f) Q R s.
Proof. unfold wp, mbind, M_bind. destruct (m s) as [[] ?]; auto. Qed.

Lemma wp_step {A B} (m : M S E A) (f : A → M S E B) (Q : B → S → Prop) R s a s' :
  m s = (Ok a, s') → wp (f a) Q R s' → wp (m ≫= f) Q R s.
Proof. unfold wp, mbind, M_bind. by intros ->. Qed.

Lemma wp_ext {A} (m m' : M S E A) (Q : A → S → Prop) R s :
  m s = m' s → wp m' Q R s → wp m Q R s.
Proof. unfold wp. by intros ->. Qed.

Lemma wp_mono {A} (m : M S E A) (Q Q' : A → S → Prop) R R' s :
  wp m Q R s → (∀ a s', Q a s' → Q' a s') → (∀ e s', R e s' → R' e s') → wp m Q' R' s.
Proof. unfold wp. destruct (m s) as [[] ?]; auto. Qed.

Lemma wp_ret {A} (a : A) (Q : A → S → Prop) R s : Q a s → wp (mret a) Q R s.
Proof. done. Qed.

Lemma wp_gets {A} (f : S → A) (Q : A → S → Prop) R s : Q (f s) s → wp (gets f) Q R s.
Proof. done. Qed.

Lemma wp_lift_Ok {A} (a : A) (r : res E A) (Q : A → S → Prop) R s :
  r = Ok a → Q a s → wp (lift r) Q R s.
Proof. by intros ->. Qed.

Lemma wp_map_errM {F A} (g : E → F) (m : M S E A) (Q : A → S → Prop) (R : F → S → Prop) s :
  wp m Q (λ e, R (g e)) s → wp (map_errM g m) Q R s.
Proof. unfold wp, map_errM. destruct (m s) as [[] ?]; auto. Qed.

(** A loop with invariant [I], indexed by the number of rounds done. *)
Lemma wp_foldM {A B} (I : nat → B → S → Prop) (f : B → A → M S E B) R l b s :
  I 0%nat b s →
  (∀ k x b s, l !! k = Some x → I k b s → wp (f b x) (I (Datatypes.S k)) R s) →
  wp (foldM f b l) (I (length l)) R s.
Proof.
  revert I b s. induction l as [|x l IH]; intros I b s H0 Hstep; [done|]. cbn [foldM].
  apply wp_bind. eapply wp_mono; [apply (Hstep 0%nat); [done|done]| |done].
  intros b' s' H'. apply (IH (λ k, I (Datatypes.S k))); [done|].
  intros k y b1 s1 Hk HI. by apply (Hstep (Datatypes.S k)).
Qed.
Lemma wp_forM {A} (I : nat → S → Prop) (f : A → M S E unit) R l s :
  I 0%nat s →
  (∀ k x s, l !! k = Some x → I k s → wp (f x) (λ _, I (Datatypes.S k)) R s) →
  wp (forM l f) (λ _, I (length l)) R s.
Proof.
  revert I s. induction l as [|x l IH]; intros I s H0 Hstep; [done|]. cbn [forM].
  apply wp_bind. eapply wp_mono; [apply (Hstep 0%nat); [done|done]| |done].
  intros [] s' H'. apply (IH (λ k, I (Datatypes.S k))); [done|].
  intros k y s1 Hk HI. by apply (Hstep (Datatypes.S k)).
Qed.

Lemma wp_and {A} (m : M S E A) (Q Q' : A → S → Prop) R R' s :
  wp m Q R s → wp m Q' R' s → wp m (λ a s, Q a s ∧ Q' a s) (λ e s, R e s ∧ R' e s) s.
Proof. unfold wp. destruct (m s) as [[] ?]; auto. Qed.

Lemma wp_Ok {A} (m : M S E A) (Q : A → S → Prop) s :
  wp m Q (λ _ _, False) s → ∃ a s', m s = (Ok a, s') ∧ Q a s'.
Proof. unfold wp. destruct (m s) as [[] ?]; [by eauto|done..]. Qed.
End wp_rules.

(** [mstep E] runs the first statement, whose result [E] gives. *)
Lemma wp_use {S E A} (m : M S E A) (Q : A → S → Prop) R s a s' : wp m Q R s → m s = (Ok a, s') → Q a s'.
Proof. unfold wp. intros H Hm. by rewrite Hm in H. Qed.

(** [wpp m Q R P s]: as [wp], but [m] may also panic, and if it does then [P]. *)
Definition wpp {S E A} (m : M S E A) (Q : A → S → Prop) (R : E → S → Prop) (P : Prop) (s : S) : Prop :=
  match m s with
  | (Ok a, s') => Q a s'
  | (Err e, s') => R e s'
  | (Panic, _) => P
  | (Loop, _) => False
  end.

Section wpp_rules.
Context {S E : Type}.
Implicit Types (R : E → S → Prop) (P : Prop).

Lemma wpp_bind {A B} (m : M S E A) (f : A → M S E B) Q R P s :
  wpp m (λ a, wpp (f a) Q R P) R P s → wpp (m ≫= f) Q R P s.
Proof. unfold wpp, mbind, M_bind. destruct (m s) as [[] ?]; auto. Qed.

Lemma wpp_mono {A} (m : M S E A) (Q Q' : A → S → Prop) R R' P P' s :
  wpp m Q R P s → (∀ a s', Q a s' → Q' a s') → (∀ e s', R e s' → R' e s') → (P → P') → wpp m Q' R' P' s.
Proof. unfold wpp. destruct (m s) as [[] ?]; auto. Qed.

Lemma wp_wpp {A} (m : M S E A) (Q : A → S → Prop) R P s : wp m Q R s → wpp m Q R P s.
Proof. unfold wp, wpp. destruct (m s) as [[] ?]; done. Qed.

Lemma wpp_ret {A} (a : A) (Q : A → S → Prop) R P s : Q a s → wpp (mret a) Q R P s.
Proof. done. Qed.

Lemma wpp_map_errM {F A} (g : E → F) (m : M S E A) (Q : A → S → Prop) (R : F → S → Prop) P s :
  wpp m Q (λ e, R (g e)) P s → wpp (map_errM g m) Q R P s.
Proof. unfold wpp, map_errM. destruct (m s) as [[] ?]; auto. Qed.
End wpp_rules.

Ltac mstep E := erewrite bind_Ok by exact E; cbv beta iota.

(** ** Bytes

    A byte is a [Z] in [0, 256).  [le_bytes n x] is the little-endian encoding
    of [x] on [n] bytes and [le_val] its inverse. *)

Fixpoint le_bytes (n : nat) (x : Z) : list Z :=
  match n with
  | O => []
  | S n => x mod 256 :: le_bytes n (x / 256)
  end.
Fixpoint le_val (l : list Z) : Z :=
  match l with
  | [] => 0
  | b :: l => b + 256 * le_val l
  end.

(** [slice off len l] is [&l[off..off + len]]; [splice off new l] overwrites
    [l] from [off]. *)
Definition slice {A} (off len : nat) (l : list A) : list A := take len (drop off l).
Definition splice {A} (off : nat) (new l : list A) : list A :=
  take off l ++ new ++ drop (off + length new) l.

Definition bytes_ok (l : list Z) : Prop := Forall in_u8 l.

(** ** Automation *)

Create HintDb uint discriminated.

Ltac unfold_uint :=
  unfold u8, u16, u32, u64, in_u8, in_u16, in_u32, in_u64, U64_MAX, U32_MAX,
    PAGE_SIZE in *.

(** [uint_lia] decides linear goals with [mod] and [/] by constants. *)
Ltac uint_lia := unfold_uint; Z.to_euclidean_division_equations; lia.

Ltac case_bool :=
  match goal with
  | |- context [if ?b then _ else _] => destruct b eqn:?
  | H : context [if ?b then _ else _] |- _ => destruct b eqn:?
  end.

(** Case analysis on the first condition of the goal. *)
Tactic Notation "case_if" "as" ident(H) :=
  match goal with |- context [if ?b then _ else _] => destruct b eqn:H end.

(** [zb] turns boolean comparisons in the context into propositions. *)
Ltac zb :=
  repeat match goal with
  | H : (_ <? _) = true |- _ => apply Z.ltb_lt in H
  | H : (_ <? _) = false |- _ => apply Z.ltb_ge in H
  | H : (_ <=? _) = true |- _ => apply Z.leb_le in H
  | H : (_ <=? _) = false |- _ => apply Z.leb_gt in H
  | H : (_ =? _) = true |- _ => apply Z.eqb_eq in H
  | H : (_ =? _) = false |- _ => apply Z.eqb_neq in H
  | H : (_ && _) = true |- _ => apply andb_prop in H as [? ?]
  | H : (_ || _) = false |- _ => apply orb_false_elim in H as [? ?]
  | H : negb _ = true |- _ => apply negb_true_iff in H
  | H : negb _ = false |- _ => apply negb_false_iff in H
  end.

(** ** Lemmas on machine integers *)

Lemma u8_small x : in_u8 x → u8 x = x.
Proof. apply Z.mod_small. Qed.
Lemma u16_small x : in_u16 x → u16 x = x.
Proof. apply Z.mod_small. Qed.
Lemma u32_small x : in_u32 x → u32 x = x.
Proof. apply Z.mod_small. Qed.
Lemma u64_small x : in_u64 x → u64 x = x.
Proof. apply Z.mod_small. Qed.
Lemma u8_range x : in_u8 (u8 x).
Proof. by apply Z.mod_pos_bound. Qed.
Lemma u16_range x : in_u16 (u16 x).
Proof. by apply Z.mod_pos_bound. Qed.
Lemma u32_range x : in_u32 (u32 x).
Proof. by apply Z.mod_pos_bound. Qed.
Lemma u64_range x : in_u64 (u64 x).
Proof. by apply Z.mod_pos_bound. Qed.
#[export] Hint Resolve u8_range u16_range u32_range u64_range : uint.

Lemma checked_add_Some a b c :
  checked_add a b = Some c ↔ c = a + b ∧ a + b < 18446744073709551616.
Proof. unfold checked_add. case_bool; zb; split; intros; destruct_and?; simplify_eq; auto; lia. Qed.

Lemma checked_sub_Some a b c : checked_sub a b = Some c ↔ c = a - b ∧ b <= a.
Proof. unfold checked_sub. case_bool; zb; split; intros; destruct_and?; simplify_eq; auto; lia. Qed.

Lemma div_ceil_bounds a b : 0 < b → a <= div_ceil a b * b < a + b.
Proof.
  intros Hb. unfold div_ceil. pose proof (Z.div_mod a b ltac:(lia)).
  pose proof (Z.mod_pos_bound a b Hb). case_bool; zb; nia.
Qed.

Lemma div_ceil_nonneg a b : 0 <= a → 0 < b → 0 <= div_ceil a b.
Proof. intros. pose proof (div_ceil_bounds a b). nia. Qed.

Lemma div_ceil_mult k b : 0 < b → div_ceil (k * b) b = k.
Proof. intros. unfold div_ceil. by rewrite Z.mod_mul, Z.div_mul by lia. Qed.

Lemma div_ceil_pos a b : 0 < a → 0 < b → 0 < div_ceil a b.
Proof. intros. pose proof (div_ceil_bounds a b). nia. Qed.

(** The least multiple of [b] that is at least [a]. *)
Definition align_up (a b : Z) : Z := div_ceil a b * b.

Lemma align_up_spec a b : 0 < b → a <= align_up a b < a + b ∧ (b | align_up a b).
Proof.
  intros. split; [by apply div_ceil_bounds|]. by exists (div_ceil a b).
Qed.

Lemma next_multiple_of_align a b :
  0 <= a → 0 < b → align_up a b < 18446744073709551616 →
  next_multiple_of a b = align_up a b.
Proof.
  intros Ha Hb Hlt. unfold next_multiple_of, align_up, div_ceil in *.
  pose proof (Z.div_mod a b ltac:(lia)). pose proof (Z.mod_pos_bound a b Hb).
  destruct (a mod b =? 0) eqn:E; zb; [nia|].
  rewrite u64_small; unfold in_u64; nia.
Qed.

Lemma is_multiple_of_spec a b : 0 < b → is_multiple_of a b = true ↔ (b | a).
Proof.
  intros. unfold is_multiple_of. destruct (b =? 0) eqn:?; zb; [lia|].
  rewrite Z.eqb_eq. rewrite Z.mod_divide by lia. done.
Qed.

(** ** Powers of two *)

Lemma is_power_of_two_spec x :
  is_power_of_two x = true ↔ ∃ k, 0 <= k ∧ x = 2 ^ k.
Proof.
  unfold is_power_of_two. rewrite andb_true_iff, Z.ltb_lt, Z.eqb_eq. split.
  - intros [? ?]. exists (Z.log2 x). split; [apply Z.log2_nonneg|done].
  - intros (k & Hk & ->). split; [by apply Z.pow_pos_nonneg|].
    by rewrite Z.log2_pow2.
Qed.

Lemma pos_ctz_pow2 k : pos_ctz (Pos.iter xO 1%positive k) = Zpos k.
Proof.
  induction k as [|k IH] using Pos.peano_ind; [done|].
  rewrite Pos.iter_succ. simpl. lia.
Qed.

Lemma trailing_zeros_pow2 k : 0 <= k → trailing_zeros (2 ^ k) = k.
Proof.
  intros Hk. destruct k as [|k|k]; [done| |lia].
  assert (2 ^ Zpos k = Zpos (Pos.iter xO 1%positive k)) as ->.
  { clear. change (2 ^ Zpos k) with (Z.pow_pos 2 k). unfold Z.pow_pos.
    induction k as [|k IH] using Pos.peano_ind; [done|].
    rewrite !Pos.iter_succ, IH. done. }
  apply pos_ctz_pow2.
Qed.

Lemma next_power_of_two_spec x :
  0 <= x <= 2 ^ 63 →
  next_power_of_two x = 2 ^ Z.log2_up x ∧ x <= 2 ^ Z.log2_up x.
Proof.
  intros Hx. unfold next_power_of_two.
  destruct (x <=? 1) eqn:?; zb.
  { assert (x = 0 ∨ x = 1) as [-> | ->] by lia; done. }
  pose proof (Z.log2_up_spec x ltac:(lia)) as [_ ?].
  assert (Z.log2_up x <= 63).
  { apply Z.log2_up_le_pow2; lia. }
  pose proof (Z.pow_le_mono_r 2 (Z.log2_up x) 63 ltac:(lia) ltac:(lia)).
  rewrite u64_small; [done|]. unfold in_u64.
  split; [apply Z.pow_nonneg; lia|]. lia.
Qed.

(** ** Lemmas on bytes and slices *)

Lemma elem_of_concat {A} (x : A) ls : x ∈ concat ls ↔ ∃ l, l ∈ ls ∧ x ∈ l.
Proof.
  rewrite list_elem_of_In, in_concat. split; intros (l & H1 & H2); exists l;
    by rewrite !list_elem_of_In in *.
Qed.

Lemma length_le_bytes n x : length (le_bytes n x) = n.
Proof. revert x; induction n; intros; simpl; congruence. Qed.

Lemma le_bytes_ok n x : bytes_ok (le_bytes n x).
Proof.
  revert x; induction n as [|n IH]; intros x; simpl; constructor; [|apply IH].
  by apply Z.mod_pos_bound.
Qed.

Lemma le_val_bytes n x :
  0 <= x < 256 ^ Z.of_nat n → le_val (le_bytes n x) = x.
Proof.
  revert x; induction n as [|n IH]; intros x Hx; simpl.
  { change (256 ^ Z.of_nat 0) with 1 in Hx. lia. }
  rewrite Nat2Z.inj_succ, Z.pow_succ_r in Hx by lia.
  rewrite IH; [pose proof (Z.div_mod x 256); lia|].
  split; [apply Z.div_pos; lia|]. apply Z.div_lt_upper_bound; lia.
Qed.

Lemma le_bytes_val l : bytes_ok l → le_bytes (length l) (le_val l) = l.
Proof.
  induction 1 as [|b l Hb _ IH]; [done|]. simpl. unfold in_u8 in Hb.
  rewrite (Z.mul_comm 256), Z.mod_add, Z.div_add, Z.mod_small, Z.div_small by lia.
  by rewrite Z.add_0_l, IH.
Qed.

Lemma le_val_range l : bytes_ok l → 0 <= le_val l < 256 ^ Z.of_nat (length l).
Proof.
  induction 1 as [|b l Hb _ IH]; [done|]. unfold in_u8 in Hb. cbn [le_val].
  change (length (b :: l)) with (S (length l)).
  rewrite Nat2Z.inj_succ, Z.pow_succ_r by lia. lia.
Qed.

Lemma bytes_ok_forallb l :
  forallb (λ b, (0 <=? b) && (b <? 256)) l = true → bytes_ok l.
Proof.
  intros H%Is_true_true. apply forallb_True in H. eapply Forall_impl; [exact H|].
  intros b Hb%Is_true_true. zb. by split.
Qed.

Lemma StronglySorted_impl {A} (R1 R2 : relation A) l :
  (∀ x y, R1 x y → R2 x y) → StronglySorted R1 l → StronglySorted R2 l.
Proof.
  intros H. induction 1 as [|x l Hs IH Hx]; constructor; [done|].
  eapply Forall_impl; [exact Hx|auto].
Qed.

Lemma StronglySorted_app_iff {A} (R : relation A) l1 l2 :
  StronglySorted R (l1 ++ l2) ↔
    StronglySorted R l1 ∧ StronglySorted R l2 ∧ ∀ x y, x ∈ l1 → y ∈ l2 → R x y.
Proof.
  induction l1 as [|x l1 IH]; simpl.
  { split; [|tauto]. intros H. split_and!; [constructor|done|].
    intros ?? []%not_elem_of_nil. }
  split.
  - inversion 1 as [|?? Hs Hx]; subst. apply IH in Hs as (H1 & H2 & H3).
    apply Forall_app in Hx as [Hx1 Hx2]. rewrite Forall_forall in Hx2.
    split_and!; [by constructor|done|]. intros a b [->|Ha]%elem_of_cons Hb; auto.
  - intros (H1 & H2 & H3). inversion H1 as [|?? Hs Hx]; subst. constructor.
    + apply IH. split_and!; [done..|]. intros. apply H3; [by right|done].
    + apply Forall_app. split; [done|]. rewrite Forall_forall. intros y Hy.
      apply H3; [by left|done].
Qed.

Section slices.
Context {A : Type}.
Implicit Types l new : list A.

Lemma length_slice off len l :
  (off + len <= length l)%nat → length (slice off len l) = len.
Proof. intros. unfold slice. rewrite length_take, length_drop. lia. Qed.

Lemma lookup_slice off len l i :
  (i < len)%nat → slice off len l !! i = l !! (off + i)%nat.
Proof. intros. unfold slice. rewrite lookup_take_lt by lia. apply lookup_drop. Qed.

Lemma length_splice off new l :
  (off + length new <= length l)%nat → length (splice off new l) = length l.
Proof.
  intros. unfold splice. rewrite !length_app, length_take, length_drop. lia.
Qed.

Lemma lookup_splice_in off new l i :
  (off + length new <= length l)%nat → (off <= i < off + length new)%nat →
  splice off new l !! i = new !! (i - off)%nat.
Proof.
  intros Hl Hi. unfold splice.
  rewrite lookup_app_r by (rewrite length_take; lia).
  rewrite length_take, Nat.min_l by lia. by rewrite lookup_app_l by lia.
Qed.

Lemma lookup_splice_out off new l i :
  (off + length new <= length l)%nat → (i < off ∨ off + length new <= i)%nat →
  splice off new l !! i = l !! i.
Proof.
  intros Hl [Hi|Hi]; unfold splice.
  - rewrite lookup_app_l by (rewrite length_take; lia).
    by rewrite lookup_take_lt by lia.
  - rewrite lookup_app_r by (rewrite length_take; lia).
    rewrite length_take, Nat.min_l by lia. rewrite lookup_app_r by lia.
    rewrite lookup_drop. f_equal. lia.
Qed.

Lemma slice_splice_same off new l :
  (off + length new <= length l)%nat → slice off (length new) (splice off new l) = new.
Proof.
  intros. unfold slice, splice.
  rewrite drop_app_ge by (rewrite length_take; lia).
  rewrite length_take, Nat.min_l, Nat.sub_diag, drop_0 by lia.
  by rewrite take_app_length.
Qed.

Lemma slice_slice off1 len1 off2 len2 l :
  (off2 + len2 <= len1)%nat → slice off2 len2 (slice off1 len1 l) = slice (off1 + off2) len2 l.
Proof.
  intros. unfold slice. rewrite skipn_firstn_comm, drop_drop, take_take.
  by rewrite Nat.min_l by lia.
Qed.

Lemma list_eq_lookup_lt l1 l2 :
  length l1 = length l2 →
  (∀ i, (i < length l1)%nat → l1 !! i = l2 !! i) → l1 = l2.
Proof.
  intros Hlen H. apply list_eq. intros i.
  destruct (decide (i < length l1)%nat); [by apply H|].
  rewrite !lookup_ge_None_2 by lia. done.
Qed.

Lemma slice_splice_disjoint off off' len new l :
  (off + length new <= length l)%nat → (off' + len <= length l)%nat →
  (off' + len <= off ∨ off + length new <= off')%nat →
  slice off' len (splice off new l) = slice off' len l.
Proof.
  intros. apply list_eq_lookup_lt.
  { rewrite !length_slice; rewrite ?length_splice; lia. }
  intros i Hi. rewrite length_slice in Hi by (rewrite length_splice; lia).
  rewrite !lookup_slice by lia. apply lookup_splice_out; lia.
Qed.
End slices.

Lemma StronglySorted_perm {A} (R : relation A) l1 l2 :
  (∀ x y, R x y → R y x) → l1 ≡ₚ l2 → StronglySorted R l1 → StronglySorted R l2.
Proof.
  intros Hsym. induction 1 as [|x l l' Hp IH|x y l|l l' l'' _ IH1 _ IH2]; intros H; [done|..].
  - inversion_clear H. constructor; [by apply IH|]. by rewrite <- Hp.
  - inversion_clear H as [|?? H1 Hx]. inversion_clear H1 as [|?? H2 Hy].
    inversion_clear Hx. constructor; [by constructor|]. constructor; auto.
  - auto.
Qed.

Lemma list_fmap_of_bind {A B C} (f : B → C) (g : A → list B) l :
  f <$> (l ≫= g) = l ≫= λ x, f <$> g x.
Proof. induction l as [|x l IH]; [done|]. cbn. by rewrite fmap_app, <- IH. Qed.

Lemma seqZ_snoc m n : 0 <= n → seqZ m (n + 1) = seqZ m n ++ [m + n].
Proof.
  intros. rewrite seqZ_app, (seqZ_cons (m + n) 1) by lia. by rewrite (seqZ_nil _ (Z.pred 1)) by lia.
Qed.

(** ** Bits *)

Lemma lor_add a b n : 0 <= n → 0 <= b < 2 ^ n → (2 ^ n | a) → Z.lor a b = a + b.
Proof.
  intros Hn Hb [k ->]. assert (Z.land (k * 2 ^ n) b = 0) as L.
  { destruct (decide (b = 0)) as [->|]; [apply Z.land_0_r|]. apply Z.bits_inj'. intros i Hi. rewrite Z.land_spec, Z.bits_0.
    destruct (decide (i < n)); [rewrite Z.mul_pow2_bits_low by lia; done|].
    rewrite (Z.bits_above_log2 b i), andb_false_r; [done|lia|].
    apply Z.log2_lt_pow2; [lia|].
    apply (Z.lt_le_trans _ (2 ^ n)); [lia|]. apply Z.pow_le_mono_r; lia. }
  rewrite <- Z.lxor_lor, Z.add_nocarry_lxor by done. done.
Qed.

(** The bits from [k] to [n - 1] of a number of [n] bits. *)
Lemma land_high v n k : 0 <= k <= n → 0 <= v < 2 ^ n → Z.land v (2 ^ n - 2 ^ k) = v - v mod 2 ^ k.
Proof.
  intros Hk Hv. replace (2 ^ n - 2 ^ k) with (Z.shiftl (Z.ones (n - k)) k).
  2:{ rewrite Z.shiftl_mul_pow2, Z.ones_equiv, <- Z.sub_1_r, Z.mul_sub_distr_r, <- Z.pow_add_r by lia.
      rewrite Z.mul_1_l. do 2 f_equal. lia. }
  replace (v - v mod 2 ^ k) with (Z.shiftl (Z.shiftr v k) k).
  2:{ rewrite Z.shiftl_mul_pow2, Z.shiftr_div_pow2 by lia.
      pose proof (Z.div_mod v (2 ^ k) ltac:(apply Z.pow_nonzero; lia)). lia. }
  apply Z.bits_inj'. intros i Hi. rewrite Z.land_spec, !Z.shiftl_spec by lia.
  destruct (decide (i < k)); [rewrite !(Z.testbit_neg_r _ (i - k)) by lia; by rewrite andb_false_r|].
  rewrite Z.shiftr_spec by lia. replace (i - k + k) with i by lia.
  destruct (decide (i < n)); [rewrite Z.ones_spec_low by lia; by rewrite andb_true_r|].
  rewrite Z.ones_spec_high by lia. rewrite andb_false_r. symmetry. rewrite <- (Z.mod_small v (2 ^ n)) by lia.
  apply Z.mod_pow2_bits_high. lia.
Qed.

(** Complement within [n] bits. *)
Lemma lxor_ones x n : 0 <= n → 0 <= x < 2 ^ n → Z.lxor (Z.ones n) x = 2 ^ n - 1 - x.
Proof.
  intros Hn Hx. assert (Z.lxor (Z.ones n) x + x = 2 ^ n - 1); [|lia].
  rewrite Z.add_nocarry_lxor.
  - rewrite Z.lxor_assoc, Z.lxor_nilpotent, Z.lxor_0_r, Z.ones_equiv. lia.
  - apply Z.bits_inj'. intros i Hi. rewrite Z.land_spec, Z.lxor_spec, Z.bits_0.
    destruct (decide (i < n)); [rewrite Z.ones_spec_low by lia; by destruct (Z.testbit x i)|].
    rewrite <- (Z.mod_small x (2 ^ n)), Z.mod_pow2_bits_high, andb_false_r by lia. done.
Qed.

Lemma not32_spec x : in_u32 x → not32 x = 2 ^ 32 - 1 - x.
Proof. intros Hx. apply (lxor_ones x 32); [lia|exact Hx]. Qed.

Lemma not64_spec x : in_u64 x → not64 x = 2 ^ 64 - 1 - x.
Proof. intros Hx. apply (lxor_ones x 64); [lia|exact Hx]. Qed.
