(* ===== verification/Crc.v ===== *)
(** * CRC-32 and CRC-64 (src/kernel/src/helpers/crc.rs)

    The two checksums of the kernel: CRC-32 guards the GPT header and entry
    array, CRC-64 the LemonFS superblock.  The code runs table-driven; the
    reference is the bit-serial division the tables are generated from.  The
    theorems show that both agree on every input, that the result has the
    declared width, and that a corruption confined to a window no wider than
    the checksum is always detected. *)

From S2P Require Import Prelude.

Definition CRC32_POLYNOMIAL : Z := 0xEDB88320.
Definition CRC64_POLYNOMIAL : Z := 0xC96C5795D7870F42.

(** One round of the inner [while j < 8] loop of the table constants. *)
Definition crc_round (poly crc : Z) : Z :=
  if negb (Z.land crc 1 =? 0) then Z.lxor (Z.shiftr crc 1) poly
  else Z.shiftr crc 1.

Definition crc_table (poly : Z) : list Z :=
  (λ i : nat, Nat.iter 8 (crc_round poly) (Z.of_nat i)) <$> seq 0 256.

Definition CRC32_TABLE : list Z := Eval vm_compute in crc_table CRC32_POLYNOMIAL.
Definition CRC64_TABLE : list Z := Eval vm_compute in crc_table CRC64_POLYNOMIAL.

(** The loop body of [crc32] and [crc64]. *)
Definition crc_update (table : list Z) (crc byte : Z) : Z :=
  let idx := Z.land (Z.lxor crc byte) 0xFF in
  Z.lxor (Z.shiftr crc 8) (nth (Z.to_nat idx) table 0).

Definition crc32 (data : list Z) : Z :=
  Z.lxor (foldl (crc_update CRC32_TABLE) U32_MAX data) U32_MAX.

Definition crc64 (data : list Z) : Z :=
  Z.lxor (foldl (crc_update CRC64_TABLE) U64_MAX data) U64_MAX.

(** ** The bit-serial reference *)

Definition crc_byte_ref (poly crc byte : Z) : Z :=
  Nat.iter 8 (crc_round poly) (Z.lxor crc byte).

Definition crc_ref (poly mask : Z) (data : list Z) : Z :=
  Z.lxor (foldl (crc_byte_ref poly) mask data) mask.

(** ** Linearity of the rounds *)

Section rounds.
Variable poly : Z.

Lemma crc_round_testbit x :
  crc_round poly x =
    Z.lxor (Z.shiftr x 1) (if Z.testbit x 0 then poly else 0).
Proof.
  unfold crc_round. change 1 with (Z.ones 1) at 1. rewrite Z.land_ones by lia.
  rewrite Z.bit0_odd, Zodd_mod. change (2 ^ 1) with 2.
  pose proof (Z.mod_pos_bound x 2).
  destruct (x mod 2 =? 1) eqn:E; zb.
  - by rewrite E.
  - assert (x mod 2 = 0) as -> by lia. by rewrite Z.lxor_0_r.
Qed.

Lemma crc_round_lxor x y :
  crc_round poly (Z.lxor x y) = Z.lxor (crc_round poly x) (crc_round poly y).
Proof.
  rewrite !crc_round_testbit, Z.lxor_spec, Z.shiftr_lxor.
  apply Z.bits_inj'. intros n Hn. rewrite !Z.lxor_spec.
  destruct (Z.testbit x 0), (Z.testbit y 0); simpl; rewrite ?Z.bits_0;
    destruct (Z.testbit (Z.shiftr x 1) n), (Z.testbit (Z.shiftr y 1) n),
      (Z.testbit poly n); done.
Qed.

Lemma iter_round_lxor k x y :
  Nat.iter k (crc_round poly) (Z.lxor x y)
    = Z.lxor (Nat.iter k (crc_round poly) x) (Nat.iter k (crc_round poly) y).
Proof.
  induction k as [|k IH]; [done|]. simpl. by rewrite IH, crc_round_lxor.
Qed.

(** A round on an even value only shifts, so [k] rounds undo a shift by [k]. *)
Lemma iter_round_shiftl k y :
  Nat.iter k (crc_round poly) (Z.shiftl y (Z.of_nat k)) = y.
Proof.
  revert y. induction k as [|k IH]; intros y; [done|].
  rewrite Nat.iter_succ_r, crc_round_testbit.
  rewrite Z.shiftl_spec by lia. rewrite Z.testbit_neg_r by lia.
  rewrite Z.lxor_0_r, Z.shiftr_shiftl_l by lia.
  replace (Z.of_nat (S k) - 1) with (Z.of_nat k) by lia. apply IH.
Qed.

(** Splitting off the low byte: [x = (x & 0xFF) ^ ((x >> 8) << 8)]. *)
Lemma split_low_byte x :
  x = Z.lxor (Z.land x 0xFF) (Z.shiftl (Z.shiftr x 8) 8).
Proof.
  change 0xFF with (Z.ones 8). apply Z.bits_inj'. intros n Hn.
  rewrite Z.lxor_spec, Z.land_spec, Z.shiftl_spec by lia.
  destruct (decide (n < 8)).
  - rewrite Z.ones_spec_low by lia. rewrite (Z.testbit_neg_r _ (n - 8)) by lia.
    by destruct (Z.testbit x n).
  - rewrite Z.ones_spec_high by lia. rewrite Z.shiftr_spec by lia.
    replace (n - 8 + 8) with n by lia. by destruct (Z.testbit x n).
Qed.

Lemma nth_crc_table i :
  0 <= i < 256 →
  nth (Z.to_nat i) (crc_table poly) 0 = Nat.iter 8 (crc_round poly) i.
Proof.
  intros Hi. unfold crc_table.
  rewrite (nth_lookup_Some _ _ _ (Nat.iter 8 (crc_round poly) i)); [done|].
  rewrite list_lookup_fmap, lookup_seq_lt by lia. simpl.
  by rewrite Z2Nat.id by lia.
Qed.

Lemma land_ff_range x : 0 <= Z.land x 0xFF < 256.
Proof. change 0xFF with (Z.ones 8). rewrite Z.land_ones by lia. by apply Z.mod_pos_bound. Qed.

(** One table lookup does the work of eight rounds. *)
Lemma crc_update_ref crc byte :
  in_u8 byte → crc_update (crc_table poly) crc byte = crc_byte_ref poly crc byte.
Proof.
  intros Hb. unfold crc_update, crc_byte_ref.
  rewrite nth_crc_table by apply land_ff_range.
  rewrite (split_low_byte (Z.lxor crc byte)) at 2.
  pose proof (iter_round_shiftl 8 (Z.shiftr (Z.lxor crc byte) 8)) as E.
  change (Z.of_nat 8) with 8 in E.
  rewrite iter_round_lxor, E, Z.lxor_comm. f_equal.
  rewrite Z.shiftr_lxor. rewrite (Z.shiftr_div_pow2 byte) by lia.
  rewrite (Z.div_small byte) by (unfold in_u8 in Hb; lia).
  by rewrite Z.lxor_0_r.
Qed.

Lemma foldl_update_ref data crc :
  bytes_ok data →
  foldl (crc_update (crc_table poly)) crc data = foldl (crc_byte_ref poly) crc data.
Proof.
  intros H. revert crc. induction H as [|b l Hb _ IH]; intros crc; [done|].
  simpl. by rewrite crc_update_ref, IH.
Qed.

(** ** A whole message as one division *)

Lemma le_val_cons_lxor b l :
  in_u8 b → le_val (b :: l) = Z.lxor b (Z.shiftl (le_val l) 8).
Proof.
  intros Hb. unfold in_u8 in Hb. cbn [le_val]. rewrite <- Z.add_nocarry_lxor.
  { rewrite Z.shiftl_mul_pow2 by lia. lia. }
  apply Z.bits_inj'. intros n Hn. rewrite Z.land_spec, Z.bits_0.
  rewrite Z.shiftl_spec by lia. destruct (decide (n < 8)).
  - rewrite (Z.testbit_neg_r _ (n - 8)) by lia. by rewrite andb_false_r.
  - rewrite <- (Z.mod_small b (2 ^ 8)) by lia.
    by rewrite Z.mod_pow2_bits_high by lia.
Qed.

Lemma foldl_ref_division l crc :
  bytes_ok l →
  foldl (crc_byte_ref poly) crc l =
    Nat.iter (8 * length l) (crc_round poly) (Z.lxor crc (le_val l)).
Proof.
  intros H. revert crc. induction H as [|b l Hb Hl IH]; intros crc.
  { simpl. by rewrite Z.lxor_0_r. }
  cbn [foldl]. rewrite IH, le_val_cons_lxor by done.
  unfold crc_byte_ref. change (length (b :: l)) with (S (length l)).
  replace (8 * S (length l))%nat with (8 * length l + 8)%nat by lia.
  rewrite Nat.iter_add. f_equal.
  rewrite <- Z.lxor_assoc, (iter_round_lxor 8 (Z.lxor crc b)).
  f_equal. symmetry. apply (iter_round_shiftl 8).
Qed.

(** ** Injectivity: the rounds lose no information *)

Variable w : Z.
Hypothesis w_pos : 0 < w.
Hypothesis poly_range : 0 <= poly < 2 ^ w.
Hypothesis poly_top : Z.testbit poly (w - 1) = true.

Lemma testbit_above x n : 0 <= x < 2 ^ w → w <= n → Z.testbit x n = false.
Proof.
  intros Hx Hn. rewrite <- (Z.mod_small x (2 ^ w)) by lia.
  apply Z.mod_pow2_bits_high. lia.
Qed.

Lemma lxor_range x y : 0 <= x < 2 ^ w → 0 <= y < 2 ^ w → 0 <= Z.lxor x y < 2 ^ w.
Proof.
  intros Hx Hy.
  assert (0 <= Z.lxor x y) by (apply Z.lxor_nonneg; lia).
  split; [done|]. destruct (decide (Z.lxor x y = 0)) as [->|]; [lia|].
  apply Z.log2_lt_pow2; [lia|].
  eapply Z.le_lt_trans; [apply Z.log2_lxor; lia|].
  destruct (decide (x = 0)) as [->|], (decide (y = 0)) as [->|];
    apply Z.max_lub_lt; try (change (Z.log2 0) with 0; lia);
    apply Z.log2_lt_pow2; lia.
Qed.

Lemma shiftr1_range x : 0 <= x < 2 ^ w → 0 <= Z.shiftr x 1 < 2 ^ w.
Proof.
  intros. rewrite Z.shiftr_div_pow2 by lia. change (2 ^ 1) with 2.
  split; [apply Z.div_pos; lia|]. apply Z.div_lt_upper_bound; lia.
Qed.

Lemma crc_round_range x : 0 <= x < 2 ^ w → 0 <= crc_round poly x < 2 ^ w.
Proof.
  intros. rewrite crc_round_testbit. apply lxor_range; [by apply shiftr1_range|].
  destruct (Z.testbit x 0); lia.
Qed.

Lemma iter_round_range k x :
  0 <= x < 2 ^ w → 0 <= Nat.iter k (crc_round poly) x < 2 ^ w.
Proof.
  intros. induction k as [|k IH]; [done|]. by apply crc_round_range.
Qed.

(** The top bit of the result tells whether the polynomial was added. *)
Lemma crc_round_top x :
  0 <= x < 2 ^ w → Z.testbit (crc_round poly x) (w - 1) = Z.testbit x 0.
Proof.
  intros Hx. rewrite crc_round_testbit, Z.lxor_spec, Z.shiftr_spec by lia.
  rewrite (testbit_above x) by lia.
  destruct (Z.testbit x 0); simpl; [done|apply Z.bits_0].
Qed.

Lemma crc_round_inj x y :
  0 <= x < 2 ^ w → 0 <= y < 2 ^ w → crc_round poly x = crc_round poly y → x = y.
Proof.
  intros Hx Hy E.
  assert (Z.testbit x 0 = Z.testbit y 0) as E0
    by (rewrite <- !crc_round_top by done; by rewrite E).
  rewrite !crc_round_testbit, E0 in E.
  assert (Z.shiftr x 1 = Z.shiftr y 1) as Es.
  { apply (f_equal (λ z, Z.lxor z (if Z.testbit y 0 then poly else 0))) in E.
    by rewrite !Z.lxor_assoc, !Z.lxor_nilpotent, !Z.lxor_0_r in E. }
  apply Z.bits_inj'. intros n Hn. destruct (decide (n = 0)) as [->|]; [done|].
  apply (f_equal (λ z, Z.testbit z (n - 1))) in Es.
  rewrite !Z.shiftr_spec in Es by lia. by replace (n - 1 + 1) with n in Es by lia.
Qed.

Lemma iter_round_inj k x y :
  0 <= x < 2 ^ w → 0 <= y < 2 ^ w →
  Nat.iter k (crc_round poly) x = Nat.iter k (crc_round poly) y → x = y.
Proof.
  intros Hx Hy. induction k as [|k IH]; [done|]. simpl. intros E.
  apply IH. apply crc_round_inj; auto using iter_round_range.
Qed.

Lemma le_val_range_w l :
  bytes_ok l → 8 * Z.of_nat (length l) <= w → 0 <= le_val l < 2 ^ w.
Proof.
  intros Hl Hw. pose proof (le_val_range l Hl) as [? Hlt]. split; [done|].
  eapply Z.lt_le_trans; [exact Hlt|]. change 256 with (2 ^ 8).
  rewrite <- Z.pow_mul_r by lia. by apply Z.pow_le_mono_r; lia.
Qed.

Lemma foldl_ref_range l crc :
  8 <= w → bytes_ok l → 0 <= crc < 2 ^ w →
  0 <= foldl (crc_byte_ref poly) crc l < 2 ^ w.
Proof.
  intros Hw H. revert crc. induction H as [|b l Hb _ IH]; intros crc Hc; [done|].
  simpl. apply IH. apply iter_round_range. apply lxor_range; [done|].
  unfold in_u8 in Hb. split; [lia|]. eapply Z.lt_le_trans; [apply Hb|].
  change 256 with (2 ^ 8). by apply Z.pow_le_mono_r; lia.
Qed.

(** Two messages that agree outside a window of at most [w] bits and have the
    same remainder agree inside it too. *)
Lemma foldl_ref_window crc pre a b post :
  8 <= w → 0 <= crc < 2 ^ w →
  bytes_ok pre → bytes_ok a → bytes_ok b → bytes_ok post →
  length a = length b → 8 * Z.of_nat (length a) <= w →
  foldl (crc_byte_ref poly) crc (pre ++ a ++ post)
    = foldl (crc_byte_ref poly) crc (pre ++ b ++ post) → a = b.
Proof.
  intros Hw Hc Hpre Ha Hb Hpost Hlen Hfit E.
  rewrite !foldl_app in E.
  set (c := foldl (crc_byte_ref poly) crc pre) in *.
  assert (0 <= c < 2 ^ w) as Hc' by by apply foldl_ref_range.
  assert (0 <= foldl (crc_byte_ref poly) c a < 2 ^ w) by by apply foldl_ref_range.
  assert (0 <= foldl (crc_byte_ref poly) c b < 2 ^ w) by by apply foldl_ref_range.
  assert (foldl (crc_byte_ref poly) c a = foldl (crc_byte_ref poly) c b) as E'.
  { clear Hlen Hfit. revert E. generalize dependent (foldl (crc_byte_ref poly) c b).
    generalize dependent (foldl (crc_byte_ref poly) c a).
    induction Hpost as [|p post Hp _ IH]; intros x Hx y Hy E; [done|].
    simpl in E. assert (0 <= p < 2 ^ w).
    { unfold in_u8 in Hp. split; [lia|]. eapply Z.lt_le_trans; [apply Hp|].
      change 256 with (2 ^ 8). by apply Z.pow_le_mono_r; lia. }
    assert (crc_byte_ref poly x p = crc_byte_ref poly y p) as E2.
    { apply IH; [by apply iter_round_range, lxor_range..|done]. }
    apply iter_round_inj in E2; [|by apply lxor_range..].
    apply (f_equal (λ z, Z.lxor z p)) in E2.
    by rewrite !Z.lxor_assoc, !Z.lxor_nilpotent, !Z.lxor_0_r in E2. }
  rewrite !foldl_ref_division in E' by done. rewrite Hlen in E'.
  apply iter_round_inj in E'; [|apply lxor_range; [done|];
    apply le_val_range_w; [done|lia]..].
  apply (f_equal (Z.lxor c)) in E'.
  rewrite <- !Z.lxor_assoc, !Z.lxor_nilpotent, !Z.lxor_0_l in E'.
  rewrite <- (le_bytes_val a), <- (le_bytes_val b) by done. by rewrite Hlen, E'.
Qed.
End rounds.

Lemma CRC32_TABLE_eq : CRC32_TABLE = crc_table CRC32_POLYNOMIAL.
Proof. vm_compute. reflexivity. Qed.
Lemma CRC64_TABLE_eq : CRC64_TABLE = crc_table CRC64_POLYNOMIAL.
Proof. vm_compute. reflexivity. Qed.

Lemma lxor_mask_inj m x y : Z.lxor x m = Z.lxor y m → x = y.
Proof.
  intros E. apply (f_equal (λ z, Z.lxor z m)) in E.
  by rewrite !Z.lxor_assoc, !Z.lxor_nilpotent, !Z.lxor_0_r in E.
Qed.

(** ** The properties *)

(** C39.  The table-driven CRC-32 and CRC-64 compute, on every byte string, the
    remainder of the bit-serial division that defines them. *)
Theorem crc_table_driven_is_bit_serial (data : list Z) :
  bytes_ok data →
  crc32 data = crc_ref CRC32_POLYNOMIAL U32_MAX data ∧
  crc64 data = crc_ref CRC64_POLYNOMIAL U64_MAX data.
Proof.
  intros H. unfold crc32, crc64, crc_ref.
  rewrite CRC32_TABLE_eq, CRC64_TABLE_eq. by rewrite !foldl_update_ref.
Qed.

(**  Error detection: two byte strings that differ only inside a window of
    at most four consecutive bytes (eight for CRC-64) never have the same
    checksum. *)
Theorem crc_detects_window_errors (pre a b post : list Z) :
  bytes_ok pre → bytes_ok a → bytes_ok b → bytes_ok post → length a = length b →
  ((length a <= 4)%nat →
    crc32 (pre ++ a ++ post) = crc32 (pre ++ b ++ post) → a = b) ∧
  ((length a <= 8)%nat →
    crc64 (pre ++ a ++ post) = crc64 (pre ++ b ++ post) → a = b).
Proof.
  intros Hpre Ha Hb Hpost Hlen.
  assert (bytes_ok (pre ++ a ++ post)) by by repeat apply Forall_app_2.
  assert (bytes_ok (pre ++ b ++ post)) by by repeat apply Forall_app_2.
  unfold crc32, crc64. rewrite CRC32_TABLE_eq, CRC64_TABLE_eq.
  rewrite !foldl_update_ref by done. split; intros Hn E%lxor_mask_inj.
  - apply (foldl_ref_window CRC32_POLYNOMIAL 32) in E;
      first [done | unfold U32_MAX, CRC32_POLYNOMIAL; lia].
  - apply (foldl_ref_window CRC64_POLYNOMIAL 64) in E;
      first [done | unfold U64_MAX, CRC64_POLYNOMIAL; lia].
Qed.

Lemma crc32_range data : bytes_ok data → in_u32 (crc32 data).
Proof.
  intros. unfold crc32, in_u32. rewrite CRC32_TABLE_eq, foldl_update_ref by done.
  change 4294967296 with (2 ^ 32). apply lxor_range; [done| |unfold U32_MAX; lia].
  apply foldl_ref_range; first [done | unfold U32_MAX, CRC32_POLYNOMIAL; lia].
Qed.

Lemma crc64_range data : bytes_ok data → in_u64 (crc64 data).
Proof.
  intros. unfold crc64, in_u64. rewrite CRC64_TABLE_eq, foldl_update_ref by done.
  change 18446744073709551616 with (2 ^ 64).
  apply lxor_range; [done| |unfold U64_MAX; lia].
  apply foldl_ref_range; first [done | unfold U64_MAX, CRC64_POLYNOMIAL; lia].
Qed.

(** The standard check values of CRC-32/ISO-HDLC and CRC-64/XZ on the string
    "123456789". *)
Definition check_string : list Z := [49; 50; 51; 52; 53; 54; 55; 56; 57].

Example crc32_check : crc32 check_string = 0xCBF43926.
Proof. reflexivity. Qed.
Example crc64_check : crc64 check_string = 0x995DC9BBDF1939FA.
Proof. reflexivity. Qed.

Lemma crc_table_driven_is_bit_serial_witness :
  bytes_ok check_string ∧
  crc32 check_string = crc_ref CRC32_POLYNOMIAL U32_MAX check_string ∧
  crc64 check_string = crc_ref CRC64_POLYNOMIAL U64_MAX check_string.
Proof.
  assert (bytes_ok check_string) as H by by apply bytes_ok_forallb.
  split; [exact H|]. exact (crc_table_driven_is_bit_serial check_string H).
Defined.

Lemma crc_detects_window_errors_witness :
  (crc32 ([1; 2] ++ [3; 4] ++ [5]) =? crc32 ([1; 2] ++ [3; 5] ++ [5])) = false.
Proof.
  apply Z.eqb_neq. intros E.
  enough ([3; 4] = [3; 5]) by done.
  refine (proj1 (crc_detects_window_errors [1; 2] [3; 4] [3; 5] [5] _ _ _ _ _) _ E);
    try (by apply bytes_ok_forallb); simpl; lia.
Defined.
