(* ===== verification/RangeAllocator.v ===== *)
(** * The address-range allocator (src/kernel/src/allocators/range.rs)

    [RangeAllocator] hands out virtual address ranges.  It keeps a vector of
    free ranges that [coalesce] sorts and merges after every change.  The
    abstract state is the set of free addresses ([free_at]); the invariant
    ([inv]) says that the vector is the sorted list of the maximal free
    intervals, which makes it a normal form: two states with the same free
    addresses are equal. *)

From S2P Require Import Prelude.

Module Ranges.

Record Range := mkRange { start : Z; length : Z }.

#[export] Instance Range_eq_dec : EqDecision Range.
Proof. solve_decision. Defined.

Record RangeAllocator := mkAllocator { free : list Range }.

Definition new : RangeAllocator := mkAllocator [].

(** [Vec::sort_by_key(|r| r.start)]: the sort is stable, so equal keys keep
    their order. *)
Fixpoint insert_by_start (r : Range) (l : list Range) : list Range :=
  match l with
  | [] => [r]
  | x :: l' => if start r <=? start x then r :: l else x :: insert_by_start r l'
  end.
Definition sort_by_start (l : list Range) : list Range := foldr insert_by_start [] l.

(** The [while i + 1 < len] loop of [coalesce]: [cur] is [free[i]]. *)
Fixpoint merge_adjacent (cur : Range) (l : list Range) : list Range :=
  match l with
  | [] => [cur]
  | next :: l' =>
      if start cur ⊞ length cur =? start next
      then merge_adjacent (mkRange (start cur) (length cur ⊞ length next)) l'
      else cur :: merge_adjacent next l'
  end.

Definition coalesce (al : RangeAllocator) : RangeAllocator :=
  mkAllocator
    match sort_by_start (free al) with
    | [] => []
    | r :: l => merge_adjacent r l
    end.

Definition push (al : RangeAllocator) (r : Range) : RangeAllocator :=
  mkAllocator (free al ++ [r]).

(** The loop of [allocate] at index [i]: [pre] holds [free[..i]], [l] holds
    [free[i..]]. *)
Fixpoint allocate_from (pre l : list Range) (size align : Z) : option Z * RangeAllocator :=
  match l with
  | [] => (None, mkAllocator pre)
  | range :: l' =>
      let aligned_start := next_multiple_of (start range) align in
      if aligned_start ⊞ size >? start range ⊞ length range
      then allocate_from (pre ++ [range]) l' size align
      else
        let al := mkAllocator (pre ++ l') in
        let al := if aligned_start >? start range
                  then push al (mkRange (start range) (aligned_start ⊟ start range))
                  else al in
        let tail := (start range ⊞ length range) ⊟ (aligned_start ⊞ size) in
        let al := if negb (tail =? 0)
                  then push al (mkRange (aligned_start ⊞ size) tail)
                  else al in
        (Some aligned_start, coalesce al)
  end.

Definition allocate (al : RangeAllocator) (size align : Z) : option Z * RangeAllocator :=
  allocate_from [] (free al) size align.

Definition add_range (al : RangeAllocator) (s e : Z) : RangeAllocator :=
  coalesce (push al (mkRange s (e ⊟ s))).

Definition free_range (al : RangeAllocator) (base size : Z) : RangeAllocator :=
  coalesce (push al (mkRange base size)).

(** The first loop of [reserve]: [None] is [return false], [Some cursor] is the
    cursor when the loop ends or breaks. *)
Fixpoint reserve_cursor (l : list Range) (cursor e : Z) : option Z :=
  match l with
  | [] => Some cursor
  | range :: l' =>
      let range_end := start range ⊞ length range in
      if range_end <=? cursor then reserve_cursor l' cursor e
      else if start range >? cursor then None
      else if range_end >=? e then Some range_end
      else reserve_cursor l' range_end e
  end.

(** The second loop of [reserve], on one range. *)
Definition reserve_keep (s e : Z) (range : Range) : list Range :=
  let range_end := start range ⊞ length range in
  if (range_end <=? s) || (start range >=? e) then [range]
  else
    (if start range <? s then [mkRange (start range) (s ⊟ start range)] else []) ++
    (if range_end >? e then [mkRange e (range_end ⊟ e)] else []).

Definition reserve (al : RangeAllocator) (s size : Z) : bool * RangeAllocator :=
  match checked_add s size with
  | None => (false, al)
  | Some e =>
      if s =? e then (true, al)
      else
        let al := coalesce al in
        match reserve_cursor (free al) s e with
        | None => (false, al)
        | Some cursor =>
            if cursor <? e then (false, al)
            else (true, coalesce (mkAllocator (free al ≫= reserve_keep s e)))
        end
  end.

(** ** The abstract state *)

Definition r_end (r : Range) : Z := start r + length r.

(** A range that does not reach the end of the 64-bit address space. *)
Definition ok (r : Range) : Prop :=
  0 <= start r ∧ 0 < length r ∧ r_end r < 18446744073709551616.

Definition covers (r : Range) (a : Z) : Prop := start r <= a < r_end r.

Definition free_at (al : RangeAllocator) (a : Z) : Prop :=
  Exists (λ r, covers r a) (free al).

(** All of [a, a + size) is free. *)
Definition all_free (al : RangeAllocator) (a size : Z) : Prop :=
  ∀ x, a <= x < a + size → free_at al x.

Definition sep (r1 r2 : Range) : Prop := r_end r1 < start r2.
Definition apart (r1 r2 : Range) : Prop := r_end r1 <= start r2 ∨ r_end r2 <= start r1.

Definition inv (al : RangeAllocator) : Prop :=
  Forall ok (free al) ∧ StronglySorted sep (free al).

(** What [coalesce] needs of the vector it is given. *)
Definition pre_inv (l : list Range) : Prop :=
  Forall ok l ∧ StronglySorted apart l.

#[export] Instance apart_dec r1 r2 : Decision (apart r1 r2).
Proof. unfold apart. apply _. Defined.

Create HintDb range discriminated.
#[export] Hint Unfold covers r_end ok sep apart : range.
Ltac range_solve := autounfold with range in *; simpl in *; unfold_uint; lia.

(** ** Sorting *)

Lemma insert_by_start_perm r l : insert_by_start r l ≡ₚ r :: l.
Proof.
  induction l as [|x l IH]; simpl; [done|]. case_bool; [done|].
  rewrite IH. apply perm_swap.
Qed.

Lemma sort_by_start_perm l : sort_by_start l ≡ₚ l.
Proof.
  induction l as [|r l IH]; [done|]. simpl.
  by rewrite insert_by_start_perm, IH.
Qed.

Lemma sort_by_start_sorted l :
  StronglySorted (λ r1 r2, start r1 <= start r2) (sort_by_start l).
Proof.
  assert (∀ r l, StronglySorted (λ r1 r2, start r1 <= start r2) l →
    StronglySorted (λ r1 r2, start r1 <= start r2) (insert_by_start r l)) as Hins.
  { clear. intros r l. induction 1 as [|x l Hs IH Hx]; simpl; [repeat constructor|].
    case_bool; zb.
    - constructor; [by constructor|]. constructor; [done|].
      eapply Forall_impl; [exact Hx|]. simpl. lia.
    - constructor; [done|]. rewrite insert_by_start_perm.
      constructor; [lia|done]. }
  induction l as [|r l IH]; simpl; [constructor|by apply Hins].
Qed.

Lemma apart_perm l1 l2 : l1 ≡ₚ l2 → StronglySorted apart l1 → StronglySorted apart l2.
Proof.
  assert (∀ r1 r2, apart r1 r2 → apart r2 r1) as Hsym by (unfold apart; tauto).
  induction 1 as [|x l1 l2 Hp IH|x y l|]; auto.
  - inversion 1 as [|?? Hs Hx]; subst. constructor; [auto|by rewrite <- Hp].
  - inversion 1 as [|?? Hs Hx]; subst. inversion Hs as [|?? Hs' Hy]; subst.
    inversion Hx as [|?? Hxy Hx']; subst.
    constructor; [by constructor|]. constructor; auto.
Qed.

Lemma pre_inv_perm l1 l2 : l1 ≡ₚ l2 → pre_inv l1 → pre_inv l2.
Proof.
  intros Hp [H1 H2]. split; [by rewrite <- Hp|by eapply apart_perm].
Qed.

(** Sorted and pairwise apart: each range ends before the next starts. *)
Definition ordered (r1 r2 : Range) : Prop := r_end r1 <= start r2.
#[export] Hint Unfold ordered : range.

(** Ranges between [lo] and [hi], which may be the end of the address space. *)
Definition within (lo hi : Z) (r : Range) : Prop := lo <= start r ∧ 0 < length r ∧ r_end r <= hi.
#[export] Hint Unfold within : range.

Lemma ok_within r : ok r ↔ within 0 (18446744073709551616 - 1) r.
Proof. range_solve. Qed.

Lemma Forall_ok_within l : Forall ok l ↔ Forall (within 0 (18446744073709551616 - 1)) l.
Proof. split; intros H; (eapply Forall_impl; [exact H|]); intros r; apply ok_within. Qed.

Section within.
Variables lo hi : Z.
Hypothesis bounds : 0 <= lo ∧ hi <= 18446744073709551616 ∧ hi - lo < 18446744073709551616.

Lemma sort_ordered l :
  Forall (within lo hi) l → StronglySorted apart l → StronglySorted ordered (sort_by_start l).
Proof.
  intros Hok Hap. rewrite <- (sort_by_start_perm l) in Hok.
  apply (apart_perm _ (sort_by_start l)) in Hap; [|symmetry; apply sort_by_start_perm].
  pose proof (sort_by_start_sorted l) as Hs.
  induction Hs as [|r l' Hs IH Hr]; [constructor|].
  inversion Hok; inversion Hap; subst. constructor; [auto|].
  rewrite Forall_forall in *. intros x Hx.
  assert (within lo hi x) by eauto. assert (apart r x) by eauto. assert (start r <= start x) by eauto.
  range_solve.
Qed.

(** ** Merging *)

Lemma merge_adjacent_spec cur l :
  Forall (within lo hi) (cur :: l) → StronglySorted ordered (cur :: l) →
  let l' := merge_adjacent cur l in
  Forall (within lo hi) l' ∧ StronglySorted sep l' ∧
  (∀ x, Exists (λ r, covers r x) l' ↔ Exists (λ r, covers r x) (cur :: l)) ∧
  Forall (λ r, start cur <= start r) l'.
Proof.
  revert cur. induction l as [|n l IH]; intros cur Hok Hord; simpl.
  { split_and!; [done|repeat constructor|done|repeat constructor; lia]. }
  inversion Hok as [|?? Hc Hok']; subst. inversion Hok' as [|?? Hn Hok'']; subst.
  inversion Hord as [|?? Hord' Hcl]; subst. inversion Hcl as [|?? Hcn Hcl']; subst.
  inversion Hord' as [|?? Hord'' Hnl]; subst.
  rewrite (u64_small (start cur + length cur)) by range_solve.
  destruct (start cur + length cur =? start n) eqn:E; zb.
  - rewrite u64_small by range_solve.
    destruct (IH (mkRange (start cur) (length cur + length n))) as (H1 & H2 & H3 & H4).
    { constructor; [range_solve|done]. }
    { constructor; [done|]. eapply Forall_impl; [exact Hnl|]. intros r. range_solve. }
    split_and!; [done..| |done]. intros x. rewrite H3, !Exists_cons.
    assert (covers (mkRange (start cur) (length cur + length n)) x
      ↔ covers cur x ∨ covers n x) as -> by range_solve. tauto.
  - destruct (IH n Hok' Hord') as (H1 & H2 & H3 & H4).
    split_and!.
    + by constructor.
    + constructor; [done|]. eapply Forall_impl; [exact H4|].
      intros r. range_solve.
    + intros x. rewrite !(Exists_cons _ cur), H3. done.
    + constructor; [lia|]. eapply Forall_impl; [exact H4|].
      intros r. range_solve.
Qed.

Lemma coalesce_within l :
  Forall (within lo hi) l → StronglySorted apart l →
  Forall (within lo hi) (free (coalesce (mkAllocator l))) ∧ StronglySorted sep (free (coalesce (mkAllocator l))) ∧
  ∀ x, free_at (coalesce (mkAllocator l)) x ↔ Exists (λ r, covers r x) l.
Proof.
  intros Hok Hap. pose proof (sort_ordered l Hok Hap) as Hord. rewrite <- (sort_by_start_perm l) in Hok.
  assert (∀ x, Exists (λ r, covers r x) (sort_by_start l) ↔ Exists (λ r, covers r x) l)
    as Hex by (intros x; by rewrite sort_by_start_perm).
  unfold free_at, coalesce. simpl.
  destruct (sort_by_start l) as [|r l'].
  { split_and!; [repeat constructor..|]. intros x. by rewrite <- Hex. }
  destruct (merge_adjacent_spec r l' Hok Hord) as (? & ? & H3 & _).
  split_and!; [done..|]. intros x. by rewrite H3.
Qed.
End within.

Lemma coalesce_spec l :
  pre_inv l → inv (coalesce (mkAllocator l)) ∧
  ∀ x, free_at (coalesce (mkAllocator l)) x ↔ Exists (λ r, covers r x) l.
Proof.
  intros [Hok%Forall_ok_within Hap].
  destruct (coalesce_within 0 (18446744073709551616 - 1) ltac:(lia) l Hok Hap) as (H1%Forall_ok_within & H2 & H3). by split_and!.
Qed.

(** ** Facts about the invariant *)

Lemma sep_apart_sorted l : StronglySorted sep l → StronglySorted apart l.
Proof.
  apply StronglySorted_impl. intros ???. range_solve.
Qed.

Lemma inv_pre_inv al : inv al → pre_inv (free al).
Proof. intros [? ?]. split; [done|by apply sep_apart_sorted]. Qed.

Lemma inv_new : inv new.
Proof. repeat constructor. Qed.

(** A pair of ranges of the vector is the same range or separated. *)
Lemma sorted_pair l r1 r2 :
  StronglySorted sep l → r1 ∈ l → r2 ∈ l → r1 = r2 ∨ sep r1 r2 ∨ sep r2 r1.
Proof.
  induction 1 as [|r l Hs IH Hr]; intros H1 H2; [by apply not_elem_of_nil in H1|].
  rewrite Forall_forall in Hr. apply elem_of_cons in H1, H2.
  destruct H1 as [->|H1], H2 as [->|H2]; auto.
Qed.

(** A free interval lies inside one range of the vector. *)
Lemma all_free_one_range al a size :
  inv al → 0 < size → all_free al a size →
  ∃ r, r ∈ free al ∧ start r <= a ∧ a + size <= r_end r.
Proof.
  intros [Hok Hs] Hsz Hfree.
  assert (free_at al a) as (r & Hr & Hra)%Exists_exists by (apply Hfree; lia).
  exists r. split; [done|]. split; [range_solve|].
  destruct (decide (a + size <= r_end r)) as [|Hgt]; [done|]. exfalso.
  assert (free_at al (r_end r)) as (r' & Hr' & Hc)%Exists_exists
    by (apply Hfree; range_solve).
  destruct (sorted_pair _ r r' Hs Hr Hr') as [->|[H|H]]; range_solve.
Qed.

Lemma sep_covered r l x :
  Forall (sep r) l → Exists (λ r', covers r' x) l → r_end r < x.
Proof.
  intros Hs (r' & Hr' & Hx)%Exists_exists. rewrite Forall_forall in Hs.
  specialize (Hs r' Hr'). range_solve.
Qed.

(** The first range of a vector is the least maximal free interval. *)
Lemma head_least r1 l1 r2 l2 :
  ok r1 → ok r2 → Forall (sep r1) l1 → Forall (sep r2) l2 →
  (∀ x, Exists (λ r, covers r x) (r1 :: l1) → Exists (λ r, covers r x) (r2 :: l2)) →
  start r2 <= start r1 ∧ (start r1 = start r2 → r_end r1 <= r_end r2).
Proof.
  intros H1 H2 Hs1 Hs2 Hsub. split.
  - destruct (proj1 (Exists_cons _ _ _) (Hsub (start r1) ltac:(left; range_solve)))
      as [Hc|Hc]; [range_solve|].
    apply (sep_covered r2) in Hc; [range_solve|done].
  - intros E. destruct (decide (r_end r1 <= r_end r2)) as [|Hgt]; [done|]. exfalso.
    destruct (proj1 (Exists_cons _ _ _) (Hsub (r_end r2) ltac:(left; range_solve)))
      as [Hc|Hc]; [range_solve|].
    apply (sep_covered r2) in Hc; [range_solve|done].
Qed.

(** The vector is determined by the set of free addresses. *)
Lemma inv_canonical al1 al2 :
  inv al1 → inv al2 → (∀ x, free_at al1 x ↔ free_at al2 x) → al1 = al2.
Proof.
  destruct al1 as [l1], al2 as [l2]. unfold inv, free_at. simpl.
  intros [Hok1 Hs1] [Hok2 Hs2] Hfree. f_equal.
  revert l2 Hok2 Hs2 Hfree.
  induction Hs1 as [|r1 l1 Hs1 IH Hr1]; intros l2 Hok2 Hs2 Hfree;
    destruct l2 as [|r2 l2]; [done|..].
  { exfalso. inversion Hok2; subst. apply (Exists_nil (λ r, covers r (start r2))).
    apply Hfree. left. range_solve. }
  { exfalso. inversion Hok1; subst. apply (Exists_nil (λ r, covers r (start r1))).
    apply Hfree. left. range_solve. }
  inversion Hok1 as [|?? Ho1 Hok1']; inversion Hok2 as [|?? Ho2 Hok2']; subst.
  inversion Hs2 as [|?? Hs2' Hr2]; subst.
  destruct (head_least r1 l1 r2 l2) as [HA HB]; [done..|intros x; apply Hfree|].
  destruct (head_least r2 l2 r1 l1) as [HC HD]; [done..|intros x; apply Hfree|].
  assert (r1 = r2) as ->. { destruct r1, r2. f_equal; range_solve. }
  f_equal. apply IH; [done..|]. intros x. split; intros Hx.
  - pose proof (sep_covered _ _ _ Hr1 Hx).
    assert (Exists (λ r, covers r x) (r2 :: l2)) as [Hc|?]%Exists_cons
      by (apply Hfree; by right); [range_solve|done].
  - pose proof (sep_covered _ _ _ Hr2 Hx).
    assert (Exists (λ r, covers r x) (r2 :: l1)) as [Hc|?]%Exists_cons
      by (apply Hfree; by right); [range_solve|done].
Qed.

(** ** Replacing a range by pieces of it *)

Lemma carve r rest pieces :
  pre_inv (r :: rest) → Forall ok pieces → StronglySorted apart pieces →
  Forall (λ p, start r <= start p ∧ r_end p <= r_end r) pieces →
  pre_inv (rest ++ pieces).
Proof.
  intros [Hok Hap] Hp Hs Hin. inversion Hok; inversion Hap as [|?? Hs' Hr]; subst.
  split; [by apply Forall_app|]. apply StronglySorted_app_iff.
  split_and!; [done..|]. intros x p Hx Hpp. rewrite Forall_forall in Hr, Hin.
  specialize (Hr x Hx). specialize (Hin p Hpp). range_solve.
Qed.

Lemma carve_covers r rest pieces x P :
  pre_inv (r :: rest) →
  (Exists (λ p, covers p x) pieces ↔ covers r x ∧ ¬ P) → (P → covers r x) →
  Exists (λ p, covers p x) (rest ++ pieces) ↔
    Exists (λ p, covers p x) (r :: rest) ∧ ¬ P.
Proof.
  intros [Hok Hap] Hp HP. rewrite Exists_app, Exists_cons, Hp.
  assert (Exists (λ p, covers p x) rest → ¬ covers r x).
  { inversion Hap as [|?? _ Hr]; subst. rewrite Forall_forall in Hr.
    intros (q & Hq & Hqx)%Exists_exists Hrx. specialize (Hr q Hq). range_solve. }
  tauto.
Qed.

(** ** [allocate] *)

(** An aligned block of [size] bytes fits in [r]; the additions the code does
    on [r] do not wrap. *)
Definition fits (size align : Z) (r : Range) : Prop :=
  align_up (start r) align + size <= r_end r.
Definition no_wrap (size align : Z) (r : Range) : Prop :=
  align_up (start r) align + size < 18446744073709551616.

Lemma align_up_bounds r align :
  0 < align → start r <= align_up (start r) align < start r + align.
Proof. intros H. by apply align_up_spec. Qed.

(** The pieces left of [r] when [a, a + size) is taken from it. *)
Definition pieces (r : Range) (a size : Z) : list Range :=
  (if a >? start r then [mkRange (start r) (a - start r)] else []) ++
  (if negb (r_end r - (a + size) =? 0)
   then [mkRange (a + size) (r_end r - (a + size))] else []).

Lemma pieces_spec r a size :
  ok r → 0 < size → start r <= a → a + size <= r_end r →
  Forall ok (pieces r a size) ∧ StronglySorted apart (pieces r a size) ∧
  Forall (λ p, start r <= start p ∧ r_end p <= r_end r) (pieces r a size) ∧
  ∀ x, Exists (λ p, covers p x) (pieces r a size) ↔
    covers r x ∧ ¬ (a <= x < a + size).
Proof.
  intros Hr Hsz Ha He. unfold pieces.
  destruct (a >? start r) eqn:E1; destruct (r_end r - (a + size) =? 0) eqn:E2; zb;
    rewrite ?Z.gtb_ltb in E1; zb; simpl; split_and!;
    repeat first [apply Forall_cons_2 | apply Forall_nil_2 | apply SSorted_cons
                 | apply SSorted_nil];
    try range_solve; intros x; rewrite ?Exists_cons, ?Exists_nil; range_solve.
Qed.

Lemma allocate_from_hit pre range l size align :
  ok range → 0 < size → 0 < align → fits size align range →
  allocate_from pre (range :: l) size align =
    (Some (align_up (start range) align),
     coalesce (mkAllocator
       ((pre ++ l) ++ pieces range (align_up (start range) align) size))).
Proof.
  intros Hr Hsz Hal Hf. pose proof (align_up_bounds range align Hal) as Hb.
  unfold fits in *. cbn [allocate_from].
  rewrite next_multiple_of_align by range_solve.
  set (a := align_up (start range) align) in *.
  rewrite !(u64_small (a + size)), !(u64_small (start range + length range))
    by range_solve.
  rewrite !u64_small by range_solve.
  destruct (a + size >? start range + length range) eqn:E;
    rewrite Z.gtb_ltb in E; zb; [range_solve|].
  unfold pieces, push, r_end. simpl.
  destruct (a >? start range); simpl;
    destruct (negb (start range + length range - (a + size) =? 0)); simpl;
    by rewrite ?app_nil_r, <- ?app_assoc.
Qed.

Lemma allocate_from_miss pre range l size align :
  ok range → 0 < size → 0 < align → no_wrap size align range →
  ¬ fits size align range →
  allocate_from pre (range :: l) size align =
    allocate_from (pre ++ [range]) l size align.
Proof.
  intros Hr Hsz Hal Hw Hf. pose proof (align_up_bounds range align Hal) as Hb.
  unfold no_wrap, fits in *. cbn [allocate_from].
  rewrite next_multiple_of_align by range_solve.
  rewrite !(u64_small (align_up _ _ + size)), !(u64_small (start range + length range))
    by range_solve.
  destruct (_ >? start range + length range) eqn:E;
    rewrite Z.gtb_ltb in E; zb; [done|range_solve].
Qed.

#[export] Instance fits_dec size align r : Decision (fits size align r).
Proof. unfold fits. apply _. Defined.

(** A block inside a range shows that the range fits one. *)
Lemma fits_least r a size align :
  0 < align → (align | a) → start r <= a → a + size <= r_end r →
  fits size align r ∧ align_up (start r) align <= a.
Proof.
  intros Hal [k ->] Ha He.
  assert (align_up (start r) align <= k * align).
  { unfold align_up. apply Z.mul_le_mono_nonneg_r; [lia|].
    pose proof (div_ceil_bounds (start r) align Hal). nia. }
  split; [unfold fits; lia|done].
Qed.

#[export] Instance no_wrap_dec size align r : Decision (no_wrap size align r).
Proof. unfold no_wrap. apply _. Defined.

Lemma align_up_mono a b align : 0 < align → a <= b → align_up a align <= align_up b align.
Proof.
  intros Hal Hab. destruct (fits_least (mkRange a (align_up b align - a)) (align_up b align) 0 align) as [_ H]; [done|..|exact H].
  - by apply align_up_spec.
  - simpl. pose proof (align_up_bounds (mkRange b 0) align Hal). simpl in *. lia.
  - unfold r_end. simpl. lia.
Qed.

(** From a range that wraps on, no range fits a block. *)
Lemma wrapping_suffix range l size align :
  0 < align → Forall ok (range :: l) → StronglySorted sep (range :: l) → ¬ no_wrap size align range →
  Forall (λ r, ¬ fits size align r) (range :: l).
Proof.
  intros Hal Hok Hs Hw. inversion Hs as [|?? _ Hsep]; subst. inversion Hok as [|?? Ho Hok']; subst.
  rewrite Forall_forall in Hok', Hsep. apply Forall_cons_2; [unfold fits, no_wrap, ok in *; lia|].
  apply Forall_forall. intros r Hr. specialize (Hok' r Hr). specialize (Hsep r Hr).
  pose proof (align_up_mono (start range) (start r) align Hal ltac:(range_solve)).
  unfold fits, no_wrap, ok in *. lia.
Qed.

(** Where no range fits a block, none is given unless a range wraps. *)
Lemma allocate_from_none pre l size align :
  Forall ok l → 0 < size → 0 < align → Forall (λ r, ¬ fits size align r) l →
  match allocate_from pre l size align with
  | (Some _, _) => Exists (λ r, ¬ no_wrap size align r) l
  | (None, al') => al' = mkAllocator (pre ++ l)
  end.
Proof.
  intros Hok Hsz Hal. revert pre. induction Hok as [|range l Hr _ IH]; intros pre Hf; [by rewrite app_nil_r|].
  inversion Hf as [|?? Hf1 Hf2]; subst. specialize (IH (pre ++ [range]) Hf2). rewrite <- app_assoc in IH.
  destruct (decide (no_wrap size align range)) as [Hw|Hw].
  - rewrite allocate_from_miss by done. destruct (allocate_from _ l _ _) as [[]]; [by right|done].
  - cbn [allocate_from]. destruct (_ >? _); [|by left]. destruct (allocate_from _ l _ _) as [[]]; [by right|done].
Qed.

(** What taking [size] bytes at [a] does. *)
Definition taken (al al' : RangeAllocator) (a size align : Z) : Prop :=
  (align | a) ∧ all_free al a size ∧ inv al' ∧
  (∀ x, free_at al' x ↔ free_at al x ∧ ¬ (a <= x < a + size)) ∧
  (∀ a', (align | a') → all_free al a' size → a <= a').

Lemma allocate_hit_taken pre range l size align :
  inv (mkAllocator (pre ++ range :: l)) → 0 < size → 0 < align →
  Forall (λ r, ¬ fits size align r) pre → fits size align range →
  taken (mkAllocator (pre ++ range :: l))
    (coalesce (mkAllocator ((pre ++ l) ++ pieces range (align_up (start range) align) size)))
    (align_up (start range) align) size align.
Proof.
  intros Hinv Hsz Hal Hpre Hf.
  assert (ok range) as Hr by (destruct Hinv as [Hok _]; simpl in Hok; rewrite Forall_app, Forall_cons in Hok; tauto).
  set (a := align_up (start range) align).
  pose proof (align_up_bounds range align Hal) as Hb. fold a in Hb.
  unfold fits in Hf. fold a in Hf.
  destruct (pieces_spec range a size) as (P1 & P2 & P3 & P4); [range_solve..|].
  pose proof (inv_pre_inv _ Hinv) as Hpi. simpl in Hpi.
  assert (pre ++ range :: l ≡ₚ range :: (pre ++ l)) as Hperm
    by (symmetry; apply Permutation_middle).
  pose proof (pre_inv_perm _ _ Hperm Hpi) as Hpi'.
  destruct (coalesce_spec ((pre ++ l) ++ pieces range a size)) as [Hi Hc];
    [by eapply carve|].
  split_and!.
  - by apply align_up_spec.
  - intros x Hx. unfold free_at. simpl. rewrite Hperm. left. range_solve.
  - done.
  - intros x. rewrite Hc. unfold free_at. simpl.
    rewrite (carve_covers range _ _ x (a <= x < a + size)); [by rewrite Hperm|done|..].
    + apply P4.
    + range_solve.
  - intros a' Ha' Hfree.
    destruct (all_free_one_range _ _ _ Hinv Hsz Hfree) as (r & Hr' & H1 & H2).
    destruct (fits_least r a' size align) as [Hf' Hle]; [done..|].
    destruct Hinv as [_ Hs]. simpl in *. apply StronglySorted_app_iff in Hs as (_ & Hs & _).
    apply elem_of_app in Hr' as [Hr'|[->|Hr']%elem_of_cons].
    + exfalso. rewrite Forall_forall in Hpre. by eapply Hpre.
    + done.
    + inversion Hs as [|?? _ Hsep]; subst. rewrite Forall_forall in Hsep.
      specialize (Hsep r Hr'). range_solve.
Qed.

Lemma allocate_from_spec pre l size align :
  inv (mkAllocator (pre ++ l)) → 0 < size → 0 < align → Forall (λ r, ¬ fits size align r) pre →
  match allocate_from pre l size align with
  | (Some a, al') =>
      taken (mkAllocator (pre ++ l)) al' a size align ∨
      Exists (λ r, ¬ no_wrap size align r) (pre ++ l) ∧ Forall (λ r, ¬ fits size align r) (pre ++ l)
  | (None, al') =>
      al' = mkAllocator (pre ++ l) ∧ Forall (λ r, ¬ fits size align r) (pre ++ l)
  end.
Proof.
  revert pre. induction l as [|range l IH]; intros pre Hinv Hsz Hal Hpre.
  { simpl. by rewrite app_nil_r in *. }
  destruct (Hinv) as [Hok Hs]. simpl in Hok, Hs.
  apply Forall_app in Hok as [_ Hok]. apply StronglySorted_app_iff in Hs as (_ & Hs & _).
  assert (ok range) as Hr by by inversion Hok.
  destruct (decide (fits size align range)) as [Hf|Hf].
  { rewrite allocate_from_hit by done. left. by apply allocate_hit_taken. }
  destruct (decide (no_wrap size align range)) as [Hw|Hw].
  - rewrite allocate_from_miss by done.
    specialize (IH (pre ++ [range])). rewrite <- app_assoc in IH. simpl in IH.
    apply IH; [done..|]. apply Forall_app. split; [done|by constructor].
  - pose proof (wrapping_suffix range l size align Hal Hok Hs Hw) as Hnf.
    pose proof (allocate_from_none pre (range :: l) size align Hok Hsz Hal Hnf) as Hn.
    assert (Forall (λ r, ¬ fits size align r) (pre ++ range :: l)) by by apply Forall_app.
    destruct (allocate_from pre (range :: l) size align) as [[a|] al']; [|done].
    right. split; [|done]. apply Exists_app. by right.
Qed.

Lemma coalesce_id al : inv al → coalesce al = al.
Proof.
  intros Hinv. destruct al as [l].
  destruct (coalesce_spec l (inv_pre_inv _ Hinv)) as [Hi Hc].
  by apply inv_canonical.
Qed.

(** ** [free] and [add_range] *)

Lemma push_within lo hi al base size :
  0 <= lo → hi <= 18446744073709551616 → hi - lo < 18446744073709551616 →
  Forall (within lo hi) (free al) → StronglySorted sep (free al) →
  lo <= base → 0 < size → base + size <= hi →
  (∀ x, base <= x < base + size → ¬ free_at al x) →
  let al' := coalesce (push al (mkRange base size)) in
  Forall (within lo hi) (free al') ∧ StronglySorted sep (free al') ∧
  ∀ x, free_at al' x ↔ free_at al x ∨ base <= x < base + size.
Proof.
  intros H0 H1 H2 Hok Hs Hb Hsz Hlt Hdisj.
  destruct (coalesce_within lo hi ltac:(lia) (free al ++ [mkRange base size])) as (Hi1 & Hi2 & Hc).
  - apply Forall_app. split; [done|]. constructor; [range_solve|done].
  - apply StronglySorted_app_iff. split_and!; [by apply sep_apart_sorted|repeat constructor|].
    intros r p Hr ->%list_elem_of_singleton.
    assert (within lo hi r) by (rewrite Forall_forall in Hok; auto).
    destruct (decide (apart r (mkRange base size))) as [|Hna]; [done|]. exfalso.
    apply (Hdisj (Z.max base (start r))); [range_solve|].
    apply Exists_exists. exists r. split; [done|]. range_solve.
  - split_and!; [done..|]. intros x. unfold push. rewrite Hc, Exists_app, Exists_cons, Exists_nil.
    unfold free_at, covers, r_end. simpl. tauto.
Qed.

Lemma push_spec al base size :
  inv al → 0 <= base → 0 < size → base + size < 18446744073709551616 →
  (∀ x, base <= x < base + size → ¬ free_at al x) →
  inv (coalesce (push al (mkRange base size))) ∧
  ∀ x, free_at (coalesce (push al (mkRange base size))) x ↔
    free_at al x ∨ base <= x < base + size.
Proof.
  intros [Hok%Forall_ok_within Hs] Hb Hsz Hlt Hdisj.
  destruct (push_within 0 (18446744073709551616 - 1) al base size) as (H1%Forall_ok_within & H2 & H3); [lia|lia|lia|done|done|lia..|done|].
  by split_and!.
Qed.

Lemma add_range_free al s e :
  in_u64 s → s <= e → in_u64 e → add_range al s e = free_range al s (e - s).
Proof. intros. unfold add_range, free_range. rewrite u64_small; [done|range_solve]. Qed.

(** ** [reserve] *)

Lemma reserve_cursor_spec l cursor e :
  Forall ok l → StronglySorted sep l → cursor < e →
  match reserve_cursor l cursor e with
  | None => ∃ x, cursor <= x < e ∧ ¬ Exists (λ r, covers r x) l
  | Some c =>
      (e <= c → ∀ x, cursor <= x < e → Exists (λ r, covers r x) l) ∧
      (c < e → cursor <= c ∧ ¬ Exists (λ r, covers r c) l)
  end.
Proof.
  intros Hok Hs. revert cursor. induction Hs as [|r l Hs IH Hr]; intros cursor Hlt; simpl.
  { split; [lia|]. intros _. split; [lia|]. intros []%Exists_nil. }
  inversion Hok as [|?? Ho Hok']; subst. rewrite u64_small by range_solve.
  destruct (start r + length r <=? cursor) eqn:E1; zb.
  { specialize (IH Hok' cursor Hlt). destruct (reserve_cursor l cursor e) as [c|].
    - destruct IH as [IH1 IH2]. split; [intros; right; auto|].
      intros Hc. destruct (IH2 Hc) as [? Hn]. split; [done|].
      intros [Hc'|?]%Exists_cons; [range_solve|done].
    - destruct IH as (x & Hx & Hn). exists x. split; [done|].
      intros [Hc'|?]%Exists_cons; [range_solve|done]. }
  destruct (start r >? cursor) eqn:E2; rewrite Z.gtb_ltb in E2; zb.
  { exists cursor. split; [lia|]. intros [Hc|Hc]%Exists_cons; [range_solve|].
    apply (sep_covered r) in Hc; [range_solve|done]. }
  destruct (start r + length r >=? e) eqn:E3; rewrite Z.geb_leb in E3; zb.
  { split; [|lia]. intros _ x Hx. left. range_solve. }
  specialize (IH Hok' (start r + length r) ltac:(lia)).
  destruct (reserve_cursor l (start r + length r) e) as [c|].
  - destruct IH as [IH1 IH2]. split.
    + intros Hc x Hx. destruct (decide (x < start r + length r)).
      * left. range_solve.
      * right. apply IH1; lia.
    + intros Hc. destruct (IH2 Hc) as [? Hn]. split; [lia|].
      intros [Hc'|?]%Exists_cons; [range_solve|done].
  - destruct IH as (x & Hx & Hn). exists x. split; [lia|].
    intros [Hc'|?]%Exists_cons; [range_solve|done].
Qed.

Lemma reserve_keep_spec s e r :
  ok r → s < e → e < 18446744073709551616 → 0 <= s →
  Forall ok (reserve_keep s e r) ∧ StronglySorted sep (reserve_keep s e r) ∧
  Forall (λ p, start r <= start p ∧ r_end p <= r_end r) (reserve_keep s e r) ∧
  ∀ x, Exists (λ p, covers p x) (reserve_keep s e r) ↔ covers r x ∧ ¬ (s <= x < e).
Proof.
  intros Hr Hse He Hs. unfold reserve_keep.
  rewrite u64_small by range_solve.
  destruct (start r + length r <=? s) eqn:E1; destruct (start r >=? e) eqn:E2;
    rewrite Z.geb_leb in E2; zb; simpl;
    [| | |destruct (start r <? s) eqn:E3; destruct (start r + length r >? e) eqn:E4;
      rewrite Z.gtb_ltb in E4; zb; simpl];
    split_and!;
    repeat first [apply Forall_cons_2 | apply Forall_nil_2 | apply SSorted_cons
                 | apply SSorted_nil];
    try (rewrite ?u64_small by range_solve; range_solve);
    intros x; rewrite ?Exists_cons, ?Exists_nil, ?u64_small by range_solve; range_solve.
Qed.

Lemma keep_sorted (f : Range → list Range) l :
  Forall ok l → StronglySorted sep l →
  (∀ r, ok r → Forall ok (f r) ∧ StronglySorted sep (f r) ∧
    Forall (λ p, start r <= start p ∧ r_end p <= r_end r) (f r)) →
  Forall ok (l ≫= f) ∧ StronglySorted sep (l ≫= f).
Proof.
  intros Hok Hs Hf. induction Hs as [|r l Hs IH Hr]; [repeat constructor|].
  inversion Hok as [|?? Ho Hok']; subst. destruct (IH Hok') as [IH1 IH2].
  destruct (Hf r Ho) as (F1 & F2 & F3). cbn [mbind list_bind].
  split; [by apply Forall_app|]. apply StronglySorted_app_iff. split_and!; [done..|].
  intros p q Hp (r' & Hq & Hr')%list_elem_of_bind.
  rewrite Forall_forall in Hr, F3, Hok'. destruct (Hf r' (Hok' r' Hr')) as (_ & _ & F3').
  rewrite Forall_forall in F3'.
  specialize (Hr r' Hr'). specialize (F3 p Hp). specialize (F3' q Hq). range_solve.
Qed.

(** ** What the operations do *)

Lemma no_fit_no_block al size align :
  inv al → 0 < size → 0 < align → Forall (λ r, ¬ fits size align r) (free al) →
  ∀ a, (align | a) → ¬ all_free al a size.
Proof.
  intros Hinv Hsz Hal H a Ha Hfree.
  destruct (all_free_one_range _ _ _ Hinv Hsz Hfree) as (r & Hr & H1 & H2).
  destruct (fits_least r a size align) as [Hf _]; [done..|].
  rewrite Forall_forall in H. by eapply H.
Qed.

Lemma allocate_total (al : RangeAllocator) (size align : Z) :
  inv al → 0 < size → 0 < align →
  match allocate al size align with
  | (Some a, al') =>
      taken al al' a size align ∨
      Exists (λ r, ¬ no_wrap size align r) (free al) ∧ ∀ a', (align | a') → ¬ all_free al a' size
  | (None, al') => al' = al ∧ ∀ a', (align | a') → ¬ all_free al a' size
  end.
Proof.
  intros Hinv Hsz Hal. destruct al as [l].
  pose proof (allocate_from_spec [] l size align Hinv Hsz Hal (Forall_nil_2 _)) as H.
  unfold allocate. simpl in *. destruct (allocate_from [] l size align) as [[a|] al'].
  - destruct H as [H|[H1 H2]]; [by left|right]. split; [done|]. by apply no_fit_no_block.
  - destruct H as [-> H]. split; [done|]. by apply no_fit_no_block.
Qed.

Lemma allocate_spec (al : RangeAllocator) (size align : Z) :
  inv al → 0 < size → 0 < align → Forall (no_wrap size align) (free al) →
  match allocate al size align with
  | (Some a, al') => taken al al' a size align
  | (None, al') => al' = al ∧ ∀ a', (align | a') → ¬ all_free al a' size
  end.
Proof.
  intros Hinv Hsz Hal Hnw. pose proof (allocate_total al size align Hinv Hsz Hal) as H.
  destruct (allocate al size align) as [[a|] al']; [|done]. destruct H as [H|[H _]]; [done|].
  exfalso. rewrite Exists_exists in H. destruct H as (r & Hr & Hw). rewrite Forall_forall in Hnw. by apply Hw, Hnw.
Qed.

Lemma reserve_spec (al : RangeAllocator) (s size : Z) :
  inv al → in_u64 s → 0 <= size →
  let '(b, al') := reserve al s size in
  inv al' ∧ (b = true ↔ all_free al s size) ∧
  ∀ x, free_at al' x ↔ free_at al x ∧ ¬ (b = true ∧ s <= x < s + size).
Proof.
  intros Hinv Hs Hsz. unfold reserve, checked_add.
  destruct (s + size <? 18446744073709551616) eqn:E; zb.
  2:{ split; [done|]. split; [|intuition done]. split; [done|]. intros Hfree. exfalso.
      destruct (all_free_one_range al s size Hinv ltac:(range_solve) Hfree) as (r & Hr & _ & He).
      destruct Hinv as [Hok _]. rewrite Forall_forall in Hok. specialize (Hok r Hr). range_solve. }
  destruct (s =? s + size) eqn:E0; zb.
  { split; [done|]. split; [split; [|done]|].
    - intros _ x Hx. lia.
    - intros x. split; [|tauto]. intros Hx. split; [done|]. lia. }
  rewrite coalesce_id by done. destruct Hinv as [Hok Hss].
  pose proof (reserve_cursor_spec (free al) s (s + size) Hok Hss ltac:(lia)) as Hcur.
  destruct (reserve_cursor (free al) s (s + size)) as [c|].
  2:{ split; [done|]. split; [|intuition done]. split; [done|].
      destruct Hcur as (x & Hx & Hn). intros Hf. exfalso. by apply Hn, Hf. }
  destruct Hcur as [H1 H2]. destruct (c <? s + size) eqn:Ec; zb.
  { split; [done|]. split; [|intuition done]. split; [done|].
    intros Hf. exfalso. destruct (H2 Ec) as [? Hn]. apply Hn, Hf. lia. }
  assert (∀ r, ok r → _) as Hk
    by exact (λ r Hr, reserve_keep_spec s (s + size) r Hr ltac:(lia) E ltac:(range_solve)).
  destruct (keep_sorted (reserve_keep s (s + size)) (free al) Hok Hss) as [K1 K2].
  { intros r Hr. destruct (Hk r Hr) as (? & ? & ? & _). done. }
  destruct (coalesce_spec (free al ≫= reserve_keep s (s + size))) as [Hi Hc].
  { split; [done|by apply sep_apart_sorted]. }
  split; [done|]. split; [split; [|done]; intros _ x Hx; by apply H1|].
  intros x. rewrite Hc. unfold free_at. rewrite !Exists_exists.
  rewrite Forall_forall in Hok. split.
  - intros (p & (r & Hp & Hr)%list_elem_of_bind & Hx).
    destruct (Hk r (Hok r Hr)) as (_ & _ & _ & K).
    destruct (proj1 (K x)) as [? ?]; [apply Exists_exists; eauto|].
    split; [eauto|tauto].
  - intros [(r & Hr & Hx) Hn]. destruct (Hk r (Hok r Hr)) as (_ & _ & _ & K).
    destruct (proj1 (Exists_exists _ _) (proj2 (K x) ltac:(tauto))) as (p & Hp & Hpx).
    exists p. split; [|done]. apply list_elem_of_bind. eauto.
Qed.

Lemma free_taken (al al' : RangeAllocator) (a size : Z) :
  inv al → inv al' → 0 < size → all_free al a size →
  (∀ x, free_at al' x ↔ free_at al x ∧ ¬ (a <= x < a + size)) → free_range al' a size = al.
Proof.
  intros Hinv Hi Hsz Hf Hx.
  destruct (all_free_one_range _ _ _ Hinv Hsz Hf) as (r & Hr & H1 & H2).
  assert (ok r) by (destruct Hinv as [Hok _]; rewrite Forall_forall in Hok; auto).
  destruct (push_spec al' a size) as [Hpi Hpx]; [done|range_solve..| |].
  { intros x Hx'. rewrite Hx. tauto. }
  apply inv_canonical; [done..|]. intros x. unfold free_range. rewrite Hpx, Hx.
  destruct (decide (a <= x < a + size)); [|tauto].
  split; [intros _; by apply Hf|]. tauto.
Qed.


(** ** The properties *)


(** C12. [reserve] succeeds exactly when every byte of the requested region is
    free, and then removes exactly that region; a refused request leaves the
    free set as it was. *)
Theorem reserve_exact (al : RangeAllocator) (s size : Z) :
  inv al → in_u64 s → 0 <= size →
  let '(b, al') := reserve al s size in
  inv al' ∧ (b = true ↔ all_free al s size) ∧
  ∀ x, free_at al' x ↔ free_at al x ∧ ¬ (b = true ∧ s <= x < s + size).
Proof. exact (reserve_spec al s size). Qed.


(** ** Witnesses and the end of the address space *)

Definition example_al : RangeAllocator :=
  mkAllocator [mkRange 0x1000 0x3000; mkRange 0x10000 0x8000].

Lemma example_inv : inv example_al.
Proof.
  unfold inv, example_al. simpl. split;
    repeat first [apply Forall_cons_2 | apply Forall_nil_2 | apply SSorted_cons
                 | apply SSorted_nil]; range_solve.
Qed.

Example allocate_example :
  allocate example_al 0x2000 0x2000
    = (Some 0x2000, mkAllocator [mkRange 0x1000 0x1000; mkRange 0x10000 0x8000]).
Proof. reflexivity. Qed.


Lemma reserve_exact_witness : all_free example_al 0x12000 0x1000.
Proof.
  pose proof (reserve_exact example_al 0x12000 0x1000 example_inv
    ltac:(unfold in_u64; lia) ltac:(lia)) as H.
  assert (reserve example_al 0x12000 0x1000 =
    (true, mkAllocator [mkRange 0x1000 0x3000; mkRange 0x10000 0x2000;
                        mkRange 0x13000 0x5000])) as E by reflexivity.
  rewrite E in H. tauto.
Defined.


(** At the end of the address space the code's additions wrap.  A free range
    that reaches it is never used, and when the last free range starts above the
    last multiple of the alignment, [allocate] hands out address 0, which is not
    free. *)
Theorem allocate_wraps_at_top :
  allocate (mkAllocator [mkRange 0xFFFFFFFFC0000000 0x40000000]) 0x1000 0x1000
    = (None, mkAllocator [mkRange 0xFFFFFFFFC0000000 0x40000000]) ∧
  (allocate (mkAllocator [mkRange 0xFFFFFFFFFFE00000 0x1FF000]) 0x40000000 0x40000000).1
    = Some 0.
Proof. split; reflexivity. Qed.

End Ranges.
