(* ===== verification/Bitmap.v ===== *)
(** * The block bitmap of LemonFS (src/kernel/src/fs/lemonfs/bitmap.rs)

    [BitmapAllocator] records which data blocks of the partition are in use.
    Every 4096 bits form a block that is kept as [Free], [Full] or [Mixed] with
    its 512 bytes; [collapse] keeps the representation normal.  The abstract
    state is the function [bit_used] from bit numbers to booleans.  The
    operations return [None] where the code would panic. *)

From S2P Require Import Prelude.

Module Bitmap.

Definition BITS_PER_BLOCK : Z := 4096.

(** [BitmapBlock] is [[u8; 512]]. *)
Abbreviation BitmapBlock := (list Z).

Definition get (b : BitmapBlock) (bit : Z) : bool :=
  Z.land (Z.shiftr (nth (Z.to_nat (bit / 8)) b 0) (bit mod 8)) 1 =? 1.
Definition set (b : BitmapBlock) (bit : Z) : BitmapBlock :=
  <[Z.to_nat (bit / 8) :=
      Z.lor (nth (Z.to_nat (bit / 8)) b 0) (u8 (Z.shiftl 1 (bit mod 8)))]> b.
Definition clear (b : BitmapBlock) (bit : Z) : BitmapBlock :=
  <[Z.to_nat (bit / 8) :=
      Z.land (nth (Z.to_nat (bit / 8)) b 0) (not8 (u8 (Z.shiftl 1 (bit mod 8))))]> b.

Inductive BlockState :=
| Free
| Full
| Mixed (b : BitmapBlock).

Record BitmapAllocator := mkBitmap { blocks : list BlockState; data_start : Z }.

Definition new (data_start : Z) : BitmapAllocator := mkBitmap [] data_start.

Definition block_of (bit : Z) : Z := bit / BITS_PER_BLOCK.
Definition bit_in (bit : Z) : Z := bit mod BITS_PER_BLOCK.

(** The new state [collapse] computes for one block. *)
Definition collapse_state (s : BlockState) : BlockState :=
  match s with
  | Mixed b =>
      if forallb (λ x, x =? 0) b then Free
      else if forallb (λ x, x =? 0xFF) b then Full
      else s
  | _ => s
  end.

Definition set_block (al : BitmapAllocator) (i : nat) (s : BlockState) : BitmapAllocator :=
  mkBitmap (<[i := s]> (blocks al)) (data_start al).

Definition collapse (al : BitmapAllocator) (block_idx : nat) : option BitmapAllocator :=
  s ← blocks al !! block_idx;
  Some (set_block al block_idx (collapse_state s)).

Definition add_block (al : BitmapAllocator) (block : BitmapBlock) : option BitmapAllocator :=
  let al := mkBitmap (blocks al ++ [Mixed block]) (data_start al) in
  collapse al (length (blocks al) - 1).

Definition is_free (al : BitmapAllocator) (bit : Z) : option bool :=
  s ← blocks al !! Z.to_nat (block_of bit);
  Some match s with
       | Free => true
       | Full => false
       | Mixed b => negb (get b (bit_in bit))
       end.

(** [BitmapBlock([x; 512])] *)
Definition fill_block (x : Z) : BitmapBlock := replicate 512 x.

(** [materialize] panics ([unreachable!]) on a mixed block. *)
Definition materialize (al : BitmapAllocator) (block : nat) : option BitmapAllocator :=
  s ← blocks al !! block;
  match s with
  | Free => Some (set_block al block (Mixed (fill_block 0)))
  | Full => Some (set_block al block (Mixed (fill_block 0xFF)))
  | Mixed _ => None
  end.

Definition is_mixed (s : BlockState) : bool :=
  match s with Mixed _ => true | _ => false end.

Definition set_bit (al : BitmapAllocator) (bit : Z) : option BitmapAllocator :=
  let block := Z.to_nat (block_of bit) in
  let index := bit_in bit in
  s ← blocks al !! block;
  match s with
  | Full => Some al
  | _ =>
      al ← (if is_mixed s then Some al else materialize al block);
      s ← blocks al !! block;
      let al := match s with
                | Mixed b => set_block al block (Mixed (set b index))
                | _ => al
                end in
      collapse al block
  end.

Definition clear_bit (al : BitmapAllocator) (bit : Z) : option BitmapAllocator :=
  let block := Z.to_nat (block_of bit) in
  let index := bit_in bit in
  s ← blocks al !! block;
  match s with
  | Free => Some al
  | _ =>
      al ← (if is_mixed s then Some al else materialize al block);
      s ← blocks al !! block;
      let al := match s with
                | Mixed b => set_block al block (Mixed (clear b index))
                | _ => al
                end in
      collapse al block
  end.

(** The loop variables [start] and [run] of [find_first_fit]. *)
Abbreviation Scan := (option Z * Z)%type.

(** The body of the inner [for bit in 0..BITS_PER_BLOCK] loop. *)
Definition scan_bit (b : BitmapBlock) (base : Z) (st : Scan) (bit : Z) : Scan :=
  if get b bit then (None, 0)
  else (match st.1 with None => Some (base + bit) | s => s end, st.2 + 1).

Definition scan_block (block : Z) (s : BlockState) (st : Scan) : Scan :=
  match s with
  | Free =>
      (match st.1 with None => Some (block * BITS_PER_BLOCK) | s => s end,
       st.2 + BITS_PER_BLOCK)
  | Full => (None, 0)
  | Mixed b =>
      foldl (scan_bit b (block * BITS_PER_BLOCK)) st (seqZ 0 BITS_PER_BLOCK)
  end.

(** The outer loop from block number [block] on; [l] holds [blocks[block..]]. *)
Fixpoint scan_from (block : Z) (l : list BlockState) (st : Scan) (count : Z) : option Z :=
  match l with
  | [] => None
  | s :: l =>
      let st := scan_block block s st in
      if st.2 >=? count then st.1 else scan_from (block + 1) l st count
  end.

Definition find_first_fit (al : BitmapAllocator) (count : Z) : option Z :=
  if count =? 0 then None else scan_from 0 (blocks al) (None, 0) count.

(** [for x in 0..n { f(x + base) }] *)
Definition for_bits (f : BitmapAllocator → Z → option BitmapAllocator)
    (al : BitmapAllocator) (base n : Z) : option BitmapAllocator :=
  foldl (λ o x, al ← o; f al (x ⊞ base)) (Some al) (seqZ 0 n).

(** [None]: panic; [Some (None, al)]: the code returns [None]. *)
Definition alloc (al : BitmapAllocator) (count : Z) : option (option Z * BitmapAllocator) :=
  match find_first_fit al count with
  | None => Some (None, al)
  | Some start =>
      al' ← for_bits set_bit al start count;
      Some (Some (start ⊞ data_start al'), al')
  end.

Definition free (al : BitmapAllocator) (start count : Z) : option BitmapAllocator :=
  for_bits clear_bit al (start ⊟ data_start al) count.

Definition reserve_from (al : BitmapAllocator) (lba : Z) : option BitmapAllocator :=
  match checked_sub lba (data_start al) with
  | None => Some al
  | Some start_bit =>
      let n := Z.of_nat (length (blocks al)) * BITS_PER_BLOCK in
      foldl (λ o bit, al ← o; set_bit al bit) (Some al)
        (seqZ (start_bit + 1) (n - (start_bit + 1)))
  end.

(** The block contents [sync] writes for each state. *)
Definition block_raw (s : BlockState) : BitmapBlock :=
  match s with
  | Free => fill_block 0
  | Full => fill_block 0xFF
  | Mixed b => b
  end.

#[local] Arguments set_block : simpl never.
#[local] Arguments fill_block : simpl never.
#[local] Arguments blocks : simpl never.

(** ** The abstract state *)

Definition nbits (al : BitmapAllocator) : Z :=
  Z.of_nat (length (blocks al)) * BITS_PER_BLOCK.

Definition state_bit (s : BlockState) (i : Z) : bool :=
  match s with
  | Free => false
  | Full => true
  | Mixed b => get b i
  end.

(** Bits outside the bitmap count as used. *)
Definition bit_used (al : BitmapAllocator) (i : Z) : bool :=
  match blocks al !! Z.to_nat (block_of i) with
  | Some s => state_bit s (bit_in i)
  | None => true
  end.

Definition block_ok (b : BitmapBlock) : Prop := length b = 512%nat ∧ bytes_ok b.

(** A mixed block is neither empty nor full. *)
Definition state_ok (s : BlockState) : Prop :=
  match s with
  | Mixed b => block_ok b ∧ ¬ Forall (λ x, x = 0) b ∧ ¬ Forall (λ x, x = 0xFF) b
  | _ => True
  end.

Definition inv (al : BitmapAllocator) : Prop :=
  Forall state_ok (blocks al) ∧ in_u64 (nbits al) ∧ 0 <= data_start al.

Definition run_free (al : BitmapAllocator) (s n : Z) : Prop :=
  0 <= s ∧ s + n <= nbits al ∧ ∀ i, s <= i < s + n → bit_used al i = false.

(** ** Bits of a block *)

Lemma get_testbit b i : get b i = Z.testbit (nth (Z.to_nat (i / 8)) b 0) (i mod 8).
Proof.
  unfold get. pose proof (Z.mod_pos_bound i 8 ltac:(lia)).
  change 1 with (Z.ones 1). rewrite Z.land_ones by lia. change (2 ^ 1) with 2.
  rewrite Z.testbit_odd, Zodd_mod. change (Z.ones 1) with 1.
  by destruct (_ mod 2 =? 1).
Qed.

Lemma nth_insert (b : list Z) i j x :
  (i < length b)%nat →
  nth j (<[i := x]> b) 0 = if decide (i = j) then x else nth j b 0.
Proof.
  intros Hi. rewrite !nth_lookup. case_decide as E.
  - subst. by rewrite list_lookup_insert_eq by done.
  - by rewrite list_lookup_insert_ne by done.
Qed.

Lemma shiftl1_u8 k : 0 <= k < 8 → u8 (Z.shiftl 1 k) = 2 ^ k.
Proof.
  intros. rewrite Z.shiftl_mul_pow2 by lia. rewrite Z.mul_1_l. apply u8_small.
  split; [apply Z.pow_nonneg; lia|]. change 256 with (2 ^ 8).
  by apply Z.pow_lt_mono_r; lia.
Qed.

Lemma bit_index_ne i j :
  0 <= i → 0 <= j → i ≠ j → Z.to_nat (i / 8) = Z.to_nat (j / 8) → i mod 8 ≠ j mod 8.
Proof.
  intros Hi Hj Hne E. pose proof (Z.div_mod i 8). pose proof (Z.div_mod j 8).
  assert (i / 8 = j / 8).
  { apply Z2Nat.inj; [apply Z.div_pos; lia..|done]. }
  lia.
Qed.

Lemma get_set b i j :
  length b = 512%nat → 0 <= i < 4096 → 0 <= j < 4096 →
  get (set b i) j = (i =? j) || get b j.
Proof.
  intros Hl Hi Hj. rewrite !get_testbit. unfold set.
  pose proof (Z.mod_pos_bound i 8). pose proof (Z.mod_pos_bound j 8).
  assert (0 <= i / 8 < 512) by (split; [apply Z.div_pos|apply Z.div_lt_upper_bound]; lia).
  rewrite nth_insert by lia. rewrite shiftl1_u8 by lia.
  case_decide as E.
  - rewrite E, Z.lor_spec, Z.pow2_bits_eqb by lia.
    destruct (i =? j) eqn:Eij; zb.
    + subst. by rewrite Z.eqb_refl, orb_true_r.
    + pose proof (bit_index_ne i j ltac:(lia) ltac:(lia) Eij E).
      destruct (i mod 8 =? j mod 8) eqn:?; zb; [lia|]. by rewrite orb_false_r.
  - destruct (i =? j) eqn:Eij; zb; [by subst|done].
Qed.

Lemma testbit_not8 x k : 0 <= k < 8 → Z.testbit (not8 x) k = negb (Z.testbit x k).
Proof.
  intros. unfold not8. rewrite Z.lxor_spec. change 0xFF with (Z.ones 8).
  rewrite Z.ones_spec_low by lia. done.
Qed.

Lemma get_clear b i j :
  length b = 512%nat → 0 <= i < 4096 → 0 <= j < 4096 →
  get (clear b i) j = negb (i =? j) && get b j.
Proof.
  intros Hl Hi Hj. rewrite !get_testbit. unfold clear.
  pose proof (Z.mod_pos_bound i 8). pose proof (Z.mod_pos_bound j 8).
  assert (0 <= i / 8 < 512) by (split; [apply Z.div_pos|apply Z.div_lt_upper_bound]; lia).
  rewrite nth_insert by lia. rewrite shiftl1_u8 by lia.
  case_decide as E.
  - rewrite E, Z.land_spec, testbit_not8, Z.pow2_bits_eqb by lia.
    destruct (i =? j) eqn:Eij; zb.
    + subst. by rewrite Z.eqb_refl, andb_false_r.
    + pose proof (bit_index_ne i j ltac:(lia) ltac:(lia) Eij E).
      destruct (i mod 8 =? j mod 8) eqn:?; zb; [lia|]. by rewrite andb_true_r.
  - destruct (i =? j) eqn:Eij; zb; [by subst|done].
Qed.

Lemma nth_ok b i : block_ok b → 0 <= i < 512 → in_u8 (nth (Z.to_nat i) b 0).
Proof.
  intros [Hl Hb] Hi. rewrite nth_lookup.
  destruct (lookup_lt_is_Some_2 b (Z.to_nat i) ltac:(lia)) as [x Hx].
  rewrite Hx. by apply (Forall_lookup_1 _ _ _ _ Hb Hx).
Qed.

Lemma byte_bits x : in_u8 x → ∀ n, 8 <= n → Z.testbit x n = false.
Proof.
  intros Hx n Hn. rewrite <- (Z.mod_small x (2 ^ 8)) by (unfold in_u8 in Hx; lia).
  apply Z.mod_pow2_bits_high. lia.
Qed.

Lemma byte_of_bits x : 0 <= x → (∀ n, 8 <= n → Z.testbit x n = false) → in_u8 x.
Proof.
  intros Hx Hb. split; [done|]. destruct (decide (x = 0)) as [->|]; [done|].
  change 256 with (2 ^ 8). apply Z.log2_lt_pow2; [lia|].
  destruct (decide (Z.log2 x < 8)); [done|].
  assert (Z.testbit x (Z.log2 x) = true) by (apply Z.bit_log2; lia).
  rewrite Hb in *; [done|lia].
Qed.

Lemma set_ok b i : block_ok b → 0 <= i < 4096 → block_ok (set b i).
Proof.
  intros Hb Hi. pose proof (Z.mod_pos_bound i 8).
  assert (0 <= i / 8 < 512) by (split; [apply Z.div_pos|apply Z.div_lt_upper_bound]; lia).
  pose proof (nth_ok b (i / 8) Hb ltac:(lia)) as Hx. destruct Hb as [Hl Hb].
  split; [unfold set; by rewrite length_insert|]. apply Forall_insert; [done|].
  rewrite shiftl1_u8 by lia. apply byte_of_bits.
  - apply Z.lor_nonneg. split; [apply Hx|apply Z.pow_nonneg; lia].
  - intros n Hn. rewrite Z.lor_spec, byte_bits, Z.pow2_bits_false by (done || lia). done.
Qed.

Lemma clear_ok b i : block_ok b → 0 <= i < 4096 → block_ok (clear b i).
Proof.
  intros Hb Hi.
  assert (0 <= i / 8 < 512) by (split; [apply Z.div_pos|apply Z.div_lt_upper_bound]; lia).
  pose proof (nth_ok b (i / 8) Hb ltac:(lia)) as Hx. destruct Hb as [Hl Hb].
  split; [unfold clear; by rewrite length_insert|]. apply Forall_insert; [done|].
  apply byte_of_bits.
  - apply Z.land_nonneg. left. apply Hx.
  - intros n Hn. by rewrite Z.land_spec, byte_bits.
Qed.

Lemma replicate_ok x : in_u8 x → block_ok (fill_block x).
Proof. intros. unfold fill_block. split; [apply length_replicate|by apply Forall_replicate]. Qed.

Lemma get_replicate_0 i : get (fill_block 0) i = false.
Proof.
  rewrite get_testbit, nth_lookup. unfold fill_block.
  destruct (replicate 512 0 !! Z.to_nat (i / 8)) as [x|] eqn:E; [|apply Z.bits_0].
  apply lookup_replicate in E as [-> _]. apply Z.bits_0.
Qed.

Lemma get_replicate_ff i : 0 <= i < 4096 → get (fill_block 0xFF) i = true.
Proof.
  intros. pose proof (Z.mod_pos_bound i 8). rewrite get_testbit, nth_lookup. unfold fill_block.
  rewrite lookup_replicate_2 by (apply Nat2Z.inj_lt; rewrite Z2Nat.id;
    [apply Z.div_lt_upper_bound|apply Z.div_pos]; lia).
  simpl. change 255 with (Z.ones 8). apply Z.ones_spec_low. lia.
Qed.

Lemma Forall_eq_replicate (x : Z) b :
  length b = 512%nat → Forall (λ y, y = x) b → b = fill_block x.
Proof.
  unfold fill_block. intros <- H. induction H as [|y l -> H IH]; [done|].
  simpl. by f_equal.
Qed.

(** ** Block states *)

Lemma collapse_state_spec b :
  block_ok b → state_ok (collapse_state (Mixed b)) ∧
  ∀ i, 0 <= i < 4096 → state_bit (collapse_state (Mixed b)) i = get b i.
Proof.
  intros Hb. destruct (Hb) as [Hl _]. unfold collapse_state.
  destruct (forallb (λ x, x =? 0) b) eqn:E0.
  { split; [done|]. intros i Hi. simpl.
    rewrite (Forall_eq_replicate 0 b Hl); [by rewrite get_replicate_0|].
    apply Is_true_true, forallb_True in E0. eapply Forall_impl; [exact E0|].
    intros x Hx%Is_true_true. by zb. }
  destruct (forallb (λ x, x =? 255) b) eqn:E1.
  { split; [done|]. intros i Hi. simpl.
    rewrite (Forall_eq_replicate 255 b Hl); [by rewrite get_replicate_ff|].
    apply Is_true_true, forallb_True in E1. eapply Forall_impl; [exact E1|].
    intros x Hx%Is_true_true. by zb. }
  split; [|done]. simpl. split; [done|].
  split; intros H; [contradict E0|contradict E1];
    apply not_false_iff_true, Is_true_true, forallb_True;
    (eapply Forall_impl; [exact H|]); intros x ->; done.
Qed.

(** What [set_bit] and [clear_bit] make of the state of the block. *)
Definition state_put (v : bool) (s : BlockState) (i : Z) : BlockState :=
  let put b := Mixed (if v then set b i else clear b i) in
  match s with
  | Free => if v then collapse_state (put (fill_block 0)) else Free
  | Full => if v then Full else collapse_state (put (fill_block 0xFF))
  | Mixed b => collapse_state (put b)
  end.

Lemma state_put_spec v s i :
  state_ok s → 0 <= i < 4096 →
  state_ok (state_put v s i) ∧
  ∀ j, 0 <= j < 4096 → state_bit (state_put v s i) j = if i =? j then v else state_bit s j.
Proof.
  intros Hs Hi.
  assert (∀ b, block_ok b → block_ok (if v then set b i else clear b i)) as Hok
    by (intros; destruct v; [by apply set_ok|by apply clear_ok]).
  assert (∀ b j, block_ok b → 0 <= j < 4096 →
    get (if v then set b i else clear b i) j = if i =? j then v else get b j) as Hget.
  { intros b j [Hl _] Hj. destruct v; [rewrite get_set by done|rewrite get_clear by done];
      by destruct (i =? j). }
  assert (∀ b, block_ok b → let s' := collapse_state (Mixed (if v then set b i else clear b i)) in
    state_ok s' ∧ ∀ j, 0 <= j < 4096 → state_bit s' j = if i =? j then v else get b j) as H.
  { intros b Hb. destruct (collapse_state_spec _ (Hok b Hb)) as [H1 H2].
    split; [done|]. intros j Hj. rewrite H2, Hget by done. done. }
  unfold state_put. destruct s as [| |b].
  - destruct v; [|split; [done|]; intros j _; by destruct (i =? j)].
    destruct (H (fill_block 0)) as [H1 H2]; [by apply replicate_ok|].
    split; [done|]. intros j Hj. rewrite H2, get_replicate_0 by done. done.
  - destruct v; [split; [done|]; intros j _; by destruct (i =? j)|].
    destruct (H (fill_block 255)) as [H1 H2]; [by apply replicate_ok|].
    split; [done|]. intros j Hj. rewrite H2, get_replicate_ff by done. done.
  - apply H. apply Hs.
Qed.

Lemma blocks_set_block al n s : blocks (set_block al n s) = <[n := s]> (blocks al).
Proof. done. Qed.

Lemma set_block_id al n s : blocks al !! n = Some s → set_block al n s = al.
Proof.
  intros H. destruct al as [l d]. unfold set_block, blocks in *. by rewrite list_insert_id.
Qed.

Lemma set_block_twice al n s s' : set_block (set_block al n s) n s' = set_block al n s'.
Proof. unfold set_block, blocks. by rewrite list_insert_insert_eq. Qed.

Lemma set_block_lookup al n s s' :
  blocks al !! n = Some s → blocks (set_block al n s') !! n = Some s'.
Proof. intros H%lookup_lt_Some. by apply list_lookup_insert_eq. Qed.

Lemma set_bit_eq al bit s :
  blocks al !! Z.to_nat (block_of bit) = Some s →
  set_bit al bit = Some (set_block al (Z.to_nat (block_of bit)) (state_put true s (bit_in bit))).
Proof.
  intros Hs. unfold set_bit, materialize, collapse. rewrite Hs. simpl.
  destruct s as [| |b]; simpl.
  - erewrite set_block_lookup by done. simpl. rewrite set_block_twice.
    erewrite set_block_lookup by done. simpl. by rewrite set_block_twice.
  - by rewrite set_block_id.
  - rewrite Hs. simpl. erewrite set_block_lookup by done. simpl. by rewrite set_block_twice.
Qed.

Lemma clear_bit_eq al bit s :
  blocks al !! Z.to_nat (block_of bit) = Some s →
  clear_bit al bit = Some (set_block al (Z.to_nat (block_of bit)) (state_put false s (bit_in bit))).
Proof.
  intros Hs. unfold clear_bit, materialize, collapse. rewrite Hs. simpl.
  destruct s as [| |b]; simpl.
  - by rewrite set_block_id.
  - erewrite set_block_lookup by done. simpl. rewrite set_block_twice.
    erewrite set_block_lookup by done. simpl. by rewrite set_block_twice.
  - rewrite Hs. simpl. erewrite set_block_lookup by done. simpl. by rewrite set_block_twice.
Qed.

(** ** Bits of the bitmap *)

Lemma block_of_lt al i :
  0 <= i < nbits al → (Z.to_nat (block_of i) < length (blocks al))%nat.
Proof.
  unfold nbits, block_of, BITS_PER_BLOCK. intros Hi.
  apply Nat2Z.inj_lt. rewrite Z2Nat.id by (apply Z.div_pos; lia).
  apply Z.div_lt_upper_bound; lia.
Qed.

Lemma bit_in_range i : 0 <= bit_in i < 4096.
Proof. by apply Z.mod_pos_bound. Qed.

Lemma bit_split i j :
  0 <= i → 0 <= j →
  (i =? j) = (Z.to_nat (block_of i) =? Z.to_nat (block_of j))%nat && (bit_in i =? bit_in j).
Proof.
  intros Hi Hj. unfold block_of, bit_in, BITS_PER_BLOCK.
  pose proof (Z.div_mod i 4096). pose proof (Z.div_mod j 4096).
  pose proof (Z.div_pos i 4096). pose proof (Z.div_pos j 4096).
  destruct (i =? j) eqn:E; zb.
  - subst. by rewrite Nat.eqb_refl, Z.eqb_refl.
  - symmetry. apply andb_false_iff.
    destruct (Nat.eqb_spec (Z.to_nat (i / 4096)) (Z.to_nat (j / 4096))); [|by left].
    right. apply Z.eqb_neq. lia.
Qed.

(** [f] writes the value [v] to one bit. *)
Definition puts (f : BitmapAllocator → Z → option BitmapAllocator) (v : bool) : Prop :=
  ∀ al bit, inv al → 0 <= bit < nbits al →
  ∃ al', f al bit = Some al' ∧ inv al' ∧ nbits al' = nbits al ∧
    data_start al' = data_start al ∧
    ∀ j, 0 <= j → bit_used al' j = if bit =? j then v else bit_used al j.

Lemma set_block_put al bit s v :
  inv al → 0 <= bit < nbits al → blocks al !! Z.to_nat (block_of bit) = Some s →
  let al' := set_block al (Z.to_nat (block_of bit)) (state_put v s (bit_in bit)) in
  inv al' ∧ nbits al' = nbits al ∧ data_start al' = data_start al ∧
  ∀ j, 0 <= j → bit_used al' j = if bit =? j then v else bit_used al j.
Proof.
  intros (Hok & Hn & Hd) Hbit Hs al'.
  destruct (state_put_spec v s (bit_in bit)) as [H1 H2];
    [by eapply Forall_lookup_1|apply bit_in_range|].
  assert (nbits al' = nbits al) as Hnb by (unfold nbits, al', set_block, blocks; by rewrite length_insert).
  split_and!; [|done|done|].
  { split_and!; [by apply Forall_insert|by rewrite Hnb|done]. }
  intros j Hj. unfold bit_used, al'. rewrite blocks_set_block, bit_split by lia.
  destruct (Nat.eqb_spec (Z.to_nat (block_of bit)) (Z.to_nat (block_of j))) as [E|E].
  - rewrite <- E, Hs, list_lookup_insert_eq by by eapply lookup_lt_Some.
    cbn [andb]. apply H2, bit_in_range.
  - by rewrite list_lookup_insert_ne by done.
Qed.

Lemma set_bit_puts : puts set_bit true.
Proof.
  intros al bit Hinv Hbit.
  destruct (lookup_lt_is_Some_2 _ _ (block_of_lt al bit Hbit)) as [s Hs].
  eexists. split; [by apply set_bit_eq|]. by apply set_block_put.
Qed.

Lemma clear_bit_puts : puts clear_bit false.
Proof.
  intros al bit Hinv Hbit.
  destruct (lookup_lt_is_Some_2 _ _ (block_of_lt al bit Hbit)) as [s Hs].
  eexists. split; [by apply clear_bit_eq|]. by apply set_block_put.
Qed.

Definition in_run (base n j : Z) : bool := (base <=? j) && (j <? base + n).

(** A loop that writes a run of bits. *)
Lemma fold_puts f v al base n :
  puts f v → inv al → 0 <= base → 0 <= n → base + n <= nbits al →
  ∃ al', foldl (λ o bit, al ← o; f al bit) (Some al) (seqZ base n) = Some al' ∧
    inv al' ∧ nbits al' = nbits al ∧ data_start al' = data_start al ∧
    ∀ j, 0 <= j → bit_used al' j = if in_run base n j then v else bit_used al j.
Proof.
  intros Hf Hinv Hb Hn. pattern n. apply natlike_ind; [| |done]; clear n Hn.
  - intros _. exists al. split_and!; [done..|]. intros j Hj.
    unfold in_run. destruct ((base <=? j) && (j <? base + 0)) eqn:E; zb; [lia|done].
  - intros n Hn IH Hle. destruct IH as (al1 & E1 & I1 & N1 & D1 & U1); [lia|].
    rewrite <- Z.add_1_r, seqZ_snoc, foldl_app, E1 by lia. cbn [foldl mbind option_bind].
    destruct (Hf al1 (base + n) I1) as (al2 & E2 & I2 & N2 & D2 & U2); [lia|].
    exists al2. split_and!; [done|done|lia|congruence|]. intros j Hj.
    rewrite U2, U1 by done. unfold in_run.
    destruct (base + n =? j) eqn:Ej; zb.
    + subst. destruct ((base <=? base + n) && (base + n <? base + (n + 1))) eqn:E; [done|].
      apply andb_false_iff in E as [E|E]; zb; lia.
    + destruct ((base <=? j) && (j <? base + n)) eqn:E;
        destruct ((base <=? j) && (j <? base + (n + 1))) eqn:E'; try done;
        zb; apply andb_false_iff in E || apply andb_false_iff in E';
        intuition (zb; lia).
Qed.

Lemma for_bits_eq f al base n :
  0 <= base → 0 <= n → base + n <= 18446744073709551616 →
  for_bits f al base n = foldl (λ o bit, al ← o; f al bit) (Some al) (seqZ base n).
Proof.
  intros Hb Hn. unfold for_bits. pattern n. apply natlike_ind; [done| |done]. clear n Hn.
  intros n Hn IH Hle. rewrite <- Z.add_1_r, !seqZ_snoc, !foldl_app, IH by lia. cbn [foldl].
  replace (u64 (0 + n + base)) with (base + n); [done|].
  rewrite u64_small; unfold in_u64; lia.
Qed.

(** ** Normal form *)

Lemma state_canonical s1 s2 :
  state_ok s1 → state_ok s2 →
  (∀ i, 0 <= i < 4096 → state_bit s1 i = state_bit s2 i) → s1 = s2.
Proof.
  assert (∀ b v, block_ok b → (∀ i, 0 <= i < 4096 → get b i = v) →
    Forall (λ x, x = if v then 0xFF else 0) b) as Hconst.
  { intros b v Hb Hbits. destruct (Hb) as [Hl _]. apply Forall_lookup. intros n x Hx.
    pose proof (lookup_lt_Some _ _ _ Hx).
    assert (in_u8 x) as Hx8 by by eapply (Forall_lookup_1 _ _ _ _ (proj2 Hb)).
    apply Z.bits_inj'. intros k Hk. destruct (decide (k < 8)).
    - specialize (Hbits (Z.of_nat n * 8 + k) ltac:(lia)). rewrite get_testbit in Hbits.
      rewrite Z.div_add_l, Z.div_small, Z.add_0_r, Nat2Z.id in Hbits by lia.
      rewrite nth_lookup, Hx in Hbits. simpl in Hbits.
      rewrite Z.add_comm, Z.mod_add, Z.mod_small in Hbits by lia. rewrite Hbits.
      destruct v; [|by rewrite Z.bits_0].
      change 255 with (Z.ones 8). by rewrite Z.ones_spec_low by lia.
    - rewrite byte_bits by (done || lia). destruct v; [|by rewrite Z.bits_0].
      change 255 with (Z.ones 8). by rewrite Z.ones_spec_high by lia. }
  intros H1 H2 Hb. destruct s1 as [| |b1], s2 as [| |b2]; try done.
  - by specialize (Hb 0 ltac:(lia)).
  - exfalso. destruct H2 as (H & H0 & _). apply H0.
    apply (Hconst b2 false H). intros i Hi. symmetry. exact (Hb i Hi).
  - by specialize (Hb 0 ltac:(lia)).
  - exfalso. destruct H2 as (H & _ & H1'). apply H1'.
    apply (Hconst b2 true H). intros i Hi. symmetry. exact (Hb i Hi).
  - exfalso. destruct H1 as (H & H0 & _). apply H0.
    apply (Hconst b1 false H). intros i Hi. exact (Hb i Hi).
  - exfalso. destruct H1 as (H & _ & H1'). apply H1'.
    apply (Hconst b1 true H). intros i Hi. exact (Hb i Hi).
  - f_equal. destruct H1 as ((Hl1 & Hk1) & _), H2 as ((Hl2 & Hk2) & _).
    apply list_eq_lookup_lt; [congruence|]. intros n Hn.
    destruct (lookup_lt_is_Some_2 b1 n Hn) as [x Hx].
    destruct (lookup_lt_is_Some_2 b2 n ltac:(lia)) as [y Hy].
    rewrite Hx, Hy. f_equal. apply Z.bits_inj'. intros k Hk. destruct (decide (k < 8)).
    + specialize (Hb (Z.of_nat n * 8 + k) ltac:(lia)). simpl in Hb.
      rewrite !get_testbit in Hb.
      rewrite Z.div_add_l, Z.div_small, Z.add_0_r, Nat2Z.id in Hb by lia.
      rewrite !nth_lookup, Hx, Hy in Hb. simpl in Hb.
      by rewrite Z.add_comm, Z.mod_add, Z.mod_small in Hb by lia.
    + rewrite !byte_bits; [done|by eapply (Forall_lookup_1 _ _ _ _ Hk2)|lia
        |by eapply (Forall_lookup_1 _ _ _ _ Hk1)|lia].
Qed.

Lemma bitmap_canonical al1 al2 :
  inv al1 → inv al2 → nbits al1 = nbits al2 → data_start al1 = data_start al2 →
  (∀ i, 0 <= i < nbits al1 → bit_used al1 i = bit_used al2 i) → al1 = al2.
Proof.
  intros (H1 & _ & _) (H2 & _ & _) Hn Hd Hb.
  destruct al1 as [l1 d1], al2 as [l2 d2]. unfold nbits, bit_used, blocks in *.
  simpl in Hd. subst. f_equal. unfold BITS_PER_BLOCK in *.
  apply list_eq_lookup_lt; [lia|]. intros n Hlt.
  destruct (lookup_lt_is_Some_2 l1 n Hlt) as [s1 Hs1].
  destruct (lookup_lt_is_Some_2 l2 n ltac:(lia)) as [s2 Hs2].
  rewrite Hs1, Hs2. f_equal.
  apply state_canonical; [by eapply (Forall_lookup_1 _ _ _ _ H1)
    |by eapply (Forall_lookup_1 _ _ _ _ H2)|].
  intros i Hi. specialize (Hb (Z.of_nat n * 4096 + i) ltac:(lia)).
  unfold block_of, bit_in, BITS_PER_BLOCK in Hb.
  rewrite Z.div_add_l, Z.div_small, Z.add_0_r, Nat2Z.id, Hs1, Hs2 in Hb by lia.
  by rewrite Z.add_comm, Z.mod_add, Z.mod_small in Hb by lia.
Qed.

(** ** The first-fit scan *)

(** After [p] bits, [start] is the start of the maximal free run that ends at
    [p] and [run] its length. *)
Definition scan_inv (al : BitmapAllocator) (p : Z) (st : Scan) : Prop :=
  match st.1 with
  | None => st.2 = 0 ∧ (0 < p → bit_used al (p - 1) = true)
  | Some s =>
      0 <= s < p ∧ st.2 = p - s ∧ (∀ i, s <= i < p → bit_used al i = false) ∧
      (0 < s → bit_used al (s - 1) = true)
  end.

Lemma scan_inv_used al p : 0 <= p → bit_used al p = true → scan_inv al (p + 1) (None, 0).
Proof. intros Hp H. split; [done|]. intros _. by replace (p + 1 - 1) with p by lia. Qed.

(** Extending the run by [k] free bits. *)
Lemma scan_inv_free al p st k :
  0 <= p → 0 < k → scan_inv al p st → (∀ i, p <= i < p + k → bit_used al i = false) →
  scan_inv al (p + k) (match st.1 with None => Some p | s => s end, st.2 + k).
Proof.
  intros Hp Hk Hst Hf. destruct st as [[s|] run]; unfold scan_inv in *; simpl in *.
  - destruct Hst as (H1 & H2 & H3 & H4). split_and!; [lia..| |done].
    intros i Hi. destruct (decide (i < p)); [apply H3|apply Hf]; lia.
  - destruct Hst as (H1 & H2). split_and!; [lia|lia|lia|done|].
    intros. by apply H2.
Qed.

Lemma bit_used_block al n s i :
  blocks al !! n = Some s → 0 <= i < 4096 →
  bit_used al (Z.of_nat n * 4096 + i) = state_bit s i.
Proof.
  intros Hs Hi. unfold bit_used, block_of, bit_in, BITS_PER_BLOCK.
  rewrite Z.div_add_l, Z.div_small, Z.add_0_r, Nat2Z.id, Hs by lia.
  by rewrite Z.add_comm, Z.mod_add, Z.mod_small by lia.
Qed.

Lemma scan_block_inv al n s st :
  blocks al !! n = Some s → scan_inv al (Z.of_nat n * 4096) st →
  scan_inv al ((Z.of_nat n + 1) * 4096) (scan_block (Z.of_nat n) s st).
Proof.
  intros Hs Hst. pose proof (bit_used_block al n s) as Hbit.
  replace ((Z.of_nat n + 1) * 4096) with (Z.of_nat n * 4096 + 4096) by lia.
  destruct s as [| |b]; cbn [scan_block]; unfold BITS_PER_BLOCK.
  - apply scan_inv_free; [lia|lia|done|]. intros i Hi.
    replace i with (Z.of_nat n * 4096 + (i - Z.of_nat n * 4096)) by lia.
    rewrite Hbit; [done|done|lia].
  - replace (Z.of_nat n * 4096 + 4096) with (Z.of_nat n * 4096 + 4095 + 1) by lia.
    apply scan_inv_used; [lia|]. by rewrite Hbit.
  - assert (∀ k, 0 <= k → k <= 4096 →
      scan_inv al (Z.of_nat n * 4096 + k)
        (foldl (scan_bit b (Z.of_nat n * 4096)) st (seqZ 0 k))) as H.
    { intros k Hk. pattern k. apply natlike_ind; [|clear k Hk|done].
      { intros _. by rewrite Z.add_0_r. }
      intros k Hk IH Hle. rewrite <- Z.add_1_r, seqZ_snoc, foldl_app by lia. cbn [foldl].
      specialize (IH ltac:(lia)). rewrite Z.add_0_l.
      unfold scan_bit at 1. specialize (Hbit k Hs ltac:(lia)). simpl in Hbit.
      replace (Z.of_nat n * 4096 + (k + 1)) with (Z.of_nat n * 4096 + k + 1) by lia.
      destruct (get b k); [apply scan_inv_used; [lia|done]|].
      apply scan_inv_free; [lia|lia|done|]. intros i Hi.
      by replace i with (Z.of_nat n * 4096 + k) by lia. }
    by apply H.
Qed.

(** At a block boundary the scan accepts exactly when the [count] bits before
    the boundary are free. *)
Lemma scan_accepts al p st count :
  scan_inv al p st → 0 < count → 0 <= p <= nbits al →
  (st.2 >=? count) = true ↔ run_free al (p - count) count.
Proof.
  intros Hst Hc Hp. rewrite Z.geb_leb, Z.leb_le. unfold run_free.
  replace (p - count + count) with p by lia.
  destruct st as [[s|] run]; unfold scan_inv in Hst; simpl in *.
  - destruct Hst as (H1 & -> & H3 & H4). split.
    + intros Hle. split_and!; [lia..|]. intros i Hi. apply H3. lia.
    + intros (G1 & _ & G3). destruct (decide (count <= p - s)) as [|Hgt]; [done|].
      exfalso. rewrite G3 in H4 by lia. by specialize (H4 ltac:(lia)).
  - destruct Hst as (-> & H2). split; [lia|]. intros (G1 & _ & G3).
    rewrite G3 in H2 by lia. by specialize (H2 ltac:(lia)).
Qed.

(** A free run of [count] bits ends at the end of one of the blocks [n..]. *)
Definition boundary_run (al : BitmapAllocator) (n : nat) (count : Z) : Prop :=
  ∃ b : nat, (n < b <= length (blocks al))%nat ∧
    run_free al (Z.of_nat b * 4096 - count) count.

Lemma scan_from_spec al pre l st count :
  blocks al = pre ++ l → 0 < count → scan_inv al (Z.of_nat (length pre) * 4096) st →
  match scan_from (Z.of_nat (length pre)) l st count with
  | Some s => run_free al s count ∧ boundary_run al (length pre) count
  | None => ¬ boundary_run al (length pre) count
  end.
Proof.
  revert pre st. induction l as [|s l IH]; intros pre st Hal Hc Hst; cbn [scan_from].
  { intros (b & Hb & _). rewrite Hal, length_app in Hb. simpl in Hb. lia. }
  assert (blocks al !! length pre = Some s) as Hs
    by (rewrite Hal; by apply list_lookup_middle).
  pose proof (scan_block_inv al _ s st Hs Hst) as Hst'.
  set (st' := scan_block (Z.of_nat (length pre)) s st) in *.
  assert (0 <= (Z.of_nat (length pre) + 1) * 4096 <= nbits al) as Hp.
  { unfold nbits, BITS_PER_BLOCK. rewrite Hal, length_app. simpl. lia. }
  pose proof (scan_accepts al _ st' count Hst' Hc Hp) as Hacc.
  destruct (st'.2 >=? count) eqn:E.
  - destruct st' as [[s'|] run]; unfold scan_inv in Hst'; simpl in *;
      rewrite Z.geb_leb in E; zb; [|lia].
    destruct Hst' as (H1 & -> & H3 & _). split; [split_and!; [lia..|]; intros i Hi; apply H3; lia|].
    exists (S (length pre)). rewrite Hal, length_app. split; [simpl; lia|].
    rewrite Nat2Z.inj_succ, <- Z.add_1_r. by apply Hacc.
  - specialize (IH (pre ++ [s]) st'). rewrite length_app, Nat2Z.inj_add in IH.
    change (Z.of_nat (length [s])) with 1 in IH. change (length [s]) with 1%nat in IH.
    specialize (IH ltac:(rewrite <- app_assoc; exact Hal) Hc Hst').
    destruct (scan_from (Z.of_nat (length pre) + 1) l st' count) as [s'|].
    { destruct IH as (H1 & b & Hb & H2). split; [done|]. exists b. split; [lia|done]. }
    intros (b & Hb & Hrun). destruct (decide (b = S (length pre))) as [->|].
    + rewrite Nat2Z.inj_succ, <- Z.add_1_r in Hrun. by apply Hacc in Hrun.
    + apply IH. exists b. split; [lia|done].
Qed.

Lemma find_first_fit_spec al count :
  0 < count →
  match find_first_fit al count with
  | Some s => run_free al s count ∧ boundary_run al 0 count
  | None => ¬ boundary_run al 0 count
  end.
Proof.
  intros Hc. unfold find_first_fit. destruct (count =? 0) eqn:E; zb; [lia|].
  by apply (scan_from_spec al [] (blocks al) (None, 0) count).
Qed.

Lemma alloc_at al count s :
  inv al → 0 < count → data_start al + nbits al < 18446744073709551616 →
  run_free al s count → find_first_fit al count = Some s →
  ∃ al', alloc al count = Some (Some (data_start al + s), al') ∧ inv al' ∧
    nbits al' = nbits al ∧ data_start al' = data_start al ∧
    ∀ j, 0 <= j → bit_used al' j = in_run s count j || bit_used al j.
Proof.
  intros Hinv Hc Hd (Hs & Hle & _) Hf. destruct (Hinv) as (_ & Hn & Hd0). unfold alloc. rewrite Hf.
  destruct (fold_puts set_bit true al s count set_bit_puts Hinv)
    as (al' & E & I & N & D & U); [lia..|].
  rewrite for_bits_eq, E by (unfold in_u64 in Hn; lia). simpl. exists al'.
  rewrite D, (Z.add_comm s), u64_small by (unfold in_u64 in *; lia).
  split_and!; [done..|]. intros j Hj. rewrite U by done. by destruct (in_run s count j).
Qed.

Lemma alloc_cases al count :
  inv al → 0 < count → data_start al + nbits al < 18446744073709551616 →
  (∃ s al', alloc al count = Some (Some (data_start al + s), al') ∧ run_free al s count ∧
     boundary_run al 0 count ∧ inv al' ∧ nbits al' = nbits al ∧ data_start al' = data_start al ∧
     ∀ j, 0 <= j → bit_used al' j = in_run s count j || bit_used al j) ∨
  (alloc al count = Some (None, al) ∧ ¬ boundary_run al 0 count).
Proof.
  intros Hinv Hc Hd. pose proof (find_first_fit_spec al count Hc) as Hf.
  destruct (find_first_fit al count) as [s|] eqn:E.
  - left. destruct Hf as [Hf Hb].
    destruct (alloc_at al count s) as (al' & ? & ? & ? & ? & ?); [done..|].
    by exists s, al'.
  - right. unfold alloc. by rewrite E.
Qed.

(** C6. [alloc] never panics.  It hands out [count] blocks that were all free,
    marks exactly those as used and keeps the representation normal; it fails,
    changing nothing, exactly when no free run of [count] blocks ends at a
    multiple of 4096. *)
Theorem alloc_spec al count :
  inv al → 0 < count → data_start al + nbits al < 18446744073709551616 →
  (∃ s al', alloc al count = Some (Some (data_start al + s), al') ∧
     run_free al s count ∧ boundary_run al 0 count ∧ inv al' ∧ data_start al' = data_start al ∧
     ∀ j, 0 <= j → bit_used al' j = in_run s count j || bit_used al j) ∨
  (alloc al count = Some (None, al) ∧ ¬ boundary_run al 0 count).
Proof.
  intros Hinv Hc Hd. destruct (alloc_cases al count Hinv Hc Hd) as [(s & al' & H)|H]; [left|by right].
  exists s, al'. tauto.
Qed.

Lemma bit_used_outside al j : nbits al <= j → bit_used al j = true.
Proof.
  unfold nbits, bit_used, block_of, BITS_PER_BLOCK. intros Hj.
  rewrite lookup_ge_None_2; [done|].
  assert (Z.of_nat (length (blocks al)) <= j / 4096) by (apply Z.div_le_lower_bound; lia). lia.
Qed.

(** C7. Freeing what [alloc] returned restores the allocator: not only the same
    bits, but the same block states. *)
Theorem free_alloc al al' count lba :
  inv al → 0 < count → data_start al + nbits al < 18446744073709551616 →
  alloc al count = Some (Some lba, al') → free al' lba count = Some al.
Proof.
  intros Hinv Hc Hd Ha. pose proof (find_first_fit_spec al count Hc) as Hf.
  destruct (find_first_fit al count) as [s|] eqn:E; [|by unfold alloc in Ha; rewrite E in Ha].
  destruct Hf as [Hf _].
  destruct (alloc_at al count s) as (al1 & E1 & I1 & N1 & D1 & U1); [done..|].
  rewrite Ha in E1. simplify_eq. destruct Hf as (Hs & Hle & Hfree).
  destruct (Hinv) as (_ & Hn & Hd0). unfold in_u64 in Hn. unfold free.
  replace (u64 (data_start al + s - data_start al1)) with s
    by (rewrite D1, u64_small; unfold in_u64; lia).
  destruct (fold_puts clear_bit false al1 s count clear_bit_puts I1)
    as (al2 & E2 & I2 & N2 & D2 & U2); [lia..|].
  rewrite for_bits_eq, E2 by lia. f_equal.
  apply bitmap_canonical; [done|done|congruence|congruence|]. intros i Hi.
  rewrite U2, U1 by lia. destruct (in_run s count i) eqn:Ei; [|done].
  unfold in_run in Ei. zb. symmetry. apply Hfree. lia.
Qed.

Lemma free_cases al lba n :
  inv al → data_start al <= lba → 0 <= n → lba - data_start al + n <= nbits al →
  data_start al + nbits al < 18446744073709551616 →
  ∃ al', free al lba n = Some al' ∧ inv al' ∧ nbits al' = nbits al ∧ data_start al' = data_start al ∧
    ∀ j, 0 <= j → bit_used al' j = negb (in_run (lba - data_start al) n j) && bit_used al j.
Proof.
  intros Hinv H1 H2 H3 H4. destruct (Hinv) as (_ & Hn & Hd). unfold in_u64 in Hn.
  unfold free. rewrite u64_small by (unfold in_u64; lia). rewrite for_bits_eq by lia.
  destruct (fold_puts clear_bit false al (lba - data_start al) n clear_bit_puts Hinv)
    as (al' & E & I & N & D & U); [lia..|].
  exists al'. split_and!; [done..|]. intros j Hj. rewrite U by done. by destruct (in_run _ _ _).
Qed.

(** ** Reserving the tail, and reloading *)

Lemma reserve_from_spec al lba :
  inv al → data_start al <= lba → lba - data_start al < nbits al →
  ∃ al', reserve_from al lba = Some al' ∧ inv al' ∧ nbits al' = nbits al ∧
    data_start al' = data_start al ∧
    ∀ j, 0 <= j → bit_used al' j = (lba - data_start al <? j) || bit_used al j.
Proof.
  intros Hinv Hl Hlt. unfold reserve_from, checked_sub.
  destruct (data_start al <=? lba) eqn:E; zb; [|lia].
  set (b := lba - data_start al) in *. fold (nbits al).
  destruct (fold_puts set_bit true al (b + 1) (nbits al - (b + 1)) set_bit_puts Hinv)
    as (al' & E' & I & N & D & U); [lia..|].
  exists al'. split_and!; [done..|]. intros j Hj. rewrite U by done. unfold in_run.
  destruct (decide (j < nbits al)).
  - destruct (b + 1 <=? j) eqn:?, (j <? b + 1 + (nbits al - (b + 1))) eqn:?, (b <? j) eqn:?;
      zb; done || lia.
  - rewrite bit_used_outside, orb_true_r by lia. by destruct (_ && _).
Qed.

(** After [reserve_from lba] the final bitmap block can no longer serve an
    allocation: on a bitmap of a single block every [alloc] fails, however
    many blocks are free. *)
Theorem single_block_never_allocates al al' lba count :
  inv al → length (blocks al) = 1%nat → 0 < count →
  data_start al <= lba < data_start al + 4095 →
  reserve_from al lba = Some al' → alloc al' count = Some (None, al').
Proof.
  intros Hinv Hl Hc Hlba Hr.
  assert (nbits al = 4096) as Hn by (unfold nbits; by rewrite Hl).
  destruct (reserve_from_spec al lba) as (al1 & E & I & N & D & U); [done|lia..|].
  rewrite Hr in E. simplify_eq. pose proof (find_first_fit_spec al1 count Hc) as Hf.
  unfold alloc. destruct (find_first_fit al1 count) as [s|] eqn:Es; [|done]. exfalso.
  destruct Hf as (_ & b & Hb & Hrun & _ & Hfree).
  assert (length (blocks al1) = 1%nat) as Hl1
    by (unfold nbits, BITS_PER_BLOCK in *; lia).
  assert (Z.of_nat b = 1) as Eb by lia. rewrite Eb in Hfree, Hrun.
  assert (bit_used al1 4095 = true) as H4.
  { rewrite U by lia. apply orb_true_intro. left. apply Z.ltb_lt. lia. }
  rewrite Hfree in H4 by lia. done.
Qed.

Lemma collapse_raw s : state_ok s → collapse_state (Mixed (block_raw s)) = s.
Proof.
  intros Hs. unfold collapse_state. destruct s as [| |b]; cbn [block_raw].
  - by vm_compute.
  - by vm_compute.
  - destruct Hs as (_ & H0 & H1).
    assert (∀ x, ¬ Forall (λ y, y = x) b → forallb (λ y, y =? x) b = false) as H.
    { intros x Hx. apply not_true_iff_false. contradict Hx.
      apply Is_true_true, forallb_True in Hx. eapply Forall_impl; [exact Hx|].
      intros y Hy%Is_true_true. by zb. }
    by rewrite !H.
Qed.

Lemma add_block_raw l ds s :
  state_ok s → add_block (mkBitmap l ds) (block_raw s) = Some (mkBitmap (l ++ [s]) ds).
Proof.
  intros Hs. unfold add_block, collapse, set_block, blocks, data_start.
  rewrite length_app, Nat.add_sub. rewrite list_lookup_middle by done.
  cbn [mbind option_bind]. rewrite collapse_raw by done.
  by rewrite insert_app_r_alt, Nat.sub_diag by done.
Qed.

(** What [sync] writes, read back block by block through [add_block] as a
    mount does, is the same allocator. *)
Theorem reload_roundtrip al :
  inv al →
  foldl (λ o raw, al ← o; add_block al raw) (Some (new (data_start al)))
    (block_raw <$> blocks al) = Some al.
Proof.
  intros (Hok & _). destruct al as [l ds]. unfold blocks, data_start, new in *.
  assert (∀ pre, foldl (λ o raw, al ← o; add_block al raw) (Some (mkBitmap pre ds))
    (block_raw <$> l) = Some (mkBitmap (pre ++ l) ds)) as H; [|by apply H].
  induction Hok as [|s l Hs Hok IH]; intros pre; [by rewrite app_nil_r|].
  rewrite fmap_cons. cbn [foldl mbind option_bind].
  rewrite add_block_raw by done. by rewrite IH, <- app_assoc.
Qed.

(** ** Witnesses *)

Definition ex : BitmapAllocator := mkBitmap [Full; Free; Mixed (set (fill_block 0) 7)] 100.

Lemma ex_inv : inv ex.
Proof.
  split_and!; [|by vm_compute..].
  apply Forall_cons_2; [done|]. apply Forall_cons_2; [done|]. apply Forall_cons_2; [|done].
  split_and!.
  - apply set_ok; [by apply replicate_ok|lia].
  - intros H. apply (Forall_lookup_1 _ _ 0 128) in H; [done|by vm_compute].
  - intros H. apply (Forall_lookup_1 _ _ 0 128) in H; [done|by vm_compute].
Qed.

Lemma alloc_spec_witness :
  (∃ s al', alloc ex 5 = Some (Some (100 + s), al') ∧
     run_free ex s 5 ∧ boundary_run ex 0 5 ∧ inv al' ∧ data_start al' = 100 ∧
     ∀ j, 0 <= j → bit_used al' j = in_run s 5 j || bit_used ex j) ∨
  (alloc ex 5 = Some (None, ex) ∧ ¬ boundary_run ex 0 5).
Proof. apply (alloc_spec ex 5); [apply ex_inv|lia|by vm_compute]. Defined.

Lemma free_alloc_witness :
  (al ← (r ← alloc ex 5; free r.2 4196 5); Some (blocks al !! 1%nat)) = Some (Some Free).
Proof.
  destruct (alloc ex 5) as [[o al']|] eqn:E; [|by vm_compute in E].
  assert (o = Some 4196) as -> by (apply (f_equal (fmap fst)) in E; vm_compute in E; congruence).
  cbn [mbind option_bind snd].
  rewrite (free_alloc ex al' 5 4196 ex_inv ltac:(lia) ltac:(by vm_compute) E).
  by vm_compute.
Defined.

Lemma one_block_inv : inv (mkBitmap [Free] 10).
Proof. split_and!; [by apply Forall_cons_2|by vm_compute|by vm_compute]. Qed.

Lemma single_block_never_allocates_witness :
  (al ← reserve_from (mkBitmap [Free] 10) 4000; fst <$> alloc al 1) = Some None.
Proof.
  destruct (reserve_from (mkBitmap [Free] 10) 4000) as [al'|] eqn:E; [|by vm_compute in E].
  cbn [mbind option_bind].
  assert (alloc al' 1 = Some (None, al')) as H.
  { apply (single_block_never_allocates (mkBitmap [Free] 10) al' 4000 1);
      [exact one_block_inv|reflexivity|lia|unfold data_start; lia|exact E]. }
  rewrite H. reflexivity.
Defined.

Lemma reload_roundtrip_witness :
  foldl (λ o raw, al ← o; add_block al raw) (Some (new 100)) (block_raw <$> blocks ex) = Some ex.
Proof. apply (reload_roundtrip ex), ex_inv. Defined.

End Bitmap.
