(* ===== verification/FreeList.v ===== *)
(** * Intervals and linked free lists in memory

    Shared by the buddy and the slab allocator: both keep their free lists in
    the free memory itself.  A memory maps (virtual) addresses to the value of
    the field stored there; [seg] relates a chain of [next] fields to the list
    of its nodes, and [idisj] is disjointness of address intervals. *)

From S2P Require Import Prelude.

Module FreeList.

Abbreviation Mem := (gmap Z Z).

(** Code that can only return or panic. *)
Abbreviation K S A := (M S Empty_set A).

Definition load {X} (p : Z) : K (X * Mem) Z := gets (λ s, default 0 (s.2 !! p)).
Definition store {X} (p v : Z) : K (X * Mem) unit := modify (λ s, (s.1, <[p := v]> s.2)).

(** ** Intervals: start and length *)

Definition idisj (x y : Z * Z) : Prop := x.1 + x.2 <= y.1 ∨ y.1 + y.2 <= x.1.
Definition disj : list (Z * Z) → Prop := StronglySorted idisj.
Definition icovers (l : list (Z * Z)) (x : Z) : Prop := ∃ i, i ∈ l ∧ i.1 <= x < i.1 + i.2.

Lemma idisj_sym x y : idisj x y → idisj y x.
Proof. unfold idisj. tauto. Qed.

#[export] Instance disj_perm : Proper ((≡ₚ) ==> iff) disj.
Proof.
  intros l1 l2 Hp. split; apply StronglySorted_perm; auto using idisj_sym. by symmetry.
Qed.

#[export] Instance icovers_perm : Proper ((≡ₚ) ==> (=) ==> iff) icovers.
Proof. intros l1 l2 Hp x ? <-. unfold icovers. by setoid_rewrite Hp. Qed.

Lemma disj_cons x l : disj (x :: l) ↔ (∀ y, y ∈ l → idisj x y) ∧ disj l.
Proof.
  unfold disj. split.
  - inversion_clear 1. split; [by apply Forall_forall|done].
  - intros [H1 H2]. constructor; [done|by apply Forall_forall].
Qed.

Lemma disj_app l1 l2 :
  disj (l1 ++ l2) ↔ disj l1 ∧ disj l2 ∧ ∀ x y, x ∈ l1 → y ∈ l2 → idisj x y.
Proof. apply StronglySorted_app_iff. Qed.

Lemma disj_pair l x y : disj l → x ∈ l → y ∈ l → x = y ∨ idisj x y.
Proof.
  intros Hl Hx Hy. apply list_elem_of_lookup in Hx as [i Hi], Hy as [j Hj].
  revert i j Hi Hj. induction l as [|z l IH]; intros i j Hi Hj; [done|].
  apply disj_cons in Hl as [Hz Hl].
  destruct i as [|i], j as [|j]; simplify_eq/=.
  - by left.
  - right. apply Hz. by eapply list_elem_of_lookup_2.
  - right. apply idisj_sym, Hz. by eapply list_elem_of_lookup_2.
  - by eapply IH.
Qed.

Lemma disj_NoDup l : disj l → (∀ x, x ∈ l → 0 < x.2) → NoDup l.*1.
Proof.
  intros Hl Hpos. induction l as [|x l IH]; simpl; [constructor|].
  apply disj_cons in Hl as [Hx Hl]. constructor.
  - intros (y & E & Hy)%list_elem_of_fmap. specialize (Hx y Hy).
    pose proof (Hpos x (list_elem_of_here _ _)).
    pose proof (Hpos y (list_elem_of_further _ _ _ Hy)). unfold idisj in Hx. lia.
  - apply IH; [done|]. intros y Hy. apply Hpos. by right.
Qed.

Lemma icovers_cons i l x : icovers (i :: l) x ↔ i.1 <= x < i.1 + i.2 ∨ icovers l x.
Proof.
  unfold icovers. setoid_rewrite elem_of_cons. split.
  - intros (j & [->|Hj] & H); [by left|right; eauto].
  - intros [H|(j & Hj & H)]; eauto.
Qed.

Lemma icovers_app l1 l2 x : icovers (l1 ++ l2) x ↔ icovers l1 x ∨ icovers l2 x.
Proof.
  induction l1 as [|i l1 IH]; simpl.
  - split; [by right|]. intros [(? & []%elem_of_nil & _)|]; done.
  - rewrite !icovers_cons, IH. tauto.
Qed.

(** Containment of intervals. *)
Definition isub (i j : Z * Z) : Prop := j.1 <= i.1 ∧ i.1 + i.2 <= j.1 + j.2.

Lemma idisj_sub i i' j j' : isub i i' → isub j j' → idisj i' j' → idisj i j.
Proof. unfold isub, idisj. lia. Qed.

Lemma disj_shrink {A} (f g : A → Z * Z) l :
  (∀ x, x ∈ l → isub (g x) (f x)) → disj (f <$> l) → disj (g <$> l).
Proof.
  induction l as [|x l IH]; simpl; [done|]. rewrite !disj_cons. intros Hs [Hx Hl].
  split; [|apply IH; [|done]; intros; apply Hs; by right].
  intros y (z & -> & Hz)%list_elem_of_fmap.
  eapply idisj_sub; [apply Hs; by left|apply Hs; by right|]. apply Hx. by apply list_elem_of_fmap_2.
Qed.

(** Disjoint parts of disjoint wholes. *)
Lemma disj_bind {A} (f : A → Z * Z) (g : A → list (Z * Z)) l :
  disj (f <$> l) → (∀ x, x ∈ l → disj (g x) ∧ ∀ i, i ∈ g x → isub i (f x)) → disj (l ≫= g).
Proof.
  induction l as [|x l IH]; simpl; [done|]. rewrite disj_cons, disj_app. intros [Hx Hl] Hg.
  split_and!; [apply Hg; by left|apply IH; [done|]; intros; apply Hg; by right|].
  intros i j Hi (y & Hj & Hy)%list_elem_of_bind.
  eapply idisj_sub; [eapply Hg; [by left|done]|eapply Hg; [by right|done]|].
  apply Hx. by apply list_elem_of_fmap_2.
Qed.

(** Cutting an interval in two, and joining two neighbours. *)
Lemma disj_split a n1 n2 l :
  0 < n1 → 0 < n2 → disj ((a, n1 + n2) :: l) → disj ((a, n1) :: (a + n1, n2) :: l).
Proof.
  intros H1 H2. rewrite !disj_cons. unfold idisj. setoid_rewrite elem_of_cons. simpl.
  intros [Ha Hl]. split_and!; [|intros y Hy; specialize (Ha y Hy); lia|done].
  intros y [->|Hy]; simpl; [lia|]. specialize (Ha y Hy). lia.
Qed.

Lemma disj_join a n1 n2 l :
  0 < n1 → 0 < n2 → (∀ y, y ∈ l → 0 < y.2) →
  disj ((a, n1) :: (a + n1, n2) :: l) → disj ((a, n1 + n2) :: l).
Proof.
  intros H1 H2 Hpos. rewrite !disj_cons. unfold idisj. setoid_rewrite elem_of_cons. simpl.
  intros (Ha & Hb & Hl). split; [|done]. intros y Hy.
  specialize (Ha y (or_intror Hy)). specialize (Hb y Hy). specialize (Hpos y Hy). lia.
Qed.

Lemma icovers_split a n1 n2 l x :
  0 <= n1 → 0 <= n2 →
  icovers ((a, n1 + n2) :: l) x ↔ icovers ((a, n1) :: (a + n1, n2) :: l) x.
Proof.
  intros. rewrite !icovers_cons. simpl.
  split; [intros [?|?]|intros [?|[?|?]]]; try tauto; destruct (decide (x < a + n1)); tauto || lia.
Qed.

(** ** Linked lists *)

(** From [h], following [next] fields, come the nodes [l] and then [t]. *)
Fixpoint seg (m : Mem) (off h : Z) (l : list Z) (t : Z) : Prop :=
  match l with
  | [] => h = t
  | a :: l => h = a ∧ a ≠ 0 ∧ ∃ v, m !! (a + off) = Some v ∧ seg m off v l t
  end.

Lemma seg_app m off h l1 l2 t :
  seg m off h (l1 ++ l2) t ↔ ∃ c, seg m off h l1 c ∧ seg m off c l2 t.
Proof.
  revert h. induction l1 as [|a l1 IH]; intros h; simpl.
  - split; [eauto|]. by intros (c & -> & H).
  - split.
    + intros (-> & Ha & v & Hv & (c & H1 & H2)%IH). exists c. eauto 10.
    + intros (c & (-> & Ha & v & Hv & H1) & H2). split_and!; [done..|].
      exists v. split; [done|]. apply IH. eauto.
Qed.

Lemma seg_frame m m' off h l t :
  (∀ a, a ∈ l → m' !! (a + off) = m !! (a + off)) →
  seg m off h l t → seg m' off h l t.
Proof.
  revert h. induction l as [|a l IH]; intros h Hm; simpl; [done|].
  intros (-> & Ha & v & Hv & Hs). split_and!; [done..|]. exists v.
  rewrite Hm by (by left). split; [done|]. apply IH; [|done]. intros. apply Hm. by right.
Qed.

(** The location [prev] points to after the nodes [l] have been passed:
    [None] is the head of the list, [Some p] the [next] field at [p]. *)
Definition prev_of (off : Z) (l : list Z) : option Z := (λ a, a + off) <$> last l.

(** The effect of [*prev = v] on the head and the memory. *)
Definition set_prev (prev : option Z) (v h : Z) (m : Mem) : Z * Mem :=
  match prev with
  | None => (v, m)
  | Some p => (h, <[p := v]> m)
  end.

Lemma prev_of_snoc off l a : prev_of off (l ++ [a]) = Some (a + off).
Proof. unfold prev_of. by rewrite last_snoc. Qed.

Lemma seg_set_prev m off h l c v :
  NoDup l → seg m off h l c →
  let '(h', m') := set_prev (prev_of off l) v h m in
  seg m' off h' l v ∧
  ∀ p, (∀ a, a ∈ l → p ≠ a + off) → m' !! p = m !! p.
Proof.
  intros Hnd Hs. destruct l as [|a l' _] using rev_ind.
  - done.
  - rewrite prev_of_snoc. simpl. apply NoDup_app in Hnd as (_ & Hnd & _).
    apply seg_app in Hs as (c' & Hs & -> & Ha & w & Hw & ->). split.
    + apply seg_app. exists a. split.
      * eapply seg_frame; [|done]. intros b Hb. rewrite lookup_insert_ne; [done|].
        specialize (Hnd b Hb). rewrite list_elem_of_singleton in Hnd. lia.
      * simpl. split_and!; [done..|]. exists v. by rewrite lookup_insert_eq.
    + intros p Hp. rewrite lookup_insert_ne; [done|].
      specialize (Hp a). rewrite elem_of_app, list_elem_of_singleton in Hp.
      intros <-. by apply Hp; [right|].
Qed.

(** Unlinking: the list is [l1] followed by what [v] points to. *)
Lemma relink m off h l1 c v l2 :
  NoDup (l1 ++ l2) → seg m off h l1 c → seg m off v l2 0 →
  let '(h', m') := set_prev (prev_of off l1) v h m in
  seg m' off h' (l1 ++ l2) 0 ∧
  ∀ p, (∀ a, a ∈ l1 → p ≠ a + off) → m' !! p = m !! p.
Proof.
  intros (Hnd & Hd & _)%NoDup_app H1 H2. pose proof (seg_set_prev m off h l1 c v Hnd H1) as H.
  destruct (set_prev _ v h m) as [h' m']. destruct H as [H Hm]. split; [|done].
  apply seg_app. exists v. split; [done|]. eapply seg_frame; [|done].
  intros a Ha. apply Hm. intros b Hb. specialize (Hd b Hb). intros E. apply Hd.
  by replace b with a by lia.
Qed.

(** The nodes of a list are cells of the memory, so the number of cells bounds
    the length of the walk. *)
Lemma seg_length m off h l t : NoDup l → seg m off h l t → (length l <= size m)%nat.
Proof.
  intros Hnd Hs.
  assert (list_to_set ((λ a, a + off) <$> l) ⊆ dom m) as Hsub.
  { clear Hnd. revert h Hs. induction l as [|a l IH]; intros h; simpl; [set_solver|].
    intros (_ & _ & v & Hv & Hs). apply elem_of_dom_2 in Hv. set_solver. }
  apply subseteq_size in Hsub. rewrite size_dom, size_list_to_set in Hsub.
  - by rewrite length_fmap in Hsub.
  - apply NoDup_fmap_2_strong; [|done]. intros; lia.
Qed.

End FreeList.
