(* ===== verification/Slab.v ===== *)
(** * The page slab (src/kernel/src/allocators/slab.rs)

    [PageSlab] serves allocations that are not a power of two from blocks it
    gets from the buddy allocator.  Every block keeps a linked list of
    [FreeRange] headers in its own free memory: at address [p] the field
    [next], at [p + 8] the field [count].  [VirtAddr::new] is the parameter
    [virt_new], [None] where it panics. *)

From S2P Require Import Prelude FreeList.
Import FreeList.

Module Slab.

Record BlockInfo := mkBlock {
  phys_base : Z;
  total_blocks : Z;
  allocated_blocks : Z;
  free_list : Z;
  used : bool
}.

Record PageSlab := mkSlab {
  blocks : list BlockInfo;
  block_count : nat;
  offset : Z;
  block_size : Z
}.

Definition new (MAX_BLOCKS : nat) (block_size : Z) : PageSlab :=
  mkSlab (replicate MAX_BLOCKS (mkBlock 0 0 0 0 false)) 0 0 block_size.

Definition set_offset (sl : PageSlab) (off : Z) : PageSlab :=
  mkSlab (blocks sl) (block_count sl) off (block_size sl).

Definition set_block (sl : PageSlab) (i : nat) (b : BlockInfo) : PageSlab :=
  mkSlab (<[i := b]> (blocks sl)) (block_count sl) (offset sl) (block_size sl).

Definition with_free_list (b : BlockInfo) (v : Z) : BlockInfo :=
  mkBlock (phys_base b) (total_blocks b) (allocated_blocks b) v (used b).
Definition with_allocated (b : BlockInfo) (v : Z) : BlockInfo :=
  mkBlock (phys_base b) (total_blocks b) v (free_list b) (used b).
Definition with_used (b : BlockInfo) (v : bool) : BlockInfo :=
  mkBlock (phys_base b) (total_blocks b) (allocated_blocks b) (free_list b) v.

(** The test of [find_block] on one block. *)
Definition in_block (sl : PageSlab) (addr : Z) (b : BlockInfo) : bool :=
  used b &&
  let e := phys_base b ⊞ (total_blocks b ⊠ block_size sl) in
  (phys_base b <=? addr) && (addr <? e).

(** The index of the first element of [l] (from index [i] on) that passes. *)
Fixpoint position {A} (f : A → bool) (l : list A) (i : nat) : option nat :=
  match l with
  | [] => None
  | x :: l => if f x then Some i else position f l (S i)
  end.

Definition find_block (sl : PageSlab) (addr : Z) : option nat :=
  position (in_block sl addr) (take (block_count sl) (blocks sl)) 0.

Definition owns (sl : PageSlab) (addr : Z) : bool :=
  match find_block sl addr with Some _ => true | None => false end.

Section ops.
Context (virt_new : Z → option Z).

Abbreviation St := (PageSlab * Mem)%type.

Definition ptr {X} (p : Z) : K (X * Mem) Z :=
  match virt_new p with Some p => mret p | None => panic end.

(** [self.blocks[i]] and its assignment panic outside the array. *)
Definition get_block (i : nat) : K St BlockInfo := λ s,
  match blocks s.1 !! i with Some b => (Ok b, s) | None => (Panic, s) end.
Definition put_block (i : nat) (f : BlockInfo → BlockInfo) : K St unit := λ s,
  match blocks s.1 !! i with
  | Some b => (Ok tt, (set_block s.1 i (f b), s.2))
  | None => (Panic, s)
  end.

(** [*prev_field = v]: the head of the list of block [idx], or a [next] field. *)
Definition write_prev (idx : nat) (prev : option Z) (v : Z) : K St unit :=
  match prev with
  | None => put_block idx (λ b, with_free_list b v)
  | Some p => store p v
  end.

(** The [while] loop of [alloc_in_block]; the fuel bounds the list walk. *)
Fixpoint alloc_in_block_loop (fuel : nat) (idx : nat) (count : Z)
    (prev : option Z) (current : Z) : K St (option Z) :=
  match fuel with
  | O => lift Loop
  | S fuel =>
      if current =? 0 then mret None
      else
        off ← gets (λ s, offset s.1);
        bs ← gets (λ s, block_size s.1);
        p ← ptr (current ⊞ off);
        rcount ← load (p + 8);
        rnext ← load p;
        if count <=? rcount then
          (if rcount =? count then write_prev idx prev rnext
           else
             let split := current ⊞ (count ⊠ bs) in
             q ← ptr (split ⊞ off);
             store q rnext;; store (q + 8) (u32 (rcount - u32 count));;
             write_prev idx prev split);;
          put_block idx (λ b, with_allocated b (u32 (allocated_blocks b + u32 count)));;
          mret (Some current)
        else alloc_in_block_loop fuel idx count (Some p) rnext
  end.

Definition alloc_in_block (idx : nat) (count : Z) : K St (option Z) := λ s,
  (b ← get_block idx;
   alloc_in_block_loop (S (size s.2)) idx count None (free_list b)) s.

(** [for i in 0..block_count] of [allocate], [n] rounds from [i]. *)
Fixpoint allocate_from (n i : nat) (count : Z) : K St (option Z) :=
  match n with
  | O => mret None
  | S n =>
      b ← get_block i;
      if negb (used b) then allocate_from n (S i) count
      else
        r ← alloc_in_block i count;
        match r with
        | Some addr => mret (Some addr)
        | None => allocate_from n (S i) count
        end
  end.

Definition allocate (count : Z) : K St (option Z) :=
  n ← gets (λ s, block_count s.1);
  allocate_from n 0 count.

Definition free (addr count : Z) : K St (option (Z * Z)) :=
  o ← gets (λ s, find_block s.1 addr);
  match o with
  | None => mret None
  | Some idx =>
      b ← get_block idx;
      off ← gets (λ s, offset s.1);
      p ← ptr (addr ⊞ off);
      store p (free_list b);; store (p + 8) (u32 count);;
      put_block idx (λ b, with_free_list b addr);;
      b ← get_block idx;
      match checked_sub (allocated_blocks b) (u32 count) with
      | None => mret None
      | Some rem =>
          put_block idx (λ b, with_allocated b rem);;
          if negb (rem =? 0) then mret None
          else
            b ← get_block idx;
            put_block idx (λ b, with_used b false);;
            mret (Some (phys_base b, total_blocks b))
      end
  end.

Definition add_block (base total : Z) : K St bool :=
  sl ← gets fst;
  let o :=
    match position (λ b, negb (used b)) (take (block_count sl) (blocks sl)) 0 with
    | Some i => Some (i, block_count sl)
    | None =>
        if (block_count sl <? length (blocks sl))%nat
        then Some (block_count sl, S (block_count sl)) else None
    end in
  match o with
  | None => mret false
  | Some (idx, n) =>
      modify (λ s, (mkSlab (blocks s.1) n (offset s.1) (block_size s.1), s.2));;
      put_block idx (λ _, mkBlock base total 0 0 true);;
      off ← gets (λ s, offset s.1);
      p ← ptr (base ⊞ off);
      store p 0;; store (p + 8) total;;
      put_block idx (λ b, with_free_list b base);;
      mret true
  end.
End ops.

(** ** Invariant

    A ghost record describes each block in use: where it is, its free ranges
    in list order, and the ranges handed out.  Ranges are (address, count). *)

Record SlabGhost := mkGhost {
  sg_base : Z;
  sg_order : Z;
  sg_free : list (Z * Z);
  sg_live : list (Z * Z)
}.

Definition sum_counts (l : list (Z * Z)) : Z := foldr (λ r n, r.2 + n) 0 l.

Section invariant.
Context (virt_new : Z → option Z) (off LO HI U : Z).

(** What the operations need of the memory that is managed: it does not
    contain address 0, adding the offset does not overflow, and the resulting
    addresses are accepted by [VirtAddr::new].  A range of one unit has room
    for the two fields of [FreeRange]. *)
Class Arena : Prop := {
  arena_virt a : LO <= a < HI → virt_new (a + off) = Some (a + off);
  arena_lo : 0 < LO;
  arena_off : 0 <= off;
  arena_hi : HI + off < 18446744073709551616;
  arena_unit : 16 <= U < 4294967296
}.

Definition range_iv (r : Z * Z) : Z * Z := (r.1, r.2 * U).
Definition slab_iv (sg : SlabGhost) : Z * Z := (sg_base sg, 2 ^ sg_order sg * U).

Definition range_ok (sg : SlabGhost) (r : Z * Z) : Prop :=
  0 < r.2 ∧ (U | r.1) ∧ sg_base sg <= r.1 ∧
  r.1 + r.2 * U <= sg_base sg + 2 ^ sg_order sg * U.

(** The free and the live ranges partition the block. *)
Definition slab_ok (sg : SlabGhost) : Prop :=
  LO <= sg_base sg ∧ sg_base sg + 2 ^ sg_order sg * U <= HI ∧
  0 <= sg_order sg < 32 ∧
  Forall (range_ok sg) (sg_free sg ++ sg_live sg) ∧
  disj (range_iv <$> sg_free sg ++ sg_live sg) ∧
  sum_counts (sg_free sg ++ sg_live sg) = 2 ^ sg_order sg.

Definition slab_rel (m : Mem) (b : BlockInfo) (sg : SlabGhost) : Prop :=
  used b = true ∧ phys_base b = sg_base sg ∧ total_blocks b = 2 ^ sg_order sg ∧
  allocated_blocks b = sum_counts (sg_live sg) ∧
  seg m off (free_list b) (sg_free sg).*1 0 ∧
  Forall (λ r, m !! (r.1 + off + 8) = Some r.2) (sg_free sg).

(** [m'] differs from [m] only inside the interval. *)
Definition only_in (i : Z * Z) (m m' : Mem) : Prop :=
  ∀ p, p < i.1 + off ∨ i.1 + i.2 + off <= p → m' !! p = m !! p.

Context `{Ar : Arena}.

Lemma arena_ptr {X} a (s : X * Mem) :
  LO <= a < HI → ptr virt_new (a ⊞ off) s = (Ok (a + off), s).
Proof.
  intros Ha. destruct Ar. unfold ptr. rewrite u64_small by (unfold in_u64; lia).
  by rewrite arena_virt0.
Qed.

Lemma sum_counts_app l1 l2 : sum_counts (l1 ++ l2) = sum_counts l1 + sum_counts l2.
Proof. induction l1 as [|r l1 IH]; simpl; lia. Qed.

#[export] Instance sum_counts_perm : Proper ((≡ₚ) ==> (=)) sum_counts.
Proof. induction 1; simpl; lia. Qed.

Lemma slab_ok_perm sg free live :
  sg_free sg ++ sg_live sg ≡ₚ free ++ live →
  slab_ok sg → slab_ok (mkGhost (sg_base sg) (sg_order sg) free live).
Proof.
  intros Hp (H1 & H2 & H3 & H4 & H5 & H6). unfold slab_ok, range_ok in *. simpl.
  split_and!; [lia..| | |]; by rewrite <- Hp.
Qed.

(** Cutting [count] units off a free range. *)
Definition rest (a c count : Z) : list (Z * Z) :=
  if c =? count then [] else [(a + count * U, c - count)].

Lemma carve_ok base order l1 a c l2 live count :
  slab_ok (mkGhost base order (l1 ++ (a, c) :: l2) live) → 0 < count <= c →
  slab_ok (mkGhost base order (l1 ++ rest a c count ++ l2) ((a, count) :: live)).
Proof.
  intros (H1 & H2 & H3 & H4 & H5 & H6) Hc. unfold slab_ok. simpl in *. destruct Ar.
  assert ((l1 ++ (a, c) :: l2) ++ live ≡ₚ (a, c) :: (l1 ++ l2) ++ live) as Hp
    by (by rewrite <- Permutation_middle).
  assert ((l1 ++ rest a c count ++ l2) ++ (a, count) :: live ≡ₚ
    (a, count) :: rest a c count ++ (l1 ++ l2) ++ live) as Hp'.
  { rewrite <- Permutation_middle. f_equiv. rewrite !app_assoc.
    by rewrite (Permutation_app_comm l1 (rest a c count)). }
  rewrite Hp in H4, H5, H6. split_and!; [lia..| | |]; rewrite Hp'.
  all: unfold rest; destruct (c =? count) eqn:E; zb; subst; simpl; [done|].
  - inversion_clear H4 as [|?? (G1 & [k Hk] & G3 & G4) G]. unfold range_ok in *. simpl in *.
    assert ((count + 1) * U <= c * U) by (apply Z.mul_le_mono_nonneg_r; lia).
    assert (0 < count * U) by (apply Z.mul_pos_pos; lia).
    constructor; [|constructor; [|done]]; simpl; split_and!; try lia; [by exists k|].
    exists (k + count). lia.
  - unfold range_iv in *. simpl in *.
    replace (c * U) with (count * U + (c - count) * U) in H5 by lia.
    apply disj_split; [nia..|done].
  - simpl in H6. lia.
Qed.

Lemma range_bounds sg r : slab_ok sg → r ∈ sg_free sg ++ sg_live sg → range_ok sg r.
Proof. intros (_ & _ & _ & H & _) Hr. rewrite Forall_forall in H. auto. Qed.

(** The headers of two free ranges do not overlap. *)
Lemma headers_apart sg r r' :
  slab_ok sg → r ∈ sg_free sg ++ sg_live sg → r' ∈ sg_free sg ++ sg_live sg →
  r = r' ∨ r.1 + 16 <= r'.1 ∨ r'.1 + 16 <= r.1.
Proof.
  intros Hok Hr Hr'. pose proof (range_bounds sg r Hok Hr) as (H1 & _ & _ & _).
  pose proof (range_bounds sg r' Hok Hr') as (H1' & _ & _ & _). destruct Ar.
  destruct Hok as (_ & _ & _ & _ & Hd & _).
  apply (list_elem_of_fmap_2 range_iv) in Hr, Hr'.
  destruct (disj_pair _ _ _ Hd Hr Hr') as [E|E]; unfold range_iv in E.
  - left. destruct r as [a c], r' as [a' c']. simpl in *. simplify_eq. f_equal. nia.
  - right. unfold idisj in E. simpl in E. nia.
Qed.

Lemma slab_NoDup sg : slab_ok sg → NoDup (sg_free sg ++ sg_live sg).*1.
Proof.
  intros Hok. destruct (Hok) as (_ & _ & _ & Hr & Hd & _).
  replace ((sg_free sg ++ sg_live sg).*1) with ((range_iv <$> sg_free sg ++ sg_live sg).*1)
    by (rewrite <- list_fmap_compose; by apply list_fmap_ext).
  apply disj_NoDup; [done|]. intros x (r & -> & Hin)%list_elem_of_fmap.
  destruct (range_bounds sg r Hok Hin) as (H1 & _). destruct Ar. simpl. nia.
Qed.

Lemma free_NoDup sg : slab_ok sg → NoDup (sg_free sg).*1.
Proof. intros H%slab_NoDup. rewrite fmap_app in H. by apply NoDup_app in H as [H _]. Qed.

Lemma carve_rel base order l1 a c l2 live count m h rnext :
  slab_ok (mkGhost base order (l1 ++ (a, c) :: l2) live) → 0 < count <= c →
  seg m off h l1.*1 a → m !! (a + off) = Some rnext → seg m off rnext l2.*1 0 → a ≠ 0 →
  Forall (λ r, m !! (r.1 + off + 8) = Some r.2) (l1 ++ (a, c) :: l2) →
  let v := if c =? count then rnext else a + count * U in
  let m1 := if c =? count then m
            else <[v + off + 8 := c - count]> (<[v + off := rnext]> m) in
  let '(h', m') := set_prev (prev_of off l1.*1) v h m1 in
  seg m' off h' (l1 ++ rest a c count ++ l2).*1 0 ∧
  Forall (λ r, m' !! (r.1 + off + 8) = Some r.2) (l1 ++ rest a c count ++ l2) ∧
  only_in (base, 2 ^ order * U) m m'.
Proof.
  intros Hok Hc H1 Ha H2 Ha0 Hcnt v m1. rewrite Forall_forall in Hcnt.
  pose proof (carve_ok _ _ _ _ _ _ _ _ Hok Hc) as Hok'.
  set (sg' := mkGhost base order (l1 ++ rest a c count ++ l2) ((a, count) :: live)) in *.
  pose proof (headers_apart sg') as Hap. pose proof (range_bounds sg') as Hb.
  pose proof (free_NoDup _ Hok') as Hnd. simpl in Hap, Hnd, Hb.
  assert (∀ x, x ∈ l1 ++ rest a c count ++ l2 →
    x ∈ (l1 ++ rest a c count ++ l2) ++ (a, count) :: live) as Hin by (intros; set_solver).
  assert (∀ x, x ∈ l1 ++ l2 → m1 !! (x.1 + off) = m !! (x.1 + off) ∧
    m1 !! (x.1 + off + 8) = m !! (x.1 + off + 8)) as Hm1.
  { intros x Hx. subst m1 v. unfold rest in *. destruct (c =? count) eqn:E; [done|]. zb.
    assert (x ≠ (a + count * U, c - count)).
    { intros ->. rewrite fmap_app in Hnd. apply NoDup_app in Hnd as (_ & Hn1 & Hn2).
      simpl in Hn1, Hn2. inversion_clear Hn2 as [|?? Hn3 _].
      apply elem_of_app in Hx as [Hx|Hx]; apply (list_elem_of_fmap_2 fst) in Hx; [|done].
      apply (Hn1 _ Hx). by left. }
    destruct (Hap x (a + count * U, c - count)) as [|Hx']; [done|set_solver|set_solver|done|].
    simpl in Hx'. rewrite !lookup_insert_ne by lia. done. }
  assert (seg m1 off v (rest a c count ++ l2).*1 0) as H3.
  { rewrite fmap_app. assert (seg m1 off rnext l2.*1 0) as Hs.
    { eapply seg_frame; [|exact H2]. intros x (r & -> & Hr)%list_elem_of_fmap.
      apply Hm1. set_solver. }
    subst m1 v. unfold rest. destruct (c =? count) eqn:E; [done|]. simpl.
    split_and!; [done| |]. { zb. destruct (Hb (a + count * U, c - count)) as (_ & _ & G & _);
      [done|unfold rest; rewrite (proj2 (Z.eqb_neq _ _) E); set_solver|].
      destruct Hok as (G' & _), Ar. simpl in *. lia. }
    exists rnext. split; [|done]. rewrite lookup_insert_ne, lookup_insert_eq by lia. done. }
  assert (seg m1 off h l1.*1 a) as H4.
  { eapply seg_frame; [|exact H1]. intros x (r & -> & Hr)%list_elem_of_fmap.
    apply Hm1. set_solver. }
  rewrite fmap_app in Hnd. pose proof (relink m1 off h l1.*1 a v _ Hnd H4 H3) as Hrel.
  destruct (set_prev (prev_of off l1.*1) v h m1) as [h' m']. destruct Hrel as [Hs Hm'].
  rewrite <- fmap_app in Hs. split_and!; [done| |].
  - apply Forall_forall. intros r Hr. rewrite Hm'.
    + apply elem_of_app in Hr as [Hr|Hr]; [|apply elem_of_app in Hr as [Hr|Hr]].
      * rewrite (proj2 (Hm1 r ltac:(set_solver))). apply Hcnt. set_solver.
      * subst m1 v. unfold rest in Hr. destruct (c =? count) eqn:E; [by apply elem_of_nil in Hr|].
        apply list_elem_of_singleton in Hr as ->. simpl. by rewrite lookup_insert_eq.
      * rewrite (proj2 (Hm1 r ltac:(set_solver))). apply Hcnt. set_solver.
    + intros x (r' & -> & Hr')%list_elem_of_fmap.
      destruct (Hap r r') as [->|]; [done|by apply Hin|apply Hin; set_solver|lia|lia].
  - intros p Hp. simpl in Hp. destruct Ar. rewrite Hm'.
    + subst m1 v. destruct (c =? count) eqn:E; [done|]. zb.
      destruct (Hb (a + count * U, c - count)) as (_ & _ & G1 & G2); [done|unfold rest;
        rewrite (proj2 (Z.eqb_neq _ _) E); set_solver|]. simpl in *.
      rewrite !lookup_insert_ne by nia. done.
    + intros x (r & -> & Hr)%list_elem_of_fmap.
      destruct (Hb r) as (G0 & _ & G1 & G2); [done|set_solver|]. simpl in *. nia.
Qed.

Lemma sb_id sl i b : blocks sl !! i = Some b → set_block sl i b = sl.
Proof. intros H. destruct sl as [l n o u]. unfold set_block. simpl in *. by rewrite list_insert_id. Qed.

Lemma sb_twice sl i b b' : set_block (set_block sl i b) i b' = set_block sl i b'.
Proof. unfold set_block. simpl. by rewrite list_insert_insert_eq. Qed.

Lemma sb_lookup sl i b b' :
  blocks sl !! i = Some b → blocks (set_block sl i b') !! i = Some b'.
Proof. intros H%lookup_lt_Some. by apply list_lookup_insert_eq. Qed.

Lemma put_block_eq sl m i b f :
  blocks sl !! i = Some b → put_block i f (sl, m) = (Ok tt, (set_block sl i (f b), m)).
Proof. intros H. unfold put_block. simpl. by rewrite H. Qed.

Lemma get_block_eq sl m i b :
  blocks sl !! i = Some b → get_block i (sl, m) = (Ok b, (sl, m)).
Proof. intros H. unfold get_block. simpl. by rewrite H. Qed.

Lemma write_prev_eq sl m i b prev v :
  blocks sl !! i = Some b →
  write_prev i prev v (sl, m) =
    (Ok tt, (set_block sl i (with_free_list b (set_prev prev v (free_list b) m).1),
             (set_prev prev v (free_list b) m).2)).
Proof.
  intros H. unfold write_prev. destruct prev as [p|]; simpl.
  - unfold store, modify. simpl. destruct b. unfold with_free_list. simpl. by rewrite sb_id.
  - by erewrite put_block_eq.
Qed.

Lemma sum_counts_nonneg l : Forall (λ r : Z * Z, 0 < r.2) l → 0 <= sum_counts l.
Proof. induction 1; simpl; lia. Qed.

Lemma live_total sg : slab_ok sg →
  0 <= sum_counts (sg_free sg) ∧ 0 <= sum_counts (sg_live sg) ∧
  sum_counts (sg_free sg) + sum_counts (sg_live sg) = 2 ^ sg_order sg.
Proof.
  intros (_ & _ & _ & Hr & _ & Hs). rewrite sum_counts_app in Hs.
  apply Forall_app in Hr as [Hr1 Hr2]. split_and!; [| |done].
  - apply sum_counts_nonneg. eapply Forall_impl; [exact Hr1|]. by intros r [? _].
  - apply sum_counts_nonneg. eapply Forall_impl; [exact Hr2|]. by intros r [? _].
Qed.

Lemma order_u32 sg : slab_ok sg → 1 <= 2 ^ sg_order sg < 4294967296.
Proof.
  intros (_ & _ & Ho & _). change 4294967296 with (2 ^ 32).
  pose proof (Z.pow_pos_nonneg 2 (sg_order sg) ltac:(lia) ltac:(lia)).
  split; [lia|]. apply Z.pow_lt_mono_r; lia.
Qed.

(** What a successful allocation of [count] units in block [sg] does. *)
Definition alloc_effect (sl : PageSlab) (m : Mem) (idx : nat) (sg : SlabGhost)
    (count a : Z) (s' : PageSlab * Mem) : Prop :=
  ∃ b' sg' m', s' = (set_block sl idx b', m') ∧ slab_rel m' b' sg' ∧ slab_ok sg' ∧
    slab_iv sg' = slab_iv sg ∧ sg_order sg' = sg_order sg ∧
    sg_live sg' = (a, count) :: sg_live sg ∧ only_in (slab_iv sg) m m'.

Lemma alloc_hit fuel idx count sl m b sg l1 a c l2 :
  blocks sl !! idx = Some b → slab_rel m b sg → slab_ok sg →
  sg_free sg = l1 ++ (a, c) :: l2 → offset sl = off → block_size sl = U → 0 < count <= c →
  ∃ s', alloc_in_block_loop virt_new (S fuel) idx count (prev_of off l1.*1) a (sl, m) =
      (Ok (Some a), s') ∧ alloc_effect sl m idx sg count a s'.
Proof.
  intros Hb (R1 & R2 & R3 & R4 & R5 & R6) Hok Hf Hoff HU Hc.
  destruct sg as [base order free live]. simpl in *. subst free.
  rewrite fmap_app in R5. apply seg_app in R5 as (a' & S1 & -> & Ha0 & rnext & Hn & S2).
  cbn [fst] in *.
  pose proof (carve_rel _ _ _ _ _ _ _ _ _ _ _ Hok Hc S1 Hn S2 Ha0 R6) as Hrel.
  pose proof (carve_ok _ _ _ _ _ _ _ _ Hok Hc) as Hok'.
  pose proof (live_total _ Hok') as (Hlt1 & Hlt2 & Hlt). pose proof (order_u32 _ Hok') as Ho32.
  cbn [sg_free sg_live sg_order] in Hlt, Hlt1, Hlt2, Ho32.
  destruct (range_bounds _ (a, c) Hok) as (_ & _ & Bl & Bh); [set_solver|]. simpl in Bl, Bh.
  destruct (Hok) as (B1 & B2 & _). simpl in B1, B2. destruct Ar as [Avirt Alo Aoff Ahi AU].
  assert (c <= 2 ^ order) by nia.
  rewrite Forall_forall in R6. pose proof (R6 (a, c) ltac:(set_solver)) as Hcell. simpl in Hcell.
  cbn [alloc_in_block_loop]. destruct (a =? 0) eqn:E; zb; [done|]. rewrite !gets_bind.
  cbn [fst]. rewrite Hoff, HU. assert (0 < c * U) by (apply Z.mul_pos_pos; lia).
  erewrite (bind_Ok (ptr _ _)) by (apply arena_ptr; lia).
  unfold load. rewrite !gets_bind. cbn [snd]. rewrite Hcell, Hn. cbn [default from_option id].
  destruct (count <=? c) eqn:E2; zb; [|lia].
  cbv zeta. cbv zeta in Hrel. set (v := if c =? count then rnext else a + count * U) in *.
  set (m1 := if c =? count then m else <[v + off + 8:=c - count]> (<[v + off:=rnext]> m)) in *.
  assert (∀ X, ((if c =? count then write_prev idx (prev_of off l1.*1) rnext
     else q ← ptr virt_new ((a ⊞ (count ⊠ U)) ⊞ off);
          store q rnext;; store (q + 8) (u32 (c - u32 count));;
          write_prev idx (prev_of off l1.*1) (a ⊞ (count ⊠ U))) ≫= X) (sl, m) =
    (write_prev idx (prev_of off l1.*1) v ≫= X) (sl, m1) :> (res Empty_set (option Z) * _)) as ->.
  { intros X. subst m1 v. destruct (c =? count) eqn:E3; [done|]. zb.
    assert (0 < count * U) by (apply Z.mul_pos_pos; lia).
    assert ((count + 1) * U <= c * U) by (apply Z.mul_le_mono_nonneg_r; lia).
    rewrite (u64_small (count * U)), (u64_small (a + count * U)) by (unfold in_u64; lia).
    unfold mbind at 1, M_bind at 1.
    erewrite (bind_Ok (ptr _ _)) by (apply arena_ptr; lia).
    unfold store at 1 2. rewrite !modify_bind. simpl.
    rewrite (u32_small count), (u32_small (c - count)) by (unfold in_u32; lia). done. }
  erewrite (bind_Ok (write_prev _ _ _)) by (by apply write_prev_eq).
  destruct (set_prev (prev_of off l1.*1) v (free_list b) m1) as [h' m'].
  destruct Hrel as (Hs & Hcnt & Hfr). simpl.
  erewrite (bind_Ok (put_block _ _)) by (apply put_block_eq; by eapply sb_lookup).
  rewrite sb_twice. eexists. split; [reflexivity|].
  eexists _, (mkGhost base order (l1 ++ rest a c count ++ l2) ((a, count) :: live)), m'.
  split_and!; [done| |done..]. unfold slab_rel. simpl. split_and!; [done..| |done|done].
  change (sum_counts ((a, count) :: live)) with (count + sum_counts live) in *.
  assert (0 <= sum_counts live) by (by apply (live_total _ Hok)).
  rewrite R4, (u32_small count), u32_small by (unfold in_u32; lia). lia.
Qed.

Lemma alloc_loop_spec fuel idx count sl m b sg l1 l2 cur :
  blocks sl !! idx = Some b → slab_rel m b sg → slab_ok sg →
  sg_free sg = l1 ++ l2 → offset sl = off → block_size sl = U → 0 < count →
  (length l2 < fuel)%nat → seg m off cur l2.*1 0 →
  (alloc_in_block_loop virt_new fuel idx count (prev_of off l1.*1) cur (sl, m) =
     (Ok None, (sl, m)) ∧ Forall (λ r, r.2 < count) l2) ∨
  ∃ a s', alloc_in_block_loop virt_new fuel idx count (prev_of off l1.*1) cur (sl, m) =
      (Ok (Some a), s') ∧ alloc_effect sl m idx sg count a s'.
Proof.
  intros Hb Hrel Hok Hf Hoff HU Hc. revert fuel l1 cur Hf.
  induction l2 as [|[a c] l2 IH]; intros fuel l1 cur Hf Hlen Hs;
    (destruct fuel as [|fuel]; simpl in Hlen; [lia|]).
  { simpl in Hs. subst. left. by cbn. }
  simpl in Hs. destruct Hs as (-> & Ha0 & rnext & Hn & Hs).
  destruct (decide (count <= c)).
  { right. destruct (alloc_hit fuel idx count sl m b sg l1 a c l2) as (s' & E & H); [done..|].
    by exists a, s'. }
  assert ((a, c) ∈ sg_free sg) as Hin by (rewrite Hf; set_solver).
  destruct (range_bounds _ (a, c) Hok) as (G0 & _ & Bl & Bh); [set_solver|].
  destruct (Hok) as (B1 & B2 & _). destruct (Hrel) as (_ & _ & _ & _ & _ & R6).
  rewrite Forall_forall in R6. pose proof (R6 _ Hin) as Hcell. simpl in Hcell, Bl, Bh, G0.
  destruct (Ar) as [Avirt Alo Aoff Ahi AU].
  cbn [alloc_in_block_loop]. destruct (a =? 0) eqn:E; zb; [done|]. rewrite !gets_bind.
  cbn [fst]. rewrite Hoff, HU. assert (0 < c * U) by (apply Z.mul_pos_pos; lia).
  erewrite (bind_Ok (ptr _ _)) by (apply arena_ptr; lia).
  unfold load. rewrite !gets_bind. cbn [snd]. rewrite Hcell, Hn. cbn [default from_option id].
  destruct (count <=? c) eqn:E2; zb; [lia|].
  specialize (IH fuel (l1 ++ [(a, c)]) rnext). rewrite fmap_app in IH. simpl in IH.
  rewrite prev_of_snoc in IH. destruct IH as [[E' H']|H'];
    [by rewrite <- app_assoc|lia|done|left|by right].
  split; [done|]. by constructor; [simpl; lia|].
Qed.

Lemma alloc_in_block_spec idx count sl m b sg :
  blocks sl !! idx = Some b → slab_rel m b sg → slab_ok sg →
  offset sl = off → block_size sl = U → 0 < count →
  (alloc_in_block virt_new idx count (sl, m) = (Ok None, (sl, m)) ∧
     Forall (λ r, r.2 < count) (sg_free sg)) ∨
  ∃ a s', alloc_in_block virt_new idx count (sl, m) = (Ok (Some a), s') ∧
    alloc_effect sl m idx sg count a s'.
Proof.
  intros Hb Hrel Hok Hoff HU Hc. unfold alloc_in_block.
  erewrite bind_Ok by (by apply get_block_eq). simpl snd.
  destruct (Hrel) as (_ & _ & _ & _ & Hs & _).
  apply (alloc_loop_spec _ idx count sl m b sg [] (sg_free sg)); try done.
  pose proof (seg_length _ _ _ _ _ (free_NoDup sg Hok) Hs) as Hl.
  rewrite length_fmap in Hl. lia.
Qed.

(** ** The array of blocks *)

Definition brel (m : Mem) (b : BlockInfo) (o : option SlabGhost) : Prop :=
  match o with
  | None => used b = false
  | Some sg => slab_rel m b sg
  end.

(** One ghost entry per array element below [block_count]. *)
Definition slabs_rel (m : Mem) (sl : PageSlab) (gs : list (option SlabGhost)) : Prop :=
  block_count sl = length gs ∧ (length gs <= length (blocks sl))%nat ∧
  offset sl = off ∧ block_size sl = U ∧
  ∀ i o, gs !! i = Some o → ∃ b, blocks sl !! i = Some b ∧ brel m b o.

(** The blocks in use. *)
Definition active (gs : list (option SlabGhost)) : list SlabGhost := omap id gs.

Definition slabs_ok (gs : list (option SlabGhost)) : Prop :=
  Forall slab_ok (active gs) ∧ disj (slab_iv <$> active gs).

Lemma active_update gs i o0 :
  gs !! i = Some o0 →
  ∃ R, active gs ≡ₚ option_list o0 ++ R ∧ ∀ o, active (<[i := o]> gs) ≡ₚ option_list o ++ R.
Proof.
  intros Hi. pose proof (lookup_lt_Some _ _ _ Hi) as Hlt.
  exists (active (take i gs) ++ active (drop (S i) gs)).
  assert (∀ o, active (take i gs ++ o :: drop (S i) gs) ≡ₚ
    option_list o ++ active (take i gs) ++ active (drop (S i) gs)) as H.
  { intros o. unfold active. rewrite omap_app.
    destruct o; simpl; [by rewrite <- Permutation_middle|done]. }
  split; [|intros o].
  - rewrite <- (take_drop_middle gs i o0 Hi) at 1. apply H.
  - rewrite insert_take_drop by done. apply H.
Qed.

Lemma active_elem gs i sg : gs !! i = Some (Some sg) → sg ∈ active gs.
Proof.
  intros H. unfold active. apply list_elem_of_omap. exists (Some sg).
  split; [by eapply list_elem_of_lookup_2|done].
Qed.

Lemma slabs_ok_lookup gs i sg : slabs_ok gs → gs !! i = Some (Some sg) → slab_ok sg.
Proof. intros [H _] Hi%active_elem. rewrite Forall_forall in H. auto. Qed.

(** Blocks at different indices do not overlap. *)
Lemma slabs_apart gs i j sg sg' :
  slabs_ok gs → gs !! i = Some (Some sg) → gs !! j = Some (Some sg') → i ≠ j →
  idisj (slab_iv sg) (slab_iv sg').
Proof.
  intros [_ Hd] Hi Hj Hne. destruct (active_update gs i _ Hi) as (R & HR & HN).
  specialize (HN None). rewrite HR in Hd. simpl in Hd. apply disj_cons in Hd as [Hd _].
  apply Hd, list_elem_of_fmap. exists sg'. split; [done|]. simpl in HN. rewrite <- HN.
  apply (active_elem _ j). by rewrite list_lookup_insert_ne.
Qed.

Lemma seg_only_in m m' i h l t :
  only_in i m m' → (∀ a, a ∈ l → a < i.1 ∨ i.1 + i.2 <= a) →
  seg m off h l t → seg m' off h l t.
Proof. intros Hm Hl. apply seg_frame. intros a Ha. apply Hm. specialize (Hl a Ha). lia. Qed.

Lemma brel_frame m m' i b o :
  only_in i m m' → (∀ sg, o = Some sg → slab_ok sg ∧ idisj i (slab_iv sg)) →
  brel m b o → brel m' b o.
Proof.
  intros Hm Ho. destruct o as [sg|]; [|done]. destruct (Ho sg eq_refl) as [Hok Hd].
  intros (R1 & R2 & R3 & R4 & R5 & R6).
  assert (∀ r, r ∈ sg_free sg → r.1 + 16 <= i.1 ∨ i.1 + i.2 <= r.1) as Hr.
  { intros r Hr. destruct (range_bounds sg r Hok) as (G0 & _ & G1 & G2); [set_solver|].
    destruct Ar. unfold idisj in Hd. simpl in Hd. nia. }
  split_and!; [done..| |].
  - eapply seg_only_in; [done| |done]. intros a (r & -> & Hin)%list_elem_of_fmap.
    specialize (Hr r Hin). lia.
  - rewrite Forall_forall in *. intros r Hin. rewrite Hm by (specialize (Hr r Hin); lia). auto.
Qed.

(** Replacing block [i], with writes only inside its memory. *)
Lemma slabs_rel_update m m' sl gs i iv b' o :
  slabs_rel m sl gs → slabs_ok gs → (i < length gs)%nat →
  (∀ j sg, gs !! j = Some (Some sg) → j ≠ i → idisj iv (slab_iv sg)) →
  only_in iv m m' → brel m' b' o →
  slabs_rel m' (set_block sl i b') (<[i := o]> gs).
Proof.
  intros (H1 & H2 & H3 & H4 & H5) Hok Hi Hd Hm Hb. unfold slabs_rel. simpl.
  rewrite !length_insert. split_and!; [done..|]. intros j oj Hj.
  destruct (decide (i = j)) as [<-|Hne].
  - rewrite list_lookup_insert_eq in Hj by done. simplify_eq.
    exists b'. rewrite list_lookup_insert_eq by lia. done.
  - rewrite list_lookup_insert_ne in Hj by done. destruct (H5 j oj Hj) as (b & E & Hbj).
    exists b. rewrite list_lookup_insert_ne by done. split; [done|].
    eapply brel_frame; [done| |done]. intros sg ->. split; [by eapply slabs_ok_lookup|].
    eapply Hd; [done|congruence].
Qed.

Lemma slabs_rel_frame m m' sl gs i :
  slabs_rel m sl gs → slabs_ok gs → only_in i m m' →
  (∀ sg, sg ∈ active gs → idisj i (slab_iv sg)) → slabs_rel m' sl gs.
Proof.
  intros (H1 & H2 & H3 & H4 & H5) Hok Hm Hd. split_and!; [done..|]. intros j oj Hj.
  destruct (H5 j oj Hj) as (b & E & Hbj). exists b. split; [done|].
  eapply brel_frame; [done| |done]. intros sg ->. split; [by eapply slabs_ok_lookup|].
  by eapply Hd, active_elem.
Qed.

(** [allocate] either finds no large enough range in any block, or cuts the
    range out of one block. *)
Lemma slab_allocate_from n i count sl m gs :
  slabs_rel m sl gs → slabs_ok gs → 0 < count → (i + n)%nat = length gs →
  (allocate_from virt_new n i count (sl, m) = (Ok None, (sl, m)) ∧
     ∀ j sg, (i <= j)%nat → gs !! j = Some (Some sg) → Forall (λ r, r.2 < count) (sg_free sg)) ∨
  ∃ a j sg sg' sl' m',
    allocate_from virt_new n i count (sl, m) = (Ok (Some a), (sl', m')) ∧
    gs !! j = Some (Some sg) ∧ slab_ok sg' ∧ slab_iv sg' = slab_iv sg ∧
    sg_order sg' = sg_order sg ∧ sg_live sg' = (a, count) :: sg_live sg ∧
    slabs_rel m' sl' (<[j := Some sg']> gs) ∧ only_in (slab_iv sg) m m'.
Proof.
  intros Hrel Hok Hc. revert i. induction n as [|n IH]; intros i Hi.
  { left. split; [done|]. intros j sg Hj Hl. apply lookup_lt_Some in Hl. lia. }
  destruct (Hrel) as (H1 & H2 & H3 & H4 & H5).
  destruct (lookup_lt_is_Some_2 gs i ltac:(lia)) as [o Ho].
  destruct (H5 i o Ho) as (b & Hb & Hbr). cbn [allocate_from].
  erewrite bind_Ok by (by apply get_block_eq). specialize (IH (S i) ltac:(lia)).
  assert (∀ P : SlabGhost → Prop, (∀ sg, o = Some sg → P sg) →
    (∀ j sg, (S i <= j)%nat → gs !! j = Some (Some sg) → P sg) →
    ∀ j sg, (i <= j)%nat → gs !! j = Some (Some sg) → P sg) as Hall.
  { intros P Hs Hj j sg Hij Hl. destruct (decide (j = i)) as [->|];
      [apply Hs; congruence|apply (Hj j); [lia|done]]. }
  destruct o as [sg|]; simpl in Hbr.
  - destruct (Hbr) as [-> _]. cbn [negb].
    pose proof (slabs_ok_lookup _ _ _ Hok Ho) as Hsok.
    destruct (alloc_in_block_spec i count sl m b sg) as [[E HF]|(a & s' & E & He)]; [done..| |].
    + erewrite bind_Ok by exact E. destruct IH as [[E' IH]|IH]; [left|by right].
      split; [done|]. apply Hall; [|done]. by intros ? [= <-].
    + right. destruct He as (b' & sg' & m' & -> & R & O & I & Or & L & F).
      exists a, i, sg, sg', (set_block sl i b'), m'.
      erewrite bind_Ok by exact E. split_and!; try done.
      eapply slabs_rel_update; [done..|lia| |done|done].
      intros j sg'' Hj Hne. apply (slabs_apart gs i j); [done..|congruence].
  - rewrite Hbr. cbn [negb]. destruct IH as [[E' IH]|IH]; [left|by right].
    split; [done|]. by apply Hall.
Qed.

Lemma position_Some {A} (f : A → bool) l n i x :
  l !! i = Some x → f x = true → (∀ j y, l !! j = Some y → f y = true → j = i) →
  position f l n = Some (n + i)%nat.
Proof.
  revert n i. induction l as [|y l IH]; intros n i Hi Hf Hu; [done|]. simpl.
  destruct i as [|i]; simpl in Hi.
  - simplify_eq. rewrite Hf. f_equal. lia.
  - destruct (f y) eqn:E; [by specialize (Hu 0%nat y eq_refl E)|].
    rewrite (IH (S n) i); [f_equal; lia|done..|]. intros j z Hj Hz.
    specialize (Hu (S j) z Hj Hz). lia.
Qed.

Lemma position_inv {A} (f : A → bool) l n k :
  position f l n = Some k → ∃ i x, k = (n + i)%nat ∧ l !! i = Some x ∧ f x = true.
Proof.
  revert n. induction l as [|y l IH]; intros n; simpl; [done|].
  destruct (f y) eqn:E.
  - intros [= <-]. exists 0%nat, y. split_and!; [lia|done..].
  - intros (i & x & -> & Hi & Hx)%IH. exists (S i), x. split_and!; [lia|done..].
Qed.

Lemma position_None {A} (f : A → bool) l n :
  position f l n = None → ∀ i x, l !! i = Some x → f x = false.
Proof.
  revert n. induction l as [|y l IH]; intros n; simpl; [done|].
  destruct (f y) eqn:E; [done|]. intros H [|i] x Hi; simpl in Hi; [congruence|by eapply IH].
Qed.

Lemma in_block_spec m sl b o addr :
  block_size sl = U → brel m b o → (∀ sg, o = Some sg → slab_ok sg) →
  in_block sl addr b = true ↔
    ∃ sg, o = Some sg ∧ sg_base sg <= addr < sg_base sg + 2 ^ sg_order sg * U.
Proof.
  intros HU Hb Hok. unfold in_block. destruct o as [sg|]; simpl in Hb.
  - destruct Hb as (-> & -> & -> & _). rewrite HU. specialize (Hok sg eq_refl).
    pose proof (order_u32 sg Hok). destruct Hok as (G1 & G2 & _). destruct Ar.
    assert (0 < 2 ^ sg_order sg * U) by (apply Z.mul_pos_pos; lia).
    rewrite (u64_small (2 ^ sg_order sg * U)), u64_small by (unfold in_u64; lia).
    cbn [andb]. rewrite andb_true_iff, Z.leb_le, Z.ltb_lt. split.
    + intros [? ?]. by exists sg.
    + by intros (sg' & [= <-] & ?).
  - rewrite Hb. cbn [andb]. split; [done|]. by intros (sg & ? & _).
Qed.

Lemma slabs_ok_option gs i o :
  slabs_ok gs → gs !! i = Some o → ∀ sg, o = Some sg → slab_ok sg.
Proof. intros Hok Hi sg ->. by eapply slabs_ok_lookup. Qed.

Lemma slabs_rel_take m sl gs i b :
  slabs_rel m sl gs → take (block_count sl) (blocks sl) !! i = Some b →
  ∃ o, gs !! i = Some o ∧ brel m b o.
Proof.
  intros (H1 & H2 & _ & _ & H5) Hi. apply lookup_take_Some in Hi as [Hi Hlt].
  destruct (lookup_lt_is_Some_2 gs i ltac:(lia)) as [o Ho].
  destruct (H5 i o Ho) as (b' & Hb' & Hr). simplify_eq. by exists o.
Qed.

Lemma find_block_Some m sl gs i sg addr :
  slabs_rel m sl gs → slabs_ok gs → gs !! i = Some (Some sg) →
  sg_base sg <= addr < sg_base sg + 2 ^ sg_order sg * U → find_block sl addr = Some i.
Proof.
  intros Hrel Hok Hi Ha. destruct (Hrel) as (H1 & H2 & H3 & H4 & H5).
  destruct (H5 i _ Hi) as (b & Hb & Hbr). pose proof (lookup_lt_Some _ _ _ Hi).
  unfold find_block. rewrite (position_Some _ _ 0 i b); [done| | |].
  - rewrite lookup_take_lt by lia. done.
  - apply (in_block_spec m sl b _ addr H4 Hbr (slabs_ok_option _ _ _ Hok Hi)). by exists sg.
  - intros j b' Hj Hin. destruct (slabs_rel_take _ _ _ _ _ Hrel Hj) as (o & Ho & Hbr').
    destruct (proj1 (in_block_spec m sl b' o addr H4 Hbr' (slabs_ok_option _ _ _ Hok Ho)) Hin)
      as (sg' & -> & Hr').
    destruct (decide (j = i)) as [|Hne]; [done|].
    pose proof (slabs_apart gs j i sg' sg Hok Ho Hi Hne) as Hd.
    unfold idisj in Hd. simpl in Hd. lia.
Qed.

Lemma find_block_None m sl gs addr :
  slabs_rel m sl gs → slabs_ok gs → ¬ icovers (slab_iv <$> active gs) addr →
  find_block sl addr = None.
Proof.
  intros Hrel Hok Ha. unfold find_block.
  destruct (position _ _ 0) as [k|] eqn:E; [|done]. exfalso. apply Ha.
  apply position_inv in E as (i & b & -> & Hi & Hin).
  destruct (slabs_rel_take _ _ _ _ _ Hrel Hi) as (o & Ho & Hbr).
  destruct (Hrel) as (_ & _ & _ & HU & _).
  destruct (proj1 (in_block_spec m sl b o addr HU Hbr (slabs_ok_option _ _ _ Hok Ho)) Hin)
    as (sg & -> & Hr).
  exists (slab_iv sg). split; [|done]. apply list_elem_of_fmap_2. by eapply active_elem.
Qed.

(** Putting a live range back on the free list. *)
Lemma release_rel m b sg l1 addr count l2 :
  slab_rel m b sg → slab_ok sg → sg_live sg = l1 ++ (addr, count) :: l2 →
  let sg' := mkGhost (sg_base sg) (sg_order sg) ((addr, count) :: sg_free sg) (l1 ++ l2) in
  let m' := <[addr + off + 8 := count]> (<[addr + off := free_list b]> m) in
  slab_ok sg' ∧ only_in (slab_iv sg) m m' ∧
  slab_rel m' (with_allocated (with_free_list b addr) (sum_counts (l1 ++ l2))) sg'.
Proof.
  intros (R1 & R2 & R3 & R4 & R5 & R6) Hok Hl sg' m'.
  assert (slab_ok sg') as Hok'.
  { apply slab_ok_perm; [|done]. rewrite Hl. simpl.
    by rewrite <- (Permutation_middle l1), <- Permutation_middle. }
  destruct (range_bounds sg' (addr, count) Hok') as (G0 & _ & G1 & G2); [set_solver|].
  destruct Ar. simpl in G0, G1, G2. assert (U <= count * U) by nia.
  assert (∀ r, r ∈ sg_free sg → r.1 + 16 <= addr ∨ addr + 16 <= r.1) as Hap.
  { intros r Hr. destruct (headers_apart sg' r (addr, count) Hok') as [->|]; [set_solver..| |done].
    exfalso. pose proof (slab_NoDup sg' Hok') as Hnd. simpl in Hnd.
    inversion_clear Hnd as [|?? Hn _]. apply Hn.
    change addr with ((addr, count).1). apply list_elem_of_fmap_2. set_solver. }
  split_and!; [done| |].
  - intros p Hp. simpl in Hp. subst m'. rewrite !lookup_insert_ne by lia. done.
  - unfold slab_rel. simpl. split_and!; try done.
    + destruct Hok as (? & _). lia.
    + exists (free_list b). subst m'. rewrite lookup_insert_ne, lookup_insert_eq by lia.
      split; [done|]. eapply seg_frame; [|done]. intros a (r & -> & Hr)%list_elem_of_fmap.
      specialize (Hap r Hr). rewrite !lookup_insert_ne by lia. done.
    + subst m'. constructor; [simpl; by rewrite lookup_insert_eq|]. rewrite Forall_forall in *.
      intros r Hr. specialize (Hap r Hr). rewrite !lookup_insert_ne by lia. auto.
Qed.

Lemma sum_counts_pos l : Forall (λ r : Z * Z, 0 < r.2) l → sum_counts l = 0 → l = [].
Proof.
  intros H. destruct H as [|r l Hr H]; [done|]. pose proof (sum_counts_nonneg l H). simpl. lia.
Qed.

Lemma free_eval m sl gs i sg b l1 addr count l2 :
  slabs_rel m sl gs → slabs_ok gs → gs !! i = Some (Some sg) →
  sg_live sg = l1 ++ (addr, count) :: l2 → blocks sl !! i = Some b → slab_rel m b sg →
  let last := sum_counts (l1 ++ l2) =? 0 in
  let b' := with_allocated (with_free_list b addr) (sum_counts (l1 ++ l2)) in
  free virt_new addr count (sl, m) =
    (Ok (if last then Some (sg_base sg, 2 ^ sg_order sg) else None),
     (set_block sl i (if last then with_used b' false else b'),
      <[addr + off + 8 := count]> (<[addr + off := free_list b]> m))).
Proof.
  intros Hrel Hok Hi Hl Hb Hbr last b'. destruct (Hrel) as (H1 & H2 & H3 & H4 & H5).
  pose proof (slabs_ok_lookup _ _ _ Hok Hi) as Hsok.
  destruct (range_bounds sg (addr, count) Hsok) as (G0 & _ & G1 & G2).
  { rewrite Hl, !elem_of_app, elem_of_cons. auto. }
  pose proof (release_rel m b sg l1 addr count l2 Hbr Hsok Hl) as (Hok' & _).
  pose proof (live_total sg Hsok) as (T1 & T2 & T). pose proof (order_u32 sg Hsok).
  pose proof (live_total _ Hok') as (_ & T2' & _). cbn [sg_live] in T2'.
  destruct (Hsok) as (B1 & B2 & _). destruct (Ar). simpl in G0, G1, G2.
  assert (0 < count * U) by (apply Z.mul_pos_pos; lia).
  assert (sum_counts (sg_live sg) = count + sum_counts (l1 ++ l2)) as HS.
  { rewrite Hl, <- Permutation_middle. done. }
  destruct (Hbr) as (R1 & R2 & R3 & R4 & _).
  unfold free. rewrite gets_bind. cbn [fst].
  rewrite (find_block_Some m sl gs i sg addr) by (done || lia).
  erewrite bind_Ok by (by apply get_block_eq). rewrite gets_bind. cbn [fst]. rewrite H3.
  erewrite (bind_Ok (ptr _ _)) by (apply arena_ptr; lia).
  unfold store at 1 2. rewrite !modify_bind. cbn [fst snd].
  rewrite (u32_small count) by (unfold in_u32; lia).
  erewrite bind_Ok by (by apply put_block_eq).
  erewrite bind_Ok by (apply get_block_eq; by eapply sb_lookup).
  cbn [allocated_blocks with_free_list].
  rewrite R4, HS. unfold checked_sub. destruct (count <=? _) eqn:E; zb; [|lia].
  replace (count + sum_counts (l1 ++ l2) - count) with (sum_counts (l1 ++ l2)) by lia.
  erewrite bind_Ok by (apply put_block_eq; by eapply sb_lookup).
  rewrite sb_twice. fold last. destruct last; cbn [negb]; [|done].
  erewrite bind_Ok by (apply get_block_eq; by eapply sb_lookup).
  erewrite bind_Ok by (apply put_block_eq; by eapply sb_lookup).
  rewrite sb_twice. cbn. by rewrite R2, R3.
Qed.

(** Freeing a live range: the block goes back to the buddy allocator when it
    was the last one. *)
Lemma slab_free_spec m sl gs i sg l1 addr count l2 :
  slabs_rel m sl gs → slabs_ok gs → gs !! i = Some (Some sg) →
  sg_live sg = l1 ++ (addr, count) :: l2 →
  let sg' := mkGhost (sg_base sg) (sg_order sg) ((addr, count) :: sg_free sg) (l1 ++ l2) in
  ∃ sl' m', only_in (slab_iv sg) m m' ∧
    ((l1 ++ l2 = [] ∧
      free virt_new addr count (sl, m) =
        (Ok (Some (sg_base sg, 2 ^ sg_order sg)), (sl', m')) ∧
      slabs_rel m' sl' (<[i := None]> gs)) ∨
     (l1 ++ l2 ≠ [] ∧ free virt_new addr count (sl, m) = (Ok None, (sl', m')) ∧
      slab_ok sg' ∧ slabs_rel m' sl' (<[i := Some sg']> gs))).
Proof.
  intros Hrel Hok Hi Hl sg'. destruct (Hrel) as (_ & _ & _ & _ & H5).
  destruct (H5 i _ Hi) as (b & Hb & Hbr). pose proof (slabs_ok_lookup _ _ _ Hok Hi) as Hsok.
  pose proof (release_rel m b sg l1 addr count l2 Hbr Hsok Hl) as (Hok' & Hm & Hrel').
  fold sg' in Hok', Hrel'.
  pose proof (free_eval m sl gs i sg b l1 addr count l2 Hrel Hok Hi Hl Hb Hbr) as E.
  assert (∀ j sg1, gs !! j = Some (Some sg1) → j ≠ i → idisj (slab_iv sg) (slab_iv sg1)) as Hd.
  { intros j sg1 Hj Hne. apply (slabs_apart gs i j); [done..|congruence]. }
  pose proof (lookup_lt_Some _ _ _ Hi) as Hlt.
  cbv zeta in E.
  destruct (sum_counts (l1 ++ l2) =? 0) eqn:E0; zb; eexists _, _; (split; [exact Hm|]); [left|right].
  - split_and!; [|exact E|eapply slabs_rel_update; [done..|exact Hm|done]].
    apply sum_counts_pos; [|done]. destruct Hok' as (_ & _ & _ & HF & _).
    apply Forall_app in HF as [_ HF]. eapply Forall_impl; [exact HF|]. by intros r [? _].
  - split_and!; [intros E1; by rewrite E1 in E0|exact E|done|].
    eapply slabs_rel_update; [done..|exact Hm|done].
Qed.

(** ** Taking over a block *)

Definition fresh (base order : Z) : SlabGhost := mkGhost base order [(base, 2 ^ order)] [].

Lemma fresh_rel m base order :
  LO <= base → base + 2 ^ order * U <= HI → 0 <= order < 32 → (U | base) →
  let m' := <[base + off + 8 := 2 ^ order]> (<[base + off := 0]> m) in
  slab_ok (fresh base order) ∧ only_in (base, 2 ^ order * U) m m' ∧
  slab_rel m' (mkBlock base (2 ^ order) 0 base true) (fresh base order).
Proof.
  intros H1 H2 H3 H4 m'. pose proof (Z.pow_pos_nonneg 2 order ltac:(lia) ltac:(lia)).
  destruct Ar. assert (U <= 2 ^ order * U) by nia.
  split_and!.
  - unfold slab_ok, range_ok. simpl. split_and!; try lia; repeat constructor; simpl; done || lia.
  - intros p Hp. simpl in Hp. subst m'. rewrite !lookup_insert_ne by lia. done.
  - unfold slab_rel. simpl. split_and!; try done.
    + lia.
    + exists 0. subst m'. rewrite lookup_insert_ne, lookup_insert_eq by lia. done.
    + constructor; [|done]. subst m'. simpl. by rewrite lookup_insert_eq.
Qed.

(** The slot [add_block] chooses: a ghost array [gs0] of the new length, in which
    the slot [i] is empty and that agrees with [gs] elsewhere. *)
Definition slot_of (sl : PageSlab) : option (nat * nat) :=
  match position (λ b, negb (used b)) (take (block_count sl) (blocks sl)) 0 with
  | Some i => Some (i, block_count sl)
  | None =>
      if (block_count sl <? length (blocks sl))%nat
      then Some (block_count sl, S (block_count sl)) else None
  end.

Lemma slot_spec m sl gs i n :
  slabs_rel m sl gs → slot_of sl = Some (i, n) →
  ∃ gs0, length gs0 = n ∧ (n <= length (blocks sl))%nat ∧ gs0 !! i = Some None ∧
    active gs0 ≡ₚ active gs ∧ ∀ j x, gs0 !! j = Some x → j ≠ i → gs !! j = Some x.
Proof.
  intros Hrel. destruct (Hrel) as (R1 & R2 & R3 & R4 & R5). unfold slot_of.
  destruct (position _ _ 0) as [k|] eqn:E.
  - intros [= <- <-]. apply position_inv in E as (i' & b & -> & Hi & Hu). simpl.
    destruct (slabs_rel_take _ _ _ _ _ Hrel Hi) as (x & Hx & Hb).
    exists gs. split_and!; [done|lia| |done|done]. destruct x as [sg|]; [|done].
    destruct Hb as [Hb _]. by rewrite Hb in Hu.
  - destruct (block_count sl <? length (blocks sl))%nat eqn:E2; [|done].
    intros [= <- <-]. apply Nat.ltb_lt in E2. exists (gs ++ [None]).
    rewrite R1 in *. rewrite length_app. split_and!; [simpl; lia|lia|by apply list_lookup_middle| |].
    + unfold active. rewrite omap_app. simpl. by rewrite app_nil_r.
    + intros j x Hj Hne. apply lookup_app_Some in Hj as [Hj|[Hge Hj]]; [done|].
      apply list_lookup_singleton_Some in Hj as [Hj _]. lia.
Qed.

Lemma add_block_spec m sl gs base order :
  slabs_rel m sl gs → slabs_ok gs →
  LO <= base → base + 2 ^ order * U <= HI → 0 <= order < 32 → (U | base) →
  (∀ sg, sg ∈ active gs → idisj (base, 2 ^ order * U) (slab_iv sg)) →
  add_block virt_new base (2 ^ order) (sl, m) = (Ok false, (sl, m)) ∨
  ∃ sl' m' gs', add_block virt_new base (2 ^ order) (sl, m) = (Ok true, (sl', m')) ∧
    slabs_rel m' sl' gs' ∧ active gs' ≡ₚ fresh base order :: active gs ∧
    only_in (base, 2 ^ order * U) m m'.
Proof.
  intros Hrel Hok H1 H2 H3 H4 Hd. destruct (fresh_rel m base order) as (Ok' & Hm & Hfr); [done..|].
  unfold add_block. rewrite gets_bind. cbn [fst]. fold (slot_of sl).
  destruct (slot_of sl) as [[i n]|] eqn:Es; [right|by left].
  destruct (slot_spec m sl gs i n Hrel Es) as (gs0 & Hn & Hle & Hg & Ha & Hsub).
  destruct (Hrel) as (R1 & R2 & R3 & R4 & R5). pose proof (lookup_lt_Some _ _ _ Hg) as Hlt.
  destruct (lookup_lt_is_Some_2 (blocks sl) i ltac:(lia)) as [b Hb].
  assert (0 < 2 ^ order * U) by (destruct Ar; apply Z.mul_pos_pos; lia).
  set (sl0 := mkSlab (blocks sl) n (offset sl) (block_size sl)).
  exists (set_block sl0 i (mkBlock base (2 ^ order) 0 base true)),
    (<[base + off + 8 := 2 ^ order]> (<[base + off := 0]> m)), (<[i := Some (fresh base order)]> gs0).
  split_and!; [| | |done].
  - rewrite modify_bind. cbn [fst snd]. fold sl0.
    erewrite bind_Ok by (by apply put_block_eq). rewrite gets_bind. cbn [fst]. simpl offset.
    rewrite R3. erewrite (bind_Ok (ptr _ _)) by (apply arena_ptr; lia).
    unfold store at 1 2. rewrite !modify_bind. cbn [fst snd].
    erewrite bind_Ok by (apply put_block_eq; by eapply sb_lookup).
    by rewrite sb_twice.
  - unfold slabs_rel. simpl. rewrite !length_insert. split_and!; [done|lia|done..|]. intros j x Hj.
    destruct (decide (i = j)) as [<-|Hne].
    + rewrite list_lookup_insert_eq in Hj by done. simplify_eq. eexists.
      rewrite list_lookup_insert_eq by lia. split; [done|exact Hfr].
    + rewrite list_lookup_insert_ne in Hj by done. apply Hsub in Hj; [|done].
      destruct (R5 j x Hj) as (b' & Hb' & Hr'). exists b'.
      rewrite list_lookup_insert_ne by done. split; [done|].
      eapply brel_frame; [done| |done]. intros sg ->. split; [by eapply slabs_ok_lookup|].
      by eapply Hd, active_elem.
  - destruct (active_update gs0 i None Hg) as (R & HR & HN). rewrite HN. simpl.
    f_equiv. by rewrite <- Ha, HR.
Qed.

End invariant.

End Slab.
