(* ===== verification/Buddy.v ===== *)
(** * The buddy allocator (src/kernel/src/allocators/buddy.rs)

    [BuddyAllocator] hands out blocks of [2^(order + MIN_ORDER)] bytes.  The
    free blocks of each order form a linked list whose [next] pointers are
    stored in the blocks; counts that are not a power of two go through the
    page slab of [Slab].  The parameters of the type ([MIN_ORDER],
    [ORDER_COUNT], [HAS_SLAB]) are parameters of the section. *)

From S2P Require Import Prelude FreeList Slab.
Import FreeList.

Module Buddy.

Record BuddyAllocator := mkBuddy {
  heads : list Z;
  offset : Z;
  slab : Slab.PageSlab
}.

Abbreviation St := (BuddyAllocator * Mem)%type.

Definition new (MIN_ORDER : Z) (ORDER_COUNT SLAB_BLOCKS : nat) : BuddyAllocator :=
  mkBuddy (replicate ORDER_COUNT 0) 0 (Slab.new SLAB_BLOCKS (Z.shiftl 1 MIN_ORDER)).

Definition set_offset (al : BuddyAllocator) (off : Z) : BuddyAllocator :=
  mkBuddy (heads al) off (Slab.set_offset (slab al) off).

Section ops.
Context (virt_new : Z → option Z) (MIN_ORDER : Z) (ORDER_COUNT : nat) (HAS_SLAB : bool).

(** A shift by more than the width is masked in release builds. *)
Definition block_size (order : nat) : Z :=
  u64 (Z.shiftl 1 ((Z.of_nat order + MIN_ORDER) mod 64)).

Definition max_order : nat := ORDER_COUNT - 1.

Definition ptr (addr : Z) : K St Z :=
  off ← gets (λ s, offset s.1);
  Slab.ptr virt_new (addr ⊞ off).

Definition buddy_of (addr : Z) (order : nat) : Z := Z.lxor addr (block_size order).

(** [self.heads[order]] panics outside the array. *)
Definition get_head (order : nat) : K St Z := λ s,
  match heads s.1 !! order with Some h => (Ok h, s) | None => (Panic, s) end.
Definition set_head (order : nat) (v : Z) : K St unit := λ s,
  match heads s.1 !! order with
  | Some _ => (Ok tt, (mkBuddy (<[order := v]> (heads s.1)) (offset s.1) (slab s.1), s.2))
  | None => (Panic, s)
  end.

Definition push (addr : Z) (order : nat) : K St unit :=
  p ← ptr addr;
  h ← get_head order;
  store p h;;
  set_head order addr.

Definition pop (order : nat) : K St (option Z) :=
  head ← get_head order;
  if head =? 0 then mret None
  else
    p ← ptr head;
    next ← load p;
    set_head order next;;
    mret (Some head).

(** [prev_ptr.write(v)] *)
Definition write_prev (order : nat) (prev : option Z) (v : Z) : K St unit :=
  match prev with
  | None => set_head order v
  | Some p => store p v
  end.

(** The [while] loop of [remove]; the fuel bounds the list walk. *)
Fixpoint remove_loop (fuel : nat) (addr : Z) (order : nat)
    (prev : option Z) (current : Z) : K St bool :=
  match fuel with
  | O => lift Loop
  | S fuel =>
      if current =? 0 then mret false
      else if current =? addr then
        p ← ptr current;
        next ← load p;
        write_prev order prev next;;
        mret true
      else
        p ← ptr current;
        next ← load p;
        remove_loop fuel addr order (Some p) next
  end.

Definition remove (addr : Z) (order : nat) : K St bool := λ s,
  (current ← get_head order;
   remove_loop (S (size s.2)) addr order None current) s.

(** The search loop of [alloc]. *)
Fixpoint find_order (fuel : nat) (found : nat) : K St (option nat) :=
  match fuel with
  | O => lift Loop
  | S fuel =>
      if (max_order <? found)%nat then mret None
      else
        h ← get_head found;
        if negb (h =? 0) then mret (Some found) else find_order fuel (S found)
  end.

(** The [while found > order] loop, [k] being [found - order]. *)
Fixpoint split_down (k : nat) (block : Z) (order : nat) : K St unit :=
  match k with
  | O => mret tt
  | S k =>
      push (block ⊞ block_size (order + k)) (order + k);;
      split_down k block order
  end.

Definition alloc (order : nat) : K St (option Z) :=
  if (max_order <? order)%nat then mret None
  else
    o ← find_order (S ORDER_COUNT) order;
    match o with
    | None => mret None
    | Some found =>
        r ← pop found;
        match r with
        | None => mret None
        | Some block =>
            split_down (found - order) block order;;
            mret (Some block)
        end
    end.

(** The merge loop of [free_with]: the block and order it ends with. *)
Fixpoint merge_loop (fuel : nat) (can_merge : Z → nat → bool)
    (addr : Z) (order : nat) : K St (Z * nat) :=
  match fuel with
  | O => lift Loop
  | S fuel =>
      if (order =? max_order)%nat then mret (addr, order)
      else
        let buddy := buddy_of addr order in
        if negb (can_merge buddy order) then mret (addr, order)
        else
          removed ← remove buddy order;
          if negb removed then mret (addr, order)
          else merge_loop fuel can_merge (Z.min addr buddy) (S order)
  end.

Definition free_with (addr : Z) (order : nat) (can_merge : Z → nat → bool) : K St unit :=
  if (max_order <? order)%nat then mret tt
  else
    r ← merge_loop (S ORDER_COUNT) can_merge addr order;
    push r.1 r.2.

Definition free (addr : Z) (order : nat) : K St unit := free_with addr order (λ _ _, true).

(** Running an operation of the slab that is a field of the allocator. *)
Definition on_slab {A} (f : K (Slab.PageSlab * Mem) A) : K St A := λ s,
  let '(r, (sl, m)) := f (slab s.1, s.2) in
  (r, (mkBuddy (heads s.1) (offset s.1) sl, m)).

Definition order_of (count : Z) : nat := Z.to_nat (trailing_zeros (next_power_of_two count)).

Definition alloc_range (count : Z) : K St (option Z) :=
  if HAS_SLAB && negb (is_power_of_two count) then
    r ← on_slab (Slab.allocate virt_new count);
    match r with
    | Some addr => mret (Some addr)
    | None =>
        let order := order_of count in
        r ← alloc order;
        match r with
        | None => mret None
        | Some block =>
            let total := u32 (Z.shiftl 1 (Z.of_nat order mod 32)) in
            added ← on_slab (Slab.add_block virt_new block total);
            if (added : bool) then on_slab (Slab.allocate virt_new count)
            else mret (Some block)
        end
    end
  else alloc (order_of count).

Definition free_range (addr count : Z) : K St unit :=
  if count =? 0 then mret tt
  else
    owned ← gets (λ s, Slab.owns (slab s.1) addr);
    if HAS_SLAB && owned then
      r ← on_slab (Slab.free virt_new addr count);
      match r with
      | Some (base, total) => free base (Z.to_nat (trailing_zeros total))
      | None => mret tt
      end
    else free addr (order_of count).
End ops.

(** ** Invariant

    The ghost state lists the free blocks of each order in list order, the
    blocks handed out by the buddy allocator itself as (address, count), and
    the blocks of the slab. *)

Record Ghost := mkG {
  gfree : list (list Z);
  glive : list (Z * Z);
  gslab : list (option Slab.SlabGhost)
}.

Section invariant.
Context (virt_new : Z → option Z) (MIN_ORDER : Z) (ORDER_COUNT : nat) (HAS_SLAB : bool).
Context (off LO HI : Z).

Abbreviation U := (2 ^ MIN_ORDER).

(** The size of a block, without machine arithmetic. *)
Definition bs (o : nat) : Z := 2 ^ Z.of_nat o * U.

Definition valid (o : nat) (a : Z) : Prop :=
  (o < ORDER_COUNT)%nat ∧ LO <= a ∧ a + bs o <= HI ∧ (bs o | a).

Fixpoint blocks_from (o : nat) (gf : list (list Z)) : list (Z * Z) :=
  match gf with
  | [] => []
  | l :: gf => ((λ a, (a, bs o)) <$> l) ++ blocks_from (S o) gf
  end.
Definition blocks_of : list (list Z) → list (Z * Z) := blocks_from 0.

Definition live_iv (r : Z * Z) : Z * Z := (r.1, bs (order_of r.2)).
Definition live_ok (r : Z * Z) : Prop := 0 < r.2 ∧ valid (order_of r.2) r.1.

Definition slabs_iv (gs : list (option Slab.SlabGhost)) : list (Z * Z) :=
  Slab.slab_iv U <$> Slab.active gs.

(** All the memory there is: held by the caller ([F]), handed out, free, or
    in the slab. *)
Definition extent (g : Ghost) (F : list (Z * Z)) : list (Z * Z) :=
  F ++ (live_iv <$> glive g) ++ blocks_of (gfree g) ++ slabs_iv (gslab g).

Definition lists_rel (m : Mem) (hs : list Z) (gf : list (list Z)) : Prop :=
  ∀ o l, gf !! o = Some l → ∃ h, hs !! o = Some h ∧ seg m off h l 0.

Record geo (g : Ghost) (F : list (Z * Z)) : Prop := {
  geo_len : length (gfree g) = ORDER_COUNT;
  geo_free o l : gfree g !! o = Some l → Forall (valid o) l;
  geo_live : Forall live_ok (glive g);
  geo_slab : Forall (Slab.slab_ok LO HI U) (Slab.active (gslab g));
  geo_slab_valid sg : sg ∈ Slab.active (gslab g) →
    valid (Z.to_nat (Slab.sg_order sg)) (Slab.sg_base sg);
  geo_has_slab : HAS_SLAB = false → Slab.active (gslab g) = [];
  geo_pos i : i ∈ F → 0 < i.2;
  geo_disj : disj (extent g F)
}.

Record inv (s : St) (g : Ghost) (F : list (Z * Z)) : Prop := {
  inv_geo : geo g F;
  inv_len : length (heads s.1) = ORDER_COUNT;
  inv_off : offset s.1 = off;
  inv_lists : lists_rel s.2 (heads s.1) (gfree g);
  inv_slabs : Slab.slabs_rel off U s.2 (slab s.1) (gslab g)
}.

Context `{Ar : !Slab.Arena virt_new off LO HI U}.
Context (Hmin : 4 <= MIN_ORDER) (Hcount : (0 < ORDER_COUNT <= 32)%nat)
  (Hwidth : MIN_ORDER + Z.of_nat ORDER_COUNT <= 64).

Lemma bs_pos o : 16 <= bs o.
Proof.
  unfold bs. pose proof (Z.pow_pos_nonneg 2 (Z.of_nat o) ltac:(lia) ltac:(lia)).
  pose proof (Z.pow_le_mono_r 2 4 MIN_ORDER ltac:(lia) ltac:(lia)). nia.
Qed.

Lemma bs_succ o : bs (S o) = bs o + bs o.
Proof. unfold bs. rewrite Nat2Z.inj_succ, Z.pow_succ_r by lia. lia. Qed.

Lemma block_size_bs o : (o < ORDER_COUNT)%nat → block_size MIN_ORDER o = bs o.
Proof.
  intros Ho. unfold block_size, bs. rewrite Z.mod_small by lia.
  rewrite Z.shiftl_mul_pow2, Z.mul_1_l, <- Z.pow_add_r by lia.
  apply u64_small. split; [apply Z.pow_nonneg; lia|].
  change 18446744073709551616 with (2 ^ 64). apply Z.pow_lt_mono_r; lia.
Qed.

Lemma blocks_from_update o0 gf o l :
  gf !! o = Some l →
  ∃ R, blocks_from o0 gf ≡ₚ ((λ a, (a, bs (o0 + o))) <$> l) ++ R ∧
    ∀ l', blocks_from o0 (<[o := l']> gf) ≡ₚ ((λ a, (a, bs (o0 + o))) <$> l') ++ R.
Proof.
  revert o0 o. induction gf as [|l0 gf IH]; intros o0 o Ho; [done|].
  destruct o as [|o]; simpl in Ho.
  - simplify_eq. rewrite Nat.add_0_r. exists (blocks_from (S o0) gf). done.
  - destruct (IH (S o0) o Ho) as (R & H1 & H2).
    replace (S o0 + o)%nat with (o0 + S o)%nat in * by lia.
    exists (((λ a, (a, bs o0)) <$> l0) ++ R). simpl. split; [|intros l'].
    + rewrite H1. rewrite !app_assoc. f_equiv. apply Permutation_app_comm.
    + rewrite H2. rewrite !app_assoc. f_equiv. apply Permutation_app_comm.
Qed.

Lemma blocks_update gf o l :
  gf !! o = Some l →
  ∃ R, blocks_of gf ≡ₚ ((λ a, (a, bs o)) <$> l) ++ R ∧
    ∀ l', blocks_of (<[o := l']> gf) ≡ₚ ((λ a, (a, bs o)) <$> l') ++ R.
Proof. apply (blocks_from_update 0). Qed.

Lemma blocks_elem gf o l a : gf !! o = Some l → a ∈ l → (a, bs o) ∈ blocks_of gf.
Proof.
  intros Ho Ha. destruct (blocks_update gf o l Ho) as (R & -> & _).
  apply elem_of_app. left. apply list_elem_of_fmap. by exists a.
Qed.

(** Moving a block between the caller and the free list of its order. *)
Lemma extent_move g F o l1 a l2 :
  gfree g !! o = Some (l1 ++ a :: l2) →
  extent g F ≡ₚ
    extent (mkG (<[o := l1 ++ l2]> (gfree g)) (glive g) (gslab g)) ((a, bs o) :: F).
Proof.
  intros Ho. destruct (blocks_update _ _ _ Ho) as (R & H1 & H2). unfold extent. simpl.
  rewrite H1, H2, fmap_app, fmap_cons, fmap_app.
  rewrite <- (Permutation_middle (_ <$> l1)). simpl.
  rewrite <- !Permutation_middle. done.
Qed.

Lemma extent_push g F o a l :
  gfree g !! o = Some l →
  extent (mkG (<[o := a :: l]> (gfree g)) (glive g) (gslab g)) F ≡ₚ extent g ((a, bs o) :: F).
Proof.
  intros Ho. rewrite (extent_move _ F o [] a l); simpl.
  - by rewrite list_insert_insert_eq, (list_insert_id _ _ _ Ho); destruct g.
  - apply list_lookup_insert_eq. by eapply lookup_lt_Some.
Qed.

Lemma geo_move g F o l1 a l2 :
  gfree g !! o = Some (l1 ++ a :: l2) → geo g F →
  geo (mkG (<[o := l1 ++ l2]> (gfree g)) (glive g) (gslab g)) ((a, bs o) :: F) ∧ valid o a.
Proof.
  intros Ho [H1 H2 H3 H4 H5 H0 H6 H7]. pose proof (H2 o _ Ho) as Hv.
  apply Forall_app in Hv as [Hv1 Hv]. inversion_clear Hv as [|?? Ha Hv2].
  split; [|done]. split; simpl; try done.
  - by rewrite length_insert.
  - intros o' l' Ho'. destruct (decide (o = o')) as [<-|].
    + rewrite list_lookup_insert_eq in Ho' by by eapply lookup_lt_Some.
      simplify_eq. by apply Forall_app.
    + rewrite list_lookup_insert_ne in Ho' by done. by apply H2.
  - intros i [->|Hi]%elem_of_cons; [simpl; pose proof (bs_pos o); lia|auto].
  - by rewrite <- extent_move.
Qed.

Lemma geo_unmove g F o l a :
  gfree g !! o = Some l → valid o a → geo g ((a, bs o) :: F) →
  geo (mkG (<[o := a :: l]> (gfree g)) (glive g) (gslab g)) F.
Proof.
  intros Ho Ha [H1 H2 H3 H4 H5 H0 H6 H7]. pose proof (lookup_lt_Some _ _ _ Ho) as Hlt.
  split; simpl; try done.
  - by rewrite length_insert.
  - intros o' l' Ho'. destruct (decide (o = o')) as [<-|].
    + rewrite list_lookup_insert_eq in Ho' by done. simplify_eq. constructor; [done|by apply H2].
    + rewrite list_lookup_insert_ne in Ho' by done. by apply H2.
  - intros i Hi. apply H6. by right.
  - by rewrite extent_push.
Qed.

(** ** Frame rules *)

Abbreviation only_in := (Slab.only_in off).

Lemma only_in_store a v m : 0 <= a → only_in (a, 16) m (<[a + off := v]> m).
Proof. intros Ha p Hp. simpl in Hp. rewrite lookup_insert_ne by lia. done. Qed.

Lemma lists_rel_update m m' hs gf i o h' l' :
  lists_rel m hs gf → (o < length hs)%nat → (o < length gf)%nat → only_in i m m' →
  (∀ o' l a, o' ≠ o → gf !! o' = Some l → a ∈ l → idisj i (a, bs o')) →
  seg m' off h' l' 0 → lists_rel m' (<[o := h']> hs) (<[o := l']> gf).
Proof.
  intros H Ho Ho' Hm Hd Hs o1 l1 H1. destruct (decide (o = o1)) as [<-|Hne].
  - rewrite list_lookup_insert_eq in H1 by done. simplify_eq. exists h'.
    by rewrite list_lookup_insert_eq by done.
  - rewrite list_lookup_insert_ne in H1 by done. destruct (H o1 l1 H1) as (h & Hh & Hseg).
    exists h. rewrite list_lookup_insert_ne by done. split; [done|].
    eapply Slab.seg_only_in; [done| |done]. intros a Ha.
    specialize (Hd o1 l1 a ltac:(congruence) H1 Ha). pose proof (bs_pos o1).
    unfold idisj in Hd. simpl in Hd. lia.
Qed.

Lemma lists_rel_frame m m' hs gf i :
  lists_rel m hs gf → only_in i m m' → (∀ x, x ∈ blocks_of gf → idisj i x) →
  lists_rel m' hs gf.
Proof.
  intros H Hm Hd o l Ho. destruct (H o l Ho) as (h & Hh & Hs). exists h. split; [done|].
  eapply Slab.seg_only_in; [done| |done]. intros a Ha.
  specialize (Hd _ (blocks_elem gf o l a Ho Ha)). pose proof (bs_pos o).
  unfold idisj in Hd. simpl in Hd. lia.
Qed.

Lemma geo_slabs_ok g F : geo g F → Slab.slabs_ok LO HI U (gslab g).
Proof.
  intros [_ _ _ H4 _ _ _ H7]. split; [done|]. unfold extent in H7.
  apply disj_app in H7 as (_ & H7 & _). apply disj_app in H7 as (_ & H7 & _).
  by apply disj_app in H7 as (_ & H7 & _).
Qed.

(** What the caller holds does not overlap the free lists and the slab. *)
Lemma geo_held g F i :
  geo g (i :: F) →
  (∀ x, x ∈ blocks_of (gfree g) → idisj i x) ∧ (∀ x, x ∈ slabs_iv (gslab g) → idisj i x).
Proof.
  intros [_ _ _ _ _ _ _ H7]. unfold extent in H7. simpl in H7. apply disj_cons in H7 as [H _].
  split; intros x Hx; apply H; rewrite !elem_of_app; auto.
Qed.

Lemma idisj_shrink a n n' y : n' <= n → idisj (a, n) y → idisj (a, n') y.
Proof. unfold idisj. simpl. lia. Qed.

Lemma ptr_ok a (s : St) :
  offset s.1 = off → LO <= a < HI → ptr virt_new a s = (Ok (a + off), s).
Proof.
  intros Ho Ha. unfold ptr. rewrite gets_bind, Ho.
  by apply (Slab.arena_ptr virt_new off LO HI U).
Qed.

Lemma get_head_ok o h (s : St) : heads s.1 !! o = Some h → get_head o s = (Ok h, s).
Proof. intros H. unfold get_head. by rewrite H. Qed.

Lemma set_head_ok o h v (s : St) :
  heads s.1 !! o = Some h →
  set_head o v s = (Ok tt, (mkBuddy (<[o := v]> (heads s.1)) (offset s.1) (slab s.1), s.2)).
Proof. intros H. unfold set_head. by rewrite H. Qed.

Lemma valid_ptr o a : valid o a → LO <= a < HI.
Proof. intros (_ & H1 & H2 & _). pose proof (bs_pos o). lia. Qed.

(** ** The free lists *)

Lemma buddy_push s g F o a :
  inv s g ((a, bs o) :: F) → valid o a →
  ∃ l s', gfree g !! o = Some l ∧ push virt_new a o s = (Ok tt, s') ∧
    inv s' (mkG (<[o := a :: l]> (gfree g)) (glive g) (gslab g)) F.
Proof.
  intros [Hgeo Hlen Hoff Hlists Hslabs] Ha. pose proof (geo_len _ _ Hgeo) as Hlen'.
  destruct (lookup_lt_is_Some_2 (gfree g) o) as [l Hl]; [destruct Ha; lia|].
  destruct (Hlists o l Hl) as (h & Hh & Hs). pose proof (valid_ptr _ _ Ha) as Hp.
  destruct (geo_held _ _ _ Hgeo) as [Hd1 Hd2]. pose proof (bs_pos o) as Hbs.
  assert (only_in (a, 16) s.2 (<[a + off := h]> s.2)) as Hm.
  { apply only_in_store. destruct Ar. lia. }
  eexists l, _. split_and!; [done| |].
  { unfold push. erewrite bind_Ok by (by apply ptr_ok).
    erewrite bind_Ok by (by apply get_head_ok). unfold store. rewrite modify_bind.
    by apply (set_head_ok o h). }
  split; simpl; [by apply geo_unmove|by rewrite length_insert|done| |].
  - eapply lists_rel_update; [done| | |exact Hm| |].
    + by eapply lookup_lt_Some.
    + by eapply lookup_lt_Some.
    + intros o' l' a' _ Ho' Ha'. eapply idisj_shrink, Hd1; [done|]. by eapply blocks_elem.
    + simpl. split_and!; [done|destruct Ar; lia|]. exists h. rewrite lookup_insert_eq.
      split; [done|]. eapply seg_frame; [|done]. intros a' Ha'.
      rewrite lookup_insert_ne; [done|]. specialize (Hd1 _ (blocks_elem _ _ _ _ Hl Ha')).
      unfold idisj in Hd1. simpl in Hd1. lia.
  - eapply (Slab.slabs_rel_frame virt_new off LO HI U); [done|by eapply geo_slabs_ok|exact Hm|].
    intros sg Hsg. eapply idisj_shrink, Hd2; [done|]. by apply list_elem_of_fmap_2.
Qed.

Lemma write_prev_ok s o h prev v :
  heads s.1 !! o = Some h →
  write_prev o prev v s =
    (Ok tt, (mkBuddy (<[o := (set_prev prev v h s.2).1]> (heads s.1)) (offset s.1) (slab s.1),
             (set_prev prev v h s.2).2)).
Proof.
  intros Hh. destruct prev as [p|]; simpl; [|by apply (set_head_ok o h)].
  unfold store, modify. destruct s as [[hs o' sl] m]. simpl in *. by rewrite list_insert_id.
Qed.

(** Blocks of different orders do not overlap. *)
Lemma orders_apart g F o o' l l' a a' :
  geo g F → gfree g !! o = Some l → gfree g !! o' = Some l' → o ≠ o' → a ∈ l → a' ∈ l' →
  idisj (a, bs o) (a', bs o').
Proof.
  intros Hgeo Ho Ho' Hne Ha Ha'. apply list_elem_of_split in Ha as (l1 & l2 & ->).
  destruct (geo_move _ _ _ _ _ _ Ho Hgeo) as [Hg _].
  apply geo_held in Hg as [Hd _]. apply Hd. simpl.
  eapply blocks_elem; [|done]. by rewrite list_lookup_insert_ne.
Qed.

Lemma slabs_apart_free g F o l a :
  geo g F → gfree g !! o = Some l → a ∈ l → ∀ x, x ∈ slabs_iv (gslab g) → idisj (a, bs o) x.
Proof.
  intros Hgeo Ho Ha. apply list_elem_of_split in Ha as (l1 & l2 & ->).
  destruct (geo_move _ _ _ _ _ _ Ho Hgeo) as [Hg _]. by apply geo_held in Hg as [_ Hd].
Qed.

Lemma free_list_NoDup g F o l : geo g F → gfree g !! o = Some l → NoDup l.
Proof.
  intros Hgeo Ho. destruct (blocks_update _ _ _ Ho) as (R & HR & _).
  pose proof (geo_disj _ _ Hgeo) as Hd. unfold extent in Hd.
  apply disj_app in Hd as (_ & Hd & _). apply disj_app in Hd as (_ & Hd & _).
  apply disj_app in Hd as (Hd & _). rewrite HR in Hd. apply disj_app in Hd as (Hd & _).
  apply disj_NoDup in Hd.
  - rewrite <- list_fmap_compose in Hd. simpl in Hd. by rewrite list_fmap_id in Hd.
  - intros x (y & -> & _)%list_elem_of_fmap. pose proof (bs_pos o). simpl. lia.
Qed.

(** Unlinking the node [a] of a list, through the location that points to it. *)
Lemma unlink s g F o l1 a l2 h next :
  inv s g F → gfree g !! o = Some (l1 ++ a :: l2) → heads s.1 !! o = Some h →
  seg s.2 off h l1 a → s.2 !! (a + off) = Some next → seg s.2 off next l2 0 →
  ∃ s', write_prev o (prev_of off l1) next s = (Ok tt, s') ∧ valid o a ∧
    inv s' (mkG (<[o := l1 ++ l2]> (gfree g)) (glive g) (gslab g)) ((a, bs o) :: F).
Proof.
  intros [Hgeo Hlen Hoff Hlists Hslabs] Ho Hh S1 Hn S2.
  destruct (geo_move _ _ _ _ _ _ Ho Hgeo) as [Hgeo' Hv].
  assert (NoDup (l1 ++ l2)) as Hnd.
  { pose proof (free_list_NoDup _ _ _ _ Hgeo Ho) as (N1 & N2 & N3)%NoDup_app. inversion_clear N3.
    apply NoDup_app. split_and!; [done| |done]. intros x Hx Hx'. apply (N2 x Hx). by right. }
  pose proof (relink s.2 off h l1 a next l2 Hnd S1 S2) as Hrel.
  assert (∃ i, only_in i s.2 (set_prev (prev_of off l1) next h s.2).2 ∧
    (∀ o' l' a', o' ≠ o → gfree g !! o' = Some l' → a' ∈ l' → idisj i (a', bs o')) ∧
    ∀ x, x ∈ slabs_iv (gslab g) → idisj i x) as (i & Hm & Hi1 & Hi2).
  { assert (∃ b, b ∈ l1 ++ a :: l2 ∧
      only_in (b, 16) s.2 (set_prev (prev_of off l1) next h s.2).2) as (b & Hb & Hm).
    { clear -Ar Hgeo Ho Hmin Hcount Hwidth. destruct l1 as [|b l0 _] using rev_ind.
      - exists a. split; [set_solver|done].
      - exists b. split; [set_solver|]. rewrite prev_of_snoc. apply only_in_store.
        pose proof (geo_free _ _ Hgeo _ _ Ho) as Hv. rewrite Forall_forall in Hv.
        destruct (Hv b ltac:(set_solver)) as (_ & ? & _). destruct Ar. lia. }
    exists (b, 16). split_and!; [done|intros ??? Hne ? ?|intros ??];
      (eapply (idisj_shrink b (bs o)); [apply bs_pos|]).
    - eapply (orders_apart _ _ _ _ _ _ _ _ Hgeo Ho); [done|congruence|done..].
    - by eapply (slabs_apart_free _ _ _ _ _ Hgeo Ho). }
  eexists. split_and!; [by apply write_prev_ok|done|].
  destruct (set_prev (prev_of off l1) next h s.2) as [h' m']. destruct Hrel as [Hs _].
  split; simpl; [done|by rewrite length_insert|done| |].
  - eapply lists_rel_update; [done| | |exact Hm|exact Hi1|exact Hs].
    + by eapply lookup_lt_Some.
    + by eapply lookup_lt_Some.
  - eapply (Slab.slabs_rel_frame virt_new off LO HI U); [done|by eapply geo_slabs_ok|exact Hm|].
    intros sg Hsg. apply Hi2. by apply list_elem_of_fmap_2.
Qed.

Lemma pop_spec s g F o a l :
  inv s g F → gfree g !! o = Some (a :: l) →
  ∃ s', pop virt_new o s = (Ok (Some a), s') ∧ valid o a ∧
    inv s' (mkG (<[o := l]> (gfree g)) (glive g) (gslab g)) ((a, bs o) :: F).
Proof.
  intros Hinv Ho. destruct (Hinv) as [Hgeo Hlen Hoff Hlists Hslabs].
  destruct (Hlists o _ Ho) as (h & Hh & -> & Ha0 & next & Hn & Hs).
  destruct (unlink s g F o [] a l a next) as (s' & E & Hv & Hinv'); [done..|].
  exists s'. split_and!; [|done|done]. unfold pop.
  erewrite bind_Ok by (by apply get_head_ok). destruct (a =? 0) eqn:E0; zb; [done|].
  erewrite bind_Ok by (apply ptr_ok; [done|by eapply valid_ptr]).
  unfold load. rewrite gets_bind, Hn. cbn [default from_option id]. by erewrite bind_Ok by exact E.
Qed.

Lemma remove_loop_spec s g F o h addr fuel l1 l2 cur :
  inv s g F → gfree g !! o = Some (l1 ++ l2) → heads s.1 !! o = Some h →
  seg s.2 off h l1 cur → seg s.2 off cur l2 0 → (length l2 < fuel)%nat →
  (remove_loop virt_new fuel addr o (prev_of off l1) cur s = (Ok false, s) ∧ addr ∉ l2) ∨
  ∃ l3 l4 s', l2 = l3 ++ addr :: l4 ∧
    remove_loop virt_new fuel addr o (prev_of off l1) cur s = (Ok true, s') ∧ valid o addr ∧
    inv s' (mkG (<[o := (l1 ++ l3) ++ l4]> (gfree g)) (glive g) (gslab g)) ((addr, bs o) :: F).
Proof.
  intros Hinv. revert fuel l1 cur. induction l2 as [|a l2 IH];
    intros fuel l1 cur Ho Hh S1 S2 Hlen; (destruct fuel as [|fuel]; simpl in Hlen; [lia|]).
  { simpl in S2. subst. left. split; [done|]. apply not_elem_of_nil. }
  destruct S2 as (-> & Ha0 & next & Hn & S2). cbn [remove_loop].
  destruct (a =? 0) eqn:E0; zb; [done|]. destruct (Hinv) as [Hgeo Hlens Hoff _ _].
  assert (LO <= a < HI) as Hp.
  { pose proof (geo_free _ _ Hgeo _ _ Ho) as Hv. rewrite Forall_forall in Hv.
    apply (valid_ptr o), Hv. set_solver. }
  destruct (a =? addr) eqn:E1; zb.
  - subst addr. right.
    destruct (unlink s g F o l1 a l2 h next) as (s' & E & Hv & Hinv'); [done..|].
    exists [], l2, s'. rewrite app_nil_r. split_and!; [done| |done|done].
    erewrite bind_Ok by (by apply ptr_ok).
    unfold load. rewrite gets_bind, Hn. cbn [default from_option id].
    by erewrite bind_Ok by exact E.
  - erewrite bind_Ok by (by apply ptr_ok).
    unfold load. rewrite gets_bind, Hn. cbn [default from_option id].
    specialize (IH fuel (l1 ++ [a]) next). rewrite <- !app_assoc, prev_of_snoc in IH.
    destruct IH as [[E H]|(l3 & l4 & s' & -> & E & Hv & Hinv')]; [done|done| |done|lia|left|right].
    + apply seg_app. exists a. split; [done|]. simpl. eauto.
    + split; [done|]. by apply not_elem_of_cons.
    + exists (a :: l3), l4, s'. split_and!; [done..|]. rewrite <- (app_assoc l1 [a] l3) in Hinv'. exact Hinv'.
Qed.

(** [remove] finds a block exactly when it is on the list. *)
Lemma remove_spec s g F o l addr :
  inv s g F → gfree g !! o = Some l →
  (remove virt_new addr o s = (Ok false, s) ∧ addr ∉ l) ∨
  ∃ l1 l2 s', l = l1 ++ addr :: l2 ∧ remove virt_new addr o s = (Ok true, s') ∧ valid o addr ∧
    inv s' (mkG (<[o := l1 ++ l2]> (gfree g)) (glive g) (gslab g)) ((addr, bs o) :: F).
Proof.
  intros Hinv Ho. destruct (Hinv) as [Hgeo _ _ Hlists _].
  destruct (Hlists o _ Ho) as (h & Hh & Hs). unfold remove.
  erewrite bind_Ok by (by apply get_head_ok).
  apply (remove_loop_spec s g F o h addr _ [] l h Hinv Ho Hh); [done..|].
  pose proof (seg_length _ _ _ _ _ (free_list_NoDup _ _ _ _ Hgeo Ho) Hs). lia.
Qed.

(** ** Splitting and joining what the caller holds *)

Lemma inv_held s g F F' :
  geo g F' → inv s g F → inv s g F'.
Proof. intros H [_ ? ? ? ?]. by split. Qed.

Lemma geo_held_disj g F F' :
  geo g F → (∀ i, i ∈ F' → 0 < i.2) →
  (disj (extent g F) → disj (extent g F')) → geo g F'.
Proof. intros [? ? ? ? ? ? _ Hd] Hp H. split; auto. Qed.

Lemma inv_swap s g x y F : inv s g (x :: y :: F) → inv s g (y :: x :: F).
Proof.
  intros H. eapply inv_held; [|done]. eapply geo_held_disj; [apply H| |].
  - intros i Hi. apply (geo_pos _ _ (inv_geo _ _ _ H)). set_solver.
  - unfold extent. simpl. by rewrite perm_swap.
Qed.

Lemma inv_split s g a n1 n2 F :
  0 < n1 → 0 < n2 → inv s g ((a, n1 + n2) :: F) → inv s g ((a, n1) :: (a + n1, n2) :: F).
Proof.
  intros H1 H2 H. eapply inv_held; [|done]. eapply geo_held_disj; [apply H| |].
  - intros i [->|[->|Hi]%elem_of_cons]%elem_of_cons; [done..|].
    apply (geo_pos _ _ (inv_geo _ _ _ H)). by right.
  - apply disj_split; done.
Qed.

Lemma extent_pos g F i : geo g F → i ∈ extent g F → 0 < i.2.
Proof.
  intros Hgeo. unfold extent. rewrite !elem_of_app.
  intros [Hi|[(r & -> & _)%list_elem_of_fmap|[Hi|(sg & -> & Hsg)%list_elem_of_fmap]]].
  - by eapply geo_pos.
  - simpl. pose proof (bs_pos (order_of r.2)). lia.
  - unfold blocks_of in Hi. revert Hi. generalize 0%nat. induction (gfree g) as [|l gf IH];
      intros o; simpl; [by intros ?%elem_of_nil|]. intros [Hi|Hi]%elem_of_app; [|by eapply IH].
    apply list_elem_of_fmap in Hi as (a & -> & _). simpl. pose proof (bs_pos o). lia.
  - pose proof (geo_slab _ _ Hgeo) as H. rewrite Forall_forall in H.
    pose proof (Slab.order_u32 LO HI U sg (H sg Hsg)). destruct Ar. simpl. nia.
Qed.

Lemma inv_join s g a n1 n2 F :
  inv s g ((a, n1) :: (a + n1, n2) :: F) → inv s g ((a, n1 + n2) :: F).
Proof.
  intros H. pose proof (inv_geo _ _ _ H) as Hg.
  pose proof (geo_pos _ _ Hg (a, n1) ltac:(set_solver)) as P1.
  pose proof (geo_pos _ _ Hg (a + n1, n2) ltac:(set_solver)) as P2. simpl in P1, P2.
  eapply inv_held; [|done]. eapply geo_held_disj; [apply H| |].
  - intros i [->|Hi]%elem_of_cons; [simpl; lia|]. apply (geo_pos _ _ Hg). set_solver.
  - apply disj_join; [done..|]. intros y Hy. apply (extent_pos _ _ _ Hg).
    unfold extent in *. simpl. by do 2 right.
Qed.

(** ** Allocating and freeing blocks *)

(** [g'] is [g] with other free lists, and the same memory is accounted for. *)
Definition moves (g : Ghost) (F : list (Z * Z)) (g' : Ghost) (F' : list (Z * Z)) : Prop :=
  glive g' = glive g ∧ gslab g' = gslab g ∧
  ∀ x, icovers (extent g F) x ↔ icovers (extent g' F') x.

Lemma moves_trans g1 F1 g2 F2 g3 F3 : moves g1 F1 g2 F2 → moves g2 F2 g3 F3 → moves g1 F1 g3 F3.
Proof.
  intros (A1 & A2 & A3) (B1 & B2 & B3). split_and!; [congruence..|].
  intros x. by rewrite A3, B3.
Qed.

Lemma moves_perm g F g' F' :
  glive g' = glive g → gslab g' = gslab g → extent g F ≡ₚ extent g' F' → moves g F g' F'.
Proof. intros H1 H2 H3. split_and!; [done..|]. intros x. by rewrite H3. Qed.

Lemma moves_split g a n1 n2 F :
  0 < n1 → 0 < n2 → moves g ((a, n1 + n2) :: F) g ((a, n1) :: (a + n1, n2) :: F).
Proof.
  intros. split_and!; [done..|]. intros x. unfold extent. cbn [app].
  apply icovers_split; lia.
Qed.

Lemma moves_sym g F g' F' : moves g F g' F' → moves g' F' g F.
Proof. intros (H1 & H2 & H3). split_and!; [done..|]. intros x. by rewrite H3. Qed.

Lemma valid_lower o a : valid (S o) a → valid o a ∧ valid o (a + bs o).
Proof.
  unfold valid. rewrite bs_succ. pose proof (bs_pos o).
  intros (H1 & H2 & H3 & [k Hk]). split; (split_and!; [lia..|]).
  - exists (k * 2). lia.
  - exists (k * 2 + 1). lia.
Qed.

Lemma split_down_spec k block order s g F :
  inv s g ((block, bs (order + k)) :: F) → valid (order + k) block →
  ∃ s' g', split_down virt_new MIN_ORDER k block order s = (Ok tt, s') ∧
    inv s' g' ((block, bs order) :: F) ∧ valid order block ∧
    moves g ((block, bs (order + k)) :: F) g' ((block, bs order) :: F).
Proof.
  revert s g. induction k as [|k IH]; intros s g Hinv Hv.
  { rewrite Nat.add_0_r in *. exists s, g. split_and!; [done..|]. by apply moves_perm. }
  rewrite Nat.add_succ_r in *. destruct (valid_lower _ _ Hv) as [Hv1 Hv2].
  pose proof (bs_pos (order + k)) as Hbs. rewrite bs_succ in *.
  assert (0 < bs (order + k)) as Hb0 by lia.
  pose proof (inv_swap _ _ _ _ _ (inv_split _ _ _ _ _ _ Hb0 Hb0 Hinv)) as Hinv1.
  destruct (buddy_push _ _ _ _ _ Hinv1 Hv2) as (l & s1 & Hl & E1 & Hinv2).
  destruct (IH s1 _ Hinv2 Hv1) as (s' & g' & E2 & Hinv' & Hv' & Hmv).
  exists s', g'. split_and!; [|done|done|].
  - cbn [split_down]. rewrite block_size_bs by (destruct Hv1; lia).
    rewrite u64_small by (destruct Hv2 as (_ & ? & ? & _), Ar; unfold in_u64; lia).
    by erewrite bind_Ok by exact E1.
  - eapply moves_trans; [apply (moves_split g block _ _ F); lia|].
    eapply moves_trans; [|exact Hmv]. apply moves_perm; [done..|].
    rewrite extent_push by done. unfold extent. cbn [app]. apply perm_swap.
Qed.

Lemma find_order_spec fuel found s g F :
  inv s g F → (ORDER_COUNT - found < fuel)%nat →
  (find_order ORDER_COUNT fuel found s = (Ok None, s) ∧
     ∀ o l, (found <= o)%nat → gfree g !! o = Some l → l = []) ∨
  ∃ o a l, find_order ORDER_COUNT fuel found s = (Ok (Some o), s) ∧ (found <= o)%nat ∧
    gfree g !! o = Some (a :: l) ∧
    ∀ o' l, (found <= o' < o)%nat → gfree g !! o' = Some l → l = [].
Proof.
  intros Hinv. destruct (Hinv) as [Hgeo Hlen _ Hlists _]. pose proof (geo_len _ _ Hgeo) as Hglen.
  revert found. induction fuel as [|fuel IH]; intros found Hf; [lia|]. cbn [find_order].
  destruct (max_order ORDER_COUNT <? found)%nat eqn:E.
  { apply Nat.ltb_lt in E. unfold max_order in E. left. split; [done|].
    intros o l Ho Hl. apply lookup_lt_Some in Hl. lia. }
  apply Nat.ltb_ge in E. unfold max_order in E.
  destruct (lookup_lt_is_Some_2 (gfree g) found ltac:(lia)) as [l Hl].
  destruct (Hlists found l Hl) as (h & Hh & Hs). erewrite bind_Ok by (by apply get_head_ok).
  destruct l as [|a l]; simpl in Hs.
  - subst h. cbn. destruct (IH (S found) ltac:(lia)) as [[E1 H]|(o & a & l & E1 & H1 & H2 & H3)];
      [left|right].
    + split; [done|]. intros o l Ho Hlo. destruct (decide (o = found)) as [->|];
        [congruence|apply (H o); [lia|done]].
    + exists o, a, l. split_and!; [done|lia|done|]. intros o' l' Ho' Hl'.
      destruct (decide (o' = found)) as [->|]; [congruence|apply (H3 o'); [lia|done]].
  - destruct Hs as (-> & Ha0 & _). destruct (a =? 0) eqn:E0; zb; [done|]. right.
    exists found, a, l. split_and!; [done|lia|done|]. intros; lia.
Qed.

(** [alloc] takes a block of the order asked for out of the smallest free
    block that is large enough. *)
Lemma buddy_alloc order s g F :
  inv s g F →
  (alloc virt_new MIN_ORDER ORDER_COUNT order s = (Ok None, s) ∧
     ∀ o l, (order <= o)%nat → gfree g !! o = Some l → l = []) ∨
  ∃ a s' g', alloc virt_new MIN_ORDER ORDER_COUNT order s = (Ok (Some a), s') ∧
    inv s' g' ((a, bs order) :: F) ∧ valid order a ∧ moves g F g' ((a, bs order) :: F).
Proof.
  intros Hinv. pose proof (geo_len _ _ (inv_geo _ _ _ Hinv)) as Hglen. unfold alloc.
  destruct (max_order ORDER_COUNT <? order)%nat eqn:E.
  { apply Nat.ltb_lt in E. unfold max_order in E. left. split; [done|].
    intros o l Ho Hl. apply lookup_lt_Some in Hl. lia. }
  destruct (find_order_spec (S ORDER_COUNT) order s g F Hinv)
    as [[E1 H]|(o & a & l & E1 & H1 & H2 & _)]; [lia|left|right].
  { split; [|done]. by erewrite bind_Ok by exact E1. }
  destruct (pop_spec s g F o a l Hinv H2) as (s1 & E2 & Hv & Hinv1).
  set (k := (o - order)%nat) in *.
  destruct (split_down_spec k a order s1 (mkG (<[o := l]> (gfree g)) (glive g) (gslab g)) F)
    as (s' & g' & E3 & Hinv' & Hv' & Hmv).
  { by replace (order + k)%nat with o by lia. }
  { by replace (order + k)%nat with o by lia. }
  exists a, s', g'. split_and!; [|done|done|].
  - mstep E1. mstep E2. by mstep E3.
  - eapply moves_trans; [|exact Hmv]. replace (order + k)%nat with o by lia.
    apply moves_perm; [done..|]. by apply (extent_move g F o [] a l).
Qed.

Lemma lxor_1 q : Z.lxor q 1 = if Z.even q then q + 1 else q - 1.
Proof.
  apply Z.bits_inj'. intros n Hn. rewrite Z.lxor_spec.
  destruct (Z.even q) eqn:E.
  - apply Z.even_spec in E as [k ->].
    destruct (decide (n = 0)) as [->|].
    + by rewrite Z.testbit_even_0, Z.testbit_odd_0.
    + replace n with (Z.succ (Z.pred n)) by lia.
      rewrite Z.testbit_even_succ, Z.testbit_odd_succ by lia.
      replace 1 with (2 * 0 + 1) by lia. rewrite Z.testbit_odd_succ, Z.bits_0 by lia.
      by rewrite xorb_false_r.
  - assert (Z.odd q = true) as Ho by (by rewrite <- Z.negb_even, E).
    apply Z.odd_spec in Ho as [k ->]. replace (2 * k + 1 - 1) with (2 * k) by lia.
    destruct (decide (n = 0)) as [->|].
    + by rewrite Z.testbit_even_0, Z.testbit_odd_0.
    + replace n with (Z.succ (Z.pred n)) by lia.
      rewrite Z.testbit_even_succ, Z.testbit_odd_succ by lia.
      replace 1 with (2 * 0 + 1) by lia. rewrite Z.testbit_odd_succ, Z.bits_0 by lia.
      by rewrite xorb_false_r.
Qed.

(** The buddy is the other half of the enclosing block. *)
Lemma buddy_of_cases o a :
  (o < ORDER_COUNT)%nat → (bs o | a) →
  (buddy_of MIN_ORDER a o = a + bs o ∧ (bs (S o) | a)) ∨
  (buddy_of MIN_ORDER a o = a - bs o ∧ (bs (S o) | a - bs o)).
Proof.
  intros Ho [q ->]. unfold buddy_of. rewrite block_size_bs, bs_succ by done.
  assert (Z.lxor (q * bs o) (bs o) = Z.lxor q 1 * bs o) as ->.
  { assert (bs o = 2 ^ (Z.of_nat o + MIN_ORDER)) as -> by (unfold bs; rewrite Z.pow_add_r by lia; done).
    rewrite <- !Z.shiftl_mul_pow2 by lia. rewrite Z.shiftl_lxor, Z.shiftl_1_l. done. }
  rewrite lxor_1. destruct (Z.even q) eqn:E; [left|right].
  - apply Z.even_spec in E as [k ->]. split; [lia|]. exists k. lia.
  - assert (Z.odd q = true) as Hodd by (by rewrite <- Z.negb_even, E).
    apply Z.odd_spec in Hodd as [k ->]. split; [lia|]. exists k. lia.
Qed.

Lemma merge_loop_spec can_merge fuel a o s g F :
  inv s g ((a, bs o) :: F) → valid o a → (ORDER_COUNT - o < fuel)%nat →
  ∃ a' o' s' g', merge_loop virt_new MIN_ORDER ORDER_COUNT fuel can_merge a o s = (Ok (a', o'), s') ∧
    inv s' g' ((a', bs o') :: F) ∧ valid o' a' ∧
    moves g ((a, bs o) :: F) g' ((a', bs o') :: F).
Proof.
  revert a o s g. induction fuel as [|fuel IH]; intros a o s g Hinv Hv Hf; [lia|].
  cbn [merge_loop]. assert (∃ a' o' s' g',
    (mret (a, o) : K St (Z * nat)) s = (Ok (a', o'), s') ∧ inv s' g' ((a', bs o') :: F) ∧
    valid o' a' ∧ moves g ((a, bs o) :: F) g' ((a', bs o') :: F)) as Hstop.
  { exists a, o, s, g. split_and!; [done..|]. by apply moves_perm. }
  destruct (o =? max_order ORDER_COUNT)%nat eqn:E; [done|].
  apply Nat.eqb_neq in E. unfold max_order in E. cbv zeta.
  destruct (negb (can_merge _ o)); [done|].
  destruct (lookup_lt_is_Some_2 (gfree g) o) as [l Hl].
  { rewrite (geo_len _ _ (inv_geo _ _ _ Hinv)). apply Hv. }
  destruct (remove_spec s g _ o l (buddy_of MIN_ORDER a o) Hinv Hl)
    as [[E1 _]|(l1 & l2 & s1 & -> & E1 & Hvb & Hinv1)]; mstep E1; cbn [negb]; [done|].
  set (b := buddy_of MIN_ORDER a o) in *.
  assert (inv s1 (mkG (<[o := l1 ++ l2]> (gfree g)) (glive g) (gslab g))
    ((Z.min a b, bs (S o)) :: F) ∧ valid (S o) (Z.min a b) ∧
    moves g ((a, bs o) :: F) (mkG (<[o := l1 ++ l2]> (gfree g)) (glive g) (gslab g))
      ((Z.min a b, bs (S o)) :: F)) as (Hinv2 & Hv2 & Hmv).
  { pose proof (bs_pos o). rewrite bs_succ.
    assert (moves g ((a, bs o) :: F) (mkG (<[o := l1 ++ l2]> (gfree g)) (glive g) (gslab g))
      ((b, bs o) :: (a, bs o) :: F)) as Hm1.
    { apply moves_perm; [done..|]. by apply extent_move. }
    destruct Hv as (V1 & V2 & V3 & V4), Hvb as (W1 & W2 & W3 & W4). unfold valid. rewrite bs_succ.
    destruct (buddy_of_cases o a V1 V4) as [[Eb Hd]|[Eb Hd]]; fold b in Eb; rewrite bs_succ in Hd.
    - rewrite Z.min_l by lia. rewrite Eb in *. split_and!; [|lia|lia|lia|done|].
      + apply inv_join, inv_swap, Hinv1.
      + eapply moves_trans; [exact Hm1|]. eapply moves_trans; [|apply moves_sym, moves_split; lia].
        apply moves_perm; [done..|]. unfold extent. cbn [app]. apply perm_swap.
    - rewrite Z.min_r by lia. rewrite <- Eb in Hd. replace a with (b + bs o) in Hinv1, Hm1 |- * by lia.
      split_and!; [by apply inv_join|lia|lia|lia|done|].
      eapply moves_trans; [exact Hm1|]. apply moves_sym, moves_split; lia. }
  pose proof (proj1 Hv).
  destruct (IH (Z.min a b) (S o) s1 _ Hinv2 Hv2 ltac:(lia)) as (a' & o' & s' & g' & E2 & H1 & H2 & H3).
  exists a', o', s', g'. split_and!; [done..|]. by eapply moves_trans.
Qed.

(** [free] gives the block, merged with free buddies, back. *)
Lemma buddy_free a o s g F :
  inv s g ((a, bs o) :: F) → valid o a →
  ∃ s' g', free virt_new MIN_ORDER ORDER_COUNT a o s = (Ok tt, s') ∧ inv s' g' F ∧
    moves g ((a, bs o) :: F) g' F.
Proof.
  intros Hinv Hv. unfold free, free_with.
  destruct (max_order ORDER_COUNT <? o)%nat eqn:E.
  { apply Nat.ltb_lt in E. unfold max_order in E. destruct Hv; lia. }
  destruct (merge_loop_spec (λ _ _, true) (S ORDER_COUNT) a o s g F Hinv Hv ltac:(lia))
    as (a' & o' & s1 & g1 & E1 & Hinv1 & Hv1 & Hm1).
  destruct (buddy_push s1 g1 F o' a' Hinv1 Hv1) as (l & s' & Hl & E2 & Hinv').
  eexists s', _. split_and!; [by mstep E1|exact Hinv'|].
  eapply moves_trans; [exact Hm1|]. apply moves_perm; [done..|]. by rewrite extent_push.
Qed.

(** ** Ranges *)

Lemma order_of_spec count :
  0 < count < 18446744073709551616 → (order_of count < 64)%nat →
  count <= 2 ^ Z.of_nat (order_of count).
Proof.
  intros Hc Ho. unfold order_of in *. destruct (decide (count <= 2 ^ 63)).
  - destruct (next_power_of_two_spec count ltac:(lia)) as [E H]. rewrite E in *.
    rewrite trailing_zeros_pow2 by apply Z.log2_up_nonneg.
    rewrite Z2Nat.id by apply Z.log2_up_nonneg. done.
  - assert (Z.log2_up count = 64) as E.
    { apply Z.log2_up_unique; [lia|]. change (2 ^ 64) with 18446744073709551616.
      change (2 ^ Z.pred 64) with (2 ^ 63). lia. }
    unfold next_power_of_two in Ho. destruct (count <=? 1) eqn:?; zb; [lia|].
    rewrite E in Ho. simpl in Ho. lia.
Qed.

(** All ranges handed out, as (address, count). *)
Definition lives (g : Ghost) : list (Z * Z) :=
  glive g ++ (Slab.active (gslab g) ≫= Slab.sg_live).

Definition same_memory (g g' : Ghost) : Prop :=
  ∀ x, icovers (extent g []) x ↔ icovers (extent g' []) x.

Lemma on_slab_eq {A} (f : K (Slab.PageSlab * Mem) A) s r sl m :
  f (slab s.1, s.2) = (r, (sl, m)) →
  on_slab f s = (r, (mkBuddy (heads s.1) (offset s.1) sl, m)).
Proof. intros E. unfold on_slab. by rewrite E. Qed.

(** Handing out a block the caller holds, and taking it back. *)
Lemma extent_live g F a c :
  extent (mkG (gfree g) ((a, c) :: glive g) (gslab g)) F ≡ₚ extent g ((a, bs (order_of c)) :: F).
Proof. unfold extent. simpl. by rewrite <- Permutation_middle. Qed.

Lemma inv_live s g F a c :
  inv s g ((a, bs (order_of c)) :: F) → 0 < c → valid (order_of c) a →
  inv s (mkG (gfree g) ((a, c) :: glive g) (gslab g)) F.
Proof.
  intros [[H1 H2 H3 H4 H5 H0 H6 H7] L O R Sl] Hc Hv.
  split; [split; simpl|..]; try done.
  - by constructor.
  - intros i Hi. apply H6. by right.
  - by rewrite extent_live.
Qed.

Lemma inv_unlive s g F a c L :
  inv s g F → glive g ≡ₚ (a, c) :: L →
  inv s (mkG (gfree g) L (gslab g)) ((a, bs (order_of c)) :: F) ∧ valid (order_of c) a ∧
  extent g F ≡ₚ extent (mkG (gfree g) L (gslab g)) ((a, bs (order_of c)) :: F).
Proof.
  intros [[H1 H2 H3 H4 H5 H0 H6 H7] Ln O R Sl] Hp.
  assert (extent g F ≡ₚ extent (mkG (gfree g) L (gslab g)) ((a, bs (order_of c)) :: F)) as He.
  { unfold extent. rewrite Hp. simpl. by rewrite <- Permutation_middle. }
  rewrite Hp in H3. inversion_clear H3 as [|?? [_ Hv] HL]. split_and!; [|done|done].
  split; [split; simpl|..]; try done.
  - intros i [->|Hi]%elem_of_cons; [simpl; pose proof (bs_pos (order_of c)); lia|auto].
  - by rewrite <- He.
Qed.

(** Changing the slab: other memory than [i] stays as it is. *)
Lemma inv_slab s g F F' gs' sl' m' i :
  inv s g F → geo (mkG (gfree g) (glive g) gs') F' →
  Slab.slabs_rel off U m' sl' gs' → only_in i s.2 m' →
  (∀ x, x ∈ blocks_of (gfree g) → idisj i x) →
  inv (mkBuddy (heads s.1) (offset s.1) sl', m') (mkG (gfree g) (glive g) gs') F'.
Proof.
  intros [Hg L O R Sl] Hgeo Hrel Hm Hd. split; simpl; try done. by eapply lists_rel_frame.
Qed.

Lemma slab_blocks_apart g F sg x :
  geo g F → sg ∈ Slab.active (gslab g) → x ∈ blocks_of (gfree g) → idisj (Slab.slab_iv U sg) x.
Proof.
  intros [_ _ _ _ _ _ _ H] Hsg Hx. unfold extent in H.
  apply disj_app in H as (_ & H & _). apply disj_app in H as (_ & H & _).
  apply disj_app in H as (_ & _ & H). apply idisj_sym, H; [done|]. by apply list_elem_of_fmap_2.
Qed.

(** Replacing a block of the slab by one at the same place. *)
Lemma geo_slab_replace g F gs' sg sg' R :
  geo g F → Slab.active (gslab g) ≡ₚ sg :: R → Slab.active gs' ≡ₚ sg' :: R →
  Slab.slab_ok LO HI U sg' → Slab.slab_iv U sg' = Slab.slab_iv U sg →
  Slab.sg_order sg' = Slab.sg_order sg →
  geo (mkG (gfree g) (glive g) gs') F ∧
  extent (mkG (gfree g) (glive g) gs') F ≡ₚ extent g F.
Proof.
  intros [H1 H2 H3 H4 H5 H0 H6 H7] Hp Hp' Hok Hiv Ho.
  assert (extent (mkG (gfree g) (glive g) gs') F ≡ₚ extent g F) as He.
  { unfold extent, slabs_iv. simpl. by rewrite Hp, Hp', !fmap_cons, Hiv. }
  assert (Slab.sg_base sg' = Slab.sg_base sg) as Hb by (unfold Slab.slab_iv in Hiv; congruence).
  split; [|done]. split; simpl; try done.
  - rewrite Hp in H4. rewrite Hp'. inversion_clear H4. by constructor.
  - intros x. rewrite Hp'. intros [->|Hx]%elem_of_cons.
    + rewrite Hb, Ho. apply H5. rewrite Hp. by left.
    + apply H5. rewrite Hp. by right.
  - intros E. apply H0 in E. rewrite E in Hp. by apply Permutation_nil_l in Hp.
  - by rewrite He.
Qed.

Lemma slab_allocate_spec s g count :
  inv s g [] → 0 < count →
  (on_slab (Slab.allocate virt_new count) s = (Ok None, s) ∧
     ∀ sg, sg ∈ Slab.active (gslab g) → Forall (λ r, r.2 < count) (Slab.sg_free sg)) ∨
  ∃ a s' g', on_slab (Slab.allocate virt_new count) s = (Ok (Some a), s') ∧ inv s' g' [] ∧
    lives g' ≡ₚ (a, count) :: lives g ∧ same_memory g g'.
Proof.
  intros Hinv Hc. destruct (Hinv) as [Hgeo _ _ _ Hrel].
  pose proof (geo_slabs_ok _ _ Hgeo) as Hok.
  assert (Slab.block_count (slab s.1) = length (gslab g)) as Hn by apply Hrel.
  destruct (Slab.slab_allocate_from virt_new off LO HI U (length (gslab g)) 0 count (slab s.1) s.2
    (gslab g) Hrel Hok Hc eq_refl)
    as [[E H]|(a & j & sg & sg' & sl' & m' & E & Hj & Hok' & Hiv & Hord & Hlive & Hrel' & Hm)].
  - left. split.
    + erewrite on_slab_eq.
      2:{ unfold Slab.allocate. rewrite gets_bind. cbn [fst]. rewrite Hn. exact E. }
      destruct s as [[hs o sl] m]. reflexivity.
    + intros sg (o & Ho & E')%list_elem_of_omap. simpl in E'. subst o.
      apply list_elem_of_lookup in Ho as [i Hi]. apply (H i); [lia|done].
  - right. destruct (Slab.active_update _ _ _ Hj) as (R & HR & HR'). specialize (HR' (Some sg')).
    simpl in HR, HR'.
    destruct (geo_slab_replace g [] (<[j := Some sg']> (gslab g)) sg sg' R) as [Hgeo' He]; [done..|].
    eexists a, _, (mkG (gfree g) (glive g) (<[j := Some sg']> (gslab g))). split_and!.
    + eapply on_slab_eq. unfold Slab.allocate. rewrite gets_bind. cbn [fst]. rewrite Hn. exact E.
    + eapply inv_slab; [done..|exact Hm|]. intros x Hx.
      apply (slab_blocks_apart g [] sg x Hgeo); [by eapply Slab.active_elem|done].
    + unfold lives. simpl. rewrite HR, HR'. simpl. rewrite Hlive. simpl.
      by rewrite <- Permutation_middle.
    + intros x. by rewrite He.
Qed.

Lemma bs_unit o : (U | bs o).
Proof. by exists (2 ^ Z.of_nat o). Qed.

(** A block the caller holds becomes a block of the slab. *)
Lemma geo_slab_add g a o gs' :
  geo g [(a, bs o)] → valid o a → HAS_SLAB = true →
  Slab.active gs' ≡ₚ Slab.fresh a (Z.of_nat o) :: Slab.active (gslab g) →
  Slab.slab_ok LO HI U (Slab.fresh a (Z.of_nat o)) →
  geo (mkG (gfree g) (glive g) gs') [] ∧
  extent (mkG (gfree g) (glive g) gs') [] ≡ₚ extent g [(a, bs o)].
Proof.
  intros [H1 H2 H3 H4 H5 H0 H6 H7] Hv Hs Hp Hok.
  assert (extent (mkG (gfree g) (glive g) gs') [] ≡ₚ extent g [(a, bs o)]) as He.
  { unfold extent, slabs_iv. simpl. rewrite Hp, fmap_cons. unfold Slab.slab_iv at 1. simpl.
    fold (bs o). by rewrite <- !Permutation_middle. }
  split; [|done]. split; simpl; try done.
  - rewrite Hp. by constructor.
  - intros sg. rewrite Hp. intros [->|Hsg]%elem_of_cons; [|auto]. simpl. by rewrite Nat2Z.id.
  - by rewrite Hs.
  - intros i []%elem_of_nil.
  - by rewrite He.
Qed.

Lemma slab_add_spec s g a o :
  inv s g [(a, bs o)] → valid o a → HAS_SLAB = true →
  on_slab (Slab.add_block virt_new a (2 ^ Z.of_nat o)) s = (Ok false, s) ∨
  ∃ s' g', on_slab (Slab.add_block virt_new a (2 ^ Z.of_nat o)) s = (Ok true, s') ∧
    inv s' g' [] ∧ lives g' ≡ₚ lives g ∧
    (∀ x, icovers (extent g [(a, bs o)]) x ↔ icovers (extent g' []) x) ∧
    Slab.fresh a (Z.of_nat o) ∈ Slab.active (gslab g').
Proof.
  intros Hinv (V1 & V2 & V3 & V4) Hs. destruct (Hinv) as [Hgeo _ _ _ Hrel].
  pose proof (geo_slabs_ok _ _ Hgeo) as Hok. destruct (geo_held _ _ _ Hgeo) as [Hd1 Hd2].
  assert ((U | a)) as Hua by (eapply Z.divide_trans; [apply bs_unit|done]).
  destruct (Slab.add_block_spec virt_new off LO HI U s.2 (slab s.1) (gslab g) a (Z.of_nat o))
    as [E|(sl' & m' & gs' & E & Hrel' & Hact & Hm)]; try done; [lia| |left|right].
  - intros sg Hsg. apply Hd2. by apply list_elem_of_fmap_2.
  - erewrite on_slab_eq by exact E. by destruct s as [[] ?].
  - destruct (Slab.fresh_rel virt_new off LO HI U s.2 a (Z.of_nat o)) as (Hfok & _); try done; [lia|].
    destruct (geo_slab_add g a o gs' Hgeo) as [Hgeo' He]; [done..|].
    eexists _, (mkG (gfree g) (glive g) gs'). split_and!.
    + by eapply on_slab_eq.
    + eapply inv_slab; [done..|exact Hm|done].
    + unfold lives. simpl. by rewrite Hact.
    + intros x. by rewrite He.
    + simpl. rewrite Hact. by left.
Qed.

(** Ranges start at a multiple of the unit. *)
Lemma lives_aligned g r : geo g [] → r ∈ lives g → (U | r.1).
Proof.
  intros Hgeo [Hr|(sg & Hr & Hsg)%list_elem_of_bind]%elem_of_app.
  - pose proof (geo_live _ _ Hgeo) as H. rewrite Forall_forall in H.
    destruct (H r Hr) as (_ & _ & _ & _ & Hd). eapply Z.divide_trans; [apply bs_unit|done].
  - pose proof (geo_slab _ _ Hgeo) as H. rewrite Forall_forall in H.
    destruct (Slab.range_bounds LO HI U sg r (H sg Hsg)) as (_ & Hd & _); [set_solver|done].
Qed.

(** [alloc_range] never panics and always terminates.  It fails only when
    the buddy allocator has no free block of the order needed; otherwise it
    returns a range that is added to the ranges in use, keeping every part of
    the memory accounted for exactly once. *)
Lemma alloc_range_ok s g count :
  inv s g [] → 0 < count < 18446744073709551616 →
  (alloc_range virt_new MIN_ORDER ORDER_COUNT HAS_SLAB count s = (Ok None, s) ∧
     ∀ o l, (order_of count <= o)%nat → gfree g !! o = Some l → l = []) ∨
  ∃ a s' g', alloc_range virt_new MIN_ORDER ORDER_COUNT HAS_SLAB count s = (Ok (Some a), s') ∧
    inv s' g' [] ∧ lives g' ≡ₚ (a, count) :: lives g ∧ same_memory g g' ∧
    (is_power_of_two count = true → (bs (order_of count) | a)).
Proof.
  intros Hinv Hc. unfold alloc_range.
  destruct (buddy_alloc (order_of count) s g [] Hinv) as [[E H]|(a & s1 & g1 & E & Hinv1 & Hv & Hmv)].
  { destruct (HAS_SLAB && negb (is_power_of_two count)) eqn:Eb; [|by left].
    apply andb_prop in Eb as [_ Hp%negb_true_iff].
    destruct (slab_allocate_spec s g count Hinv ltac:(lia)) as [[E1 _]|(a & s' & g' & E1 & H1 & H2)];
      mstep E1; [left|right].
    - split; [by mstep E|done].
    - exists a, s', g'. split_and!; [done|tauto..|]. by rewrite Hp. }
  destruct Hmv as (Hml & Hms & Hmv).
  assert (inv s1 (mkG (gfree g1) ((a, count) :: glive g1) (gslab g1)) [] ∧
    lives (mkG (gfree g1) ((a, count) :: glive g1) (gslab g1)) ≡ₚ (a, count) :: lives g ∧
    same_memory g (mkG (gfree g1) ((a, count) :: glive g1) (gslab g1))) as Hwhole.
  { split_and!; [apply inv_live; [done|lia|done]| |].
    - unfold lives. simpl. by rewrite Hml, Hms.
    - intros x. by rewrite extent_live, Hmv. }
  destruct (HAS_SLAB && negb (is_power_of_two count)) eqn:Eb.
  2:{ right. exists a, s1. eexists. split_and!; [exact E|apply Hwhole..|]. intros _. apply Hv. }
  apply andb_prop in Eb as [Hs Hp%negb_true_iff]. rewrite Hp.
  destruct (slab_allocate_spec s g count Hinv ltac:(lia)) as [[E1 _]|(a' & s' & g' & E1 & H1 & H2)];
    mstep E1; right; [|exists a', s', g'; split_and!; [done|tauto..|done]].
  mstep E. destruct (Hv) as (Ho & _).
  assert (u32 (Z.shiftl 1 (Z.of_nat (order_of count) mod 32)) = 2 ^ Z.of_nat (order_of count)) as ->.
  { rewrite Z.mod_small, Z.shiftl_1_l by lia. apply u32_small.
    split; [apply Z.pow_nonneg; lia|]. change 4294967296 with (2 ^ 32). apply Z.pow_lt_mono_r; lia. }
  destruct (slab_add_spec s1 g1 a (order_of count) Hinv1 Hv Hs)
    as [E2|(s2 & g2 & E2 & Hinv2 & Hl2 & Hx2 & Hf2)]; mstep E2.
  { exists a, s1. eexists. split_and!; [done|apply Hwhole..|done]. }
  destruct (slab_allocate_spec s2 g2 count Hinv2 ltac:(lia)) as [[_ H]|(a' & s' & g' & E3 & H1 & H2 & H3)].
  { exfalso. specialize (H _ Hf2). inversion_clear H as [|?? Hlt _]. simpl in Hlt.
    pose proof (order_of_spec count Hc ltac:(lia)). lia. }
  exists a', s', g'. split_and!; [done|done| | |done].
  - rewrite H2, Hl2. unfold lives. by rewrite Hml, Hms.
  - intros x. rewrite Hmv, Hx2. apply H3.
Qed.

(** The last range of a slab block was freed: the block is held by the caller. *)
Lemma geo_slab_drop g gs' sg R :
  geo g [] → Slab.active (gslab g) ≡ₚ sg :: R → Slab.active gs' ≡ₚ R →
  let o := Z.to_nat (Slab.sg_order sg) in
  geo (mkG (gfree g) (glive g) gs') [(Slab.sg_base sg, bs o)] ∧ valid o (Slab.sg_base sg) ∧
  extent g [] ≡ₚ extent (mkG (gfree g) (glive g) gs') [(Slab.sg_base sg, bs o)].
Proof.
  intros Hgeo Hp Hp' o. destruct (Hgeo) as [H1 H2 H3 H4 H5 H0 H6 H7].
  assert (0 <= Slab.sg_order sg) as Hpos.
  { rewrite Forall_forall in H4. apply (H4 sg). rewrite Hp. by left. }
  assert (extent g [] ≡ₚ extent (mkG (gfree g) (glive g) gs') [(Slab.sg_base sg, bs o)]) as He.
  { unfold extent, slabs_iv. simpl. rewrite Hp, Hp', fmap_cons. unfold Slab.slab_iv at 1. simpl.
    subst o. unfold bs at 1. rewrite Z2Nat.id by done. by rewrite <- !Permutation_middle. }
  split_and!; [|apply H5; rewrite Hp; by left|done]. split; simpl; try done.
  - rewrite Hp'. rewrite Hp in H4. by inversion_clear H4.
  - intros x. rewrite Hp'. intros Hx. apply H5. rewrite Hp. by right.
  - intros E. apply H0 in E. rewrite E in Hp. by apply Permutation_nil_l in Hp.
  - intros i ->%list_elem_of_singleton. simpl. pose proof (bs_pos o). lia.
  - by rewrite <- He.
Qed.

Lemma slab_free_ok s g i sg l1 addr count l2 :
  inv s g [] → gslab g !! i = Some (Some sg) →
  Slab.sg_live sg = l1 ++ (addr, count) :: l2 → 0 < count →
  ∃ s' g', free_range virt_new MIN_ORDER ORDER_COUNT HAS_SLAB addr count s = (Ok tt, s') ∧
    inv s' g' [] ∧ lives g ≡ₚ (addr, count) :: lives g' ∧ same_memory g g'.
Proof.
  intros Hinv Hi Hl Hc. destruct (Hinv) as [Hgeo _ _ _ Hrel].
  pose proof (geo_slabs_ok _ _ Hgeo) as Hok. pose proof (Slab.active_elem _ _ _ Hi) as Hact.
  destruct (Slab.active_update _ _ _ Hi) as (R & HR & HR'). simpl in HR.
  assert (HAS_SLAB = true) as Hs.
  { destruct HAS_SLAB eqn:E; [done|]. rewrite (geo_has_slab _ _ Hgeo E) in Hact.
    by apply elem_of_nil in Hact. }
  assert (Slab.range_ok U sg (addr, count)) as (G0 & _ & G1 & G2).
  { eapply (Slab.range_bounds LO HI); [by eapply Slab.slabs_ok_lookup|]. rewrite Hl. set_solver. }
  assert (Slab.owns (slab s.1) addr = true) as Hown.
  { unfold Slab.owns. erewrite (Slab.find_block_Some virt_new off LO HI U); [done..|].
    destruct Ar. simpl in *. nia. }
  unfold free_range. destruct (count =? 0) eqn:E; zb; [lia|].
  rewrite gets_bind, Hown, Hs. cbn [andb].
  assert (∀ x, x ∈ blocks_of (gfree g) → idisj (Slab.slab_iv U sg) x) as Hd
    by (intros x; by apply (slab_blocks_apart g [])).
  destruct (Slab.slab_free_spec virt_new off LO HI U s.2 (slab s.1) (gslab g) i sg l1 addr count l2)
    as (sl' & m' & Hm & [(Hnil & E1 & Hrel')|(Hne & E1 & Hok' & Hrel')]); [done..| |].
  - specialize (HR' None). simpl in HR'.
    destruct (geo_slab_drop g (<[i := None]> (gslab g)) sg R Hgeo HR HR') as (Hgeo' & Hv & He).
    assert (0 <= Slab.sg_order sg) by apply (Slab.slabs_ok_lookup _ _ _ _ _ _ Hok Hi).
    destruct (buddy_free (Slab.sg_base sg) (Z.to_nat (Slab.sg_order sg))
      (mkBuddy (heads s.1) (offset s.1) sl', m')
      (mkG (gfree g) (glive g) (<[i := None]> (gslab g))) [])
      as (s2 & g2 & E2 & Hinv2 & M1 & M2 & M3); [|done|].
    { eapply inv_slab; [done..|exact Hm|done]. }
    exists s2, g2. split_and!; [|done| |].
    + erewrite bind_Ok by (apply on_slab_eq; exact E1). cbv beta iota.
      by rewrite trailing_zeros_pow2.
    + unfold lives. rewrite M1, M2. simpl. rewrite HR, HR'. simpl. rewrite Hl.
      rewrite <- (Permutation_middle l1), Hnil. simpl. by rewrite <- Permutation_middle.
    + intros x. rewrite <- M3. by rewrite He.
  - specialize (HR' (Some (Slab.mkGhost (Slab.sg_base sg) (Slab.sg_order sg)
      ((addr, count) :: Slab.sg_free sg) (l1 ++ l2)))). simpl in HR'.
    edestruct (geo_slab_replace g [] _ sg _ R Hgeo HR HR') as [Hgeo' He]; [done..|].
    eexists _, (mkG (gfree g) (glive g) _). split_and!.
    + erewrite bind_Ok by (apply on_slab_eq; exact E1). reflexivity.
    + eapply inv_slab; [done..|exact Hm|done].
    + unfold lives. simpl. rewrite HR, HR'. simpl. rewrite Hl.
      rewrite <- (Permutation_middle l1). simpl. by rewrite <- Permutation_middle.
    + intros x. by rewrite He.
Qed.

(** [free_range] takes back any range in use. *)
Lemma free_range_ok s g addr count :
  inv s g [] → (addr, count) ∈ lives g →
  ∃ s' g', free_range virt_new MIN_ORDER ORDER_COUNT HAS_SLAB addr count s = (Ok tt, s') ∧
    inv s' g' [] ∧ lives g ≡ₚ (addr, count) :: lives g' ∧ same_memory g g'.
Proof.
  intros Hinv [Hin|Hin]%elem_of_app.
  - apply elem_of_Permutation in Hin as [L HL].
    destruct (inv_unlive s g [] addr count L Hinv HL) as (Hinv1 & Hv & He).
    assert (0 < count) as Hc.
    { pose proof (geo_live _ _ (inv_geo _ _ _ Hinv)) as Hlive. rewrite HL in Hlive.
      inversion_clear Hlive as [|?? [? _] _]. done. }
    destruct (buddy_free addr (order_of count) s _ [] Hinv1 Hv)
      as (s2 & g2 & E2 & Hinv2 & M1 & M2 & M3).
    exists s2, g2. split_and!; [|done| |].
    + unfold free_range. destruct (count =? 0) eqn:E; zb; [lia|]. rewrite gets_bind.
      assert (Slab.owns (slab s.1) addr = false) as ->; [|by rewrite andb_false_r].
      unfold Slab.owns. erewrite (Slab.find_block_None virt_new off LO HI U); [done|apply Hinv| |].
      { eapply geo_slabs_ok, Hinv. }
      destruct (geo_held _ _ _ (inv_geo _ _ _ Hinv1)) as [_ Hd]. simpl in Hd.
      intros (i & Hi & Hx). specialize (Hd i Hi). pose proof (bs_pos (order_of count)).
      unfold idisj in Hd. simpl in Hd. lia.
    + unfold lives. rewrite HL, M1, M2. done.
    + intros x. rewrite <- M3. by rewrite He.
  - apply list_elem_of_bind in Hin as (sg & Hl & Hsg).
    apply list_elem_of_omap in Hsg as (o & Ho & E). simpl in E. subst o.
    apply list_elem_of_lookup in Ho as [i Hi].
    apply list_elem_of_split in Hl as (l1 & l2 & Hl).
    eapply slab_free_ok; [done..|].
    assert (Slab.range_ok U sg (addr, count)) as [? _]; [|done].
    eapply (Slab.range_bounds LO HI); [|rewrite Hl; set_solver].
    eapply Slab.slabs_ok_lookup; [|done]. eapply geo_slabs_ok, Hinv.
Qed.

(** ** The fresh allocator *)

Definition empty : Ghost := mkG (replicate ORDER_COUNT []) [] [].

Lemma extent_empty F : extent empty F = F.
Proof.
  assert (∀ n o, blocks_from o (replicate n []) = []) as H.
  { induction n as [|n IH]; intros o; simpl; [done|apply IH]. }
  unfold extent, blocks_of. simpl. by rewrite H, app_nil_r.
Qed.

Lemma buddy_new m SLAB_BLOCKS F :
  (∀ i, i ∈ F → 0 < i.2) → disj F →
  inv (set_offset (new MIN_ORDER ORDER_COUNT SLAB_BLOCKS) off, m) empty F.
Proof.
  intros Hp Hd. split; [split|..]; simpl; try done.
  - apply length_replicate.
  - intros o l [-> _]%lookup_replicate. done.
  - intros sg []%elem_of_nil.
  - by rewrite extent_empty.
  - apply length_replicate.
  - intros o l [-> Ho]%lookup_replicate. exists 0. split; [by apply lookup_replicate_2|done].
  - split_and!; simpl; try done; [lia|by rewrite Z.shiftl_1_l].
Qed.

(** ** Clients *)

(** The bytes a client was promised. *)
Definition handle_iv (r : Z * Z) : Z * Z := (r.1, r.2 * U).

Lemma live_sub g F r :
  geo g F → r ∈ glive g → isub (handle_iv r) (live_iv r).
Proof.
  intros Hgeo Hr. pose proof (geo_live _ _ Hgeo) as H. rewrite Forall_forall in H.
  destruct (H r Hr) as (Hc & Ho & V2 & V3 & _). unfold isub, handle_iv, live_iv. simpl.
  assert (r.2 <= 2 ^ Z.of_nat (order_of r.2)); [|destruct Ar; unfold bs; nia].
  assert (r.2 < 18446744073709551616).
  { destruct (decide (r.2 < 18446744073709551616)) as [|Hge]; [done|]. exfalso.
    unfold order_of, next_power_of_two in Ho. destruct (r.2 <=? 1) eqn:E; zb; [lia|].
    assert (64 <= Z.log2_up r.2) as Hlog.
    { change 64 with (Z.log2_up 18446744073709551616). apply Z.log2_up_le_mono. lia. }
    assert (u64 (2 ^ Z.log2_up r.2) = 0) as Hz.
    { replace (Z.log2_up r.2) with (64 + (Z.log2_up r.2 - 64)) by lia.
      rewrite Z.pow_add_r by lia. change (2 ^ 64) with 18446744073709551616.
      unfold u64. rewrite Z.mul_comm. apply Z.mod_mul. done. }
    rewrite Hz in Ho. simpl in Ho. lia. }
  apply order_of_spec; lia.
Qed.

Lemma slab_live_sub g F sg r :
  geo g F → sg ∈ Slab.active (gslab g) → r ∈ Slab.sg_live sg →
  isub (handle_iv r) (Slab.slab_iv U sg).
Proof.
  intros Hgeo Hsg Hr. pose proof (geo_slab _ _ Hgeo) as H. rewrite Forall_forall in H.
  destruct (Slab.range_bounds LO HI U sg r (H sg Hsg)) as (_ & _ & G1 & G2); [set_solver|].
  by split.
Qed.

(** Ranges in use never overlap, and lie in the memory managed. *)
Lemma lives_disj g : geo g [] → disj (handle_iv <$> lives g).
Proof.
  intros Hgeo. pose proof (geo_disj _ _ Hgeo) as Hd. unfold extent in Hd. simpl in Hd.
  apply disj_app in Hd as (Hd1 & Hd & Hx). apply disj_app in Hd as (_ & Hd2 & _).
  unfold lives. rewrite fmap_app, list_fmap_of_bind. apply disj_app. split_and!.
  - eapply disj_shrink; [|exact Hd1]. intros r Hr. by eapply live_sub.
  - eapply disj_bind; [exact Hd2|]. intros sg Hsg. simpl. split.
    + pose proof (geo_slab _ _ Hgeo) as H. rewrite Forall_forall in H.
      destruct (H sg Hsg) as (_ & _ & _ & _ & Hr & _). rewrite fmap_app in Hr.
      by apply disj_app in Hr as (_ & Hr & _).
    + intros i (r & -> & Hr)%list_elem_of_fmap. by eapply slab_live_sub.
  - intros x y (r & -> & Hr)%list_elem_of_fmap (sg & (r' & -> & Hr')%list_elem_of_fmap & Hsg)%list_elem_of_bind.
    eapply idisj_sub; [by eapply live_sub|by eapply slab_live_sub|]. apply Hx.
    + by apply list_elem_of_fmap_2.
    + apply elem_of_app. right. by apply list_elem_of_fmap_2.
Qed.

Lemma lives_covered g r x :
  geo g [] → r ∈ lives g → r.1 <= x < r.1 + r.2 * U → icovers (extent g []) x.
Proof.
  intros Hgeo [Hr|(sg & Hr & Hsg)%list_elem_of_bind]%elem_of_app Hx.
  - exists (live_iv r). destruct (live_sub g [] r Hgeo Hr) as [S1 S2]. simpl in *. split; [|simpl; lia].
    unfold extent. simpl. apply elem_of_app. left. by apply list_elem_of_fmap_2.
  - exists (Slab.slab_iv U sg). destruct (slab_live_sub g [] sg r Hgeo Hsg Hr) as [S1 S2].
    simpl in *. split; [|simpl; lia]. unfold extent, slabs_iv. simpl. rewrite !elem_of_app.
    do 2 right. by apply list_elem_of_fmap_2.
Qed.

(** A run of a client that keeps the list of the ranges it holds. *)
Inductive client : St * list (Z * Z) → St * list (Z * Z) → Prop :=
| client_alloc s H count a s' :
    0 < count < 18446744073709551616 →
    alloc_range virt_new MIN_ORDER ORDER_COUNT HAS_SLAB count s = (Ok (Some a), s') →
    client (s, H) (s', (a, count) :: H)
| client_full s H count s' :
    0 < count < 18446744073709551616 →
    alloc_range virt_new MIN_ORDER ORDER_COUNT HAS_SLAB count s = (Ok None, s') →
    client (s, H) (s', H)
| client_free s H1 a count H2 s' :
    free_range virt_new MIN_ORDER ORDER_COUNT HAS_SLAB a count s = (Ok tt, s') →
    client (s, H1 ++ (a, count) :: H2) (s', H1 ++ H2).

Lemma client_inv s H s' H' g :
  client (s, H) (s', H') → inv s g [] → lives g ≡ₚ H →
  ∃ g', inv s' g' [] ∧ lives g' ≡ₚ H' ∧ same_memory g g'.
Proof.
  intros Hstep Hinv HL. inversion Hstep as [? ? ? ? ? Hc E|? ? ? ? Hc E|? ? ? ? ? ? E]; subst.
  - destruct (alloc_range_ok s g count Hinv Hc) as [[E' _]|(a' & s1 & g' & E' & H1 & H2 & H3 & _)];
      rewrite E in E'; simplify_eq. exists g'. by rewrite H2, HL.
  - destruct (alloc_range_ok s g count Hinv Hc) as [[E' _]|(a' & s1 & g' & E' & H1 & H2 & H3 & _)];
      rewrite E in E'; simplify_eq. by exists g.
  - destruct (free_range_ok s g a count Hinv) as (s1 & g' & E' & H3 & H4 & H5).
    { rewrite HL. set_solver. }
    rewrite E in E'. simplify_eq. exists g'. split_and!; [done| |done].
    apply (Permutation_cons_inv (a := (a, count))). rewrite <- H4, HL. by rewrite Permutation_middle.
Qed.

Lemma clients_inv c c' g :
  rtc client c c' → inv c.1 g [] → lives g ≡ₚ c.2 →
  ∃ g', inv c'.1 g' [] ∧ lives g' ≡ₚ c'.2 ∧ same_memory g g'.
Proof.
  intros Hr. revert g. induction Hr as [c|[s H] [s1 H1] c' Hstep Hr IH]; intros g Hinv HL.
  { exists g. by split_and!. }
  destruct (client_inv s H s1 H1 g Hstep Hinv HL) as (g1 & I1 & L1 & M1).
  destruct (IH g1 I1 L1) as (g' & I' & L' & M'). exists g'. split_and!; [done..|].
  intros x. specialize (M1 x). specialize (M' x). tauto.
Qed.

(** For any sequence of allocations and frees, the ranges in use never
    overlap and lie in the memory the allocator was given; every further
    allocation returns an answer, and every range in use can be freed. *)
Lemma ranges_never_overlap s0 g0 s H :
  inv s0 g0 [] → lives g0 = [] → rtc client (s0, []) (s, H) →
  disj (handle_iv <$> H) ∧
  (∀ r x, r ∈ H → r.1 <= x < r.1 + r.2 * U → icovers (extent g0 []) x) ∧
  (∀ count, 0 < count < 18446744073709551616 →
     ∃ r s', alloc_range virt_new MIN_ORDER ORDER_COUNT HAS_SLAB count s = (Ok r, s')) ∧
  (∀ a count, (a, count) ∈ H →
     ∃ s', free_range virt_new MIN_ORDER ORDER_COUNT HAS_SLAB a count s = (Ok tt, s')).
Proof.
  intros Hinv HL Hr. destruct (clients_inv (s0, []) (s, H) g0) as (g & Hi & Hl & Hm);
    [done|done|by rewrite HL|]. simpl in *. pose proof (inv_geo _ _ _ Hi) as Hgeo. split_and!.
  - rewrite <- Hl. by apply lives_disj.
  - intros r x Hr' Hx. apply Hm. eapply lives_covered; [done| |done]. by rewrite Hl.
  - intros count Hc. destruct (alloc_range_ok s g count Hi Hc) as [[E _]|(a & s' & g' & E & _)]; eauto.
  - intros a count Hin. rewrite <- Hl in Hin.
    destruct (free_range_ok s g a count Hi Hin) as (s' & g' & E & _). eauto.
Qed.

End invariant.

End Buddy.
