(* ===== verification/Physical.v ===== *)
(** * Physical memory and the kernel heap
    (src/kernel/src/memory/physical.rs, src/kernel/src/memory/heap.rs)

    The physical allocator is the buddy allocator of 19 orders from 4 KiB
    pages up; [init] feeds it the usable entries of the boot memory map.  The
    kernel heap is a second instance of 17 orders from 16 bytes up, over one
    block of 1 MiB.  [VirtAddr::new] and the constant [MEMMAP_USABLE] of the
    [limine] crate are parameters. *)

From S2P Require Import Prelude FreeList Slab Buddy.
Import FreeList.

Module Physical.

Record MemmapEntry := mkEntry { base : Z; length_ : Z; type_ : Z }.

Section physical.
Context (virt_new : Z → option Z) (MEMMAP_USABLE : Z).

Abbreviation block_size := (Buddy.block_size 12).

(** [while order != 0 && !(rem >= block && addr.is_multiple_of(block))] *)
Fixpoint fit_order (order : nat) (addr rem : Z) : nat :=
  match order with
  | O => O
  | S o =>
      if (block_size order <=? rem) && is_multiple_of addr (block_size order)
      then order else fit_order o addr rem
  end.

(** [while addr + PAGE_SIZE <= end]; the fuel bounds the number of rounds. *)
Fixpoint push_region (fuel : nat) (addr e : Z) : K Buddy.St unit :=
  match fuel with
  | O => lift Loop
  | S fuel =>
      if negb (addr ⊞ PAGE_SIZE <=? e) then mret tt
      else
        let order := fit_order (Buddy.max_order 19) addr (e ⊟ addr) in
        Buddy.push virt_new addr order;;
        push_region fuel (addr ⊞ block_size order) e
  end.

Definition push_entry (entry : MemmapEntry) : K Buddy.St unit :=
  if negb (type_ entry =? MEMMAP_USABLE) then mret tt
  else
    let e := length_ entry ⊞ base entry in
    let addr := next_multiple_of (base entry) PAGE_SIZE in
    push_region (S (Z.to_nat (length_ entry / PAGE_SIZE))) addr e.

(** [init]: the static allocator is [BuddyAllocator::new()]. *)
Definition init (hhdm_offset : Z) (mmap : list MemmapEntry) (m : Mem) :
    res Empty_set unit * Buddy.St :=
  let alloc := Buddy.set_offset (Buddy.new 12 19 64) hhdm_offset in
  forM mmap push_entry (alloc, m).

(** [alloc_pages_raw] and [free_frames], on the static allocator. *)
Definition alloc_pages_raw (count : Z) : K Buddy.St (option Z) :=
  Buddy.alloc_range virt_new 12 19 true count.
Definition free_frames (start count : Z) : K Buddy.St unit :=
  Buddy.free_range virt_new 12 19 true start count.
End physical.

(** ** The heap *)

Definition HEAP_SIZE : Z := 1024 * 1024.

Record Layout := mkLayout { size : Z; align : Z }.

Definition layout_to_size (layout : Layout) : Z :=
  let align_units := div_ceil (align layout) 16 in
  let units := div_ceil (Z.max (size layout) 16) 16 in
  if align_units =? 1 then units
  else next_power_of_two (Z.max units align_units).

Section heap.
Context (virt_new : Z → option Z).

(** [heap::init] once [PhysPage::new] has returned [count] pages at [addr]. *)
Definition heap_init (addr count : Z) (m : Mem) : res Empty_set unit * Buddy.St :=
  let order := Z.to_nat (trailing_zeros (next_power_of_two (count ⊠ PAGE_SIZE)) ⊟ 4) in
  Buddy.push virt_new addr order (Buddy.new 4 17 64, m).

(** [GlobalAlloc::alloc]: a null pointer on failure. *)
Definition heap_alloc (layout : Layout) : K Buddy.St Z :=
  r ← Buddy.alloc_range virt_new 4 17 true (layout_to_size layout);
  mret (default 0 r).
Definition heap_dealloc (ptr : Z) (layout : Layout) : K Buddy.St unit :=
  Buddy.free_range virt_new 4 17 true ptr (layout_to_size layout).
End heap.

(** ** What [init] gives the allocator *)

(** The whole pages inside a usable entry. *)
Definition pages_of (MEMMAP_USABLE : Z) (en : MemmapEntry) : list (Z * Z) :=
  let a := align_up (base en) PAGE_SIZE in
  let b := (base en + length_ en) / PAGE_SIZE * PAGE_SIZE in
  if (type_ en =? MEMMAP_USABLE) && (a <? b) then [(a, b - a)] else [].

Section init_proofs.
Context (virt_new : Z → option Z) (MEMMAP_USABLE off HI : Z).
Context `{Ar : !Slab.Arena virt_new off PAGE_SIZE HI (2 ^ 12)}.
Context (HHI : HI <= 2 ^ 52).

Abbreviation bs := (Buddy.bs 12).
Abbreviation valid := (Buddy.valid 12 19 PAGE_SIZE HI).
Abbreviation inv := (Buddy.inv 12 19 true off PAGE_SIZE HI).
Abbreviation extent := (Buddy.extent 12).

Lemma page_min : 4 <= 12.
Proof. lia. Qed.
Lemma page_orders : (0 < 19 <= 32)%nat.
Proof. lia. Qed.
Lemma page_width : 12 + Z.of_nat 19 <= 64.
Proof. done. Qed.

Lemma bs_page o : (4096 | bs o) ∧ 4096 <= bs o.
Proof.
  unfold Buddy.bs. change (2 ^ 12) with 4096. split; [by exists (2 ^ Z.of_nat o)|].
  pose proof (Z.pow_pos_nonneg 2 (Z.of_nat o) ltac:(lia) ltac:(lia)). lia.
Qed.

Lemma fit_order_spec order addr rem :
  (order < 19)%nat → (4096 | addr) → 4096 <= rem →
  let o := fit_order order addr rem in
  (o < 19)%nat ∧ bs o <= rem ∧ (bs o | addr).
Proof.
  intros Ho Ha Hr. induction order as [|o IH]; simpl.
  { change (bs 0) with 4096. split; [lia|done]. }
  rewrite (Buddy.block_size_bs 12 19 page_min page_orders page_width) by lia.
  destruct ((bs (S o) <=? rem) && _) eqn:E; [|apply IH; lia]. zb.
  split_and!; [lia|done|]. apply is_multiple_of_spec; [|done]. pose proof (bs_page (S o)). lia.
Qed.

Definition region (a b : Z) : list (Z * Z) := if a <? b then [(a, b - a)] else [].

(** The loop hands the region over to the free lists, block by block. *)
Lemma push_region_spec fuel addr e s g F :
  (4096 | addr) → 4096 <= addr <= 2 ^ 53 → e <= HI →
  e / 4096 * 4096 - addr < 4096 * Z.of_nat fuel → (0 < fuel)%nat →
  inv s g (region addr (e / 4096 * 4096) ++ F) →
  ∃ s' g', push_region virt_new fuel addr e s = (Ok tt, s') ∧ inv s' g' F ∧
    Buddy.moves 12 g (region addr (e / 4096 * 4096) ++ F) g' F.
Proof.
  set (b := e / 4096 * 4096). assert (b <= e < b + 4096) as Hb by (subst b; uint_lia).
  assert ((4096 | b)) as Hdb by (by exists (e / 4096)). clearbody b.
  revert addr s g. induction fuel as [|fuel IH]; intros addr s g Hd Ha He Hf Hf0 Hinv; [lia|].
  cbn [push_region]. unfold PAGE_SIZE. rewrite (u64_small (addr + 4096)) by (unfold in_u64; lia).
  assert (addr + 4096 <= e ↔ addr < b) as Hcond.
  { destruct Hd as [x ->], Hdb as [y ->]. lia. }
  destruct (addr + 4096 <=? e) eqn:E; zb; cbn [negb].
  2:{ assert (region addr b = []) as Hr by (unfold region; by rewrite (proj2 (Z.ltb_ge _ _)) by lia).
    rewrite Hr in *. exists s, g. split_and!; [done|done|by apply Buddy.moves_perm]. }
  assert (region addr b = [(addr, b - addr)]) as Hr
    by (unfold region; by rewrite (proj2 (Z.ltb_lt _ _)) by lia).
  rewrite Hr in *. cbv zeta. rewrite (u64_small (e - addr)) by (unfold in_u64; lia).
  destruct (fit_order_spec (Buddy.max_order 19) addr (e - addr)) as (O1 & O2 & O3);
    [by vm_compute|done|lia|].
  set (o := fit_order (Buddy.max_order 19) addr (e - addr)) in *. clearbody o.
  destruct (bs_page o) as [[k Hk] Hbs].
  assert (bs o <= b - addr) as Hfit.
  { destruct Hd as [x ->], Hdb as [y ->]. nia. }
  assert (valid o addr) as Hv by (unfold Buddy.valid, PAGE_SIZE; split_and!; [lia..|done]).
  rewrite (Buddy.block_size_bs 12 19 page_min page_orders page_width) by lia. rewrite (u64_small (addr + bs o)) by (unfold in_u64; lia).
  assert (inv s g ((addr, bs o) :: region (addr + bs o) b ++ F) ∧
    Buddy.moves 12 g ([(addr, b - addr)] ++ F) g ((addr, bs o) :: region (addr + bs o) b ++ F))
    as [Hinv1 Hmv1].
  { unfold region. destruct (addr + bs o <? b) eqn:E2; zb.
    - replace (b - addr) with (bs o + (b - (addr + bs o))) in * by lia. split.
      + apply Buddy.inv_split; [lia..|done].
      + apply (Buddy.moves_split 12 19 page_orders); lia.
    - replace (b - addr) with (bs o) in * by lia. split; [done|by apply Buddy.moves_perm]. }
  destruct (Buddy.buddy_push virt_new 12 19 true off PAGE_SIZE HI page_min page_orders page_width
    s g (region (addr + bs o) b ++ F) o addr Hinv1 Hv) as (l & s1 & Hl & E1 & Hinv2).
  destruct (IH (addr + bs o) s1 _ ltac:(destruct Hd as [x ->]; exists (x + k); lia)
    ltac:(lia) He ltac:(lia) ltac:(lia) Hinv2) as (s' & g' & E2 & Hinv' & Hmv').
  exists s', g'. split_and!; [by mstep E1|done|].
  eapply Buddy.moves_trans; [exact Hmv1|]. eapply Buddy.moves_trans; [|exact Hmv'].
  apply Buddy.moves_perm; [done..|]. by rewrite (Buddy.extent_push 12 19 page_orders).
Qed.

(** What the boot protocol promises of the memory map: usable entries do not
    overlap and exclude the first page. *)
Definition mmap_ok (mmap : list MemmapEntry) : Prop :=
  (∀ en, en ∈ mmap → type_ en = MEMMAP_USABLE →
     4096 <= base en ∧ 0 <= length_ en ∧ base en + length_ en <= HI) ∧
  disj (mmap ≫= pages_of MEMMAP_USABLE).

Lemma push_entry_spec en s g F :
  (type_ en = MEMMAP_USABLE →
     4096 <= base en ∧ 0 <= length_ en ∧ base en + length_ en <= HI) →
  inv s g (pages_of MEMMAP_USABLE en ++ F) →
  ∃ s' g', push_entry virt_new MEMMAP_USABLE en s = (Ok tt, s') ∧ inv s' g' F ∧
    Buddy.moves 12 g (pages_of MEMMAP_USABLE en ++ F) g' F.
Proof.
  intros Hok Hinv. unfold push_entry, pages_of in *.
  destruct (type_ en =? MEMMAP_USABLE) eqn:E; cbn [negb andb] in *.
  2:{ exists s, g. split_and!; [done|done|by apply Buddy.moves_perm]. }
  zb. destruct (Hok E) as (B1 & B2 & B3). fold (region (align_up (base en) PAGE_SIZE)
    ((base en + length_ en) / PAGE_SIZE * PAGE_SIZE)) in *. unfold PAGE_SIZE in *.
  destruct (align_up_spec (base en) 4096 ltac:(lia)) as [A1 A2].
  rewrite next_multiple_of_align by lia. rewrite (u64_small (length_ en + base en)) by (unfold in_u64; lia).
  rewrite (Z.add_comm (length_ en)).
  apply push_region_spec; [done|lia|lia| |lia|done].
  rewrite Nat2Z.inj_succ, Z2Nat.id by (apply Z.div_pos; lia). uint_lia.
Qed.

Lemma push_entries_spec mmap s g :
  (∀ en, en ∈ mmap → type_ en = MEMMAP_USABLE →
     4096 <= base en ∧ 0 <= length_ en ∧ base en + length_ en <= HI) →
  inv s g (mmap ≫= pages_of MEMMAP_USABLE) →
  ∃ s' g', forM mmap (push_entry virt_new MEMMAP_USABLE) s = (Ok tt, s') ∧ inv s' g' [] ∧
    Buddy.moves 12 g (mmap ≫= pages_of MEMMAP_USABLE) g' [].
Proof.
  revert s g. induction mmap as [|en mmap IH]; intros s g Hok Hinv.
  { exists s, g. split_and!; [done|done|by apply Buddy.moves_perm]. }
  destruct (push_entry_spec en s g (mmap ≫= pages_of MEMMAP_USABLE)) as (s1 & g1 & E1 & I1 & M1).
  { apply Hok. by left. }
  { done. }
  destruct (IH s1 g1) as (s' & g' & E' & I' & M'); [intros en' Hen; apply Hok; by right|done|].
  exists s', g'. split_and!; [by cbn [forM]; mstep E1|done|by eapply Buddy.moves_trans].
Qed.

Lemma pages_pos mmap i : i ∈ mmap ≫= pages_of MEMMAP_USABLE → 0 < i.2.
Proof.
  intros (en & Hi & _)%list_elem_of_bind. unfold pages_of in Hi.
  destruct ((type_ en =? MEMMAP_USABLE) && _) eqn:E; [|by apply elem_of_nil in Hi].
  apply list_elem_of_singleton in Hi as ->. zb. simpl. lia.
Qed.

Lemma init_spec mmap m :
  mmap_ok mmap →
  ∃ s g, init virt_new MEMMAP_USABLE off mmap m = (Ok tt, s) ∧ inv s g [] ∧ Buddy.lives g = [] ∧
    ∀ x, icovers (extent g []) x ↔ icovers (mmap ≫= pages_of MEMMAP_USABLE) x.
Proof.
  intros [Hok Hd]. unfold init.
  pose proof (Buddy.buddy_new 12 19 true off PAGE_SIZE HI page_orders m 64 _ (pages_pos mmap) Hd) as Hinv.
  destruct (push_entries_spec mmap _ _ Hok Hinv) as (s & g & E & I & M1 & M2 & M3).
  exists s, g. split_and!; [done|done| |].
  - unfold Buddy.lives. by rewrite M1, M2.
  - intros x. by rewrite <- M3, Buddy.extent_empty.
Qed.

(** C1. From boot on, whatever pages are allocated and freed in whatever
    order: the page runs in use never overlap and consist of whole pages of
    usable entries of the memory map; no allocation or free panics or loops. *)
Theorem frames_never_overlap mmap m s H :
  mmap_ok mmap →
  rtc (Buddy.client virt_new 12 19 true)
    ((init virt_new MEMMAP_USABLE off mmap m).2, []) (s, H) →
  disj ((λ r, (r.1, r.2 * 4096)) <$> H) ∧
  (∀ r x, r ∈ H → r.1 <= x < r.1 + r.2 * 4096 → icovers (mmap ≫= pages_of MEMMAP_USABLE) x) ∧
  (∀ count, 0 < count < 18446744073709551616 →
     ∃ r s', alloc_pages_raw virt_new count s = (Ok r, s')) ∧
  (∀ a count, (a, count) ∈ H → ∃ s', free_frames virt_new a count s = (Ok tt, s')).
Proof.
  intros Hm Hr. destruct (init_spec mmap m Hm) as (s0 & g0 & E & I & L & X).
  rewrite E in Hr. simpl in Hr.
  destruct (Buddy.ranges_never_overlap virt_new 12 19 true off PAGE_SIZE HI
    page_min page_orders page_width s0 g0 s H I L Hr) as (C1 & C2 & C3 & C4).
  split_and!; [done| |done|done]. intros r x Hr' Hx. apply X. by apply (C2 r).
Qed.
End init_proofs.

(** ** What the heap promises *)

Lemma pow2_divide a b : is_power_of_two a = true → is_power_of_two b = true → a <= b → (a | b).
Proof.
  intros (i & Hi & ->)%is_power_of_two_spec (j & Hj & ->)%is_power_of_two_spec Hle.
  apply Z.pow_le_mono_r_iff in Hle; [|lia..]. exists (2 ^ (j - i)).
  rewrite <- Z.pow_add_r by lia. f_equal. lia.
Qed.

(** The layouts Rust can ask for. *)
Definition layout_ok (l : Layout) : Prop :=
  is_power_of_two (align l) = true ∧ 0 <= size l < 2 ^ 63 ∧ align l <= 2 ^ 63.

Lemma layout_to_size_spec l :
  layout_ok l →
  let n := layout_to_size l in
  0 < n < 18446744073709551616 ∧ size l <= n * 16 ∧
  ((align l | 16) ∨ (is_power_of_two n = true ∧ align l <= n * 16)).
Proof.
  intros (Hp & Hs & Ha). unfold layout_to_size.
  assert (0 < align l) as Hpos by (apply is_power_of_two_spec in Hp as (k & ? & ->);
    by apply Z.pow_pos_nonneg).
  pose proof (div_ceil_bounds (align l) 16 ltac:(lia)) as B1.
  pose proof (div_ceil_bounds (Z.max (size l) 16) 16 ltac:(lia)) as B2.
  destruct (div_ceil (align l) 16 =? 1) eqn:E; zb.
  - split_and!; [lia..|]. left. apply pow2_divide; [done|done|lia].
  - set (u := Z.max (div_ceil (Z.max (size l) 16) 16) (div_ceil (align l) 16)).
    destruct (next_power_of_two_spec u ltac:(subst u; lia)) as [E2 Hle]. cbv zeta. rewrite E2.
    assert (Z.log2_up u <= 62) as Hlog.
    { apply Z.log2_up_le_pow2; [subst u; lia|]. subst u. lia. }
    pose proof (Z.pow_le_mono_r 2 _ 62 ltac:(lia) Hlog).
    pose proof (Z.log2_up_nonneg u). subst u. split_and!; [lia..|]. right. split; [|lia].
    apply is_power_of_two_spec. eauto.
Qed.

Lemma order_of_pow2 n :
  is_power_of_two n = true → 0 < n < 18446744073709551616 → n = 2 ^ Z.of_nat (Buddy.order_of n).
Proof.
  intros (k & Hk & ->)%is_power_of_two_spec Hn. unfold Buddy.order_of.
  assert (k < 64) by (apply (Z.pow_lt_mono_r_iff 2); [lia..|]; change (2 ^ 64) with 18446744073709551616; lia).
  destruct (next_power_of_two_spec (2 ^ k)) as [E _].
  { split; [lia|]. apply Z.pow_le_mono_r; lia. }
  rewrite E, Z.log2_up_pow2, trailing_zeros_pow2, Z2Nat.id by lia. done.
Qed.

Section heap_proofs.
Context (virt_new : Z → option Z) (addr : Z).
Context `{Ar : !Slab.Arena virt_new 0 addr (addr + HEAP_SIZE) (2 ^ 4)}.
Context (Haligned : (HEAP_SIZE | addr)).

Abbreviation inv := (Buddy.inv 4 17 true 0 addr (addr + HEAP_SIZE)).
Abbreviation client := (Buddy.client virt_new 4 17 true).

Lemma heap_min : 4 <= 4.
Proof. lia. Qed.
Lemma heap_orders : (0 < 17 <= 32)%nat.
Proof. lia. Qed.
Lemma heap_width : 4 + Z.of_nat 17 <= 64.
Proof. done. Qed.

Lemma heap_init_spec m :
  ∃ s g, heap_init virt_new addr 256 m = (Ok tt, s) ∧ inv s g [] ∧ Buddy.lives g = [] ∧
    ∀ x, icovers (Buddy.extent 4 g []) x ↔ addr <= x < addr + HEAP_SIZE.
Proof.
  unfold heap_init. change (Z.to_nat (trailing_zeros (next_power_of_two (256 ⊠ PAGE_SIZE)) ⊟ 4)) with 16%nat.
  assert (inv (Buddy.new 4 17 64, m) (Buddy.empty 17) [(addr, Buddy.bs 4 16)]) as Hinv.
  { apply (Buddy.buddy_new 4 17 true 0 addr (addr + HEAP_SIZE) heap_orders m 64).
    - by intros i ->%list_elem_of_singleton.
    - by repeat constructor. }
  destruct (Buddy.buddy_push virt_new 4 17 true 0 addr (addr + HEAP_SIZE) heap_min heap_orders
    heap_width _ _ [] 16 addr Hinv) as (l & s & Hl & E & I).
  { unfold Buddy.valid. change (Buddy.bs 4 16) with HEAP_SIZE. split_and!; [lia..|done]. }
  eexists s, _. split_and!; [exact E|exact I|done|]. intros x.
  rewrite (Buddy.extent_push 4 17 heap_orders _ [] 16 addr l Hl), Buddy.extent_empty.
  rewrite icovers_cons. change (Buddy.bs 4 16) with HEAP_SIZE. simpl.
  split; [intros [?|(? & []%elem_of_nil & _)]; done|by left].
Qed.

(** C2. A pointer the heap returns is null or satisfies the layout: it is
    aligned, its bytes lie in the heap, and they overlap no allocation in use.
    [alloc] always returns. *)
Theorem heap_alloc_layout m s H layout :
  rtc client ((heap_init virt_new addr 256 m).2, []) (s, H) → layout_ok layout →
  ∃ p s', heap_alloc virt_new layout s = (Ok p, s') ∧
    (p = 0 ∨
     ((align layout | p) ∧ addr <= p ∧ p + size layout <= addr + HEAP_SIZE ∧
      ∀ a count, (a, count) ∈ H → p + size layout <= a ∨ a + count * 16 <= p)).
Proof.
  intros Hr Hl. destruct (heap_init_spec m) as (s0 & g0 & E0 & I0 & L0 & X0).
  rewrite E0 in Hr. simpl in Hr.
  destruct (Buddy.clients_inv virt_new 4 17 true 0 addr (addr + HEAP_SIZE) heap_min heap_orders
    heap_width (s0, []) (s, H) g0) as (g & Hi & HL & Hm); [done|done|by rewrite L0|]. simpl in Hi, HL.
  destruct (layout_to_size_spec layout Hl) as (N1 & N2 & N3). unfold heap_alloc.
  destruct (Buddy.alloc_range_ok virt_new 4 17 true 0 addr (addr + HEAP_SIZE) heap_min heap_orders
    heap_width s g (layout_to_size layout) Hi N1) as [[E _]|(p & s' & g' & E & I' & L' & M' & Al)].
  { exists 0, s. split; [by mstep E|by left]. }
  exists p, s'. split; [by mstep E|]. right.
  pose proof (Buddy.inv_geo _ _ _ _ _ _ _ _ _ I') as Hgeo.
  set (n := layout_to_size layout) in *.
  assert ((p, n) ∈ Buddy.lives g') as Hin by (rewrite L'; by left).
  pose proof (Buddy.lives_disj virt_new 4 17 true 0 addr (addr + HEAP_SIZE) heap_min heap_orders heap_width g' Hgeo) as Hd.
  rewrite L', fmap_cons, disj_cons in Hd. destruct Hd as [Hd _].
  assert (∀ x, p <= x < p + n * 16 → addr <= x < addr + HEAP_SIZE) as Hcov.
  { intros x Hx. apply X0, Hm, M'.
    by apply (Buddy.lives_covered virt_new 4 17 true 0 addr (addr + HEAP_SIZE) heap_min heap_orders heap_width g' (p, n)). }
  split_and!.
  - destruct N3 as [N3|[N3 N4]].
    + eapply Z.divide_trans; [exact N3|].
      apply (Buddy.lives_aligned virt_new 4 17 true 0 addr (addr + HEAP_SIZE) heap_min heap_orders heap_width g' (p, n)); done.
    + eapply Z.divide_trans; [|by apply Al]. unfold Buddy.bs.
      rewrite <- (order_of_pow2 n N3 N1). change (2 ^ 4) with 16.
      apply pow2_divide; [apply Hl| |done].
      apply is_power_of_two_spec in N3 as (k & Hk & ->). apply is_power_of_two_spec.
      exists (k + 4). rewrite Z.pow_add_r by lia. split; [lia|done].
  - apply (Hcov p). lia.
  - destruct (Hcov (p + n * 16 - 1)); lia.
  - intros a count Ha. rewrite <- HL in Ha.
    specialize (Hd _ (list_elem_of_fmap_2 (Buddy.handle_iv 4) _ _ Ha)). unfold idisj in Hd.
    simpl in Hd. change (2 ^ 4) with 16 in Hd. lia.
Qed.
End heap_proofs.

(** ** Witnesses *)

(** [VirtAddr::new] of the [x86_64] crate accepts the canonical addresses. *)
Definition canonical (a : Z) : option Z :=
  if (a <? 2 ^ 47) || (2 ^ 64 - 2 ^ 47 <=? a) then Some a else None.

Definition HHDM : Z := 0xFFFF800000000000.

Instance hhdm_arena : Slab.Arena canonical HHDM PAGE_SIZE (2 ^ 40) (2 ^ 12).
Proof.
  unfold HHDM, PAGE_SIZE. split; try lia. intros a Ha. unfold canonical.
  destruct (a + 0xFFFF800000000000 <? 2 ^ 47) eqn:E1; [done|].
  destruct (2 ^ 64 - 2 ^ 47 <=? a + 0xFFFF800000000000) eqn:E2; [done|]. zb. lia.
Qed.

Definition boot_mmap : list MemmapEntry :=
  [mkEntry 0x1000 0x9E000 0; mkEntry 0x9F000 0x1000 1; mkEntry 0x100800 0x8900 0].
Definition boot : Buddy.St := (init canonical 0 HHDM boot_mmap ∅).2.
Definition boot1 : Buddy.St := (alloc_pages_raw canonical 3 boot).2.
Definition boot2 : Buddy.St := (alloc_pages_raw canonical 4 boot1).2.

Lemma boot_mmap_ok : mmap_ok 0 (2 ^ 40) boot_mmap.
Proof.
  split.
  - intros en Hen. assert (Forall (λ en, type_ en = 0 →
      4096 <= base en ∧ 0 <= length_ en ∧ base en + length_ en <= 2 ^ 40) boot_mmap) as HF.
    { repeat constructor; simpl; lia. }
    rewrite Forall_forall in HF. auto.
  - change (boot_mmap ≫= pages_of 0) with [(4096, 647168); (1052672, 32768)].
    apply disj_cons. split; [|by repeat constructor].
    intros y ->%list_elem_of_singleton. left. simpl. lia.
Qed.

Lemma frames_never_overlap_witness : disj [(0x98000, 4 * 4096); (0x104000, 3 * 4096)].
Proof.
  apply (frames_never_overlap canonical 0 HHDM (2 ^ 40) ltac:(lia) boot_mmap ∅ boot2
    [(0x98000, 4); (0x104000, 3)] boot_mmap_ok).
  apply (rtc_l _ _ (boot1, [(0x104000, 3)])).
  { apply Buddy.client_alloc; [lia|]. vm_compute. reflexivity. }
  apply (rtc_l _ _ (boot2, [(0x98000, 4); (0x104000, 3)])); [|apply rtc_refl].
  apply Buddy.client_alloc; [lia|]. vm_compute. reflexivity.
Defined.

Definition HEAP : Z := HHDM + 0x100000.

Instance heap_arena : Slab.Arena canonical 0 HEAP (HEAP + HEAP_SIZE) (2 ^ 4).
Proof.
  unfold HEAP, HHDM, HEAP_SIZE. split; try lia. intros a Ha. unfold canonical. rewrite Z.add_0_r.
  destruct (a <? 2 ^ 47) eqn:E1; [done|].
  destruct (2 ^ 64 - 2 ^ 47 <=? a) eqn:E2; [done|]. zb. lia.
Qed.

Definition heap0 : Buddy.St := (heap_init canonical HEAP 256 ∅).2.
Definition heap1 : Buddy.St := (heap_alloc canonical (mkLayout 40 8) heap0).2.

Lemma heap_aligned : (HEAP_SIZE | HEAP).
Proof. exists (HEAP / HEAP_SIZE). by vm_compute. Qed.

Lemma heap_alloc_layout_witness :
  ∃ p s', heap_alloc canonical (mkLayout 100 64) heap1 = (Ok p, s') ∧
    (p = 0 ∨
     ((64 | p) ∧ HEAP <= p ∧ p + 100 <= HEAP + HEAP_SIZE ∧
      ∀ a count, (a, count) ∈ [(HEAP, 3)] → p + 100 <= a ∨ a + count * 16 <= p)).
Proof.
  apply (heap_alloc_layout canonical HEAP heap_aligned ∅ heap1 [(HEAP, 3)] (mkLayout 100 64)).
  - apply (rtc_l _ _ (heap1, [(HEAP, 3)])); [|apply rtc_refl].
    apply Buddy.client_alloc; [lia|]. vm_compute. reflexivity.
  - split_and!; [by vm_compute|simpl; lia..].
Defined.

End Physical.
