(* ===== verification/Errors.v ===== *)
(** * Error types (src/kernel/src/errors.rs and the error enums of the modules)

    The [From] conversions that the [?] operator uses are functions.  The parse
    error of the [elf] crate is a type parameter. *)

From S2P Require Import Prelude.

Module Errors.

Inductive MemoryError := OutOfMemory | InvalidMapping | OutOfBounds.

Inductive ACPIError :=
| RSDPIntegrityFailed | RSDPUnsupportedRevision | XSDTChecksumFailed | SDTChecksumFailed
| FADTRevisionTooOld | FADTNoResetRegister | FADTUnsupportedResetAddressSpace
| HPETPeriodZero | MADTNoIoApicFound | MADTEntryLengthZero | IOAPICNotInitialized
| GSIUnderflow | HPETNotInitialized | LAPICBaseNotMapped | NoX2APIC.

Inductive PCIError := InvalidMCFGEntry.

Inductive PS2Error := FloatingController | ControllerTestFailed | KeyboardACKFailed | IRQFail.

Inductive StorageError := PCIeError | InitFailed | BlockOutOfBounds | CommandFailed | Timeout.

Inductive GPTError := GPTIOError | BadHeader | EntryCRCFailed | BadMBR.

Inductive FSError :=
| WrongFS | BadSuperblock | IOError | NoSpace | BadFileType | FileNotFound | FileExists
| BadFilename | IsRoot | BadFlags.

Inductive LoaderError (ParseError : Type) :=
| BadClass | BadTarget | BadType | NoSegments | OverlappingSegments | BadSegments
| Parse (e : ParseError)
| LoaderMemory (e : MemoryError)
| LoaderIO (e : FSError).
Arguments BadClass {ParseError}.
Arguments BadTarget {ParseError}.
Arguments BadType {ParseError}.
Arguments NoSegments {ParseError}.
Arguments OverlappingSegments {ParseError}.
Arguments BadSegments {ParseError}.
Arguments Parse {ParseError} e.
Arguments LoaderMemory {ParseError} e.
Arguments LoaderIO {ParseError} e.

Inductive DriverError :=
| PS2 (e : PS2Error)
| PCIe (e : PCIError)
| Storage (e : StorageError)
| Gpt (e : GPTError).

(** [KernelError], without the loader errors, which no function of type
    [KResult] in the model returns. *)
Inductive KernelError :=
| BadLimineResp
| KMemory (e : MemoryError)
| KACPI (e : ACPIError)
| KDriver (e : DriverError)
| KFS (e : FSError)
| IDTRegisterError (n : Z).

Definition from_ps2 (e : PS2Error) : KernelError := KDriver (PS2 e).
Definition from_pci (e : PCIError) : KernelError := KDriver (PCIe e).
Definition from_storage (e : StorageError) : KernelError := KDriver (Storage e).
Definition from_gpt (e : GPTError) : KernelError := KDriver (Gpt e).

End Errors.
