(* ===== verification/Pages.v ===== *)
(** * The contents of page runs (src/kernel/src/memory/wrappers.rs)

    A [PhysPage] owns [count] pages; the model keeps their bytes.  [read_data]
    and [write_data] of a type [T] take its size and alignment.  Sectors of 512
    bytes are the unit the storage code works with. *)

From S2P Require Import Prelude Errors.
Import Errors.

Module Pages.

Record PhysPage := mkPage { count : Z; bytes : list Z }.

Definition page_ok (p : PhysPage) : Prop :=
  0 <= count p <= 2 ^ 51 ∧ length (bytes p) = Z.to_nat (count p * PAGE_SIZE).

(** Pages come zeroed. *)
Definition zero_page (n : Z) : PhysPage := mkPage n (replicate (Z.to_nat (n * PAGE_SIZE)) 0).

Definition read_data (size align : Z) (p : PhysPage) (offset : Z) : option (list Z) :=
  if count p ⊠ PAGE_SIZE <? offset ⊞ size then None
  else if negb (is_multiple_of offset align) then None
  else Some (slice (Z.to_nat offset) (Z.to_nat size) (bytes p)).

Definition write_data (align : Z) (p : PhysPage) (offset : Z) (data : list Z) :
    res MemoryError PhysPage :=
  if count p ⊠ PAGE_SIZE <? offset ⊞ Z.of_nat (length data) then Err OutOfBounds
  else if negb (is_multiple_of offset align) then Err OutOfBounds
  else Ok (mkPage (count p) (splice (Z.to_nat offset) data (bytes p))).

(** ** Sectors of a page run *)

Definition psec (p : PhysPage) (k : Z) : list Z := slice (Z.to_nat (k * 512)) 512 (bytes p).

Lemma page_ok_zero n : 0 <= n <= 2 ^ 51 → page_ok (zero_page n).
Proof. intros H. split; [done|]. simpl. apply length_replicate. Qed.

Lemma slice_replicate {A} (x : A) off len n :
  (off + len <= n)%nat → slice off len (replicate n x) = replicate len x.
Proof. intros. unfold slice. rewrite drop_replicate, take_replicate. f_equal. lia. Qed.

Lemma psec_zero n k : 0 <= k → (k + 1) * 512 <= n * PAGE_SIZE → psec (zero_page n) k = replicate 512 0.
Proof. intros. apply slice_replicate. lia. Qed.

Lemma length_psec p k :
  page_ok p → 0 <= k → (k + 1) * 512 <= count p * PAGE_SIZE → length (psec p k) = 512%nat.
Proof. intros [_ Hl] Hk Hle. unfold psec. rewrite length_slice; [done|]. rewrite Hl. lia. Qed.

(** Reading and writing a sector. *)
Lemma read_sector p k :
  page_ok p → 0 <= k → (k + 1) * 512 <= count p * PAGE_SIZE →
  read_data 512 1 p (k * 512) = Some (psec p k).
Proof.
  intros [Hc _] Hk Hle. unfold read_data, PAGE_SIZE in *.
  rewrite !u64_small by (unfold in_u64; lia).
  destruct (_ <? _) eqn:E; zb; [lia|]. unfold is_multiple_of. simpl. by rewrite Z.mod_1_r.
Qed.

Lemma write_sector p k data :
  page_ok p → 0 <= k → (k + 1) * 512 <= count p * PAGE_SIZE → length data = 512%nat →
  ∃ p', write_data 1 p (k * 512) data = Ok p' ∧ page_ok p' ∧ count p' = count p ∧
    ∀ j, 0 <= j → (j + 1) * 512 <= count p * PAGE_SIZE →
      psec p' j = if j =? k then data else psec p j.
Proof.
  intros [Hc Hl] Hk Hle Hd. unfold write_data. rewrite Hd. unfold PAGE_SIZE in *.
  rewrite !u64_small by (unfold in_u64; lia).
  destruct (_ <? _) eqn:E; zb; [lia|]. unfold is_multiple_of. simpl. rewrite Z.mod_1_r. simpl.
  eexists. split; [done|].
  split_and!; [split; [done|simpl; rewrite length_splice; [exact Hl|lia]]|done|].
  intros j Hj Hjle. unfold psec. simpl. destruct (j =? k) eqn:Ej; zb.
  - subst. rewrite <- Hd at 1. apply slice_splice_same. lia.
  - apply slice_splice_disjoint; lia.
Qed.

End Pages.
