(* ===== verification/Storage.v ===== *)
(** * Drives and partitions (src/kernel/src/drivers/storage/mod.rs and
    src/kernel/src/fs/lba_abstractor.rs)

    The trait [StorageDrive] is a type class over the state of the drive and of
    the page allocator; [Drive] adds the bounds of a partition and
    [PartitionDrive] presents a partition of native blocks as sectors of 512
    bytes, with a read-modify-write of partially covered blocks.

    [DriveLaws] states what an implementation of the trait promises, and
    [SectorLaws] what file systems rely on; the instance at the end of the file
    proves that [PartitionDrive] turns the one into the other. *)

From S2P Require Import Prelude Errors Pages.
Import Errors Pages.

Module Storage.

(** [Guid] (gpt/headers.rs) and [Partition] (gpt/mod.rs). *)
Record Guid := mkGuid {
  time_low : Z; time_mid : Z; time_high_ver : Z; clock_seq : list Z; node : list Z
}.

#[export] Instance guid_eq_dec : EqDecision Guid.
Proof. solve_decision. Defined.

Inductive PartitionType := Efi | LemonFS | Unknown (guid : Guid).

Record Partition := mkPartition {
  start : Z;
  size_blocks : Z;
  name : list Z;
  type_ : PartitionType;
  guid : Guid
}.

(** The required methods of the trait, and [PhysPage::new]. *)
Class StorageDrive (W : Type) := {
  block_count : W → Z;
  block_size : W → Z;
  read_blocks : Z → Z → PhysPage → M W StorageError PhysPage;
  write_blocks : Z → Z → PhysPage → M W StorageError unit;
  sync_blocks : M W StorageError unit;
  page_new : Z → M W MemoryError PhysPage
}.

Section drive.
Context {W : Type} `{StorageDrive W}.

Abbreviation KResult A := (M W KernelError A).

Definition new_page (n : Z) : KResult PhysPage := map_errM KMemory (page_new n).

(** [while rem > 0] of [zero_blocks]. *)
Fixpoint zero_blocks_loop (fuel : nat) (start_block : Z) (page : PhysPage) (rem offset : Z) :
    KResult unit :=
  match fuel with
  | O => lift Loop
  | S fuel =>
      if negb (0 <? rem) then mret tt
      else
        bs ← gets block_size;
        q ← div_panic (1024 * 1024 * 2) bs;
        let c := Z.min rem q in
        map_errM from_storage (write_blocks (start_block ⊞ offset) c page);;
        zero_blocks_loop fuel start_block page (rem ⊟ c) (offset ⊞ c)
  end.

Definition zero_blocks (start_block n : Z) : KResult unit :=
  bs ← gets block_size;
  let pages := Z.min (div_ceil (n ⊠ bs) PAGE_SIZE) 512 in
  page ← new_page pages;
  zero_blocks_loop (S (Z.to_nat n)) start_block page n 0.

Definition read_smart (start_block n : Z) : KResult PhysPage :=
  bs ← gets block_size;
  blocks_per_page ← div_ceil_panic PAGE_SIZE bs;
  page_count ← div_ceil_panic n blocks_per_page;
  page ← new_page page_count;
  map_errM from_storage (read_blocks start_block n page).

(** The checks [Drive::zero], [read] and [write] share. *)
Definition check_range (p : Partition) (offset n : Z) : KResult unit :=
  match checked_add offset n with
  | None => fail (from_storage BlockOutOfBounds)
  | Some e => if size_blocks p <? e then fail (from_storage BlockOutOfBounds) else mret tt
  end.
Definition start_of (p : Partition) (offset : Z) : KResult Z :=
  lift (ok_or (checked_add (start p) offset) (from_storage BlockOutOfBounds)).

Definition drive_zero (p : Partition) (offset n : Z) : KResult unit :=
  check_range p offset n;;
  start_block ← start_of p offset;
  zero_blocks start_block n.

Definition drive_read (p : Partition) (offset n : Z) : KResult PhysPage :=
  check_range p offset n;;
  start_block ← start_of p offset;
  read_smart start_block n.

Definition drive_write (p : Partition) (offset n : Z) (src : PhysPage) : KResult unit :=
  check_range p offset n;;
  bs ← gets block_size;
  if count src ⊠ PAGE_SIZE <? n ⊠ bs then fail (from_storage CommandFailed)
  else
    start_block ← start_of p offset;
    map_errM from_storage (write_blocks start_block n src).

Definition drive_sync : KResult unit := map_errM from_storage sync_blocks.

(** ** [PartitionDrive] *)

Definition sectors_per_block : KResult Z := bs ← gets block_size; mret (bs / 512).

Definition sector_count (p : Partition) (w : W) : Z := size_blocks p ⊠ (block_size w / 512).

(** [read_data::<[u8; 512]>(off).ok_or(CommandFailed)?] and the matching write. *)
Definition get_sector (page : PhysPage) (off : Z) : KResult (list Z) :=
  lift (ok_or (read_data 512 1 page off) (from_storage CommandFailed)).
Definition put_sector (page : PhysPage) (off : Z) (data : list Z) : KResult PhysPage :=
  lift (map_err KMemory (write_data 1 page off data)).

(** The native blocks that contain the sectors: first block and count. *)
Definition native_range (sector n bs : Z) : KResult (Z * Z) :=
  native_start ← div_panic (sector ⊠ 512) bs;
  native_end ← div_ceil_panic ((sector ⊞ n) ⊠ 512) bs;
  mret (native_start, native_end ⊟ native_start).

Definition read_sectors (p : Partition) (sector n : Z) : KResult PhysPage :=
  if n =? 0 then fail (from_storage CommandFailed)
  else
    bs ← gets block_size;
    r ← native_range sector n bs;
    let '(native_start, native_count) := r in
    native_pages ← drive_read p native_start native_count;
    dest ← new_page (div_ceil (n ⊠ 512) PAGE_SIZE);
    foldM (λ dest i,
      let off := ((sector ⊞ i) ⊠ 512) ⊟ (native_start ⊠ bs) in
      buf ← get_sector native_pages off;
      put_sector dest (i ⊠ 512) buf) dest (seqZ 0 n).

(** [for j in a..=b] *)
Definition range_incl (a b : Z) : list Z := seqZ a (b - a + 1).

(** One round of the loop of [write_sectors]: native block [native_start + i]. *)
Definition stage_block (p : Partition) (sector n : Z) (src : PhysPage) (bs native_start : Z)
    (staging : PhysPage) (i : Z) : KResult PhysPage :=
  let spb := bs / 512 in
  let native_block := native_start ⊞ i in
  let first := native_block ⊠ spb in
  let last := (first ⊞ spb) ⊟ 1 in
  let covered_start := Z.max first sector in
  let covered_end := Z.min last ((sector ⊞ n) ⊟ 1) in
  staging ←
    (if negb (covered_start =? first) || negb (covered_end =? last) then
       tmp ← drive_read p native_block 1;
       foldM (λ staging j,
         let read_offset := (j ⊠ 512) ⊟ (native_block ⊠ bs) in
         let staging_offset := (j ⊠ 512) ⊟ (native_start ⊠ bs) in
         data ← get_sector tmp read_offset;
         put_sector staging staging_offset data) staging (range_incl first last)
     else mret staging);
  foldM (λ staging j,
    let caller_offset := (j ⊟ sector) ⊠ 512 in
    let staging_offset := (j ⊠ 512) ⊟ (native_start ⊠ bs) in
    data ← get_sector src caller_offset;
    put_sector staging staging_offset data) staging (range_incl covered_start covered_end).

Definition write_sectors (p : Partition) (sector n : Z) (src : PhysPage) : KResult unit :=
  if n =? 0 then mret tt
  else
    bs ← gets block_size;
    r ← native_range sector n bs;
    let '(native_start, native_count) := r in
    if count src ⊠ PAGE_SIZE <? n ⊠ 512 then fail (from_storage CommandFailed)
    else
      staging ← new_page (div_ceil (native_count ⊠ bs) PAGE_SIZE);
      staging ← foldM (stage_block p sector n src bs native_start) staging (seqZ 0 native_count);
      drive_write p native_start native_count staging.

Definition MAX_SECTORS : Z := 0x1000.

Fixpoint zero_sectors_loop (fuel : nat) (p : Partition) (page : PhysPage) (rem sector : Z) :
    KResult unit :=
  match fuel with
  | O => lift Loop
  | S fuel =>
      if negb (0 <? rem) then mret tt
      else
        let chunk := Z.min rem MAX_SECTORS in
        write_sectors p sector chunk page;;
        zero_sectors_loop fuel p page (rem ⊟ chunk) (sector ⊞ chunk)
  end.

Definition zero_sectors (p : Partition) (sector n : Z) : KResult unit :=
  if n =? 0 then mret tt
  else
    page ← new_page (div_ceil (Z.min n MAX_SECTORS) 8);
    zero_sectors_loop (S (Z.to_nat n)) p page n sector.
End drive.

(** ** What a drive promises *)

(** [content w b] is native block [b]; a drive is [healthy] when commands
    within its bounds succeed and pages can be had. *)
Class DriveLaws (W : Type) `{StorageDrive W} := {
  content : W → Z → list Z;
  healthy : W → Prop;
  page_new_spec n w :
    0 <= n <= 2 ^ 51 →
    wp (page_new n)
      (λ p w', p = zero_page n ∧ block_count w' = block_count w ∧ block_size w' = block_size w ∧
        (healthy w → healthy w') ∧ ∀ b, content w' b = content w b)
      (λ _ w', ¬ healthy w ∧ block_count w' = block_count w ∧ block_size w' = block_size w ∧
        ∀ b, content w' b = content w b) w;
  read_blocks_spec s n dest w :
    page_ok dest → 0 <= s → 0 <= n → s + n <= block_count w →
    n * block_size w <= count dest * PAGE_SIZE →
    wp (read_blocks s n dest)
      (λ p w', page_ok p ∧ count p = count dest ∧
        (∀ i, 0 <= i < n → slice (Z.to_nat (i * block_size w)) (Z.to_nat (block_size w)) (bytes p) =
           content w (s + i)) ∧
        block_count w' = block_count w ∧ block_size w' = block_size w ∧
        (healthy w → healthy w') ∧ ∀ b, content w' b = content w b)
      (λ _ w', ¬ healthy w ∧ block_count w' = block_count w ∧ block_size w' = block_size w ∧
        ∀ b, content w' b = content w b) w;
  write_blocks_spec s n src w :
    page_ok src → 0 <= s → 0 <= n → s + n <= block_count w →
    n * block_size w <= count src * PAGE_SIZE →
    wp (write_blocks s n src)
      (λ _ w', (∀ b, content w' b =
           if (s <=? b) && (b <? s + n)
           then slice (Z.to_nat ((b - s) * block_size w)) (Z.to_nat (block_size w)) (bytes src)
           else content w b) ∧
        block_count w' = block_count w ∧ block_size w' = block_size w ∧ (healthy w → healthy w'))
      (λ _ w', ¬ healthy w ∧ block_count w' = block_count w ∧ block_size w' = block_size w ∧
        ∀ b, b < s ∨ s + n <= b → content w' b = content w b) w
}.

(** Same geometry, same contents. *)
Definition same {W} `{DriveLaws W} (w w' : W) : Prop :=
  block_count w' = block_count w ∧ block_size w' = block_size w ∧
  (healthy w → healthy w') ∧ ∀ b, content w' b = content w b.

(** The partition lies on the drive; the native block size is a multiple of
    the sector size and divides the page size. *)
Definition part_ok {W} `{DriveLaws W} (p : Partition) (w : W) : Prop :=
  (∃ spb bpp, 1 <= spb ∧ spb * bpp = 8 ∧ block_size w = spb * 512) ∧
  0 <= start p ∧ 0 <= size_blocks p ∧ start p + size_blocks p <= block_count w ∧
  block_count w <= 2 ^ 50.

(** Sector [s] of the partition. *)
Definition sec {W} `{DriveLaws W} (p : Partition) (w : W) (s : Z) : list Z :=
  let spb := block_size w / 512 in
  slice (Z.to_nat (s mod spb * 512)) 512 (content w (start p + s / spb)).

Section sector_proofs.
Context {W : Type} `{DriveLaws W}.
Implicit Types (w : W) (p : Partition).

Lemma same_refl w : same w w.
Proof. by split_and!. Qed.

Lemma same_trans w1 w2 w3 : same w1 w2 → same w2 w3 → same w1 w3.
Proof.
  intros (A1 & A2 & A3 & A4) (B1 & B2 & B3 & B4). split_and!; [congruence..|tauto|].
  intros b. by rewrite B4, A4.
Qed.

Lemma same_sec p w w' s : same w w' → sec p w' s = sec p w s.
Proof. intros (_ & A2 & _ & A4). unfold sec. by rewrite A2, A4. Qed.

Lemma same_part_ok p w w' : same w w' → part_ok p w → part_ok p w'.
Proof. intros (A1 & A2 & _) Hp. unfold part_ok in *. by rewrite A1, A2. Qed.

Lemma part_spb p w :
  part_ok p w →
  ∃ spb, 1 <= spb <= 8 ∧ block_size w = spb * 512 ∧ block_size w / 512 = spb ∧
    ∃ bpp, 1 <= bpp <= 8 ∧ spb * bpp = 8 ∧ div_ceil PAGE_SIZE (block_size w) = bpp.
Proof.
  intros [(spb & bpp & Hs & Hb & E) _]. exists spb. rewrite E.
  assert (1 <= bpp <= 8) by nia. split_and!; [lia|nia|done|by apply Z.div_mul|].
  exists bpp. split_and!; [lia..|]. unfold PAGE_SIZE.
  replace 4096 with (bpp * (spb * 512)) by lia. apply div_ceil_mult. lia.
Qed.

Lemma new_page_wp n w (Q : PhysPage → W → Prop) (R : KernelError → W → Prop) :
  0 <= n <= 2 ^ 51 → (∀ w', same w w' → Q (zero_page n) w') → (∀ e w', ¬ healthy w → R e w') →
  wp (new_page n) Q R w.
Proof.
  intros Hn HQ HR. apply wp_map_errM. eapply wp_mono; [by apply page_new_spec| |].
  - intros p w' (-> & Hs). by apply HQ.
  - intros e w' (Hh & _). by apply HR.
Qed.

(** [read_smart] allocates enough when a block fits in a page. *)
Lemma read_smart_wp p w s n (Q : PhysPage → W → Prop) (R : KernelError → W → Prop) :
  part_ok p w → 0 <= s → 0 < n → s + n <= block_count w →
  (∀ pg w', page_ok pg → n * block_size w <= count pg * PAGE_SIZE →
     (∀ i, 0 <= i < n → slice (Z.to_nat (i * block_size w)) (Z.to_nat (block_size w)) (bytes pg) =
        content w (s + i)) → same w w' → Q pg w') →
  (∀ e w', ¬ healthy w → R e w') →
  wp (read_smart s n) Q R w.
Proof.
  intros Hp Hs Hn Hle HQ HR. destruct (part_spb p w Hp) as (spb & Hspb & Ebs & _ & bpp & Hbpp & Hm & Ebpp).
  destruct (Hp) as (_ & _ & _ & _ & Hbc). unfold read_smart.
  apply wp_bind, wp_gets. unfold div_ceil_panic.
  destruct (block_size w =? 0) eqn:E0; zb; [lia|]. apply wp_bind, wp_ret. rewrite Ebpp.
  destruct (bpp =? 0) eqn:E1; zb; [lia|]. apply wp_bind, wp_ret.
  pose proof (div_ceil_bounds n bpp ltac:(lia)) as B2. set (k := div_ceil n bpp) in *.
  assert (0 < k) by (apply div_ceil_pos; lia).
  assert (k * 1 <= k * bpp) by (apply Z.mul_le_mono_nonneg_l; lia).
  assert (n * block_size w <= k * PAGE_SIZE) as Hfit.
  { unfold PAGE_SIZE. rewrite Ebs. assert (n * spb <= k * bpp * spb) by (apply Z.mul_le_mono_nonneg_r; lia).
    assert (k * bpp * spb = k * 8) by (rewrite <- Hm; ring). lia. }
  apply wp_bind, new_page_wp; [lia| |auto]. intros w1 Hs1.
  pose proof Hs1 as (A1 & A2 & A3 & A4). apply wp_map_errM.
  eapply wp_mono; [apply read_blocks_spec; [by apply page_ok_zero; lia|done|lia|lia|rewrite A2; done]| |].
  - intros pg w2 (P1 & P2 & P3 & P4). rewrite A2 in P3. apply HQ; [done|by rewrite P2| |].
    + intros i Hi. rewrite P3 by done. apply A4.
    + by eapply same_trans.
  - intros e w2 (Hh & _). apply HR. tauto.
Qed.

(** [Drive::read] and [Drive::write] within the partition. *)
Lemma drive_read_wp p w off n (Q : PhysPage → W → Prop) (R : KernelError → W → Prop) :
  part_ok p w → 0 <= off → 0 < n → off + n <= size_blocks p →
  (∀ pg w', page_ok pg → n * block_size w <= count pg * PAGE_SIZE →
     (∀ i, 0 <= i < n → slice (Z.to_nat (i * block_size w)) (Z.to_nat (block_size w)) (bytes pg) =
        content w (start p + off + i)) → same w w' → Q pg w') →
  (∀ e w', ¬ healthy w → R e w') →
  wp (drive_read p off n) Q R w.
Proof.
  intros Hp Ho Hn Hle HQ HR. destruct (Hp) as (_ & S1 & S2 & S3 & Hbc).
  unfold drive_read, check_range, start_of.
  rewrite (proj2 (checked_add_Some off n (off + n))) by lia.
  destruct (size_blocks p <? off + n) eqn:E; zb; [lia|]. apply wp_bind, wp_ret.
  rewrite (proj2 (checked_add_Some (start p) off (start p + off))) by lia.
  apply wp_bind. eapply wp_lift_Ok; [done|]. eapply read_smart_wp; [done|lia..|done|done].
Qed.

Lemma drive_write_wp p w off n src (Q : unit → W → Prop) (R : KernelError → W → Prop) :
  part_ok p w → page_ok src → 0 <= off → 0 <= n → off + n <= size_blocks p →
  n * block_size w <= count src * PAGE_SIZE →
  (∀ w', (∀ b, content w' b =
      if (start p + off <=? b) && (b <? start p + off + n)
      then slice (Z.to_nat ((b - (start p + off)) * block_size w)) (Z.to_nat (block_size w)) (bytes src)
      else content w b) →
     block_count w' = block_count w → block_size w' = block_size w → (healthy w → healthy w') →
     Q tt w') →
  (∀ e w', ¬ healthy w → R e w') →
  wp (drive_write p off n src) Q R w.
Proof.
  intros Hp Hsrc Ho Hn Hle Hfit HQ HR. destruct (part_spb p w Hp) as (spb & Hspb & Ebs & _).
  destruct (Hp) as (_ & S1 & S2 & S3 & Hbc). destruct (Hsrc) as [Hc _].
  unfold drive_write, check_range, start_of.
  rewrite (proj2 (checked_add_Some off n (off + n))) by lia.
  destruct (size_blocks p <? off + n) eqn:E; zb; [lia|]. apply wp_bind, wp_ret.
  apply wp_bind, wp_gets. unfold PAGE_SIZE in *.
  rewrite !u64_small by (unfold in_u64; nia).
  destruct (count src * 4096 <? n * block_size w) eqn:E2; zb; [lia|].
  rewrite (proj2 (checked_add_Some (start p) off (start p + off))) by lia.
  apply wp_bind. eapply wp_lift_Ok; [done|]. apply wp_map_errM.
  eapply wp_mono; [apply write_blocks_spec; [done|lia|lia|lia|done]| |].
  - intros [] w' (C1 & C2 & C3 & C4). by apply HQ.
  - intros e w' (Hh & _). by apply HR.
Qed.

(** ** Sectors and native blocks *)

(** The sectors of a page that holds native blocks [off], [off + 1], ... *)
Lemma page_sectors p w pg off m s :
  part_ok p w → let spb := block_size w / 512 in
  (∀ i, 0 <= i < m → slice (Z.to_nat (i * block_size w)) (Z.to_nat (block_size w)) (bytes pg) =
     content w (start p + off + i)) →
  0 <= off → off * spb <= s < (off + m) * spb → psec pg (s - off * spb) = sec p w s.
Proof.
  intros Hp spb Hb Ho Hs. destruct (part_spb p w Hp) as (spb' & Hspb & Ebs & E & _).
  subst spb. unfold sec. cbv zeta. rewrite E in *. clear E.
  pose proof (Z.div_mod s spb' ltac:(lia)). pose proof (Z.mod_pos_bound s spb' ltac:(lia)).
  assert (off <= s / spb' < off + m) as Hq.
  { split; [apply Z.div_le_lower_bound|apply Z.div_lt_upper_bound]; lia. }
  replace (start p + s / spb') with (start p + off + (s / spb' - off)) by lia.
  rewrite <- Hb by lia. rewrite Ebs, slice_slice by lia. unfold psec. f_equal.
  rewrite <- Z2Nat.inj_add by nia. f_equal. nia.
Qed.

Definition native_end (s n spb : Z) : Z := div_ceil (s + n) spb.

Lemma native_bounds p s n spb :
  1 <= spb → 0 <= s → 0 < n → s + n <= size_blocks p * spb →
  s / spb * spb <= s < (s / spb + 1) * spb ∧ 0 <= s / spb < native_end s n spb ∧
  s + n <= native_end s n spb * spb < s + n + spb ∧ native_end s n spb <= size_blocks p.
Proof.
  intros H1 H2 H3 H4. unfold native_end.
  pose proof (Z.div_mod s spb ltac:(lia)). pose proof (Z.mod_pos_bound s spb ltac:(lia)).
  pose proof (Z.div_pos s spb ltac:(lia) ltac:(lia)).
  pose proof (div_ceil_bounds (s + n) spb ltac:(lia)). nia.
Qed.

Lemma native_range_wp s n spb (Q : Z * Z → W → Prop) (R : KernelError → W → Prop) w :
  1 <= spb <= 8 → 0 <= s → 0 < n → s + n <= 2 ^ 53 →
  Q (s / spb, native_end s n spb - s / spb) w → wp (native_range s n (spb * 512)) Q R w.
Proof.
  intros H1 H2 H3 H4 HQ. unfold native_range, div_panic, div_ceil_panic.
  destruct (spb * 512 =? 0) eqn:E; zb; [lia|]. apply wp_bind, wp_ret, wp_bind, wp_ret, wp_ret.
  rewrite (u64_small (s + n)), (u64_small ((s + n) * 512)), (u64_small (s * 512))
    by (unfold in_u64; lia).
  rewrite Z.div_mul_cancel_r by lia.
  assert (div_ceil ((s + n) * 512) (spb * 512) = native_end s n spb) as ->.
  { unfold native_end, div_ceil. rewrite Z.mul_mod_distr_r, Z.div_mul_cancel_r by lia.
    destruct ((s + n) mod spb =? 0) eqn:E1; zb.
    - by rewrite E1.
    - destruct ((s + n) mod spb * 512 =? 0) eqn:E2; zb; [lia|done]. }
  rewrite u64_small; [done|]. unfold in_u64.
  pose proof (native_bounds (mkPartition 0 (s + n) [] Efi (mkGuid 0 0 0 [] [])) s n spb) as B.
  simpl in B. assert (s + n <= (s + n) * spb) by nia. lia.
Qed.

(** [read_sectors] returns the sectors asked for. *)
Lemma read_sectors_wp p w s n (Q : PhysPage → W → Prop) (R : KernelError → W → Prop) :
  part_ok p w → 0 <= s → 0 < n → s + n <= size_blocks p * (block_size w / 512) →
  (∀ pg w', page_ok pg → count pg = div_ceil (n * 512) PAGE_SIZE →
     (∀ i, 0 <= i < n → psec pg i = sec p w (s + i)) → same w w' → Q pg w') →
  (∀ e w', ¬ healthy w → R e w') →
  wp (read_sectors p s n) Q R w.
Proof.
  intros Hp Hs Hn Hle HQ HR. destruct (part_spb p w Hp) as (spb & Hspb & Ebs & E & _).
  rewrite E in Hle. destruct (Hp) as (_ & S1 & S2 & S3 & Hbc).
  destruct (native_bounds p s n spb) as (N1 & N2 & N3 & N4); [lia..|].
  set (ns := s / spb) in *. set (ne := native_end s n spb) in *.
  assert (size_blocks p * spb <= size_blocks p * 8) by (apply Z.mul_le_mono_nonneg_l; lia).
  unfold read_sectors. destruct (n =? 0) eqn:E0; zb; [lia|]. apply wp_bind, wp_gets.
  rewrite Ebs. apply wp_bind, native_range_wp; [lia..|]. fold ns ne. cbv beta iota.
  apply wp_bind. eapply drive_read_wp; [done|lia..| |auto]. intros npg w1 P1 P2 P3 Hs1.
  unfold PAGE_SIZE in *. rewrite (u64_small (n * 512)) by (unfold in_u64; lia).
  pose proof (div_ceil_bounds (n * 512) 4096 ltac:(lia)) as Bd.
  apply wp_bind, new_page_wp; [lia| |intros; apply HR; destruct Hs1; tauto]. intros w2 Hs2.
  eapply wp_mono; [apply (wp_foldM (λ k pg w3, page_ok pg ∧ count pg = div_ceil (n * 512) 4096 ∧
    (∀ i, 0 <= i < Z.of_nat k → psec pg i = sec p w (s + i)) ∧ w3 = w2))| |done].
  - split_and!; [by apply page_ok_zero; lia|done|lia|done].
  - intros k x pg w3 Hk (Q1 & Q2 & Q3 & ->). apply lookup_seqZ in Hk as [-> Hk]. simpl.
    rewrite Z.add_0_l. set (i := Z.of_nat k) in *.
    assert ((ns + 1) * spb <= ne * spb) by (apply Z.mul_le_mono_nonneg_r; lia).
    assert (0 <= ns * spb) by (apply Z.mul_nonneg_nonneg; lia).
    replace (((s ⊞ i) ⊠ 512) ⊟ (ns ⊠ (spb * 512))) with ((s + i - ns * spb) * 512).
    2:{ rewrite (u64_small (s + i)), (u64_small ((s + i) * 512)), (u64_small (ns * (spb * 512))), u64_small
        by (unfold in_u64; lia). lia. }
    apply wp_bind. eapply wp_lift_Ok.
    { rewrite read_sector; [done|done|lia|]. unfold PAGE_SIZE. rewrite Ebs in P2. lia. }
    pose proof (page_sectors p w npg ns (ne - ns) (s + i) Hp) as Hsec. cbv zeta in Hsec.
    rewrite E in Hsec. rewrite Hsec by (try done; lia).
    rewrite (u64_small (i * 512)) by (unfold in_u64; lia).
    destruct (write_sector pg i (sec p w (s + i))) as (pg' & E' & O' & C' & Sx);
      [done|lia|unfold PAGE_SIZE; lia| |].
    { rewrite <- Hsec by (try done; lia). apply length_psec; [done|lia|]. unfold PAGE_SIZE.
      rewrite Ebs in P2. lia. }
    eapply wp_lift_Ok; [by rewrite E'|]. split_and!; [done|lia| |done]. intros j Hj.
    rewrite Sx by (unfold PAGE_SIZE; lia). destruct (j =? i) eqn:Ej; zb; [by subst|]. apply Q3. lia.
  - intros pg w3 (Q1 & Q2 & Q3 & ->). rewrite length_seqZ, Z2Nat.id in Q3 by lia.
    apply HQ; [done..|by eapply same_trans].
Qed.

(** ** Writing sectors *)

(** A loop that copies sectors [a, a + m) from [pg], where they are at offset
    [c], to [staging], where they are at offset [d]. *)
Lemma copy_loop pg staging (ro so : Z → Z) a m c d w (Q : PhysPage → W → Prop)
    (R : KernelError → W → Prop) :
  page_ok pg → page_ok staging → 0 <= m →
  (∀ j, a <= j < a + m → ro j = (j - c) * 512 ∧ so j = (j - d) * 512 ∧
     0 <= j - c ∧ (j - c + 1) * 512 <= count pg * PAGE_SIZE ∧
     0 <= j - d ∧ (j - d + 1) * 512 <= count staging * PAGE_SIZE) →
  (∀ st, page_ok st → count st = count staging →
     (∀ k, 0 <= k → (k + 1) * 512 <= count staging * PAGE_SIZE →
        psec st k = if (a - d <=? k) && (k <? a - d + m) then psec pg (k + d - c)
                    else psec staging k) → Q st w) →
  wp (foldM (λ st j, data ← get_sector pg (ro j); put_sector st (so j) data) staging (seqZ a m))
    Q R w.
Proof.
  intros Hpg Hst Hm Hj HQ.
  eapply wp_mono; [apply (wp_foldM (λ n st w', w' = w ∧ page_ok st ∧ count st = count staging ∧
    ∀ k, 0 <= k → (k + 1) * 512 <= count staging * PAGE_SIZE →
      psec st k = if (a - d <=? k) && (k <? a - d + Z.of_nat n) then psec pg (k + d - c)
                  else psec staging k))| |done].
  - split_and!; [done..|]. intros k _ _. destruct (a - d <=? k) eqn:E1, (k <? a - d + Z.of_nat 0) eqn:E2;
      zb; simpl; done || lia.
  - intros n j st w' Hn (-> & O1 & C1 & P1). apply lookup_seqZ in Hn as [-> Hn].
    destruct (Hj (a + Z.of_nat n) ltac:(lia)) as (-> & -> & J1 & J2 & J3 & J4).
    apply wp_bind. eapply wp_lift_Ok; [by rewrite read_sector by (done || lia)|].
    destruct (write_sector st (a + Z.of_nat n - d) (psec pg (a + Z.of_nat n - c)))
      as (st' & E & O2 & C2 & P2); [done|lia|by rewrite C1|by apply length_psec|].
    eapply wp_lift_Ok; [by rewrite E|]. split_and!; [done|done|congruence|]. intros k K1 K2.
    rewrite P2 by (rewrite ?C1; lia). rewrite P1 by lia.
    destruct (k =? a + Z.of_nat n - d) eqn:Ek; zb.
    + subst k. destruct (a - d <=? _) eqn:E1, (_ <? _) eqn:E2; zb; simpl; try lia. f_equal. lia.
    + destruct (a - d <=? k) eqn:E1, (k <? a - d + Z.of_nat n) eqn:E2,
        (k <? a - d + Z.of_nat (S n)) eqn:E3; zb; simpl; done || lia.
  - intros st w' (-> & O1 & C1 & P1). apply HQ; [done..|]. intros k K1 K2.
    rewrite P1 by done. rewrite length_seqZ, Z2Nat.id by lia. done.
Qed.

(** What sector [j] holds after a write of [n] sectors at [s]. *)
Definition target (p : Partition) (w : W) (src : PhysPage) (s n j : Z) : list Z :=
  if (s <=? j) && (j <? s + n) then psec src (j - s) else sec p w j.

Lemma stage_block_wp p w w0 s n src staging ns i spb (Q : PhysPage → W → Prop)
    (R : KernelError → W → Prop) :
  part_ok p w → same w w0 → page_ok src → page_ok staging →
  block_size w = spb * 512 → block_size w / 512 = spb → 1 <= spb <= 8 →
  0 <= s → 0 < n → s + n <= 2 ^ 53 → n * 512 <= count src * PAGE_SIZE →
  0 <= ns → 0 <= i → ns + i < size_blocks p → ns * spb <= s → (ns + i) * spb < s + n →
  s < (ns + i + 1) * spb →
  (i + 1) * spb * 512 <= count staging * PAGE_SIZE →
  (∀ st w', same w w' → page_ok st → count st = count staging →
     (∀ j, (ns + i) * spb <= j < (ns + i + 1) * spb → psec st (j - ns * spb) = target p w src s n j) →
     (∀ k, 0 <= k < i * spb → psec st k = psec staging k) → Q st w') →
  (∀ e w', ¬ healthy w → R e w') →
  wp (stage_block p s n src (spb * 512) ns staging i) Q R w0.
Proof.
  intros Hp Hs0 Hsrc Hst Ebs Espb Hspb Hs Hn Hb Hfit Hns Hi Hlt N1 N2 N3 Hroom HQ HR.
  destruct (Hp) as (_ & S1 & S2 & S3 & Hbc). unfold stage_block, range_incl.
  rewrite Z.div_mul by lia. cbv zeta. set (b := ns + i) in *.
  assert (0 <= b * spb) by (apply Z.mul_nonneg_nonneg; lia).
  assert (0 <= ns * spb) by (apply Z.mul_nonneg_nonneg; lia).
  assert (0 <= i * spb) by (apply Z.mul_nonneg_nonneg; lia).
  assert (b * spb = ns * spb + i * spb) as Eb by (subst b; ring).
  assert (b * spb <= 2 ^ 53) by lia.
  rewrite (u64_small b) by (unfold in_u64; lia).
  rewrite (u64_small (b * spb)), (u64_small (b * spb + spb)), (u64_small (b * spb + spb - 1)),
    (u64_small (s + n)), (u64_small (s + n - 1)) by (unfold in_u64; lia).
  set (cs := Z.max (b * spb) s). set (ce := Z.min (b * spb + spb - 1) (s + n - 1)).
  assert (cs <= ce) as Hcov by (subst cs ce; lia).
  unfold PAGE_SIZE in *.
  (* second loop, from any staging page whose uncovered sectors are right *)
  assert (∀ st w1, same w w1 → page_ok st → count st = count staging →
    (∀ j, b * spb <= j < (b + 1) * spb → ¬ (s <= j < s + n) → psec st (j - ns * spb) = sec p w j) →
    (∀ k, 0 <= k < i * spb → psec st k = psec staging k) →
    wp (foldM (λ staging j,
      data ← get_sector src ((j ⊟ s) ⊠ 512);
      put_sector staging ((j ⊠ 512) ⊟ (ns ⊠ (spb * 512))) data) st (seqZ cs (ce - cs + 1))) Q R w1)
    as Hcopy.
  { intros st w1 Hs1 O1 C1 P1 P2.
    apply (copy_loop src st _ _ cs (ce - cs + 1) s (ns * spb)); [done|done|lia| |].
    - intros j Hj. assert (s <= j < s + n) by (subst cs ce; lia).
      assert (b * spb <= j < b * spb + spb) by (subst cs ce; lia).
      rewrite (u64_small (j - s)), (u64_small ((j - s) * 512)), (u64_small (j * 512)),
        (u64_small (ns * (spb * 512))), (u64_small (j * 512 - ns * (spb * 512)))
        by (unfold in_u64; lia). unfold PAGE_SIZE. rewrite C1. split_and!; lia.
    - intros st' O2 C2 P3. rewrite C1 in *. unfold PAGE_SIZE in P3. apply HQ; [done|done|done| |].
      + intros j Hj. rewrite P3 by lia. unfold target.
        replace (j - ns * spb + ns * spb - s) with (j - s) by lia.
        destruct ((s <=? j) && (j <? s + n)) eqn:Et.
        * case_if as Ec; [done|]. apply andb_false_iff in Ec. zb.
          destruct Ec; zb; subst cs ce; lia.
        * case_if as Ec; zb; [apply andb_false_iff in Et; destruct Et; zb; subst cs ce; lia|].
          apply P1; [lia|]. apply andb_false_iff in Et. destruct Et; zb; lia.
      + intros k Hk. rewrite P3 by lia. rewrite P2 by done.
        case_if as Ec; [|done]. zb. subst cs ce. lia. }
  apply wp_bind.
  destruct (negb (cs =? b * spb) || negb (ce =? b * spb + spb - 1)) eqn:Epart.
  - apply wp_bind. eapply (drive_read_wp p w0 b 1);
      [by eapply same_part_ok|lia|lia|lia| |intros e w' Hh; apply HR; destruct Hs0; tauto].
    intros tmp w1 T1 T2 T3 Hs1. pose proof Hs0 as (A1 & A2 & A3 & A4).
    pose proof (same_part_ok _ _ _ Hs0 Hp) as Hp0.
    apply (copy_loop tmp staging _ _ (b * spb) (b * spb + spb - 1 - b * spb + 1) (b * spb) (ns * spb));
      [done|done|lia| |].
    + intros j Hj. rewrite A2, Ebs in T2. unfold PAGE_SIZE in *.
      rewrite (u64_small (j * 512)), (u64_small (b * (spb * 512))), (u64_small (ns * (spb * 512))),
        (u64_small (j * 512 - b * (spb * 512))), (u64_small (j * 512 - ns * (spb * 512)))
        by (unfold in_u64; lia). split_and!; lia.
    + intros st O1 C1 P1. apply Hcopy; [by eapply same_trans|done|done| |].
      * intros j Hj _. rewrite P1 by (unfold PAGE_SIZE; lia).
        case_if as Ec; [|apply andb_false_iff in Ec; destruct Ec; zb; lia].
        replace (j - ns * spb + ns * spb - b * spb) with (j - b * spb) by lia.
        rewrite <- (same_sec p w w0 j Hs0).
        pose proof (page_sectors p w0 tmp b 1 j Hp0) as Hps. cbv zeta in Hps.
        rewrite A2, Espb in Hps. apply Hps; [|lia|lia]. by rewrite A2 in T3.
      * intros k Hk. rewrite P1 by (unfold PAGE_SIZE; lia).
        case_if as Ec; [|done]. zb. lia.
  - apply wp_ret. apply orb_false_elim in Epart as [Ep1 Ep2]. apply negb_false_iff in Ep1, Ep2. zb.
    apply Hcopy; [done..| |done]. intros j Hj Hn'. exfalso. subst cs ce. lia.
Qed.

(** The effect of writing [n] sectors at [s]: exactly those change, and nothing
    outside the partition. *)
Definition written (p : Partition) (src : PhysPage) (s n : Z) (w w' : W) : Prop :=
  block_count w' = block_count w ∧ block_size w' = block_size w ∧ (healthy w → healthy w') ∧
  (∀ j, 0 <= j → sec p w' j = target p w src s n j) ∧
  (∀ b, b < start p ∨ start p + size_blocks p <= b → content w' b = content w b).

Lemma write_sectors_wp p w s n src (Q : unit → W → Prop) (R : KernelError → W → Prop) :
  part_ok p w → page_ok src → 0 <= s → 0 < n → s + n <= size_blocks p * (block_size w / 512) →
  n * 512 <= count src * PAGE_SIZE →
  (∀ w', written p src s n w w' → Q tt w') → (∀ e w', ¬ healthy w → R e w') →
  wp (write_sectors p s n src) Q R w.
Proof.
  intros Hp Hsrc Hs Hn Hle Hfit HQ HR. destruct (part_spb p w Hp) as (spb & Hspb & Ebs & E & _).
  rewrite E in Hle. destruct (Hp) as (_ & S1 & S2 & S3 & Hbc). destruct (Hsrc) as [Hc _].
  destruct (native_bounds p s n spb) as (N1 & N2 & N3 & N4); [lia..|].
  set (ns := s / spb) in *. set (ne := native_end s n spb) in *.
  assert (size_blocks p * spb <= size_blocks p * 8) by (apply Z.mul_le_mono_nonneg_l; lia).
  assert (0 <= ns * spb) by (apply Z.mul_nonneg_nonneg; lia).
  assert (ne * spb <= size_blocks p * spb) by (apply Z.mul_le_mono_nonneg_r; lia).
  assert (0 <= (ne - ns) * spb) by (apply Z.mul_nonneg_nonneg; lia).
  unfold write_sectors. destruct (n =? 0) eqn:E0; zb; [lia|]. apply wp_bind, wp_gets.
  rewrite Ebs. apply wp_bind, native_range_wp; [lia..|]. fold ns ne. cbv beta iota.
  unfold PAGE_SIZE in *. rewrite (u64_small (n * 512)), (u64_small (count src * 4096)) by (unfold in_u64; lia).
  destruct (count src * 4096 <? n * 512) eqn:E1; zb; [lia|].
  rewrite (u64_small ((ne - ns) * (spb * 512))) by (unfold in_u64; lia).
  pose proof (div_ceil_bounds ((ne - ns) * (spb * 512)) 4096 ltac:(lia)) as Bd.
  set (cnt := div_ceil ((ne - ns) * (spb * 512)) 4096) in *.
  apply wp_bind, new_page_wp; [lia| |auto]. intros w1 Hs1. apply wp_bind.
  eapply wp_mono; [apply (wp_foldM (λ k st w2, page_ok st ∧ count st = cnt ∧ same w w2 ∧
    ∀ j, ns * spb <= j < (ns + Z.of_nat k) * spb → psec st (j - ns * spb) = target p w src s n j)
    _ (λ _ _, ¬ healthy w))| |intros; by apply HR].
  - split_and!; [by apply page_ok_zero; lia|done|done|lia].
  - intros k i st w2 Hk (O1 & C1 & Hs2 & P1). apply lookup_seqZ in Hk as [-> Hk].
    rewrite Z.add_0_l. set (i := Z.of_nat k) in *.
    assert ((i + 1) * spb <= (ne - ns) * spb) by (apply Z.mul_le_mono_nonneg_r; lia).
    assert (0 <= i * spb) by (apply Z.mul_nonneg_nonneg; lia).
    assert ((ns + i + 1) * spb <= ne * spb) by (apply Z.mul_le_mono_nonneg_r; lia).
    eapply (stage_block_wp p w w2 s n src st ns i spb); unfold PAGE_SIZE; try done; try lia.
    intros st' w3 Hs3 O2 C2 P2 P3. split_and!; [done|congruence|done|]. intros j Hj.
    destruct (decide (j < (ns + i) * spb)).
    + rewrite P3 by lia. apply P1. lia.
    + apply P2. lia.
  - intros st w2 (O1 & C1 & Hs2 & P1). rewrite length_seqZ, Z2Nat.id in P1 by lia.
    pose proof Hs2 as (A1 & A2 & A3 & A4).
    eapply (drive_write_wp p w2 ns (ne - ns)); [by eapply same_part_ok|done|lia|lia|lia| | |].
    { rewrite A2, Ebs, C1. unfold PAGE_SIZE. lia. }
    2:{ intros e w' Hh. apply HR. tauto. }
    intros w3 C3 B1 B2 B3. apply HQ. split_and!; [congruence|congruence|tauto| |].
    + intros j Hj. unfold sec. rewrite B2, A2, E. rewrite C3, A2, Ebs.
      pose proof (Z.div_mod j spb ltac:(lia)). pose proof (Z.mod_pos_bound j spb ltac:(lia)).
      case_if as Ec.
      * zb. rewrite slice_slice by lia.
        assert (ns * spb <= j / spb * spb) by (apply Z.mul_le_mono_nonneg_r; lia).
        assert ((j / spb + 1) * spb <= ne * spb) by (apply Z.mul_le_mono_nonneg_r; lia).
        rewrite <- P1 by lia. unfold psec. f_equal. rewrite <- Z2Nat.inj_add by lia. f_equal. lia.
      * rewrite A4. unfold target.
        case_if as Et; [|unfold sec; by rewrite E]. exfalso.
        apply andb_false_iff in Ec. zb. assert (ns <= j / spb < ne) as Hq; [|destruct Ec; zb; lia].
        split; [apply Z.div_le_lower_bound|apply Z.div_lt_upper_bound]; lia.
    + intros b Hb. rewrite C3. case_if as Ec; [zb; lia|]. apply A4.
Qed.

(** [zero_sectors], in chunks of [MAX_SECTORS]. *)
Lemma zero_sectors_wp p w s n (Q : unit → W → Prop) (R : KernelError → W → Prop) :
  part_ok p w → 0 <= s → 0 < n → s + n <= size_blocks p * (block_size w / 512) →
  (∀ w', block_count w' = block_count w → block_size w' = block_size w → (healthy w → healthy w') →
     (∀ j, 0 <= j → sec p w' j =
        if (s <=? j) && (j <? s + n) then replicate 512 0 else sec p w j) →
     (∀ b, b < start p ∨ start p + size_blocks p <= b → content w' b = content w b) → Q tt w') →
  (∀ e w', ¬ healthy w → R e w') →
  wp (zero_sectors p s n) Q R w.
Proof.
  intros Hp Hs Hn Hle HQ HR. unfold zero_sectors. destruct (n =? 0) eqn:E0; zb; [lia|].
  destruct (part_spb p w Hp) as (spb & Hspb & Ebs & E & _). rewrite E in Hle.
  destruct (Hp) as (_ & S1 & S2 & S3 & Hbc).
  assert (size_blocks p * spb <= size_blocks p * 8) by (apply Z.mul_le_mono_nonneg_l; lia).
  unfold MAX_SECTORS. pose proof (div_ceil_bounds (Z.min n 0x1000) 8 ltac:(lia)) as Bd.
  set (cnt := div_ceil (Z.min n 0x1000) 8) in *.
  apply wp_bind, new_page_wp; [lia| |auto]. intros w1 (A1 & A2 & A3 & A4).
  (* [done] sectors have been cleared *)
  assert (∀ fuel w2 rem sector, (rem < Z.of_nat fuel) → 0 <= rem <= n → sector = s + n - rem →
    block_count w2 = block_count w → block_size w2 = block_size w → (healthy w → healthy w2) →
    (∀ j, 0 <= j → sec p w2 j =
       if (s <=? j) && (j <? sector) then replicate 512 0 else sec p w j) →
    (∀ b, b < start p ∨ start p + size_blocks p <= b → content w2 b = content w b) →
    wp (zero_sectors_loop fuel p (zero_page cnt) rem sector) Q R w2) as Hloop.
  { induction fuel as [|fuel IH]; intros w2 rem sector Hf Hr -> B1 B2 B3 B4 B5; [lia|].
    cbn [zero_sectors_loop]. destruct (0 <? rem) eqn:E1; zb; cbn [negb].
    2:{ assert (rem = 0) as -> by lia. rewrite Z.sub_0_r in B4. by apply HQ. }
    unfold MAX_SECTORS. cbv zeta. set (ch := Z.min rem 0x1000).
    assert (0 < ch <= rem ∧ ch <= Z.min n 0x1000) by (subst ch; lia).
    apply wp_bind. eapply write_sectors_wp.
    - unfold part_ok. rewrite B1, B2. apply Hp.
    - apply page_ok_zero. lia.
    - lia.
    - lia.
    - rewrite B2, E. lia.
    - simpl. unfold PAGE_SIZE. lia.
    - intros w3 (C1 & C2 & C3 & C4 & C5).
      rewrite (u64_small (rem - ch)), (u64_small (s + n - rem + ch)) by (unfold in_u64; lia).
      apply IH; [lia|lia|lia|congruence|congruence|tauto| |].
      + intros j Hj. rewrite C4 by done. unfold target. rewrite B4 by done.
        destruct (s + n - rem <=? j) eqn:F1, (j <? s + n - rem + ch) eqn:F2, (s <=? j) eqn:F3,
          (j <? s + n - rem) eqn:F4; zb; simpl; try done; try lia.
        apply psec_zero; unfold PAGE_SIZE; lia.
      + intros b Hb. by rewrite C5, B5.
    - intros e w' Hh. apply HR. tauto. }
  apply Hloop; try done; try lia. intros j Hj. case_if as Ec; zb; [lia|].
  unfold sec. by rewrite A2, A4.
Qed.

Lemma zero_blocks_loop_wp p w w0 s0 page n (Q : unit → W → Prop) (R : KernelError → W → Prop) :
  part_ok p w → page_ok page → 0 <= s0 → 0 <= n → s0 + n <= block_count w →
  Z.min (n * block_size w) (1024 * 1024 * 2) <= count page * PAGE_SIZE →
  (∀ w', block_count w' = block_count w → block_size w' = block_size w → (healthy w → healthy w') →
     (∀ b, b < s0 ∨ s0 + n <= b → content w' b = content w b) → Q tt w') →
  (∀ e w', ¬ healthy w → (∀ b, b < s0 ∨ s0 + n <= b → content w' b = content w b) → R e w') →
  ∀ fuel rem, rem < Z.of_nat fuel → 0 <= rem <= n →
  block_count w0 = block_count w → block_size w0 = block_size w → (healthy w → healthy w0) →
  (∀ b, b < s0 ∨ s0 + n <= b → content w0 b = content w b) →
  wp (zero_blocks_loop fuel s0 page rem (n - rem)) Q R w0.
Proof.
  intros Hp Hpg Hs Hn Hle Hfit HQ HR. destruct (part_spb p w Hp) as (spb & Hspb & Ebs & E & _).
  destruct (Hp) as (_ & S1 & S2 & S3 & Hbc). intros fuel. revert w0.
  induction fuel as [|fuel IH]; intros w0 rem Hf Hr B1 B2 B3 B4; [lia|]. cbn [zero_blocks_loop].
  destruct (0 <? rem) eqn:E1; zb; cbn [negb]; [|by apply HQ].
  apply wp_bind, wp_gets. rewrite B2, Ebs. unfold div_panic.
  destruct (spb * 512 =? 0) eqn:E2; zb; [lia|]. apply wp_bind, wp_ret. cbv zeta.
  set (q := 1024 * 1024 * 2 / (spb * 512)).
  assert (0 < q ∧ q * (spb * 512) <= 1024 * 1024 * 2) as [Hq1 Hq2].
  { split; [apply Z.div_str_pos; lia|]. rewrite Z.mul_comm. apply Z.mul_div_le. lia. }
  set (c := Z.min rem q). assert (0 < c <= rem ∧ c <= q) by (subst c; lia).
  assert (c * (spb * 512) <= q * (spb * 512)) by (apply Z.mul_le_mono_nonneg_r; lia).
  assert (c * (spb * 512) <= n * (spb * 512)) by (apply Z.mul_le_mono_nonneg_r; lia).
  rewrite (u64_small (s0 + (n - rem))), (u64_small (rem - c)), (u64_small (n - rem + c))
    by (unfold in_u64; lia).
  apply wp_bind, wp_map_errM. eapply wp_mono; [apply write_blocks_spec|..]; [done|lia|lia|lia| | |].
  { rewrite B2, Ebs. rewrite Ebs in Hfit. lia. }
  - intros [] w1 (C1 & C2 & C3 & C4). replace (n - rem + c) with (n - (rem - c)) by lia.
    apply IH; [lia|lia|congruence|congruence|tauto|]. intros b Hb. rewrite C1.
    case_if as Ec; [zb; lia|]. by apply B4.
  - intros e w1 (Hh & _ & _ & C1). apply HR; [tauto|]. intros b Hb. rewrite C1 by lia. by apply B4.
Qed.

(** The range check refuses, or the blocks lie on the partition. *)
Lemma check_range_cases p w off n :
  part_ok p w → 0 <= off → 0 <= n →
  (∃ e, check_range p off n w = (Err e, w)) ∨
  (off + n <= size_blocks p ∧ check_range p off n w = (Ok tt, w) ∧
   start_of p off w = (Ok (start p + off), w)).
Proof.
  intros (_ & S1 & S2 & S3 & Hbc) Ho Hn. unfold check_range, start_of.
  destruct (checked_add off n) as [e|] eqn:E1; [|by left; eexists].
  apply checked_add_Some in E1 as [-> E1].
  destruct (size_blocks p <? off + n) eqn:E2; [by left; eexists|]. zb. right.
  by rewrite (proj2 (checked_add_Some (start p) off (start p + off))) by lia.
Qed.

(** C17. Whatever [Drive::write] and [Drive::zero] are called with, they return,
    and no block outside the partition changes, also when the drive fails. *)
Theorem partition_isolation p w off n src :
  part_ok p w → page_ok src → 0 <= off < 18446744073709551616 → 0 <= n < 18446744073709551616 →
  let keeps (w' : W) := ∀ b, b < start p ∨ start p + size_blocks p <= b → content w' b = content w b in
  wp (drive_write p off n src) (λ _ w', keeps w') (λ _ w', keeps w') w ∧
  wp (drive_zero p off n) (λ _ w', keeps w') (λ _ w', keeps w') w.
Proof.
  intros Hp Hsrc Ho Hn keeps. destruct (part_spb p w Hp) as (spb & Hspb & Ebs & E & _).
  destruct (Hp) as (_ & S1 & S2 & S3 & Hbc). destruct (Hsrc) as [Hc _].
  unfold drive_write, drive_zero.
  destruct (check_range_cases p w off n Hp) as [(e & Ec)|(Hle & Ec & Es)]; [lia|lia| |].
  { unfold wp, mbind, M_bind. by rewrite Ec. }
  assert (n * spb <= n * 8) by (apply Z.mul_le_mono_nonneg_l; lia).
  assert (0 <= n * spb) by (apply Z.mul_nonneg_nonneg; lia). split.
  - eapply wp_step; [exact Ec|]. apply wp_bind, wp_gets.
    destruct (count src ⊠ PAGE_SIZE <? n ⊠ block_size w) eqn:E3; [done|]. zb.
    unfold PAGE_SIZE in *. rewrite !u64_small in E3 by (unfold in_u64; rewrite ?Ebs; lia).
    eapply wp_step; [exact Es|]. apply wp_map_errM.
    eapply wp_mono; [apply write_blocks_spec; [done|lia|lia|lia|done]| |].
    + intros _ w' (C1 & _) b Hb. rewrite C1. case_if as Eb; [zb; lia|done].
    + intros _ w' (_ & _ & _ & C1) b Hb. apply C1. lia.
  - eapply wp_step; [exact Ec|]. eapply wp_step; [exact Es|]. unfold zero_blocks.
    apply wp_bind, wp_gets. rewrite (u64_small (n * block_size w)) by (unfold in_u64; rewrite Ebs; lia).
    unfold PAGE_SIZE. pose proof (div_ceil_bounds (n * block_size w) 4096 ltac:(lia)) as Bd.
    assert (0 <= div_ceil (n * block_size w) 4096) by (apply div_ceil_nonneg; rewrite ?Ebs; lia).
    apply wp_bind, wp_map_errM. eapply wp_mono; [apply page_new_spec; lia| |].
    + intros pg w1 (-> & A1 & A2 & A3 & A4).
      pose proof (λ pg Q R, zero_blocks_loop_wp p w w1 (start p + off) pg n Q R) as L.
      specialize (λ pg Q R a b c d e f g h, L pg Q R a b c d e f g h (S (Z.to_nat n)) n) as L.
      rewrite Z.sub_diag in L. apply L;
        [done|by apply page_ok_zero; lia|lia|lia|lia| | | |lia|lia|done..].
      * simpl. unfold PAGE_SIZE. lia.
      * intros w' _ _ _ C1 b Hb. apply C1. lia.
      * intros e w' _ C1 b Hb. apply C1. lia.
    + intros _ w1 (_ & _ & _ & A4) b _. apply A4.
Qed.
End sector_proofs.

(** Byte offsets of sectors, at 64 bits. *)
Lemma sector_offset_wraps s i :
  ((s + 2 ^ 55) ⊞ i) ⊠ 512 = (s ⊞ i) ⊠ 512 ∧ (s + 2 ^ 55) ⊠ 512 = s ⊠ 512.
Proof. split; uint_lia. Qed.

(** The byte offset of a sector is computed modulo 2^64, and the bounds of
    the partition are only checked on the block number it gives: a sector
    number that is out of range by 2^55 reads the sector it aliases. *)
Theorem read_sectors_wraps {W} `{StorageDrive W} p s n (w : W) :
  read_sectors p (s + 2 ^ 55) n w = read_sectors p s n w.
Proof.
  unfold read_sectors. destruct (n =? 0); [done|]. rewrite !gets_bind. unfold native_range.
  rewrite (proj1 (sector_offset_wraps s n)), (proj2 (sector_offset_wraps s n)).
  apply bind_ext. intros [ns nc] w1. apply bind_ext. intros pg w2. apply bind_ext. intros dest w3.
  apply foldM_ext. intros dest' i w'. by rewrite (proj1 (sector_offset_wraps s i)).
Qed.

(** ** What a file system relies on *)

Class SectorDisk (W : Type) := {
  disk_sectors : W → Z;
  disk_read : Z → Z → M W KernelError PhysPage;
  disk_write : Z → Z → PhysPage → M W KernelError unit;
  disk_zero : Z → Z → M W KernelError unit;
  disk_page : Z → M W MemoryError PhysPage
}.

(** Within the bounds of the disk, reads return the sectors, writes and zeroing
    change exactly the sectors named, and errors occur only on a disk that is
    not healthy. *)
Class SectorLaws (W : Type) `{SectorDisk W} := {
  sector : W → Z → list Z;
  disk_ok : W → Prop;
  disk_healthy : W → Prop;
  disk_bound w : disk_ok w → 0 <= disk_sectors w <= 2 ^ 53;
  disk_page_spec n w :
    disk_ok w → 0 <= n <= 2 ^ 51 →
    wp (disk_page n)
      (λ p w', p = zero_page n ∧ disk_ok w' ∧ disk_sectors w' = disk_sectors w ∧
        (disk_healthy w → disk_healthy w') ∧ ∀ j, 0 <= j → sector w' j = sector w j)
      (λ _ _, ¬ disk_healthy w) w;
  disk_read_spec s n w :
    disk_ok w → 0 <= s → 0 < n → s + n <= disk_sectors w →
    wp (disk_read s n)
      (λ p w', page_ok p ∧ count p = div_ceil (n * 512) PAGE_SIZE ∧
        (∀ i, 0 <= i < n → psec p i = sector w (s + i)) ∧
        disk_ok w' ∧ disk_sectors w' = disk_sectors w ∧
        (disk_healthy w → disk_healthy w') ∧ ∀ j, 0 <= j → sector w' j = sector w j)
      (λ _ _, ¬ disk_healthy w) w;
  disk_write_spec s n src w :
    disk_ok w → page_ok src → 0 <= s → 0 < n → s + n <= disk_sectors w →
    n * 512 <= count src * PAGE_SIZE →
    wp (disk_write s n src)
      (λ _ w', disk_ok w' ∧ disk_sectors w' = disk_sectors w ∧
        (disk_healthy w → disk_healthy w') ∧
        ∀ j, 0 <= j → sector w' j =
          if (s <=? j) && (j <? s + n) then psec src (j - s) else sector w j)
      (λ _ _, ¬ disk_healthy w) w;
  disk_zero_spec s n w :
    disk_ok w → 0 <= s → 0 < n → s + n <= disk_sectors w →
    wp (disk_zero s n)
      (λ _ w', disk_ok w' ∧ disk_sectors w' = disk_sectors w ∧
        (disk_healthy w → disk_healthy w') ∧
        ∀ j, 0 <= j → sector w' j =
          if (s <=? j) && (j <? s + n) then replicate 512 0 else sector w j)
      (λ _ _, ¬ disk_healthy w) w
}.

Section partition_disk.
Context {W : Type} `{DriveLaws W} (p : Partition).

#[local] Instance partition_disk : SectorDisk W := {|
  disk_sectors := sector_count p;
  disk_read := read_sectors p;
  disk_write := write_sectors p;
  disk_zero := zero_sectors p;
  disk_page := page_new
|}.

Lemma sector_count_eq (w : W) :
  part_ok p w → sector_count p w = size_blocks p * (block_size w / 512) ∧
  0 <= size_blocks p * (block_size w / 512) <= 2 ^ 53.
Proof.
  intros Hp. destruct (part_spb p w Hp) as (spb & Hspb & Ebs & E & _).
  destruct Hp as (_ & S1 & S2 & S3 & Hbc). unfold sector_count. rewrite E.
  assert (size_blocks p * spb <= size_blocks p * 8) by (apply Z.mul_le_mono_nonneg_l; lia).
  assert (0 <= size_blocks p * spb) by (apply Z.mul_nonneg_nonneg; lia).
  rewrite u64_small by (unfold in_u64; lia). lia.
Qed.

Lemma geometry_kept (w w' : W) :
  block_count w' = block_count w → block_size w' = block_size w → part_ok p w →
  part_ok p w' ∧ sector_count p w' = sector_count p w.
Proof. intros E1 E2 Hp. unfold part_ok, sector_count in *. by rewrite E1, E2. Qed.

(** C16. A partition of a drive that keeps the promises of the trait is a disk of
    512-byte sectors: reads return exactly the sectors asked for, writes and
    zeroing change exactly the sectors named, whatever the native block size,
    and the only errors are those of the drive. *)
Theorem partition_disk_laws_hold (w : W) :
  part_ok p w →
  (∀ s n, 0 <= s → 0 < n → s + n <= sector_count p w →
     wp (read_sectors p s n)
       (λ pg w', (∀ i, 0 <= i < n → psec pg i = sec p w (s + i)) ∧
          ∀ j, 0 <= j → sec p w' j = sec p w j)
       (λ _ _, ¬ healthy w) w) ∧
  (∀ s n src, page_ok src → 0 <= s → 0 < n → s + n <= sector_count p w →
     n * 512 <= count src * PAGE_SIZE →
     wp (write_sectors p s n src)
       (λ _ w', ∀ j, 0 <= j → sec p w' j =
          if (s <=? j) && (j <? s + n) then psec src (j - s) else sec p w j)
       (λ _ _, ¬ healthy w) w) ∧
  (∀ s n, 0 <= s → 0 < n → s + n <= sector_count p w →
     wp (zero_sectors p s n)
       (λ _ w', ∀ j, 0 <= j → sec p w' j =
          if (s <=? j) && (j <? s + n) then replicate 512 0 else sec p w j)
       (λ _ _, ¬ healthy w) w).
Proof.
  intros Hp. destruct (sector_count_eq w Hp) as [Ec _]. rewrite Ec. split_and!.
  - intros s n Hs Hn Hle. eapply read_sectors_wp; [done..| |done].
    intros pg w' _ _ P Hsame. split; [done|]. intros j _. by apply same_sec.
  - intros s n src Hsrc Hs Hn Hle Hfit. eapply write_sectors_wp; [done..| |done].
    intros w' (_ & _ & _ & P & _). done.
  - intros s n Hs Hn Hle. eapply zero_sectors_wp; [done..| |done]. done.
Qed.

#[local] Program Instance partition_sector_laws : SectorLaws W := {|
  sector := sec p;
  disk_ok := part_ok p;
  disk_healthy := healthy
|}.
Next Obligation. intros w Hw. simpl. destruct (sector_count_eq w Hw) as [-> ?]. lia. Qed.
Next Obligation.
  intros n w Hw Hn. simpl. eapply wp_mono; [by apply page_new_spec| |].
  - intros pg w' (-> & A1 & A2 & A3 & A4). destruct (geometry_kept w w' A1 A2 Hw) as [G1 G2].
    split_and!; [done..|]. intros j _. apply same_sec. by split_and!.
  - by intros e w' (? & _).
Qed.
Next Obligation.
  intros s n w Hw Hs Hn Hle. simpl in *. destruct (sector_count_eq w Hw) as [Ec _]. rewrite Ec in Hle.
  eapply read_sectors_wp; [done..| |done]. intros pg w' O C P Hsame.
  pose proof Hsame as (A1 & A2 & A3 & _). destruct (geometry_kept w w' A1 A2 Hw) as [G1 G2].
  split_and!; [done..|]. intros j _. by apply same_sec.
Qed.
Next Obligation.
  intros s n src w Hw Hsrc Hs Hn Hle Hfit. simpl in *.
  destruct (sector_count_eq w Hw) as [Ec _]. rewrite Ec in Hle.
  eapply write_sectors_wp; [done..| |done]. intros w' (A1 & A2 & A3 & P & _).
  destruct (geometry_kept w w' A1 A2 Hw) as [G1 G2]. by split_and!.
Qed.
Next Obligation.
  intros s n w Hw Hs Hn Hle. simpl in *. destruct (sector_count_eq w Hw) as [Ec _]. rewrite Ec in Hle.
  eapply zero_sectors_wp; [done..| |done]. intros w' A1 A2 A3 P _.
  destruct (geometry_kept w w' A1 A2 Hw) as [G1 G2]. by split_and!.
Qed.
End partition_disk.

End Storage.
