(* ===== verification/RamDisk.v ===== *)
(** * A disk in memory

    An implementation of [StorageDrive] that keeps its blocks in a finite map
    and never fails, with the proof that it keeps the promises of
    [DriveLaws].  The witnesses run the code of the storage stack on it. *)

From S2P Require Import Prelude Errors Pages Storage.
Import Errors Pages Storage.

Module RamDisk.

Abbreviation RamDisk := (gmap Z (list Z)).

Section disk.
Variables (bs blocks : Z).

Definition block (d : RamDisk) (b : Z) : list Z :=
  resize (Z.to_nat bs) 0 (default [] (d !! b)).

Definition ram_read (s n : Z) (dest : PhysPage) : M RamDisk StorageError PhysPage := λ d,
  if (blocks <? s + n) || (count dest * PAGE_SIZE <? n * bs) then (Err CommandFailed, d)
  else
    let data := concat (block d <$> seqZ s n) in
    (Ok (mkPage (count dest) (splice 0 data (bytes dest))), d).

Definition store (s : Z) (src : PhysPage) (d : RamDisk) (l : list Z) : RamDisk :=
  foldr (λ i d, <[s + i := slice (Z.to_nat (i * bs)) (Z.to_nat bs) (bytes src)]> d) d l.

Definition ram_write (s n : Z) (src : PhysPage) : M RamDisk StorageError unit := λ d,
  if (blocks <? s + n) || (count src * PAGE_SIZE <? n * bs) then (Err CommandFailed, d)
  else (Ok tt, store s src d (seqZ 0 n)).

#[local] Instance ram_drive : StorageDrive RamDisk := {|
  block_count _ := blocks;
  block_size _ := bs;
  read_blocks := ram_read;
  write_blocks := ram_write;
  sync_blocks := mret tt;
  page_new n := mret (zero_page n)
|}.

Lemma length_block d b : length (block d b) = Z.to_nat bs.
Proof. apply length_resize. Qed.

Lemma length_blocks d s n :
  0 <= n → 0 <= bs → length (concat (block d <$> seqZ s n)) = Z.to_nat (n * bs).
Proof.
  intros Hn Hb. rewrite <- (Z2Nat.id n) by done. generalize (Z.to_nat n) as m. clear n Hn. intros m.
  revert s. induction m as [|m IH]; intros s; [done|].
  rewrite seqZ_cons, fmap_cons by lia. cbn [concat]. rewrite length_app, length_block.
  replace (Z.pred (Z.of_nat (S m))) with (Z.of_nat m) by lia. rewrite IH. lia.
Qed.

Lemma slice_concat d s n i :
  0 <= i < n → 0 <= bs →
  slice (Z.to_nat (i * bs)) (Z.to_nat bs) (concat (block d <$> seqZ s n)) = block d (s + i).
Proof.
  intros Hi Hb. unfold slice. replace n with (i + (1 + (n - i - 1))) by lia.
  rewrite seqZ_app, fmap_app, concat_app by lia.
  rewrite drop_app_ge; rewrite length_blocks by lia; [|done]. rewrite Nat.sub_diag, drop_0.
  rewrite seqZ_app by lia. change (seqZ (s + i) 1) with [s + i].
  rewrite fmap_app. cbn [fmap list_fmap concat app].
  rewrite take_app_le, take_ge; [done|..]; by rewrite length_block.
Qed.

Lemma store_lookup s src d l b :
  store s src d l !! b =
  if bool_decide (b - s ∈ l) then Some (slice (Z.to_nat ((b - s) * bs)) (Z.to_nat bs) (bytes src))
  else d !! b.
Proof.
  induction l as [|i l IH]; [done|]. cbn [store foldr]. fold (store s src d l).
  destruct (decide (s + i = b)) as [<-|Hne].
  - rewrite lookup_insert_eq. replace (s + i - s) with i by lia.
    rewrite bool_decide_true by set_solver. done.
  - rewrite lookup_insert_ne, IH by done. erewrite bool_decide_ext; [done|].
    rewrite elem_of_cons. split; [tauto|]. intros [?|?]; [lia|done].
Qed.

#[local] Program Instance ram_laws (Hbs : 0 < bs) : DriveLaws RamDisk := {|
  content := block;
  healthy _ := True
|}.
Next Obligation. intros Hbs n w Hn. done. Qed.
Next Obligation.
  intros Hbs s n dest w [Hc Hl] Hs Hn Hle Hfit. simpl in *. unfold wp, ram_read.
  destruct (blocks <? s + n) eqn:E1; zb; [lia|].
  destruct (count dest * PAGE_SIZE <? n * bs) eqn:E2; zb; [lia|]. simpl.
  set (data := concat (block w <$> seqZ s n)).
  assert (length data = Z.to_nat (n * bs)) as Hd by (apply length_blocks; lia).
  assert (0 <= n * bs) by (apply Z.mul_nonneg_nonneg; lia).
  split_and!; [|done| |done..].
  - split; [done|]. simpl. rewrite length_splice; [done|]. rewrite Hd, Hl. lia.
  - intros i Hi. rewrite <- (slice_concat w s n i) by lia. fold data.
    assert ((i + 1) * bs <= n * bs) by (apply Z.mul_le_mono_nonneg_r; lia).
    assert (0 <= i * bs) by (apply Z.mul_nonneg_nonneg; lia).
    unfold splice, slice. rewrite take_0. cbn [app]. rewrite drop_app_le by lia.
    rewrite take_app_le; [done|]. rewrite length_drop. lia.
Qed.
Next Obligation.
  intros Hbs s n src w [Hc Hl] Hs Hn Hle Hfit. simpl in *. unfold wp, ram_write.
  destruct (blocks <? s + n) eqn:E1; zb; [lia|].
  destruct (count src * PAGE_SIZE <? n * bs) eqn:E2; zb; [lia|]. simpl.
  split_and!; [|done..]. intros b. unfold block. rewrite store_lookup.
  destruct ((s <=? b) && (b <? s + n)) eqn:E.
  - zb. rewrite bool_decide_true by (apply elem_of_seqZ; lia).
    apply resize_all_alt. symmetry. apply length_slice. rewrite Hl.
    assert ((b - s + 1) * bs <= n * bs) by (apply Z.mul_le_mono_nonneg_r; lia).
    assert (0 <= (b - s) * bs) by (apply Z.mul_nonneg_nonneg; lia). lia.
  - rewrite bool_decide_false; [done|]. rewrite elem_of_seqZ. apply andb_false_iff in E.
    destruct E; zb; lia.
Qed.
End disk.

(** ** A small disk: 1024-byte blocks, a partition of six of them *)

Definition disk_part : Partition := mkPartition 2 6 [] LemonFS (mkGuid 0 0 0 [] []).
Definition small_drive : StorageDrive RamDisk := ram_drive 1024 16.
Definition small_laws : @DriveLaws RamDisk small_drive := ram_laws 1024 16 ltac:(done).

Lemma small_part_ok (d : RamDisk) : @part_ok RamDisk small_drive small_laws disk_part d.
Proof. split_and!; [by exists 2, 4|done..]. Defined.

(** A page of sectors that can be told apart. *)
Definition pattern (n : Z) : PhysPage :=
  mkPage n (concat ((λ i, replicate 512 (i + 1)) <$> seqZ 0 (n * 8))).

Lemma partition_disk_laws_hold_witness :
  part_ok (H0 := small_laws) disk_part (∅ : RamDisk) ∧
  (write_sectors (H := small_drive) disk_part 3 4 (pattern 1) ∅).1 = Ok tt ∧
  sec (H0 := small_laws) disk_part (write_sectors (H := small_drive) disk_part 3 4 (pattern 1) ∅).2 4 =
    replicate 512 2.
Proof.
  pose proof (partition_disk_laws_hold (H0 := small_laws) disk_part ∅ (small_part_ok ∅)) as (_ & L & _).
  specialize (L 3 4 (pattern 1)). split; [apply small_part_ok|]. split; [vm_compute; reflexivity|].
  assert (page_ok (pattern 1)) as O by (split; [vm_compute; split; congruence|vm_compute; reflexivity]).
  specialize (L O ltac:(done) ltac:(done) ltac:(vm_compute; congruence) ltac:(done)).
  unfold wp in L. destruct (write_sectors _ _ _ _ _) as [[] w'] eqn:E; [|by vm_compute in E..].
  simpl. rewrite (L 4) by done. reflexivity.
Defined.

Lemma partition_isolation_witness :
  (drive_zero (H := small_drive) disk_part 1 5 {[1 := [7]; 3 := [7]; 8 := [7]]}).1 = Ok tt ∧
  content (DriveLaws := small_laws)
    (drive_zero (H := small_drive) disk_part 1 5 {[1 := [7]; 3 := [7]; 8 := [7]]}).2 8 =
  content (DriveLaws := small_laws) {[8 := [7]]} 8.
Proof.
  set (d := {[1 := [7]; 3 := [7]; 8 := [7]]}). split; [vm_compute; reflexivity|].
  pose proof (partition_isolation (H0 := small_laws) disk_part d 1 5 (zero_page 0) (small_part_ok d)
    ltac:(by split) ltac:(done) ltac:(done)) as [_ L].
  unfold wp in L. destruct (drive_zero disk_part 1 5 d) as [[] w'] eqn:E; [|by vm_compute in E..].
  simpl in L |- *. rewrite L by (by right). reflexivity.
Defined.
End RamDisk.
