(* ===== verification/Names.v ===== *)
(** * Strings, paths and file names (src/kernel/src/fs/lemonfs/path.rs and
    [Filename] of src/kernel/src/fs/lemonfs/disk.rs)

    A [String] is the list of its UTF-8 bytes.  The lossy conversion from bytes
    that the names of a directory go through is written out. *)

From S2P Require Import Prelude.
From Stdlib Require Strings.String Strings.Ascii.
Import String.StringSyntax.

Module Names.

Abbreviation Str := (list Z).

(** String literals. *)
Definition str (s : String.string) : Str :=
  (λ a, Z.of_N (Ascii.N_of_ascii a)) <$> String.list_ascii_of_string s.
Arguments str s%_string_scope.

(** ** [String::from_utf8_lossy] *)

Definition is_cont (b : Z) : bool := Z.land b 192 =? 128.

Definition between (a b x : Z) : bool := (a <=? x) && (x <=? b).

(** The second byte that may follow the first byte of a sequence of three or
    four. *)
Definition second3 (b c : Z) : bool :=
  if b =? 0xE0 then between 0xA0 0xBF c
  else if b =? 0xED then between 0x80 0x9F c
  else between 0x80 0xBF c.
Definition second4 (b c : Z) : bool :=
  if b =? 0xF0 then between 0x90 0xBF c
  else if b =? 0xF4 then between 0x80 0x8F c
  else between 0x80 0xBF c.

(** The sequence that starts with [b] and goes on with [l]: whether it is valid,
    and how many bytes of [l] belong to it. *)
Definition utf8_char (b : Z) (l : list Z) : bool * nat :=
  let at_ i := nth i l 0 in
  if b <? 128 then (true, 0%nat)
  else if between 0xC2 0xDF b then
    if is_cont (at_ 0%nat) then (true, 1%nat) else (false, 0%nat)
  else if between 0xE0 0xEF b then
    if second3 b (at_ 0%nat) then
      if is_cont (at_ 1%nat) then (true, 2%nat) else (false, 1%nat)
    else (false, 0%nat)
  else if between 0xF0 0xF4 b then
    if second4 b (at_ 0%nat) then
      if is_cont (at_ 1%nat) then
        if is_cont (at_ 2%nat) then (true, 3%nat) else (false, 2%nat)
      else (false, 1%nat)
    else (false, 0%nat)
  else (false, 0%nat).

(** U+FFFD *)
Definition replacement : list Z := [0xEF; 0xBF; 0xBD].

Fixpoint lossy_loop (fuel : nat) (l : list Z) : Str :=
  match fuel, l with
  | S fuel, b :: l =>
      let '(ok, n) := utf8_char b l in
      (if ok then b :: take n l else replacement) ++ lossy_loop fuel (drop n l)
  | _, _ => []
  end.

Definition utf8_lossy (l : list Z) : Str := lossy_loop (length l) l.

(** What a Rust [String] always is. *)
Fixpoint valid_loop (fuel : nat) (l : list Z) : bool :=
  match fuel, l with
  | S fuel, b :: l =>
      let '(ok, n) := utf8_char b l in ok && valid_loop fuel (drop n l)
  | O, _ :: _ => false
  | _, [] => true
  end.

Definition valid_utf8 (l : list Z) : bool := valid_loop (length l) l.

(** ** [Path] *)

(** [str::split] *)
Fixpoint split_on (c : Z) (s : Str) : list Str :=
  match s with
  | [] => [[]]
  | x :: s =>
      if x =? c then [] :: split_on c s
      else match split_on c s with
           | [] => [[x]]
           | w :: ws => (x :: w) :: ws
           end
  end.

Definition SLASH : Z := 47.
Definition DOT : Str := [46].

Definition str_eqb (a b : Str) : bool := bool_decide (a = b).

Definition is_root (p : Str) : bool := str_eqb p [SLASH].

Definition components (p : Str) : list Str :=
  filter (λ c, Is_true (negb (str_eqb c []) && negb (str_eqb c DOT))) (split_on SLASH p).

Definition from_vec (v : list Str) : Str :=
  foldl (λ res part, (res ++ part) ++ [SLASH]) ([] ++ [SLASH]) v.

(** [Vec::pop] *)
Definition parent (p : Str) : Str := from_vec (removelast (components p)).

Definition name (p : Str) : Str := default [SLASH] (last (components p)).

(** ** [Filename] *)

Definition FILENAME_LEN : nat := 36.

Abbreviation Filename := (list Z).

Definition from_str (s : Str) : Filename :=
  let n := Nat.min (length s) FILENAME_LEN in
  splice 0 (take n s) (replicate FILENAME_LEN 0).

Definition to_str (f : Filename) : Str :=
  utf8_lossy (omap (λ v, if v =? 0 then None else Some v) f).

Definition name_is_empty (f : Filename) : bool := forallb (λ v, v =? 0) f.

(** ** Lossy conversion of valid strings *)

Lemma nth_zero_short i (l : list Z) (P : Z → bool) :
  P 0 = false → P (nth i l 0) = true → (S i <= length l)%nat.
Proof.
  intros H0 H. destruct (decide (i < length l)%nat); [lia|]. rewrite nth_overflow in H by lia. congruence.
Qed.

(** A continuation byte is there when it passes its test. *)
Lemma utf8_char_short b l : ((utf8_char b l).2 <= length l)%nat.
Proof.
  assert (second3 b 0 = false) as H3 by (unfold second3, between; repeat case_bool; done).
  assert (second4 b 0 = false) as H4 by (unfold second4, between; repeat case_bool; done).
  pose proof (λ i, nth_zero_short i l is_cont eq_refl) as Hc.
  pose proof (λ i, nth_zero_short i l (second3 b) H3) as Hs3.
  pose proof (λ i, nth_zero_short i l (second4 b) H4) as Hs4.
  unfold utf8_char. repeat case_bool; simpl;
    repeat match goal with
    | H : is_cont _ = true |- _ => apply Hc in H
    | H : second3 b _ = true |- _ => apply Hs3 in H
    | H : second4 b _ = true |- _ => apply Hs4 in H
    end; lia.
Qed.

Lemma lossy_loop_valid fuel l : valid_loop fuel l = true → lossy_loop fuel l = l.
Proof.
  revert l. induction fuel as [|fuel IH]; intros [|b l] H; try done. cbn [valid_loop lossy_loop] in *.
  destruct (utf8_char b l) as [ok n]. apply andb_prop in H as [-> H].
  rewrite (IH _ H). simpl. by rewrite take_drop.
Qed.

Lemma utf8_lossy_valid l : valid_utf8 l = true → utf8_lossy l = l.
Proof. apply lossy_loop_valid. Qed.

Lemma ascii_valid l : Forall (λ b, b < 128) l → valid_utf8 l = true.
Proof.
  intros H. unfold valid_utf8. induction H as [|b l Hb _ IH]; [done|]. simpl.
  unfold utf8_char. rewrite (proj2 (Z.ltb_lt b 128) Hb). by rewrite drop_0.
Qed.

(** ** Paths *)

(** A component: not empty, not [.], without a slash. *)
Definition good (c : Str) : Prop := c ≠ [] ∧ c ≠ DOT ∧ SLASH ∉ c.

Lemma split_on_ne c s : split_on c s ≠ [].
Proof. destruct s as [|x s]; [done|]. simpl. case_bool; [done|]. by destruct (split_on c s). Qed.

Lemma split_on_free c s : Forall (λ w, c ∉ w) (split_on c s).
Proof.
  induction s as [|x s IH]; simpl; [by repeat constructor; apply not_elem_of_nil|].
  destruct (x =? c) eqn:E; zb; [constructor; [apply not_elem_of_nil|done]|].
  destruct (split_on c s) as [|w ws]; inversion IH; subst; repeat constructor; try done;
    rewrite ?elem_of_cons, ?elem_of_nil; intros [?|?]; congruence || done.
Qed.

Lemma split_on_app c w s : c ∉ w → split_on c (w ++ c :: s) = w :: split_on c s.
Proof.
  induction w as [|x w IH]; intros H; simpl; [by rewrite Z.eqb_refl|].
  rewrite not_elem_of_cons in H. destruct H as [Hne H]. rewrite (IH H).
  by rewrite (proj2 (Z.eqb_neq x c)) by congruence.
Qed.

Lemma from_vec_acc acc v :
  foldl (λ res part, (res ++ part) ++ [SLASH]) acc v = acc ++ concat ((λ p, p ++ [SLASH]) <$> v).
Proof.
  revert acc. induction v as [|p v IH]; intros acc; simpl; [by rewrite app_nil_r|].
  rewrite IH. by rewrite <- !app_assoc.
Qed.

Lemma from_vec_eq v : from_vec v = SLASH :: concat ((λ p, p ++ [SLASH]) <$> v).
Proof. apply from_vec_acc. Qed.

Lemma components_good s : Forall good (components s).
Proof.
  unfold components. apply Forall_forall. intros c [Hc Hin]%list_elem_of_filter.
  pose proof (proj1 (Forall_forall _ _) (split_on_free SLASH s) c Hin) as Hs.
  split_and!; [by intros ->|by intros ->|done].
Qed.

Lemma components_from_vec v : Forall good v → components (from_vec v) = v.
Proof.
  intros H. rewrite from_vec_eq. unfold components. cbn [split_on]. rewrite Z.eqb_refl.
  rewrite filter_cons_False by (by intros []).
  induction H as [|c v (H1 & H2 & H3) _ IH]; [done|].
  rewrite fmap_cons. cbn [concat]. rewrite <- app_assoc. cbn [app].
  rewrite split_on_app by done. unfold str_eqb in *.
  rewrite filter_cons_True; [by rewrite IH|]. by rewrite !bool_decide_false.
Qed.

Lemma components_parent s : components (parent s) = removelast (components s).
Proof.
  apply components_from_vec. pose proof (components_good s) as H.
  induction H as [|c v Hc Hv IH]; [constructor|]. destruct v; [constructor|]. by constructor.
Qed.

Lemma is_root_from_vec v : is_root (from_vec v) = bool_decide (v = []).
Proof.
  unfold is_root, str_eqb. rewrite from_vec_eq. apply bool_decide_ext. destruct v as [|c v]; [done|].
  rewrite fmap_cons. cbn [concat]. split; [|done]. intros H. injection H as H. destruct c; done.
Qed.

(** Paths and their parts agree: reassembling the components of any path gives
    a path with the same components, the parent has all components but the
    last, which is the name, and the parent of a path prints as the root exactly
    when the path has at most one component. *)
Theorem path_decomposition (s : Str) :
  components (from_vec (components s)) = components s ∧
  components (parent s) = removelast (components s) ∧
  (components s = [] ∨ components (parent s) ++ [name s] = components s) ∧
  is_root (parent s) = bool_decide (length (components s) <= 1)%nat.
Proof.
  rewrite components_from_vec by apply components_good. rewrite components_parent.
  split_and!; [done|done| |].
  - destruct (components s) as [|c v] eqn:E; [by left|right]. unfold name. rewrite E.
    clear E. revert c. induction v as [|d v IH]; intros c; [done|].
    change (c :: (removelast (d :: v) ++ [default [SLASH] (last (d :: v))]) = c :: d :: v).
    by rewrite IH.
  - unfold parent. rewrite is_root_from_vec. apply bool_decide_ext.
    destruct (components s) as [|c [|d v]]; simpl; split; intros; done || lia.
Qed.

(** ** File names *)

Lemma from_str_eq s :
  from_str s = take 36 s ++ replicate (36 - length s) 0.
Proof.
  unfold from_str, splice, FILENAME_LEN. rewrite take_0, drop_replicate, length_take. cbn [app].
  f_equal; [|f_equal; lia]. destruct (decide (length s <= 36)%nat).
  - by rewrite Nat.min_l, !take_ge by lia.
  - by rewrite Nat.min_r by lia.
Qed.

Lemma length_from_str s : length (from_str s) = 36%nat.
Proof. rewrite from_str_eq, length_app, length_take, length_replicate. lia. Qed.

Lemma drop_zeros l n :
  0 ∉ l → omap (λ v, if v =? 0 then None else Some v) (l ++ replicate n 0) = l.
Proof.
  intros H. rewrite omap_app. replace (omap _ (replicate n 0)) with ([] : list Z) by (by induction n).
  rewrite app_nil_r. induction l as [|x l IH]; [done|]. rewrite not_elem_of_cons in H.
  destruct H as [Hx H]. cbn. rewrite (proj2 (Z.eqb_neq x 0)) by congruence. f_equal. by apply IH.
Qed.

Lemma to_str_from_str s : 0 ∉ s → to_str (from_str s) = utf8_lossy (take 36 s).
Proof.
  intros H. unfold to_str. rewrite from_str_eq, drop_zeros; [done|].
  intros Hin. apply H. rewrite <- (take_drop 36 s). apply elem_of_app. by left.
Qed.

(** A name of at most 36 bytes without a zero byte survives the directory
    format; a longer ASCII name comes back as its first 36 bytes. *)
Theorem filename_roundtrip (s : Str) :
  0 ∉ s →
  (valid_utf8 s = true → (length s <= 36)%nat → to_str (from_str s) = s) ∧
  (Forall (λ b, b < 128) s → (36 < length s)%nat →
     to_str (from_str s) = take 36 s ∧ to_str (from_str s) ≠ s).
Proof.
  intros H. rewrite to_str_from_str by done. split.
  - intros Hv Hl. rewrite take_ge by done. by apply utf8_lossy_valid.
  - intros Ha Hl. rewrite utf8_lossy_valid by (by apply ascii_valid, Forall_take). split; [done|].
    intros E. apply (f_equal length) in E. rewrite length_take in E. lia.
Qed.

Lemma filename_roundtrip_witness :
  to_str (from_str (str "kernel.elf")) = str "kernel.elf" ∧
  to_str (from_str (replicate 40 97)) = replicate 36 97.
Proof.
  assert (∀ s : Str, bool_decide (0 ∉ s) = true → 0 ∉ s) as Hz
    by (intros s; apply bool_decide_eq_true).
  split.
  - apply (proj1 (filename_roundtrip (str "kernel.elf") (Hz (str "kernel.elf") eq_refl))); [reflexivity|].
    vm_compute. lia.
  - apply (proj2 (filename_roundtrip (replicate 40 97) (Hz (replicate 40 97) eq_refl))); [|simpl; lia].
    by repeat constructor.
Defined.

End Names.
