(* ===== verification/LemonDisk.v ===== *)
(** * The structures of LemonFS on disk (src/kernel/src/fs/lemonfs/disk.rs and
    src/kernel/src/fs/lemonfs/io.rs)

    The packed structures and their 512-byte images; reading and writing one as
    a sector, over any disk with the promises of [SectorLaws]. *)

From S2P Require Import Prelude Errors Pages Storage Names.
Import Errors Pages Storage Names.

Module LemonDisk.

Definition ENTRIES_PER_DIRENTRY : nat := 8.

Definition LEMONFS_MAGIC : list Z := [76; 69; 77; 79; 78; 70; 83; 0].

(** [SuperBlockFlags] and [DirEntryFlags]; the complement of [bitflags] keeps
    only the flags that are declared. *)
Definition READ_ONLY : Z := 1.
Definition DIRTY : Z := 2.
Definition IS_ROOT : Z := 4.
Definition NEEDS_CHECK : Z := 8.
Definition BACKUP_SYNC : Z := 16.
Definition sb_complement (f : Z) : Z :=
  Z.land (Z.lor READ_ONLY (Z.lor DIRTY (Z.lor IS_ROOT (Z.lor NEEDS_CHECK BACKUP_SYNC)))) (not64 f).
Definition IS_DIR : Z := 1.
Definition IS_SYMLINK : Z := 2.

Definition contains (flags f : Z) : bool := Z.land flags f =? f.

(** [DirEntryFlags::from_bits] *)
Definition from_bits (flags : Z) : option Z :=
  if Z.land flags (not8 (Z.lor IS_DIR IS_SYMLINK)) =? 0 then Some flags else None.

Record SuperBlock := mkSB {
  magic : list Z;
  version : Z;
  sb_reserved : list Z;
  flags : Z;
  checksum : Z;
  bitmap_start : Z;
  data_start : Z;
  data_end : Z;
  sb_padding : list Z
}.

Definition superblock_new (part_block : Z) : option SuperBlock :=
  if part_block <? 0x1000 then None
  else Some (mkSB LEMONFS_MAGIC 1 (replicate 4 0xBA) 0 0 1 (1 + div_ceil part_block 0x1000)
    (part_block - 2) (replicate 456 0xBA)).

Record LinkPointer := mkLink { start : Z; size : Z }.

Record DirEntry := mkDirEntry { de_name : Filename; de_flags : Z; de_link : LinkPointer }.

Definition direntry_zero : DirEntry := mkDirEntry (from_str []) 0 (mkLink 0 0).

Record DirBlock := mkDirBlock {
  db_parent : Z; entries : list DirEntry; next : LinkPointer; db_padding : list Z
}.

Definition dirblock_new (parent : Z) (entries : list DirEntry) (next : LinkPointer) : DirBlock :=
  mkDirBlock parent entries next (replicate 64 0xBA).

Abbreviation LinkBlock := (list LinkPointer).

(** ** Images *)

(** The first [n] bytes and the rest. *)
Definition field (n : nat) (l : list Z) : list Z * list Z := (take n l, drop n l).
Definition uint (n : nat) (l : list Z) : Z * list Z := (le_val (take n l), drop n l).

(** An array of [k] values of [n] bytes each. *)
Fixpoint array {A} (k n : nat) (dec : list Z → A) (l : list Z) : list A :=
  match k with
  | O => []
  | S k => dec (take n l) :: array k n dec (drop n l)
  end.

Definition encode_sb (sb : SuperBlock) : list Z :=
  magic sb ++ le_bytes 4 (version sb) ++ sb_reserved sb ++ le_bytes 8 (flags sb) ++
  le_bytes 8 (checksum sb) ++ le_bytes 8 (bitmap_start sb) ++ le_bytes 8 (data_start sb) ++
  le_bytes 8 (data_end sb) ++ sb_padding sb.
Definition decode_sb (l : list Z) : SuperBlock :=
  let '(magic, l) := field 8 l in
  let '(version, l) := uint 4 l in
  let '(reserved, l) := field 4 l in
  let '(flags, l) := uint 8 l in
  let '(checksum, l) := uint 8 l in
  let '(bitmap_start, l) := uint 8 l in
  let '(data_start, l) := uint 8 l in
  let '(data_end, l) := uint 8 l in
  mkSB magic version reserved flags checksum bitmap_start data_start data_end (take 456 l).

Definition encode_link (p : LinkPointer) : list Z := le_bytes 8 (start p) ++ le_bytes 8 (size p).
Definition decode_link (l : list Z) : LinkPointer :=
  let '(start, l) := uint 8 l in mkLink start (le_val (take 8 l)).

Definition encode_entry (e : DirEntry) : list Z :=
  de_name e ++ le_bytes 1 (de_flags e) ++ encode_link (de_link e).
Definition decode_entry (l : list Z) : DirEntry :=
  let '(name, l) := field 36 l in
  let '(flags, l) := uint 1 l in
  mkDirEntry name flags (decode_link l).

Definition encode_dirblock (b : DirBlock) : list Z :=
  le_bytes 8 (db_parent b) ++ concat (encode_entry <$> entries b) ++ encode_link (next b) ++
  db_padding b.
Definition decode_dirblock (l : list Z) : DirBlock :=
  let '(parent, l) := uint 8 l in
  let '(entries, l) := field 424 l in
  let '(next, l) := field 16 l in
  mkDirBlock parent (array ENTRIES_PER_DIRENTRY 53 decode_entry entries) (decode_link next) (take 64 l).

Definition encode_linkblock (b : LinkBlock) : list Z := concat (encode_link <$> b).
Definition decode_linkblock (l : list Z) : LinkBlock := array 32 16 decode_link l.

(** [trait LemonData]: what is stored in one sector. *)
Class LemonData (A : Type) := { encode : A → list Z; decode : list Z → A }.

#[export] Instance lemon_sb : LemonData SuperBlock := {| encode := encode_sb; decode := decode_sb |}.
#[export] Instance lemon_dir : LemonData DirBlock :=
  {| encode := encode_dirblock; decode := decode_dirblock |}.
#[export] Instance lemon_links : LemonData LinkBlock :=
  {| encode := encode_linkblock; decode := decode_linkblock |}.
#[export] Instance lemon_bitmap : LemonData (list Z) := {| encode b := b; decode l := l |}.

(** ** [io] *)

Section io.
Context {W : Type} {DK : SectorDisk W}.

Definition io_error {E} (_ : E) : FSError := IOError.

Definition read_data (A : Type) `{LemonData A} (block : Z) : M W FSError A :=
  page ← map_errM io_error (disk_read block 1);
  data ← lift (ok_or (Pages.read_data 512 1 page 0) IOError);
  mret (decode data).

Definition write_data {A : Type} `{LemonData A} (block : Z) (val : A) : M W FSError unit :=
  page ← map_errM io_error (disk_page 1);
  page ← lift (map_err io_error (Pages.write_data 1 page 0 (encode val)));
  map_errM io_error (disk_write block 1 page).

Definition zero_sectors (block n : Z) : M W FSError unit := map_errM io_error (disk_zero block n).
End io.

(** ** Round trips of the images *)

Definition wf_link (p : LinkPointer) : Prop := in_u64 (start p) ∧ in_u64 (size p).
Definition wf_entry (e : DirEntry) : Prop :=
  length (de_name e) = 36%nat ∧ in_u8 (de_flags e) ∧ wf_link (de_link e).

(** The values a type can hold; their images are sectors, and can be read back. *)
Class LemonLaws (A : Type) `{LemonData A} := {
  wf : A → Prop;
  length_encode x : wf x → length (encode x) = 512%nat;
  decode_encode x : wf x → decode (encode x) = x
}.

Lemma field_app n a l : length a = n → field n (a ++ l) = (a, l).
Proof. intros <-. unfold field. by rewrite take_app_length, drop_app_length. Qed.

Lemma uint_app n x l : 0 <= x < 256 ^ Z.of_nat n → uint n (le_bytes n x ++ l) = (x, l).
Proof.
  intros Hx. unfold uint.
  rewrite take_app_length', drop_app_length' by (by rewrite length_le_bytes).
  by rewrite le_val_bytes.
Qed.

Lemma array_concat {A} k n (enc : A → list Z) dec xs :
  length xs = k → Forall (λ x, length (enc x) = n ∧ dec (enc x) = x) xs →
  array k n dec (concat (enc <$> xs)) = xs ∧ length (concat (enc <$> xs)) = (k * n)%nat.
Proof.
  intros <- H. induction H as [|x xs [H1 H2] _ [IH1 IH2]]; [done|].
  rewrite fmap_cons. cbn [concat length array].
  rewrite take_app_length', drop_app_length' by done. rewrite H2, IH1, length_app, IH2, H1. done.
Qed.

Lemma link_image p : wf_link p → length (encode_link p) = 16%nat ∧ decode_link (encode_link p) = p.
Proof.
  intros [H1 H2]. unfold encode_link, decode_link. rewrite length_app, !length_le_bytes.
  split; [done|]. rewrite uint_app by done.
  rewrite take_ge by (by rewrite length_le_bytes). rewrite le_val_bytes by done. by destruct p.
Qed.

Lemma entry_image e : wf_entry e → length (encode_entry e) = 53%nat ∧ decode_entry (encode_entry e) = e.
Proof.
  intros (H1 & H2 & H3). destruct (link_image _ H3) as [L1 L2].
  unfold encode_entry, decode_entry. rewrite !length_app, L1, H1, length_le_bytes. split; [done|].
  rewrite field_app, uint_app, L2 by done. by destruct e.
Qed.

Definition wf_sb (sb : SuperBlock) : Prop :=
  bytes_ok (magic sb ++ sb_reserved sb ++ sb_padding sb) ∧ length (magic sb) = 8%nat ∧ in_u32 (version sb) ∧ length (sb_reserved sb) = 4%nat ∧
  in_u64 (flags sb) ∧ in_u64 (checksum sb) ∧ in_u64 (bitmap_start sb) ∧
  in_u64 (data_start sb) ∧ in_u64 (data_end sb) ∧ length (sb_padding sb) = 456%nat.

#[export] Program Instance laws_sb : LemonLaws SuperBlock := {| wf := wf_sb |}.
Next Obligation.
  intros sb (_ & H1 & _ & H2 & _ & _ & _ & _ & _ & H3). cbn [encode decode lemon_sb]. unfold encode_sb.
  by rewrite !length_app, !length_le_bytes, H1, H2, H3.
Qed.
Next Obligation.
  intros sb (_ & H1 & H2 & H3 & H4 & H5 & H6 & H7 & H8 & H9). cbn [encode decode lemon_sb]. unfold encode_sb, decode_sb.
  rewrite (field_app 8), (uint_app 4), (field_app 4), !(uint_app 8) by done.
  rewrite take_ge by (by rewrite H9). by destruct sb.
Qed.

Lemma encode_sb_bytes sb : wf_sb sb → bytes_ok (encode_sb sb).
Proof.
  intros [H _]. unfold bytes_ok, encode_sb in *. rewrite !Forall_app in *. destruct H as (? & ? & ?).
  split_and!; try done; apply le_bytes_ok.
Qed.

Definition wf_dirblock (b : DirBlock) : Prop :=
  in_u64 (db_parent b) ∧ length (entries b) = 8%nat ∧ Forall wf_entry (entries b) ∧
  wf_link (next b) ∧ length (db_padding b) = 64%nat.

#[export] Program Instance laws_dir : LemonLaws DirBlock := {| wf := wf_dirblock |}.
Next Obligation.
  intros b (H1 & H2 & H3 & H4 & H5). cbn [encode decode lemon_dir]. unfold encode_dirblock.
  destruct (array_concat 8 53 encode_entry decode_entry (entries b) H2) as [_ L].
  { eapply Forall_impl; [done|apply entry_image]. }
  by rewrite !length_app, length_le_bytes, L, (proj1 (link_image _ H4)), H5.
Qed.
Next Obligation.
  intros b (H1 & H2 & H3 & H4 & H5). cbn [encode decode lemon_dir]. unfold encode_dirblock, decode_dirblock.
  destruct (array_concat 8 53 encode_entry decode_entry (entries b) H2) as [A L].
  { eapply Forall_impl; [done|apply entry_image]. }
  destruct (link_image _ H4) as [L1 L2].
  rewrite (uint_app 8), (field_app 424), (field_app 16) by done.
  unfold ENTRIES_PER_DIRENTRY. rewrite A, L2, take_ge by (by rewrite H5). by destruct b.
Qed.

#[export] Program Instance laws_links : LemonLaws LinkBlock :=
  {| wf b := length b = 32%nat ∧ Forall wf_link b |}.
Next Obligation.
  intros b (H1 & H2). cbn [encode decode lemon_links]. unfold encode_linkblock.
  apply (array_concat 32 16 encode_link decode_link b H1).
  eapply Forall_impl; [done|apply link_image].
Qed.
Next Obligation.
  intros b (H1 & H2). cbn [encode decode lemon_links]. unfold encode_linkblock, decode_linkblock.
  apply (array_concat 32 16 encode_link decode_link b H1).
  eapply Forall_impl; [done|apply link_image].
Qed.

#[export] Program Instance laws_bitmap : LemonLaws (list Z) := {| wf b := length b = 512%nat |}.
Next Obligation. done. Qed.
Next Obligation. done. Qed.

(** ** Reading and writing structures on a healthy disk *)

Section io_proofs.
Context {W : Type} {DK : SectorDisk W} {SL : SectorLaws W}.
Implicit Types w : W.

Definition up w : Prop := disk_ok w ∧ disk_healthy w.
Definition on_disk w (b : Z) : Prop := 0 <= b < disk_sectors w.

(** [w'] holds what [w] holds; what [w] holds but for sector [b]; what [w] holds
    but for zeros in the sectors [b, b + n). *)
Definition disk_eq w w' : Prop :=
  disk_sectors w' = disk_sectors w ∧ ∀ j, 0 <= j → sector w' j = sector w j.
Definition disk_put (b : Z) (data : list Z) w w' : Prop :=
  disk_sectors w' = disk_sectors w ∧
  ∀ j, 0 <= j → sector w' j = if j =? b then data else sector w j.
Definition disk_zeroed (b n : Z) w w' : Prop :=
  disk_sectors w' = disk_sectors w ∧
  ∀ j, 0 <= j → sector w' j = if (b <=? j) && (j <? b + n) then replicate 512 0 else sector w j.

#[global] Instance disk_eq_refl : Reflexive disk_eq.
Proof. by intros w. Qed.
#[global] Instance disk_eq_trans : Transitive disk_eq.
Proof. intros w1 w2 w3 [A B] [A' B']. split; [congruence|]. intros j Hj. by rewrite B', B. Qed.

Lemma put_eq b data w w1 w2 : disk_put b data w w1 → disk_eq w1 w2 → disk_put b data w w2.
Proof. intros [A B] [A' B']. split; [congruence|]. intros j Hj. by rewrite B', B. Qed.

Lemma eq_put b data w w1 w2 : disk_eq w w1 → disk_put b data w1 w2 → disk_put b data w w2.
Proof. intros [A B] [A' B']. split; [congruence|]. intros j Hj. by rewrite B', B. Qed.

Lemma on_disk_eq b w w' : disk_sectors w' = disk_sectors w → on_disk w b → on_disk w' b.
Proof. unfold on_disk. by intros ->. Qed.

Lemma read_data_wp A `{LemonData A} b w (Q : A → W → Prop) (R : FSError → W → Prop) :
  up w → on_disk w b → (∀ w', up w' → disk_eq w w' → Q (decode (sector w b)) w') →
  wp (read_data A b) Q R w.
Proof.
  intros [Hok Hh] [B1 B2] HQ. apply wp_bind, wp_map_errM.
  eapply wp_mono; [apply disk_read_spec; [done|lia|lia|lia]| |by intros].
  intros pg w' (P1 & P2 & P3 & P4 & P5 & P6 & P7).
  assert (count pg = 1) as Ec by (rewrite P2; done).
  apply wp_bind. eapply wp_lift_Ok.
  { change 0 with (0 * 512) at 1. rewrite read_sector; [done..|]. by rewrite Ec. }
  apply wp_ret. rewrite P3 by lia. rewrite Z.add_0_r. apply HQ; [split; auto|done].
Qed.

Lemma write_data_wp {A} `{LemonData A} b (v : A) w (Q : unit → W → Prop) (R : FSError → W → Prop) :
  up w → on_disk w b → length (encode v) = 512%nat →
  (∀ w', up w' → disk_put b (encode v) w w' → Q tt w') →
  wp (write_data b v) Q R w.
Proof.
  intros [Hok Hh] [B1 B2] Hl HQ. apply wp_bind, wp_map_errM.
  eapply wp_mono; [apply disk_page_spec; [done|lia]| |by intros].
  intros pg w1 (-> & A1 & A2 & A3 & A4).
  destruct (write_sector (zero_page 1) 0 (encode v)) as (pg' & E & O & C & P);
    [by apply page_ok_zero|done|done|done|].
  apply wp_bind. eapply wp_lift_Ok; [change 0 with (0 * 512) at 1; by rewrite E|]. apply wp_map_errM.
  eapply wp_mono; [apply (disk_write_spec b 1 pg'); [done|done|lia|lia|lia|by rewrite C]| |].
  - intros [] w2 (D1 & D2 & D3 & D4). apply HQ; [split; auto|]. split; [congruence|].
    intros j Hj. rewrite D4, A4 by done. destruct (j =? b) eqn:Ej; zb.
    + subst. case_if as Ec; [|apply andb_false_iff in Ec; destruct Ec; zb; lia].
      rewrite Z.sub_diag, P by done. done.
    + case_if as Ec; [zb; lia|done].
  - intros e w2 Hn. exfalso. auto.
Qed.

Lemma zero_range_wp b n w (Q : unit → W → Prop) (R : FSError → W → Prop) :
  up w → 0 <= b → 0 < n → b + n <= disk_sectors w →
  (∀ w', up w' → disk_zeroed b n w w' → Q tt w') →
  wp (zero_sectors b n) Q R w.
Proof.
  intros [Hok Hh] B1 B2 B3 HQ. apply wp_map_errM.
  eapply wp_mono; [apply disk_zero_spec; [done|lia|lia|lia]| |by intros].
  intros [] w2 (D1 & D2 & D3 & D4). apply HQ; [split; auto|done].
Qed.
End io_proofs.

End LemonDisk.
