(* ===== verification/LemonLinks.v ===== *)
(** * Superblocks and links of LemonFS (src/kernel/src/fs/lemonfs/superblock.rs
    and src/kernel/src/fs/lemonfs/links.rs)

    Loops over the blocks of a chain read a disk that does not change, so one
    that makes more rounds than the disk has sectors never ends: the number of
    sectors plus one is the fuel of every such loop. *)

From S2P Require Import Prelude Errors Pages Storage Names LemonDisk Crc.
Import Errors Pages Storage Names LemonDisk.

Module LemonLinks.

(** ** Superblocks *)

Definition with_flags (sb : SuperBlock) (f : Z) : SuperBlock :=
  mkSB (magic sb) (version sb) (sb_reserved sb) f (checksum sb) (bitmap_start sb) (data_start sb)
    (data_end sb) (sb_padding sb).
Definition with_checksum (sb : SuperBlock) (c : Z) : SuperBlock :=
  mkSB (magic sb) (version sb) (sb_reserved sb) (flags sb) c (bitmap_start sb) (data_start sb)
    (data_end sb) (sb_padding sb).

Definition get_sb_checksum (sb : SuperBlock) : Z := crc64 (encode_sb sb).

Definition check_sb (sb : SuperBlock) : bool :=
  checksum sb =? get_sb_checksum (with_checksum sb 0).

Section superblock.
Context {W : Type} {DK : SectorDisk W}.

Definition get_superblock : M W FSError (SuperBlock * bool) :=
  sb ← read_data SuperBlock 0;
  if negb (check_sb sb) then
    n ← gets disk_sectors;
    backup ← read_data SuperBlock (n ⊟ 1);
    if negb (check_sb backup) then fail BadSuperblock else mret (backup, true)
  else mret (sb, false).

(** The superblock [write_sb] writes. *)
Definition stamp (sb : SuperBlock) : SuperBlock :=
  let flags := Z.lor (Z.land (flags sb) (sb_complement DIRTY)) BACKUP_SYNC in
  let superblock := with_checksum (with_flags sb flags) 0 in
  with_checksum superblock (get_sb_checksum superblock).

Definition write_sb (sb : SuperBlock) : M W FSError unit :=
  let superblock := stamp sb in
  write_data 0 superblock;;
  n ← gets disk_sectors;
  write_data (n ⊟ 1) superblock;;
  mret tt.
End superblock.

(** ** Links *)

Definition is_valid (p : LinkPointer) : bool := negb (start p =? 0).
Definition is_direct (p : LinkPointer) : bool := negb (size p =? 0).

(** The direct pointers of a link block, and its last pointer. *)
Definition block_directs (b : LinkBlock) : list LinkPointer :=
  filter (λ p, Is_true (is_valid p && is_direct p)) (take 31 b).
Definition block_last (b : LinkBlock) : LinkPointer := nth 31 b (mkLink 0 0).

Section links.
Context {W : Type} {DK : SectorDisk W}.

(** The fuel of the loops over chains. *)
Definition chain_fuel (w : W) : nat := S (Z.to_nat (disk_sectors w)).

Definition link_read (A : Type) `{LemonData A} (p : LinkPointer) : M W FSError A :=
  read_data A (start p).

Definition resolve_link (link : LinkPointer) : M W FSError (list LinkPointer) :=
  if negb (is_valid link) then mret []
  else if is_direct link then mret [link]
  else
    block ← link_read LinkBlock link;
    let res := block_directs block in
    let last := block_last block in
    mret (if is_valid last then res ++ [last] else res).

(** [while let Some(link) = stack.pop()] *)
Fixpoint resolve_loop (fuel : nat) (stack : list LinkPointer) : M W FSError (list LinkPointer) :=
  match fuel with
  | O => lift Loop
  | S fuel =>
      match last stack with
      | None => mret stack
      | Some link =>
          let stack := removelast stack in
          if negb (is_valid link) then mret stack
          else if is_direct link then mret (stack ++ [link])
          else
            more ← resolve_link link;
            resolve_loop fuel (stack ++ more)
      end
  end.

Definition resolve_links (start : LinkPointer) : M W FSError (list LinkPointer) :=
  fuel ← gets chain_fuel;
  resolve_loop fuel [start].

Fixpoint trace_loop (fuel : nat) (direct indirect : list LinkPointer) (ptr : LinkPointer) :
    M W FSError (list LinkPointer * list LinkPointer) :=
  match fuel with
  | O => lift Loop
  | S fuel =>
      if negb (is_valid ptr) then mret (direct, indirect)
      else if is_direct ptr then mret (direct ++ [ptr], indirect)
      else
        block ← link_read LinkBlock ptr;
        trace_loop fuel (direct ++ block_directs block) (indirect ++ [ptr]) (block_last block)
  end.

Definition trace (start : LinkPointer) : M W FSError (list LinkPointer * list LinkPointer) :=
  fuel ← gets chain_fuel;
  trace_loop fuel [] [] start.

(** ** The two traversals agree *)

Definition usable (p : LinkPointer) : Prop := is_valid p = true ∧ is_direct p = true.

Lemma block_directs_usable b : Forall usable (block_directs b).
Proof.
  apply Forall_forall. intros p [Hp _]%list_elem_of_filter.
  by apply Is_true_true, andb_prop in Hp.
Qed.

Lemma resolve_trace_loop fuel direct indirect ptr (w : W) :
  Forall usable direct →
  resolve_loop fuel (direct ++ (if is_valid ptr then [ptr] else [])) w =
  (t ← trace_loop fuel direct indirect ptr; mret t.1) w.
Proof.
  revert direct indirect ptr w. induction fuel as [|fuel IH]; intros direct indirect ptr w Hd; [done|].
  cbn [resolve_loop trace_loop]. destruct (is_valid ptr) eqn:Ev; cbn [negb].
  - rewrite last_snoc, removelast_last, Ev. cbn [negb].
    destruct (is_direct ptr) eqn:Ed; [done|].
    unfold resolve_link. rewrite Ev, Ed. cbn [negb].
    unfold mbind, M_bind in *. destruct (link_read LinkBlock ptr w) as [[block| | |] w1]; [|done..].
    simpl. rewrite <- IH by (apply Forall_app; split; [done|apply block_directs_usable]).
    destruct (is_valid (block_last block)); by rewrite <- app_assoc, ?app_nil_r.
  - rewrite app_nil_r. destruct direct as [|p direct _] using rev_ind; [done|].
    apply Forall_app in Hd as [_ Hp]. inversion Hp as [|? ? [Hv Hu] _]; subst.
    rewrite last_snoc, removelast_last, Hv, Hu. done.
Qed.

Lemma resolve_links_eq (p : LinkPointer) (w : W) :
  resolve_links p w = (t ← trace p; mret t.1) w.
Proof.
  unfold resolve_links, trace, mbind, M_bind, gets. cbn -[resolve_loop trace_loop].
  pose proof (resolve_trace_loop (chain_fuel w) [] [] p w ltac:(constructor)) as E.
  unfold mbind, M_bind in E. rewrite <- E. clear E. destruct (is_valid p) eqn:Ev; [done|].
  unfold chain_fuel. cbn. by rewrite Ev.
Qed.

(** [resolve_links] walks the same blocks as [trace] and returns its direct
    pointers, in the same order, on every disk and also when it fails or does
    not end. *)
Theorem resolve_links_is_trace (p : LinkPointer) (w : W) :
  resolve_links p w = (t ← trace p; mret t.1) w.
Proof. apply resolve_links_eq. Qed.
End links.

(** ** Chains of link blocks *)

Section chains.
Context {W : Type} {DK : SectorDisk W} {SL : SectorLaws W}.
Implicit Types w : W.

(** [ls] are the sectors of a chain of link blocks with contents [bs]. *)
Inductive chain w : list Z → list LinkBlock → Prop :=
| chain_last l b :
    on_disk w l → l ≠ 0 → decode (sector w l) = b → is_valid (block_last b) = false →
    chain w [l] [b]
| chain_cons l b l' ls bs :
    on_disk w l → l ≠ 0 → decode (sector w l) = b → block_last b = mkLink l' 0 →
    chain w (l' :: ls) bs → chain w (l :: l' :: ls) (b :: bs).

Lemma chain_eq w w' ls bs : disk_eq w w' → chain w ls bs → chain w' ls bs.
Proof.
  intros [E1 E2] H. induction H as [l b Ho Hne Hd Hv|l b l' ls bs Ho Hne Hd Hl _ IH];
    (constructor; [by eapply on_disk_eq|done| |done..]); rewrite E2; try done; by destruct Ho.
Qed.

Lemma chain_kept w w' ls bs :
  disk_sectors w' = disk_sectors w → (∀ l, l ∈ ls → sector w' l = sector w l) →
  chain w ls bs → chain w' ls bs.
Proof.
  intros E1 E2 H. induction H as [l b Ho Hne Hd Hv|l b l' ls bs Ho Hne Hd Hl _ IH].
  - constructor; [by eapply on_disk_eq|done|rewrite E2; [done|by constructor]|done].
  - constructor; [by eapply on_disk_eq|done|rewrite E2; [done|by constructor]|done|].
    apply IH. intros x Hx. apply E2. by constructor.
Qed.

Lemma trace_loop_wp fuel w ls bs direct indirect
    (Q : list LinkPointer * list LinkPointer → W → Prop) (R : FSError → W → Prop) :
  up w → chain w ls bs → (length ls < fuel)%nat →
  (∀ w', up w' → disk_eq w w' →
     Q (direct ++ concat (block_directs <$> bs), indirect ++ ((λ l, mkLink l 0) <$> ls)) w') →
  match ls with [] => True | l :: _ => wp (trace_loop fuel direct indirect (mkLink l 0)) Q R w end.
Proof.
  intros Hup H. revert fuel w bs direct indirect Hup H.
  induction ls as [|l ls IH]; intros fuel w bs direct indirect Hup H Hf HQ; [done|].
  destruct fuel as [|fuel]; [simpl in Hf; lia|]. cbn [trace_loop].
  assert (on_disk w l ∧ l ≠ 0) as [Ho Hne] by (by inversion H).
  unfold is_valid, is_direct. cbn [start size]. rewrite (proj2 (Z.eqb_neq l 0)) by done. cbn [negb].
  apply wp_bind, read_data_wp; [done|done|]. intros w1 U1 E1. cbn [start].
  inversion H; subst.
  - destruct fuel as [|fuel]; [simpl in Hf; lia|]. cbn [trace_loop].
    match goal with HV : is_valid _ = false |- _ => rewrite HV end.
    apply wp_ret. specialize (HQ w1 U1 E1). cbn [fmap list_fmap concat] in HQ. by rewrite app_nil_r in HQ.
  - match goal with HL : block_last _ = _ |- _ => rewrite HL end.
    match goal with HC : chain w (_ :: _) _ |- _ =>
      apply (IH fuel w1 _ _ _ U1 (chain_eq _ _ _ _ E1 HC)) end; [simpl in *; lia|].
    intros w2 U2 E2. specialize (HQ w2 U2 (transitivity E1 E2)).
    rewrite !fmap_cons in HQ. cbn [concat] in HQ. rewrite fmap_cons.
    by rewrite <- !app_assoc.
Qed.

Lemma NoDup_bounded (ls : list Z) n : 0 <= n → NoDup ls → Forall (λ l, 0 <= l < n) ls → Z.of_nat (length ls) <= n.
Proof.
  intros Hn Hd Hb. assert (length ls <= length (seqZ 0 n))%nat as Hl.
  { apply submseteq_length, NoDup_submseteq; [done|]. intros l Hl. apply elem_of_seqZ.
    rewrite Forall_forall in Hb. specialize (Hb l Hl). lia. }
  rewrite length_seqZ in Hl. lia.
Qed.

(** A chain over distinct sectors is traced completely. *)
Lemma trace_wp w l ls bs (Q : list LinkPointer * list LinkPointer → W → Prop)
    (R : FSError → W → Prop) :
  up w → chain w (l :: ls) bs → NoDup (l :: ls) →
  (∀ w', up w' → disk_eq w w' →
     Q (concat (block_directs <$> bs), (λ l, mkLink l 0) <$> (l :: ls)) w') →
  wp (trace (mkLink l 0)) Q R w.
Proof.
  intros Hup Hc Hnd HQ. apply wp_bind, wp_gets.
  apply (trace_loop_wp (chain_fuel w) w (l :: ls) bs [] []); [done|done| |done].
  pose proof (disk_bound w (proj1 Hup)) as Hb. unfold chain_fuel.
  assert (Z.of_nat (length (l :: ls)) <= disk_sectors w); [|simpl in *; lia].
  apply NoDup_bounded; [lia|done|]. clear HQ Hnd. remember (l :: ls) as m eqn:E. clear E l ls.
  induction Hc; by constructor.
Qed.
End chains.

(** ** Writing a superblock and reading it back *)

Section superblock_proofs.
Context {W : Type} {DK : SectorDisk W} {SL : SectorLaws W}.
Implicit Types w : W.

Lemma land_range_l x y n : 0 <= n → 0 <= x < 2 ^ n → 0 <= y → 0 <= Z.land x y < 2 ^ n.
Proof.
  intros Hn Hx Hy. split; [apply Z.land_nonneg; lia|].
  rewrite <- (Z.mod_small x (2 ^ n)) by done. rewrite <- Z.land_ones by done.
  rewrite <- Z.land_assoc, (Z.land_comm _ y), Z.land_assoc, Z.land_ones by done.
  by apply Z.mod_pos_bound, Z.pow_pos_nonneg.
Qed.

Lemma stamp_flags_range f :
  in_u64 f → in_u64 (Z.lor (Z.land f (sb_complement DIRTY)) BACKUP_SYNC).
Proof.
  intros Hf. change (sb_complement DIRTY) with 29. unfold BACKUP_SYNC.
  pose proof (land_range_l 29 f 5 ltac:(done) ltac:(done) ltac:(unfold in_u64 in Hf; lia)) as B.
  rewrite Z.land_comm in B. set (x := Z.land f 29) in *.
  pose proof (Z.add_lor_land x 16). assert (0 <= Z.land x 16) by (apply Z.land_nonneg; lia).
  split; [apply Z.lor_nonneg; lia|lia].
Qed.

Lemma stamp_wf sb : wf_sb sb → wf_sb (stamp sb).
Proof.
  intros (H0 & H1 & H2 & H3 & H4 & H5 & H6 & H7 & H8 & H9).
  assert (wf_sb (with_checksum (with_flags sb
    (Z.lor (Z.land (flags sb) (sb_complement DIRTY)) BACKUP_SYNC)) 0)) as Hwf.
  { split_and!; try done. by apply stamp_flags_range. }
  destruct Hwf as (W0 & W1 & W2 & W3 & W4 & _ & W6 & W7 & W8 & W9).
  split_and!; try done. apply crc64_range, encode_sb_bytes. by split_and!.
Qed.

Lemma stamp_check sb : check_sb (stamp sb) = true.
Proof. apply Z.eqb_refl. Qed.

(** The result of [get_superblock] on a healthy disk. *)
Lemma get_superblock_wp w (Q : SuperBlock * bool → W → Prop) (R : FSError → W → Prop) :
  up w → 0 < disk_sectors w →
  (∀ w', up w' → disk_eq w w' →
     let sb := decode (sector w 0) in
     let backup := decode (sector w (disk_sectors w - 1)) in
     if check_sb sb then Q (sb, false) w'
     else if check_sb backup then Q (backup, true) w' else R BadSuperblock w') →
  wp get_superblock Q R w.
Proof.
  intros Hup Hn HQ. pose proof (disk_bound w (proj1 Hup)) as Hb.
  apply wp_bind, read_data_wp; [done|unfold on_disk; lia|]. intros w1 U1 E1. specialize HQ as HQ1.
  destruct (check_sb (decode (sector w 0))) eqn:C0; cbn [negb].
  { apply wp_ret. specialize (HQ w1 U1 E1). cbn in HQ. cbn in C0. by rewrite C0 in HQ. }
  apply wp_bind, wp_gets, wp_bind. destruct (E1) as [S1 S2]. rewrite S1.
  rewrite u64_small by (unfold in_u64; lia).
  apply read_data_wp; [done|unfold on_disk; lia|]. intros w2 U2 E2. rewrite S2 by lia.
  specialize (HQ w2 U2 (transitivity E1 E2)). cbv zeta in HQ. rewrite C0 in HQ.
  destruct (check_sb (decode (sector w (disk_sectors w - 1)))); done.
Qed.

Lemma write_sb_wp sb w (Q : unit → W → Prop) (R : FSError → W → Prop) :
  up w → wf_sb sb → 0 < disk_sectors w →
  (∀ w', up w' → disk_sectors w' = disk_sectors w →
     (∀ j, 0 <= j → sector w' j = if (j =? 0) || (j =? disk_sectors w - 1)
                                  then encode_sb (stamp sb) else sector w j) → Q tt w') →
  wp (write_sb sb) Q R w.
Proof.
  intros Hup Hwf Hn HQ. pose proof (disk_bound w (proj1 Hup)) as Hb.
  pose proof (length_encode (A := SuperBlock) (stamp sb) (stamp_wf sb Hwf)) as Hl.
  apply wp_bind, write_data_wp; [done|unfold on_disk; lia|done|]. intros w1 U1 [S1 P1].
  apply wp_bind, wp_gets. rewrite S1, u64_small by (unfold in_u64; lia).
  apply wp_bind, write_data_wp; [done|unfold on_disk; lia|done|]. intros w2 U2 [S2 P2].
  apply wp_ret, HQ; [done|congruence|]. intros j Hj. rewrite P2, P1 by done.
  by destruct (j =? 0), (j =? disk_sectors w - 1).
Qed.

(** After [write_sb] on a healthy disk, [get_superblock] returns what was
    written.  When the first sector is then overwritten by anything whose
    checksum fails, it returns the same superblock from the backup; only when
    both copies fail does it report [BadSuperblock]. *)
Theorem superblock_roundtrip (sb : SuperBlock) (w : W) :
  up w → wf_sb sb → 1 < disk_sectors w →
  wp (write_sb sb) (λ _ w',
      (∀ j, 0 < j < disk_sectors w - 1 → sector w' j = sector w j) ∧
      wp get_superblock (λ r _, r = (stamp sb, false)) (λ _ _, False) w' ∧
      ∀ data w2, up w2 → disk_put 0 data w' w2 → check_sb (decode data) = false →
        wp get_superblock (λ r _, r = (stamp sb, true)) (λ _ _, False) w2 ∧
        ∀ data' w3, up w3 → disk_put (disk_sectors w - 1) data' w2 w3 →
          check_sb (decode data') = false →
          wp get_superblock (λ _ _, False) (λ e _, e = BadSuperblock) w3)
    (λ _ _, False) w.
Proof.
  intros Hup Hwf Hn. apply write_sb_wp; [done|done|lia|]. intros w' U' S' P'.
  pose proof (decode_encode (A := SuperBlock) (stamp sb) (stamp_wf sb Hwf)) as Hd.
  assert (∀ j, 0 <= j → (j =? 0) || (j =? disk_sectors w - 1) = true →
    sector w' j = encode (stamp sb)) as Hsec by (intros j Hj E; by rewrite P', E by done).
  split_and!.
  - intros j Hj. rewrite P' by lia. destruct (j =? 0) eqn:E1, (j =? disk_sectors w - 1) eqn:E2; zb; done || lia.
  - apply get_superblock_wp; [done|lia|]. intros w1 _ _ sb0 backup. subst sb0.
    by rewrite Hsec, Hd, stamp_check by done.
  - intros data w2 U2 [S2 P2] Hc. split.
    + apply get_superblock_wp; [done|lia|]. intros w3 _ _ sb0 backup. subst sb0 backup.
      rewrite (P2 0), Z.eqb_refl, Hc by done. rewrite S2, S', P2 by lia.
      rewrite (proj2 (Z.eqb_neq _ _)) by lia.
      rewrite Hsec by (lia || by rewrite Z.eqb_refl, orb_true_r). by rewrite Hd, stamp_check.
    + intros data' w3 U3 [S3 P3] Hc'. apply get_superblock_wp; [done|lia|]. intros w4 _ _ sb0 backup.
      subst sb0 backup. rewrite (P3 0) by lia. rewrite (proj2 (Z.eqb_neq 0 (disk_sectors w - 1))) by lia. rewrite (P2 0) by lia. rewrite Z.eqb_refl, Hc.
      rewrite S3, S2, S', P3, Z.eqb_refl, Hc' by lia. done.
Qed.
End superblock_proofs.
End LemonLinks.
