(* ===== verification/LemonFile.v ===== *)
(** * Files of LemonFS (src/kernel/src/fs/lemonfs/file.rs, [build_file_chain] of
    src/kernel/src/fs/lemonfs/mod.rs and [sync] of
    src/kernel/src/fs/lemonfs/bitmap.rs)

    Code that also uses the block bitmap runs on a pair of the disk and the
    bitmap.  The theorem on [build_file_chain] shows that the chain of links it
    writes resolves to the blocks it was given. *)

From S2P Require Import Prelude Errors Pages Storage Names Bitmap LemonDisk LemonLinks.
Import Errors Pages Storage Names LemonDisk LemonLinks.

Module LemonFile.

(** The number of elements of a [Vec]. *)
Definition len {A} (l : list A) : Z := Z.of_nat (length l).

(** A panic that the bitmap code reports as [None]. *)
Definition or_panic {S E A} (o : option A) : M S E A :=
  match o with Some a => mret a | None => panic end.

Record File := mkFile {
  f_name : Filename; f_size : Z; f_head : LinkPointer; f_links : list LinkPointer
}.

Definition file_new (name : Str) (start : Z) : File :=
  mkFile (from_str name) 0 (mkLink start 1) [].

(** [iter().map(|l| l.size).sum()] *)
Definition sum_sizes (links : list LinkPointer) : Z :=
  foldl (λ acc l, acc ⊞ size l) 0 links.

Section file.
Context {W : Type} {DK : SectorDisk W}.

Definition file_from_dir_entry (dentry : DirEntry) : M W FSError File :=
  if contains (de_flags dentry) IS_DIR || contains (de_flags dentry) IS_SYMLINK then fail BadFileType
  else
    links ← resolve_links (de_link dentry);
    mret (mkFile (de_name dentry) (sum_sizes links) (de_link dentry) links).

(** [BitmapAllocator::sync] *)
Definition bitmap_sync (b : Bitmap.BitmapAllocator) (bitmap_start : Z) : M W FSError unit :=
  forM (zip (seqZ 0 (len (Bitmap.blocks b))) (Bitmap.blocks b))
    (λ '(i, block), write_data (i ⊞ bitmap_start) (Bitmap.block_raw block)).

(** ** Disk and bitmap *)

Abbreviation DB := (W * Bitmap.BitmapAllocator)%type.

Definition on_w {A} (m : M W FSError A) : M DB FSError A :=
  λ s, let '(r, w) := m s.1 in (r, (w, s.2)).

Definition bitmap_alloc (n : Z) : M DB FSError (option Z) := λ s,
  match Bitmap.alloc s.2 n with
  | None => (Panic, s)
  | Some (o, b) => (Ok o, (s.1, b))
  end.

Definition bitmap_free (start n : Z) : M DB FSError unit := λ s,
  match Bitmap.free s.2 start n with
  | None => (Panic, s)
  | Some b => (Ok tt, (s.1, b))
  end.

(** [bitmap.alloc(1).ok_or(FSError::NoSpace)?] *)
Definition alloc_block : M DB FSError Z :=
  o ← bitmap_alloc 1;
  lift (ok_or o NoSpace).

(** Free blocks and zero them. *)
Definition free_zero (start n : Z) : M DB FSError unit :=
  bitmap_free start n;;
  on_w (zero_sectors start n).

Definition file_delete (f : File) : M DB FSError unit :=
  t ← on_w (trace (f_head f));
  let '(direct, indirect) := t in
  forM direct (λ link, free_zero (start link) (div_ceil (size link) 512));;
  forM indirect (λ link, free_zero (start link) 1);;
  mret tt.

(** ** [build_file_chain] *)

Definition add_extent (extents : list LinkPointer) (block : Z) : list LinkPointer :=
  match last extents with
  | Some p =>
      if start p ⊞ (size p / 512) =? block
      then removelast extents ++ [mkLink (start p) (size p ⊞ 512)]
      else extents ++ [mkLink block 512]
  | None => extents ++ [mkLink block 512]
  end.

(** The link block number [i] of [n]. *)
Definition link_array (extents : list LinkPointer) (lbas : list Z) (n i : nat) : LinkBlock :=
  let base := (i * 31)%nat in
  let end_ := Nat.min (base + 31) (length extents) in
  let arr := splice 0 (slice base (end_ - base) extents) (replicate 32 (mkLink 0 0)) in
  <[31%nat := if (i + 1 <? n)%nat then mkLink (nth (i + 1) lbas 0) 0 else mkLink 0 0]> arr.

Definition build_file_chain (blocks : list Z) : M DB FSError LinkPointer :=
  let extents := foldl add_extent [] blocks in
  match extents with
  | [p] => mret p
  | _ =>
      let needed_blocks := Z.to_nat (div_ceil (len extents) 31) in
      lbas ← foldM (λ lbas _, lba ← alloc_block; mret (lbas ++ [lba])) [] (seq 0 needed_blocks);
      forM (seq 0 needed_blocks) (λ i,
        on_w (write_data (nth i lbas 0) (link_array extents lbas needed_blocks i)));;
      match lbas with
      | [] => panic
      | lba :: _ => mret (mkLink lba 0)
      end
  end.
End file.

(** ** Coalesced extents *)

(** The blocks an extent covers. *)
Definition extent_blocks (p : LinkPointer) : list Z := seqZ (start p) (size p / 512).

Definition extent_ok (p : LinkPointer) : Prop :=
  1 <= start p ∧ 0 < size p ∧ (512 | size p) ∧ start p + size p / 512 <= 2 ^ 53.

Lemma extent_one b : 1 <= b < 2 ^ 53 → extent_ok (mkLink b 512) ∧ extent_blocks (mkLink b 512) = [b].
Proof.
  intros Hb. split; [|done]. split_and!; simpl; [lia|lia|by exists 1|].
  change (512 / 512) with 1. lia.
Qed.

Lemma extent_grow p b :
  extent_ok p → b < 2 ^ 53 → start p + size p / 512 = b →
  size p ⊞ 512 = size p + 512 ∧
  extent_ok (mkLink (start p) (size p + 512)) ∧
  extent_blocks (mkLink (start p) (size p + 512)) = extent_blocks p ++ [b].
Proof.
  intros (H1 & H2 & [k Hk] & H4) Hb E. unfold extent_ok, extent_blocks. cbn [start size].
  rewrite Hk in *. replace (k * 512 + 512) with ((k + 1) * 512) by ring.
  rewrite !Z.div_mul in * by done. split; [rewrite u64_small; unfold in_u64; lia|].
  split; [split_and!; [lia|lia|by exists (k + 1)|lia]|].
  rewrite seqZ_app by lia. by rewrite E.
Qed.

Lemma add_extent_spec extents b :
  Forall extent_ok extents → 1 <= b < 2 ^ 53 →
  Forall extent_ok (add_extent extents b) ∧
  concat (extent_blocks <$> add_extent extents b) = concat (extent_blocks <$> extents) ++ [b].
Proof.
  intros H Hb. destruct (extent_one b Hb) as [O1 O2]. unfold add_extent.
  assert (Forall extent_ok (extents ++ [mkLink b 512]) ∧
    concat (extent_blocks <$> extents ++ [mkLink b 512]) =
    concat (extent_blocks <$> extents) ++ [b]) as Hpush.
  { split; [by apply Forall_app_2; [|constructor]|].
    rewrite fmap_app, concat_app. cbn [fmap list_fmap concat]. by rewrite O2, app_nil_r. }
  destruct extents as [|p extents _] using rev_ind; [done|]. rewrite last_snoc, removelast_last.
  apply Forall_app in H as [H Hp]. inversion Hp as [|? ? Hp' _]; subst.
  destruct (Hp') as (P1 & P2 & P3 & P4). assert (0 <= size p / 512) by (apply Z.div_pos; lia).
  rewrite (u64_small (start p + _)) by (unfold in_u64; lia).
  destruct (start p + size p / 512 =? b) eqn:E; zb; [|done].
  destruct (extent_grow p b) as (G1 & G2 & G3); [done|lia|done|]. rewrite G1. split.
  - by apply Forall_app_2; [|constructor].
  - rewrite !fmap_app, !concat_app. cbn [fmap list_fmap concat]. rewrite G3.
    by rewrite !app_nil_r, app_assoc.
Qed.

Lemma extents_spec blocks :
  Forall (λ b, 1 <= b < 2 ^ 53) blocks →
  Forall extent_ok (foldl add_extent [] blocks) ∧
  concat (extent_blocks <$> foldl add_extent [] blocks) = blocks.
Proof.
  intros H. assert (∀ acc, Forall extent_ok acc →
    Forall extent_ok (foldl add_extent acc blocks) ∧
    concat (extent_blocks <$> foldl add_extent acc blocks) = concat (extent_blocks <$> acc) ++ blocks)
    as Hgen; [|by apply Hgen].
  induction H as [|b blocks Hb _ IH]; intros acc Hacc; [by rewrite app_nil_r|]. cbn [foldl].
  destruct (add_extent_spec acc b Hacc Hb) as [A1 A2]. destruct (IH _ A1) as [B1 B2].
  split; [done|]. rewrite B2, A2. by rewrite <- app_assoc.
Qed.

Lemma sum_sizes_spec links :
  Forall extent_ok links → sum_sizes links = u64 (512 * len (concat (extent_blocks <$> links))).
Proof.
  intros H. unfold sum_sizes.
  assert (∀ acc, foldl (λ acc l, acc ⊞ size l) (u64 acc) links =
    u64 (acc + 512 * len (concat (extent_blocks <$> links)))) as Hgen.
  2:{ change 0 with (u64 0) at 1. by rewrite Hgen. }
  induction H as [|p links (H1 & H2 & [k Hk] & H4) _ IH]; intros acc.
  { change (len _) with 0. by rewrite Z.mul_0_r, Z.add_0_r. }
  cbn [foldl]. replace (u64 acc ⊞ size p) with (u64 (acc + size p))
    by (unfold u64; by rewrite Z.add_mod_idemp_l).
  rewrite IH. f_equal. rewrite fmap_cons. cbn [concat]. unfold len, extent_blocks at 2.
  rewrite length_app, length_seqZ, Hk, Z.div_mul by done. lia.
Qed.

(** ** Link blocks *)

Lemma extent_wf p : extent_ok p → wf_link p ∧ is_valid p && is_direct p = true.
Proof.
  intros (H1 & H2 & [k Hk] & H4). rewrite Hk, Z.div_mul in H4 by done.
  unfold wf_link, in_u64, is_valid, is_direct. rewrite Hk in *.
  split; [lia|]. apply andb_true_intro. split; apply negb_true_iff, Z.eqb_neq; lia.
Qed.

Lemma link_array_eq extents lbas n i :
  link_array extents lbas n i =
  slice (i * 31) 31 extents ++ replicate (31 - length (slice (i * 31) 31 extents)) (mkLink 0 0) ++
  [if (i + 1 <? n)%nat then mkLink (nth (i + 1) lbas 0) 0 else mkLink 0 0].
Proof.
  unfold link_array. set (x := if (i + 1 <? n)%nat then _ else _). cbv zeta.
  replace (slice (i * 31) (Nat.min (i * 31 + 31) (length extents) - i * 31) extents)
    with (slice (i * 31) 31 extents).
  2:{ unfold slice. destruct (decide (i * 31 + 31 <= length extents)%nat).
      - f_equal. lia.
      - rewrite !take_ge; [done|rewrite length_drop; lia..]. }
  set (sl := slice (i * 31) 31 extents).
  assert (length sl <= 31)%nat as Hl by (unfold sl, slice; rewrite length_take; lia).
  unfold splice. rewrite take_0, drop_replicate. cbn [app].
  replace (32 - (0 + length sl))%nat with ((31 - length sl) + 1)%nat by lia.
  rewrite replicate_add, app_assoc. rewrite insert_app_r_alt.
  2:{ rewrite length_app, length_replicate. lia. }
  rewrite length_app, length_replicate.
  replace (31 - (length sl + (31 - length sl)))%nat with 0%nat by lia. by rewrite <- app_assoc.
Qed.

(** Block [i] of the chain holds 31 extents and the pointer to the next. *)
Lemma link_array_spec extents lbas n i :
  Forall extent_ok extents → Forall in_u64 lbas →
  let b := link_array extents lbas n i in
  wf (A := LinkBlock) b ∧ block_directs b = slice (i * 31) 31 extents ∧
  block_last b = if (i + 1 <? n)%nat then mkLink (nth (i + 1) lbas 0) 0 else mkLink 0 0.
Proof.
  intros Hext Hl b. subst b. rewrite link_array_eq. set (x := if (i + 1 <? n)%nat then _ else _).
  set (sl := slice (i * 31) 31 extents).
  assert (Forall extent_ok sl) as Hsl by (by apply Forall_take, Forall_drop).
  assert (length sl <= 31)%nat as Hlen by (unfold sl, slice; rewrite length_take; lia).
  split_and!.
  - simpl. split; [rewrite !length_app, length_replicate; simpl; lia|].
    apply Forall_app_2; [eapply Forall_impl; [exact Hsl|apply extent_wf]|].
    apply Forall_app_2; [by apply Forall_replicate|]. constructor; [|constructor].
    subst x. destruct (i + 1 <? n)%nat; [|done]. split; [|done]. cbn [start].
    destruct (lbas !! (i + 1)%nat) eqn:E.
    + rewrite (nth_lookup_Some _ _ _ _ E). by eapply Forall_lookup_1.
    + rewrite nth_lookup, E. done.
  - unfold block_directs. rewrite app_assoc, take_app_length'
      by (rewrite length_app, length_replicate; lia).
    rewrite filter_app. replace (filter _ (replicate _ _)) with ([] : list LinkPointer).
    2:{ by induction (31 - length sl)%nat. }
    rewrite app_nil_r. clear Hlen. induction Hsl as [|p sl Hp _ IH]; [done|].
    rewrite filter_cons_True; [by rewrite IH|]. by rewrite (proj2 (extent_wf p Hp)).
  - unfold block_last. rewrite app_assoc, app_nth2 by (rewrite length_app, length_replicate; lia).
    rewrite length_app, length_replicate.
    replace (31 - (length sl + (31 - length sl)))%nat with 0%nat by lia. done.
Qed.

Lemma slices_concat {A} k n (l : list A) :
  (length l <= n * k)%nat → concat ((λ i, slice (i * k) k l) <$> seq 0 n) = l.
Proof.
  revert l. induction n as [|n IH]; intros l Hl; [by destruct l; simpl in *; [|lia]|].
  cbn [seq]. rewrite fmap_cons. cbn [concat]. rewrite <- fmap_S_seq, <- list_fmap_compose.
  transitivity (take k l ++ drop k l); [|apply take_drop]. f_equal.
  rewrite <- (IH (drop k l)) by (rewrite length_drop; lia).
  f_equal. apply list_fmap_ext. intros _ i _. unfold compose, slice. rewrite drop_drop.
  by do 2 f_equal.
Qed.

(** ** The chain on disk *)

Section file_proofs.
Context {W : Type} {DK : SectorDisk W} {SL : SectorLaws W}.
Abbreviation DB := (W * Bitmap.BitmapAllocator)%type.
Implicit Types s : DB.

(** A data block that the bitmap records as free. *)
Definition free_block s (lba : Z) : Prop :=
  Bitmap.data_start s.2 <= lba ∧ Bitmap.bit_used s.2 (lba - Bitmap.data_start s.2) = false.

(** A healthy disk and a bitmap whose free blocks are sectors of the disk. *)
Definition db_ok s : Prop :=
  up s.1 ∧ Bitmap.inv s.2 ∧ 1 <= Bitmap.data_start s.2 ∧
  Bitmap.data_start s.2 + Bitmap.nbits s.2 < 18446744073709551616 ∧
  ∀ lba, free_block s lba → lba < disk_sectors s.1.

(** Same disk, a bitmap of the same size. *)
Definition same_range s s' : Prop :=
  s'.1 = s.1 ∧ Bitmap.data_start s'.2 = Bitmap.data_start s.2 ∧ Bitmap.nbits s'.2 = Bitmap.nbits s.2.

(** [s'] differs from [s] in that the blocks [ls] are no longer free, or are free
    now. *)
Definition took (ls : list Z) s s' : Prop :=
  same_range s s' ∧ db_ok s' ∧ ∀ x, free_block s' x ↔ free_block s x ∧ x ∉ ls.
Definition gave (ls : list Z) s s' : Prop :=
  same_range s s' ∧ db_ok s' ∧ ∀ x, free_block s' x ↔ free_block s x ∨ x ∈ ls.

(** A data block that the bitmap covers. *)
Definition covered s (lba : Z) : Prop :=
  Bitmap.data_start s.2 <= lba < Bitmap.data_start s.2 + Bitmap.nbits s.2.

Lemma alloc_block_wp s (Q : Z → DB → Prop) (R : FSError → DB → Prop) :
  db_ok s → (∀ lba s', free_block s lba → took [lba] s s' → Q lba s') → R NoSpace s →
  wp alloc_block Q R s.
Proof.
  intros (U & I & D1 & D2 & D3) HQ HR. unfold alloc_block, bitmap_alloc, wp, mbind, M_bind.
  destruct s as [w b]. simpl in *.
  destruct (Bitmap.alloc_cases b 1 I) as [(i & b' & E & (F1 & F2 & F3) & _ & I' & N' & DS & U')|[E _]];
    [done|done| |by rewrite E].
  rewrite E. simpl.
  assert (∀ x, free_block (w, b') x ↔ free_block (w, b) x ∧ x ∉ [Bitmap.data_start b + i]) as Hfree.
  { intros x. unfold free_block. simpl. rewrite DS, list_elem_of_singleton.
    destruct (decide (Bitmap.data_start b <= x)) as [Hx|]; [|tauto].
    rewrite U' by lia. unfold Bitmap.in_run.
    destruct (i <=? _) eqn:E1, (_ <? i + 1) eqn:E2; zb; simpl;
      (split; [intros [? ?]|intros [[? ?] ?]]); split_and?; first [done|lia|exfalso; lia]. }
  apply HQ.
  - split; simpl; [lia|]. replace (_ - _) with i by lia. apply F3. lia.
  - split; [done|]. split; [|exact Hfree]. unfold db_ok. simpl. rewrite DS, N'.
    split_and!; [done..|]. intros lba Hl%Hfree. apply D3, Hl.
Qed.

Lemma took_trans ls ls' s s1 s2 : took ls s s1 → took ls' s1 s2 → took (ls ++ ls') s s2.
Proof.
  intros ((A1 & A1' & A1'') & A2 & A3) ((B1 & B1' & B1'') & B2 & B3).
  split_and!; [split_and!; congruence|done|]. intros x. rewrite B3, A3, elem_of_app. tauto.
Qed.

Lemma bitmap_free_wp lba s (Q : unit → DB → Prop) (R : FSError → DB → Prop) :
  db_ok s → covered s lba → lba < disk_sectors s.1 →
  (∀ s', gave [lba] s s' → Q tt s') → wp (bitmap_free lba 1) Q R s.
Proof.
  intros (U & I & D1 & D2 & D3) [C1 C2] Hd HQ. destruct s as [w b]. simpl in *.
  destruct (Bitmap.free_cases b lba 1 I) as (b' & E & I' & N' & DS & U'); [lia..|].
  unfold wp, bitmap_free. simpl. rewrite E.
  assert (∀ x, free_block (w, b') x ↔ free_block (w, b) x ∨ x ∈ [lba]) as Hfree.
  { intros x. unfold free_block. simpl. rewrite DS, list_elem_of_singleton.
    destruct (decide (Bitmap.data_start b <= x)) as [Hx|]; [|split; [tauto|]; intros [?|?]; [tauto|lia]].
    rewrite U' by lia. unfold Bitmap.in_run.
    destruct (_ <=? x - _) eqn:E1, (x - _ <? _) eqn:E2; zb; simpl;
      (split; [intros [? ?]|intros [[? ?]|?]]); split_and?; first [done|lia|left; done|right; lia]. }
  apply HQ. split; [done|]. split; [|exact Hfree]. unfold db_ok. simpl. rewrite DS, N'.
  split_and!; [done..|]. intros x [Hx|Hx]%Hfree; [by apply D3|].
  apply list_elem_of_singleton in Hx. by subst.
Qed.

(** Several blocks, one after the other. *)
Lemma alloc_blocks_wp n s (Q : list Z → DB → Prop) (R : FSError → DB → Prop) :
  db_ok s →
  (∀ ls s', length ls = n → NoDup ls → Forall (free_block s) ls → took ls s s' → Q ls s') →
  (∀ s', R NoSpace s') →
  wp (foldM (λ lbas _, lba ← alloc_block; mret (lbas ++ [lba])) [] (seq 0 n)) Q R s.
Proof.
  intros Hok HQ HR.
  eapply wp_mono; [apply (wp_foldM (λ k ls s', length ls = k ∧ NoDup ls ∧ Forall (free_block s) ls ∧
    took ls s s') _ (λ e _, e = NoSpace))| |by intros e s' ->].
  - split_and!; [done|constructor|constructor|]. split_and!; [done|done|]. intros x.
    rewrite elem_of_nil. tauto.
  - intros k _ ls s' _ (L & N & F & T). apply wp_bind. pose proof T as (T1 & T2 & T3).
    apply alloc_block_wp; [done| |done]. intros lba s'' Hf%T3 T'. apply wp_ret. split_and!.
    + rewrite length_app. simpl. lia.
    + apply NoDup_app. split_and!; [done|set_solver|by apply NoDup_singleton].
    + apply Forall_app_2; [done|]. constructor; [tauto|constructor].
    + by eapply took_trans.
  - intros ls s' (L & N & F & T). rewrite length_seq in L. by apply HQ.
Qed.
Lemma on_w_wp {A} (m : M W FSError A) (Q : A → DB → Prop) (R : FSError → DB → Prop) s :
  wp m (λ a w, Q a (w, s.2)) (λ e w, R e (w, s.2)) s.1 → wp (on_w m) Q R s.
Proof. unfold wp, on_w. by destruct (m s.1) as [[] ?]. Qed.

(** Writing values to distinct blocks. *)
Lemma write_arrays_wp {A} `{LemonLaws A} (ls : list Z) (arr : nat → A) s (Q : unit → DB → Prop)
    (R : FSError → DB → Prop) :
  up s.1 → NoDup ls → Forall (on_disk s.1) ls → (∀ i, wf (arr i)) →
  (∀ w', up w' → disk_sectors w' = disk_sectors s.1 →
     (∀ i l, ls !! i = Some l → sector w' l = encode (arr i)) →
     (∀ j, 0 <= j → j ∉ ls → sector w' j = sector s.1 j) → Q tt (w', s.2)) →
  wp (forM (seq 0 (length ls)) (λ i, on_w (write_data (nth i ls 0) (arr i)))) Q R s.
Proof.
  intros Hup Hnd Hon Hwf HQ. destruct s as [w b]. simpl in *.
  eapply wp_mono; [apply (wp_forM (λ k s', s'.2 = b ∧ up s'.1 ∧ disk_sectors s'.1 = disk_sectors w ∧
    (∀ i l, (i < k)%nat → ls !! i = Some l → sector s'.1 l = encode (arr i)) ∧
    (∀ j, 0 <= j → j ∉ take k ls → sector s'.1 j = sector w j)))| |done].
  - simpl. split_and!; [done..|lia|done].
  - intros k x [w1 b1] [-> Hk]%lookup_seq (Eb & U1 & S1 & P1 & P2). simpl in *. subst b1.
    destruct (lookup_lt_is_Some_2 ls k Hk) as [l Hl]. rewrite (nth_lookup_Some _ _ _ _ Hl).
    assert (on_disk w l) as Ho by (by eapply Forall_lookup_1).
    apply on_w_wp, write_data_wp; [done|by eapply on_disk_eq|apply length_encode, Hwf|].
    intros w2 U2 [S2 P3]. simpl in *. split_and!; [done|done|congruence| |].
    + intros i l' Hi Hl'. pose proof (proj1 (Forall_lookup _ _) Hon _ _ Hl') as [? _].
      rewrite P3 by done. destruct (l' =? l) eqn:E; zb.
      * subst. by rewrite (NoDup_lookup ls i k l).
      * apply P1; [|done]. destruct (decide (i = k)); [congruence|lia].
    + intros j Hj Hnin. rewrite (take_S_r _ _ l), not_elem_of_app, list_elem_of_singleton in Hnin by done.
      rewrite P3 by done. destruct (j =? l) eqn:E; zb; [tauto|]. apply P2; tauto.
  - intros [] [w1 b1] (Eb & U1 & S1 & P1 & P2). simpl in *. subst b1. rewrite length_seq in *. apply HQ; [done..| |].
    + intros i l Hl. apply P1; [by eapply lookup_lt_Some|done].
    + intros j Hj Hnin. apply P2; [done|]. by rewrite take_ge.
Qed.

(** The blocks of [link_array] make a chain. *)
Lemma link_arrays_chain w extents lbas k :
  Forall extent_ok extents → Forall (on_disk w) lbas → Forall (λ l, 1 <= l) lbas →
  disk_sectors w <= 2 ^ 53 →
  (∀ i l, lbas !! i = Some l → sector w l = encode (link_array extents lbas (length lbas) i)) →
  (k < length lbas)%nat →
  chain w (drop k lbas) (link_array extents lbas (length lbas) <$> seq k (length lbas - k)).
Proof.
  intros Hext Hon Hpos Hb Hsec Hk. remember (length lbas - k)%nat as m eqn:Em.
  revert k Hk Em. induction m as [|m IH]; intros k Hk Em; [lia|].
  assert (Forall in_u64 lbas) as H64.
  { eapply Forall_impl; [exact Hon|]. unfold on_disk, in_u64. intros. lia. }
  destruct (lookup_lt_is_Some_2 lbas k Hk) as [l Hl]. rewrite (drop_S _ _ _ Hl). cbn [seq].
  rewrite fmap_cons. destruct (link_array_spec extents lbas (length lbas) k Hext H64) as (S1 & _ & S3).
  assert (on_disk w l) as Ho by (by eapply Forall_lookup_1).
  assert (l ≠ 0) by (pose proof (proj1 (Forall_lookup _ _) Hpos _ _ Hl); simpl in *; lia).
  assert (decode (sector w l) = link_array extents lbas (length lbas) k) as Hd.
  { rewrite (Hsec _ _ Hl). by apply decode_encode. }
  destruct m as [|m].
  - rewrite drop_ge by lia. constructor; [done..|]. rewrite S3.
    by rewrite (proj2 (Nat.ltb_ge (k + 1) (length lbas))) by lia.
  - destruct (lookup_lt_is_Some_2 lbas (S k)) as [l' Hl']; [lia|].
    specialize (IH (S k) ltac:(lia) ltac:(lia)). rewrite (drop_S _ _ _ Hl') in *.
    constructor; [done..| |done]. rewrite S3, (proj2 (Nat.ltb_lt (k + 1) (length lbas))) by lia.
    by rewrite Nat.add_1_r, (nth_lookup_Some _ _ _ _ Hl').
Qed.
Lemma concat_blocks extents lbas n m :
  Forall extent_ok extents → Forall in_u64 lbas → (length extents <= n * 31)%nat →
  concat (block_directs <$> (link_array extents lbas m <$> seq 0 n)) = extents.
Proof.
  intros H1 H2 H3. rewrite <- list_fmap_compose. etransitivity; [|apply (slices_concat 31 n extents H3)].
  f_equal. apply list_fmap_ext. intros _ i _. by apply link_array_spec.
Qed.

(** Tracing what was written; a single extent needs no link block. *)
Lemma trace_arrays_wp w extents l lbas (Q : list LinkPointer * list LinkPointer → W → Prop)
    (R : FSError → W → Prop) :
  up w → Forall extent_ok extents → Forall (on_disk w) (l :: lbas) →
  Forall (λ l, 1 <= l) (l :: lbas) → NoDup (l :: lbas) →
  (length extents <= length (l :: lbas) * 31)%nat →
  (∀ i x, (l :: lbas) !! i = Some x →
     sector w x = encode (link_array extents (l :: lbas) (length (l :: lbas)) i)) →
  (∀ w', up w' → disk_eq w w' → Q (extents, (λ l, mkLink l 0) <$> (l :: lbas)) w') →
  wp (trace (mkLink l 0)) Q R w.
Proof.
  intros U Hext Hon Hge Hnd Hlen Hsec HQ. pose proof (disk_bound _ (proj1 U)) as Hb.
  pose proof (link_arrays_chain w extents (l :: lbas) 0) as Hc. rewrite Nat.sub_0_r in Hc.
  eapply trace_wp; [done|apply Hc; [done..|lia|done|simpl; lia]|done|]. intros w' U' E'.
  rewrite concat_blocks; [by apply HQ|done| |done].
  eapply Forall_impl; [exact Hon|]. unfold on_disk, in_u64. intros. lia.
Qed.

Lemma trace_direct_wp w p (Q : list LinkPointer * list LinkPointer → W → Prop)
    (R : FSError → W → Prop) :
  extent_ok p → Q ([p], []) w → wp (trace p) Q R w.
Proof.
  intros Hp HQ. destruct (extent_wf p Hp) as [_ [Hv Hd]%andb_prop].
  unfold trace. apply wp_bind, wp_gets. unfold chain_fuel. cbn [trace_loop]. rewrite Hv, Hd.
  by apply wp_ret.
Qed.

(** What [trace] finds after [build_file_chain]: the blocks, their size, and
    the link blocks that were taken. *)
Definition chain_built (blocks : list Z) s s' (t : list LinkPointer * list LinkPointer) : Prop :=
  concat (extent_blocks <$> t.1) = blocks ∧ Forall extent_ok t.1 ∧
  sum_sizes t.1 = u64 (512 * len blocks) ∧
  ∀ x, free_block s' x ↔ free_block s x ∧ x ∉ (start <$> t.2).

Lemma build_file_chain_wp blocks s (Q : LinkPointer → DB → Prop) (R : FSError → DB → Prop) :
  db_ok s → blocks ≠ [] → Forall (λ b, 1 <= b < 2 ^ 53) blocks →
  (∀ head s', db_ok s' → (∀ j, 0 <= j → ¬ free_block s j → sector s'.1 j = sector s.1 j) →
     disk_sectors s'.1 = disk_sectors s.1 →
     (∀ w, up w → disk_eq s'.1 w →
        wp (trace head) (λ t w', up w' ∧ disk_eq w w' ∧ chain_built blocks s s' t) (λ _ _, False) w) →
     Q head s') →
  (∀ s', R NoSpace s') → wp (build_file_chain blocks) Q R s.
Proof.
  intros Hok Hne Hb HQ HR. destruct (extents_spec blocks Hb) as [Hext Hcat].
  unfold build_file_chain. set (extents := foldl add_extent [] blocks) in *.
  pose proof (sum_sizes_spec extents Hext) as Hsum. rewrite Hcat in Hsum.
  destruct (decide (length extents = 1%nat)) as [E1|E1].
  { destruct extents as [|p [|]]; try done. apply wp_ret, HQ; [done..|]. intros w U E.
    apply trace_direct_wp; [by inversion Hext|]. split_and!; [done|done|]. split_and!; [done..|].
    intros x. cbn. rewrite elem_of_nil. tauto. }
  replace (match extents with [p] => _ | _ => _ end) with
    (let needed_blocks := Z.to_nat (div_ceil (len extents) 31) in
      lbas ← foldM (λ lbas _, lba ← alloc_block; mret (lbas ++ [lba])) [] (seq 0 needed_blocks);
      forM (seq 0 needed_blocks) (λ i,
        on_w (write_data (nth i lbas 0) (link_array extents lbas needed_blocks i)));;
      match lbas with [] => panic | lba :: _ => mret (mkLink lba 0) end : M DB FSError LinkPointer)
    by (by destruct extents as [|? [|]]).
  assert (0 < length extents)%nat as Hpos.
  { destruct extents; [|simpl; lia]. by subst blocks. }
  pose proof (div_ceil_bounds (len extents) 31 ltac:(done)) as Bd.
  assert (0 < div_ceil (len extents) 31) by (apply div_ceil_pos; unfold len; lia).
  set (n := Z.to_nat (div_ceil (len extents) 31)) in *. cbv zeta. unfold len in *.
  pose proof Hok as (U & I & D1 & D2 & D3). pose proof (disk_bound _ (proj1 U)) as Hdb.
  apply wp_bind, alloc_blocks_wp; [done| |done]. intros lbas s1 Hlen Hnd Hfree ((T1 & _) & T2 & T3).
  assert (Forall (on_disk s.1) lbas ∧ Forall (λ l, 1 <= l) lbas) as [Hon Hge].
  { split; (eapply Forall_impl; [exact Hfree|]); intros x Hx; pose proof (D3 x Hx); destruct Hx;
      unfold on_disk; lia. }
  assert (Forall in_u64 lbas) as H64.
  { eapply Forall_impl; [exact Hon|]. unfold on_disk, in_u64. intros. lia. }
  apply wp_bind. rewrite <- Hlen. apply write_arrays_wp; [rewrite T1; done|done|by rewrite T1| |].
  { intros i. by apply link_array_spec. }
  intros w2 U2 S2 P1 P2. rewrite T1 in *. destruct lbas as [|l lbas]; [simpl in Hlen; lia|].
  apply wp_ret, HQ.
  - destruct T2 as (_ & V2 & V3 & V4 & V5). split_and!; try done. simpl. rewrite S2, <- T1. done.
  - intros j Hj Hnf. apply P2; [done|]. intros Hin. rewrite Forall_forall in Hfree. by apply Hnf, Hfree.
  - done.
  - simpl. intros w U3 E3.
    apply (trace_arrays_wp w extents l lbas); [done|done| |done|done|rewrite Hlen; lia| |].
    { eapply Forall_impl; [exact Hon|]. intros x. apply on_disk_eq. rewrite (proj1 E3). done. }
    { intros i x Hx. rewrite (proj2 E3); [by apply P1|].
      pose proof (proj1 (Forall_lookup _ _) Hon _ _ Hx). unfold on_disk in *. lia. }
    intros w4 U4 E4. split_and!; [done|done|]. split_and!; [done..|]. intros x. cbn [snd].
    rewrite <- list_fmap_compose. change (start ∘ _) with (@id Z). rewrite list_fmap_id. apply T3.
Qed.

(** C20. On a healthy disk [build_file_chain] either has no space or returns a
    head that [trace] resolves to exactly the blocks it was given, in order, as
    extents whose sizes add up; the link blocks it used were free before and
    are the only ones it took, and no block in use is overwritten. *)
Theorem build_file_chain_roundtrip (blocks : list Z) s :
  db_ok s → blocks ≠ [] → Forall (λ b, 1 <= b < 2 ^ 53) blocks →
  wp (build_file_chain blocks) (λ head s',
      db_ok s' ∧
      (∀ j, 0 <= j → ¬ free_block s j → sector s'.1 j = sector s.1 j) ∧
      wp (trace head) (λ t _, chain_built blocks s s' t) (λ _ _, False) s'.1)
    (λ e _, e = NoSpace) s.
Proof.
  intros Hok Hne Hb. apply build_file_chain_wp; [done..| |done]. intros head s' H1 H2 _ H3.
  split_and!; [done..|]. eapply wp_mono; [apply H3; [apply H1|done]| |done].
  by intros t w' (_ & _ & ?).
Qed.
End file_proofs.

End LemonFile.
