(* ===== verification/LemonDir.v ===== *)
(** * Directories of LemonFS (src/kernel/src/fs/lemonfs/directory.rs)

    A directory is a chain of blocks of eight entries.  [dir_sync] writes one
    back, reusing, freeing and allocating blocks; loading it goes through
    [add_children_from_link]. *)

From S2P Require Import Prelude Errors Pages Storage Names Bitmap LemonDisk LemonLinks LemonFile.
Import Errors Pages Storage Names LemonDisk LemonLinks LemonFile.

Module LemonDir.

Inductive FileType := TFile | TDirectory | TSymlink.

Definition from_dirflags (flags : Z) : FileType :=
  if contains flags IS_DIR then TDirectory
  else if contains flags IS_SYMLINK then TSymlink
  else TFile.

Inductive DirectoryEntry :=
| EFile (f : File)
| EDirectory (name : Filename) (link : LinkPointer)
| ESymLink (name : Filename) (dest : LinkPointer).

Definition entry_new (name : Filename) (start : Z) (filetype : FileType) : DirectoryEntry :=
  match filetype with
  | TDirectory => EDirectory name (mkLink start 512)
  | TFile => EFile (file_new (to_str name) start)
  | TSymlink => ESymLink name (mkLink 0 0)
  end.

Definition entry_name (e : DirectoryEntry) : Str :=
  match e with
  | EDirectory name _ | ESymLink name _ => to_str name
  | EFile f => to_str (f_name f)
  end.

Definition to_dentry (e : DirectoryEntry) : DirEntry :=
  match e with
  | EFile f => mkDirEntry (f_name f) 0 (f_head f)
  | EDirectory name link => mkDirEntry name IS_DIR link
  | ESymLink name dest => mkDirEntry name IS_SYMLINK dest
  end.

Record Directory := mkDirectory {
  d_name : Filename; d_parent : Z; d_children : list DirectoryEntry; d_head : LinkPointer
}.

(** [iter().position(|e| e.name() == name)] and [iter().find(..)] *)
Fixpoint position (name : Str) (l : list DirectoryEntry) : option nat :=
  match l with
  | [] => None
  | e :: l => if str_eqb (entry_name e) name then Some 0%nat else S <$> position name l
  end.

Definition find_child_idx (d : Directory) (name : Str) : option nat := position name (d_children d).

Definition get_child (d : Directory) (name : Str) : option DirectoryEntry :=
  List.find (λ e, str_eqb (entry_name e) name) (d_children d).

(** A [Result] that an iterator drops when it is an error. *)
Definition flatten_result {S E F A} (m : M S E A) : M S F (option A) := λ s,
  match m s with
  | (Ok a, s) => (Ok (Some a), s)
  | (Err _, s) => (Ok None, s)
  | (Panic, s) => (Panic, s)
  | (Loop, s) => (Loop, s)
  end.

Section directory.
Context {W : Type} {DK : SectorDisk W}.

Definition entry_from_dir_entry (dentry : DirEntry) : M W FSError DirectoryEntry :=
  if contains (de_flags dentry) IS_SYMLINK then mret (ESymLink (de_name dentry) (de_link dentry))
  else if contains (de_flags dentry) IS_DIR then mret (EDirectory (de_name dentry) (de_link dentry))
  else f ← file_from_dir_entry dentry; mret (EFile f).

(** The children one block adds. *)
Definition add_entry (children : list DirectoryEntry) (e : DirEntry) :
    M W FSError (list DirectoryEntry) :=
  if name_is_empty (de_name e) then mret children
  else
    o ← flatten_result (entry_from_dir_entry e);
    mret (match o with Some c => children ++ [c] | None => children end).

(** [while ptr.is_direct()] *)
Fixpoint add_children_loop (fuel : nat) (children : list DirectoryEntry) (ptr : LinkPointer) :
    M W FSError (list DirectoryEntry) :=
  match fuel with
  | O => lift Loop
  | S fuel =>
      if negb (is_direct ptr) then mret children
      else
        block ← link_read DirBlock ptr;
        children ← foldM add_entry children (entries block);
        add_children_loop fuel children (next block)
  end.

Definition add_children_from_link (start : LinkPointer) : M W FSError (list DirectoryEntry) :=
  fuel ← gets chain_fuel;
  add_children_loop fuel [] start.

Definition directory_from_dir_entry (dentry : DirEntry) (parent : Z) : M W FSError Directory :=
  if negb (contains (de_flags dentry) IS_DIR) || contains (de_flags dentry) IS_SYMLINK
  then fail BadFileType
  else
    children ← add_children_from_link (de_link dentry);
    mret (mkDirectory (de_name dentry) parent children (de_link dentry)).

Definition from_dir_block (dir_block : DirBlock) (name : Filename) (head : LinkPointer) :
    M W FSError Directory :=
  children ← add_children_from_link head;
  mret (mkDirectory name (db_parent dir_block) children head).

Definition from_directory_entry (dentry : DirectoryEntry) : M W FSError Directory :=
  match dentry with
  | EDirectory name link =>
      dir_block ← link_read DirBlock link;
      from_dir_block dir_block name link
  | _ => fail BadFileType
  end.

(** ** Deleting *)

Abbreviation DB := (W * Bitmap.BitmapAllocator)%type.

(** [while ptr.is_valid() && ptr.is_direct()] of [delete]. *)
Fixpoint delete_blocks (fuel : nat) (ptr : LinkPointer) : M DB FSError unit :=
  match fuel with
  | O => lift Loop
  | S fuel =>
      if negb (is_valid ptr && is_direct ptr) then mret tt
      else
        block ← on_w (link_read DirBlock ptr);
        bitmap_free (start ptr) 1;;
        on_w (zero_sectors (start ptr) 1);;
        delete_blocks fuel (next block)
  end.

(** The fuel bounds the depth of the recursion. *)
Fixpoint dir_delete_rec (fuel : nat) (d : Directory) : M DB FSError unit :=
  match fuel with
  | O => lift Loop
  | S fuel =>
      forM (d_children d) (λ child,
        match child with
        | EFile f => file_delete f
        | EDirectory _ link =>
            block ← on_w (link_read DirBlock link);
            dir ← on_w (from_dir_block block (from_str []) link);
            dir_delete_rec fuel dir
        | ESymLink _ _ => mret tt
        end);;
      n ← gets (λ s : DB, chain_fuel s.1);
      delete_blocks n (d_head d)
  end.

Definition dir_delete (d : Directory) : M DB FSError unit :=
  fuel ← gets (λ s : DB, chain_fuel s.1);
  dir_delete_rec fuel d.

(** ** Writing back *)

(** The blocks of the chain on disk. *)
Fixpoint collect (fuel : nat) (collected : list Z) (ptr : LinkPointer) : M W FSError (list Z) :=
  match fuel with
  | O => lift Loop
  | S fuel =>
      if negb (is_direct ptr && is_valid ptr) then mret collected
      else
        block ← link_read DirBlock ptr;
        collect fuel (collected ++ [start ptr]) (next block)
  end.

(** [self.children.chunks(8)]: their number and the chunk number [i]. *)
Definition chunk_count (children : list DirectoryEntry) : nat := Z.to_nat (div_ceil (len children) 8).
Definition chunk (children : list DirectoryEntry) (i : nat) : list DirectoryEntry :=
  slice (i * 8) 8 children.

(** The block written for a chunk. *)
Definition chunk_block (parent : Z) (chain : list Z) (children : list DirectoryEntry) (i : nat) :
    DirBlock :=
  let buf := splice 0 (to_dentry <$> chunk children i) (replicate 8 direntry_zero) in
  let next := match chain !! (i + 1)%nat with
              | Some lba => mkLink lba 512
              | None => mkLink 0 0
              end in
  dirblock_new parent buf next.

Definition dir_sync (d : Directory) : M DB FSError unit :=
  let children := d_children d in
  let blocks_needed := Z.to_nat (Z.max (div_ceil (len children) 8) 1) in
  collected ← on_w (fuel ← gets chain_fuel; collect fuel [] (d_head d));
  forM (drop blocks_needed collected) (λ lba, bitmap_free lba 1);;
  chain ← foldM (λ chain i,
    match collected !! i with
    | Some x => mret (chain ++ [x])
    | None => lba ← alloc_block; mret (chain ++ [lba])
    end) [start (d_head d)] (seq 1 (blocks_needed - 1));
  forM (seq 0 (chunk_count children)) (λ i,
    on_w (write_data (nth i chain 0) (chunk_block (d_parent d) chain children i)));;
  (if (length children =? 0)%nat then
     on_w (write_data (nth 0 chain 0) (dirblock_new (d_parent d) (replicate 8 direntry_zero) (mkLink 0 0)))
   else mret tt).

Definition give_child (d : Directory) (child : DirectoryEntry) : M DB FSError Directory :=
  let d := mkDirectory (d_name d) (d_parent d) (d_children d ++ [child]) (d_head d) in
  dir_sync d;;
  mret d.
End directory.

(** ** Directories on disk *)

Section dir_proofs.
Context {W : Type} {DK : SectorDisk W} {SL : SectorLaws W}.
Abbreviation DB := (W * Bitmap.BitmapAllocator)%type.
Implicit Types w : W.
Implicit Types s : DB.

(** The blocks [ls] with contents [bs] that the pointer leads to. *)
Inductive dchain w : LinkPointer → list Z → list DirBlock → Prop :=
| dchain_end p : is_direct p = false → dchain w p [] []
| dchain_cons p b ls bs :
    is_direct p = true → start p ≠ 0 → on_disk w (start p) → decode (sector w (start p)) = b →
    dchain w (next b) ls bs → dchain w p (start p :: ls) (b :: bs).

Lemma dchain_eq w w' p ls bs : disk_eq w w' → dchain w p ls bs → dchain w' p ls bs.
Proof.
  intros [E1 E2] H. induction H as [p Hd|p b ls bs Hd Hne Ho Hb _ IH]; [by constructor|].
  constructor; [done..|by eapply on_disk_eq| |done]. rewrite E2; [done|]. by destruct Ho.
Qed.

Lemma dchain_kept w w' p ls bs :
  disk_sectors w' = disk_sectors w → (∀ l, l ∈ ls → sector w' l = sector w l) →
  dchain w p ls bs → dchain w' p ls bs.
Proof.
  intros E1 E2 H. induction H as [p Hd|p b ls bs Hd Hne Ho Hb _ IH]; [by constructor|].
  constructor; [done..|by eapply on_disk_eq|rewrite E2; [done|by constructor]|].
  apply IH. intros x Hx. apply E2. by constructor.
Qed.

Lemma dchain_bound w p ls bs :
  up w → dchain w p ls bs → NoDup ls → (length ls < chain_fuel w)%nat.
Proof.
  intros Hup H Hnd. pose proof (disk_bound w (proj1 Hup)). unfold chain_fuel.
  assert (Z.of_nat (length ls) <= disk_sectors w); [|lia].
  apply NoDup_bounded; [lia|done|]. clear Hnd. induction H; by constructor.
Qed.

Lemma collect_wp fuel w p ls bs acc (Q : list Z → W → Prop) (R : FSError → W → Prop) :
  up w → dchain w p ls bs → (length ls < fuel)%nat →
  (∀ w', up w' → disk_eq w w' → Q (acc ++ ls) w') → wp (collect fuel acc p) Q R w.
Proof.
  intros Hup H. revert fuel w p bs acc Hup H.
  induction ls as [|l ls IH]; intros fuel w p bs acc Hup H Hf HQ;
    (destruct fuel as [|fuel]; [simpl in Hf; lia|]); cbn [collect]; inversion H; subst.
  - match goal with HD : is_direct p = false |- _ => rewrite HD end. apply wp_ret.
    specialize (HQ w Hup ltac:(done)). by rewrite app_nil_r in HQ.
  - match goal with HD : is_direct p = true |- _ => rewrite HD end.
    unfold is_valid. rewrite (proj2 (Z.eqb_neq (start p) 0)) by done. cbn [negb andb].
    apply wp_bind, read_data_wp; [done|done|]. intros w1 U1 E1.
    match goal with HC : dchain w (next _) _ _ |- _ =>
      eapply (IH fuel w1 _ _ _ U1 (dchain_eq _ _ _ _ _ E1 HC)) end; [simpl in *; lia|].
    intros w2 U2 E2. specialize (HQ w2 U2 (transitivity E1 E2)). by rewrite <- app_assoc.
Qed.

(** Freeing blocks one after the other. *)
Lemma free_blocks_wp ls s (Q : unit → DB → Prop) (R : FSError → DB → Prop) :
  db_ok s → Forall (covered s) ls → Forall (on_disk s.1) ls →
  (∀ s', gave ls s s' → Q tt s') → wp (forM ls (λ lba, bitmap_free lba 1)) Q R s.
Proof.
  intros Hok Hc Ho HQ.
  eapply wp_mono; [apply (wp_forM (λ k s', gave (take k ls) s s'))| |done].
  - split_and!; [split_and!; done|done|]. intros x. rewrite take_0, elem_of_nil. tauto.
  - intros k lba s1 Hl ((G1 & G1' & G1'') & G2 & G3).
    pose proof (proj1 (Forall_lookup _ _) Hc _ _ Hl) as Hcl.
    pose proof (proj1 (Forall_lookup _ _) Ho _ _ Hl) as [_ Hol].
    apply bitmap_free_wp; [done|unfold covered in *; by rewrite G1', G1''|by rewrite G1|].
    intros s2 ((F1 & F1' & F1'') & F2 & F3). split_and!; [split_and!; congruence|done|].
    intros x. rewrite F3, G3, (take_S_r _ _ lba), elem_of_app by done. tauto.
  - intros [] s1 Hg. rewrite take_ge in Hg by done. by apply HQ.
Qed.

(** The chain of blocks to write: what there was, then new blocks. *)
Lemma build_chain_wp ls n s (Q : list Z → DB → Prop) (R : FSError → DB → Prop) :
  db_ok s → ls ≠ [] → (0 < n)%nat →
  (∀ new s', length (take n ls ++ new) = n → NoDup new → Forall (free_block s) new → took new s s' →
     Q (take n ls ++ new) s') →
  (∀ s', R NoSpace s') →
  wp (foldM (λ chain i,
    match ls !! i with
    | Some x => mret (chain ++ [x])
    | None => lba ← alloc_block; mret (chain ++ [lba])
    end) (take 1 ls) (seq 1 (n - 1))) Q R s.
Proof.
  intros Hok Hne Hn HQ HR.
  eapply wp_mono; [apply (wp_foldM (λ k chain s', ∃ new, chain = take (S k) ls ++ new ∧
    length chain = S k ∧ NoDup new ∧ Forall (free_block s) new ∧ took new s s')
    _ (λ e _, e = NoSpace))| |by intros e s' ->].
  - exists []. rewrite app_nil_r. split_and!; [done| |constructor|constructor|].
    { rewrite length_take. destruct ls; [done|simpl; lia]. }
    split_and!; [split_and!; done|done|]. intros x. rewrite elem_of_nil. tauto.
  - intros k i chain s' [-> Hk]%lookup_seq (new & -> & L & N & F & T). pose proof T as (T1 & T2 & T3).
    change (1 + k)%nat with (S k).
    destruct (ls !! S k) as [x|] eqn:Ex.
    + apply wp_ret. assert (new = []) as ->.
      { apply nil_length_inv. rewrite length_app, length_take in L. apply lookup_lt_Some in Ex. lia. }
      exists []. rewrite !app_nil_r in *. rewrite (take_S_r ls (S k) x) by done.
      split_and!; [done| |done..]. rewrite length_app, L. simpl. lia.
    + apply wp_bind, alloc_block_wp; [done| |done]. intros lba s2 Hf%T3 T'. apply wp_ret.
      apply lookup_ge_None in Ex. exists (new ++ [lba]). rewrite !take_ge in * by lia.
      split_and!.
      * by rewrite <- app_assoc.
      * rewrite length_app, L. simpl. lia.
      * apply NoDup_app. split_and!; [done|set_solver|by apply NoDup_singleton].
      * apply Forall_app_2; [done|]. constructor; [tauto|constructor].
      * by eapply took_trans.
  - intros chain s' (new & -> & L & N & F & T). rewrite length_seq in *.
    replace (S (n - 1)) with n in * by lia. by apply HQ.
Qed.

(** ** The blocks [dir_sync] writes *)

Definition named (e : DirEntry) : bool := negb (name_is_empty (de_name e)).

(** The entries of a block that count. *)
Definition block_entries (b : DirBlock) : list DirEntry := filter (λ e, Is_true (named e)) (entries b).

(** A child that a directory block can hold. *)
Definition child_wf (c : DirectoryEntry) : Prop := wf_entry (to_dentry c) ∧ named (to_dentry c) = true.

Lemma chunk_entries parent chain children i :
  entries (chunk_block parent chain children i) =
  (to_dentry <$> chunk children i) ++ replicate (8 - length (chunk children i)) direntry_zero.
Proof.
  unfold chunk_block, splice, dirblock_new. cbn [entries].
  by rewrite take_0, drop_replicate, length_fmap.
Qed.

Lemma chunk_block_spec parent chain children i :
  in_u64 parent → Forall in_u64 chain → Forall child_wf children →
  wf (chunk_block parent chain children i) ∧
  block_entries (chunk_block parent chain children i) = to_dentry <$> chunk children i.
Proof.
  intros Hp Hc Hch.
  assert (Forall child_wf (chunk children i)) as Hck by (by apply Forall_take, Forall_drop).
  assert (length (chunk children i) <= 8)%nat as Hlen
    by (unfold chunk, slice; rewrite length_take; lia).
  split.
  - cbn [wf laws_dir]. split_and!; [done| | | |apply length_replicate].
    3:{ cbn [next chunk_block dirblock_new]. destruct (chain !! (i + 1)%nat) eqn:E; [|done].
        split; [|done]. by eapply (Forall_lookup_1 in_u64). }
    + rewrite chunk_entries, length_app, length_fmap, length_replicate. lia.
    + rewrite chunk_entries. apply Forall_app_2.
      * apply Forall_fmap. eapply Forall_impl; [exact Hck|]. by intros c [? _].
      * apply Forall_replicate. split_and!; [apply length_from_str|done..].
  - unfold block_entries. rewrite chunk_entries, filter_app.
    replace (filter _ (replicate _ _)) with ([] : list DirEntry) by (by induction (8 - length (chunk children i))%nat).
    rewrite app_nil_r. clear Hlen. induction Hck as [|c l [_ Hn] _ IH]; [done|].
    rewrite fmap_cons, filter_cons_True; [by rewrite IH|]. by rewrite Hn.
Qed.

(** The written blocks form a chain. *)
Lemma written_dchain w chain parent children k p :
  in_u64 parent → Forall child_wf children →
  Forall (on_disk w) chain → Forall (λ l, 1 <= l) chain → disk_sectors w <= 2 ^ 53 →
  (∀ i l, chain !! i = Some l → sector w l = encode (chunk_block parent chain children i)) →
  chain !! k = Some (start p) → is_direct p = true →
  dchain w p (drop k chain) (chunk_block parent chain children <$> seq k (length chain - k)).
Proof.
  intros Hp Hch Hon Hpos Hb Hsec Hk Hd.
  assert (Forall in_u64 chain) as H64.
  { eapply Forall_impl; [exact Hon|]. unfold on_disk, in_u64. intros. lia. }
  remember (length chain - k)%nat as m eqn:Em.
  revert k p Hk Hd Em. induction m as [|m IH]; intros k p Hk Hd Em.
  { apply lookup_lt_Some in Hk. lia. }
  rewrite (drop_S _ _ _ Hk). cbn [seq]. rewrite fmap_cons.
  destruct (chunk_block_spec parent chain children k Hp H64 Hch) as [Hwf _].
  pose proof (proj1 (Forall_lookup _ _) Hpos _ _ Hk) as H1. simpl in H1.
  constructor; [done|lia|by eapply Forall_lookup_1|rewrite (Hsec _ _ Hk); by apply decode_encode|].
  unfold chunk_block at 1. cbn [next dirblock_new]. rewrite Nat.add_1_r.
  destruct (chain !! S k) as [l'|] eqn:El.
  - by apply IH; [..|lia].
  - apply lookup_ge_None in El. rewrite drop_ge by lia. replace m with 0%nat by lia. by constructor.
Qed.

Lemma chunks_concat children n :
  (length children <= n * 8)%nat →
  concat ((λ i, to_dentry <$> chunk children i) <$> seq 0 n) = to_dentry <$> children.
Proof.
  intros H. transitivity (to_dentry <$> concat ((λ i, slice (i * 8) 8 children) <$> seq 0 n));
    [|by rewrite slices_concat]. unfold chunk.
  generalize (seq 0 n). intros l. induction l as [|i l IH]; [done|].
  rewrite !fmap_cons. cbn [concat]. by rewrite fmap_app, IH.
Qed.

(** ** Writing a directory *)

(** A directory whose chain of blocks is on the disk and in use. *)
Definition dir_on_disk s (d : Directory) (ls : list Z) : Prop :=
  ls ≠ [] ∧ NoDup ls ∧ Forall (λ l, covered s l ∧ ¬ free_block s l) ls ∧
  ∃ bs, dchain s.1 (d_head d) ls bs.

(** After [dir_sync]: a chain of blocks in use holds the entries; only blocks of
    the old chain and free blocks changed. *)
Definition dir_synced s (d : Directory) (ls : list Z) s' : Prop :=
  db_ok s' ∧ disk_sectors s'.1 = disk_sectors s.1 ∧
  Bitmap.data_start s'.2 = Bitmap.data_start s.2 ∧ Bitmap.nbits s'.2 = Bitmap.nbits s.2 ∧
  (∀ j, 0 <= j → j ∉ ls → ¬ free_block s j → sector s'.1 j = sector s.1 j) ∧
  (∀ x, free_block s' x → free_block s x ∨ x ∈ ls) ∧
  ∃ ls' bs', dchain s'.1 (d_head d) ls' bs' ∧ NoDup ls' ∧
    Forall (λ l, covered s' l ∧ ¬ free_block s' l) ls' ∧
    concat (block_entries <$> bs') = to_dentry <$> d_children d.

Lemma free_covered s l : db_ok s → free_block s l → covered s l ∧ on_disk s.1 l ∧ 1 <= l.
Proof.
  intros (_ & _ & D1 & _ & D2) Hf. pose proof (D2 l Hf). destruct Hf as [H1 H2].
  unfold covered, on_disk. split_and!; try lia.
  destruct (decide (l < Bitmap.data_start s.2 + Bitmap.nbits s.2)); [done|].
  rewrite Bitmap.bit_used_outside in H2 by lia. done.
Qed.

(** The chain that replaces [ls]: its first [n] blocks and new ones. *)
Lemma new_chain_facts ls n new s s2 s3 :
  db_ok s → NoDup ls → Forall (λ l, covered s l ∧ ¬ free_block s l) ls → Forall (on_disk s.1) ls →
  gave (drop n ls) s s2 → NoDup new → Forall (free_block s2) new → took new s2 s3 →
  let chain := take n ls ++ new in
  NoDup chain ∧ Forall (λ l, on_disk s.1 l ∧ 1 <= l ∧ covered s3 l ∧ ¬ free_block s3 l) chain ∧
  (∀ x, x ∈ chain → x ∈ ls ∨ free_block s x) ∧ (∀ x, free_block s3 x → free_block s x ∨ x ∈ ls).
Proof.
  intros Hok Hnd Huse Hon ((G1 & G1' & G1'') & G2 & G3) Hnew Hfree ((T1 & T1' & T1'') & T2 & T3) chain.
  assert (∀ x, x ∈ take n ls → ¬ free_block s2 x) as Htake.
  { intros x Hx [Hf|Hd]%G3.
    - rewrite Forall_forall in Huse. apply (Huse x); [|done].
      rewrite <- (take_drop n ls). apply elem_of_app. by left.
    - rewrite <- (take_drop n ls) in Hnd. apply NoDup_app in Hnd as (_ & Hnd & _). by eapply Hnd. }
  assert (∀ x, x ∈ take n ls → x ∈ ls) as Hsub1
    by (intros x Hx; rewrite <- (take_drop n ls); apply elem_of_app; by left).
  assert (∀ x, x ∈ drop n ls → x ∈ ls) as Hsub2
    by (intros x Hx; rewrite <- (take_drop n ls); apply elem_of_app; by right).
  rewrite Forall_forall in Hfree, Huse, Hon. destruct (Hok) as (_ & _ & D1 & _).
  split_and!.
  - apply NoDup_app. split_and!; [|  |done].
    { rewrite <- (take_drop n ls) in Hnd. by apply NoDup_app in Hnd as [? _]. }
    intros x Hx Hx'. by apply (Htake x Hx), Hfree.
  - apply Forall_forall. intros x [Hx|Hx]%elem_of_app.
    + destruct (Huse x (Hsub1 _ Hx)) as [[C1 C2] _].
      split_and!; [by apply Hon, Hsub1|lia|by unfold covered; rewrite T1', T1'', G1', G1''|].
      intros [Hf _]%T3. by apply (Htake x Hx).
    + destruct (free_covered s2 x G2 (Hfree x Hx)) as (C1 & C2 & C3). rewrite G1 in C2.
      split_and!; [done|done|unfold covered in *; by rewrite T1', T1''|]. intros [_ Hn]%T3. done.
  - intros x [Hx|Hx]%elem_of_app; [left; by apply Hsub1|].
    apply Hfree, G3 in Hx as [?|?]; [by right|left; by apply Hsub2].
  - intros x [[?|?]%G3 _]%T3; [by left|right; by apply Hsub2].
Qed.

Lemma write_blocks_wp chain parent children s (Q : unit → DB → Prop) (R : FSError → DB → Prop) :
  up s.1 → chain ≠ [] → NoDup chain → Forall (on_disk s.1) chain → in_u64 parent →
  Forall child_wf children → length chain = Z.to_nat (Z.max (div_ceil (len children) 8) 1) →
  (∀ w', up w' → disk_sectors w' = disk_sectors s.1 →
     (∀ i l, chain !! i = Some l → sector w' l = encode (chunk_block parent chain children i)) →
     (∀ j, 0 <= j → j ∉ chain → sector w' j = sector s.1 j) → Q tt (w', s.2)) →
  wp (forM (seq 0 (chunk_count children)) (λ i,
        on_w (write_data (nth i chain 0) (chunk_block parent chain children i)));;
      if (length children =? 0)%nat then
        on_w (write_data (nth 0 chain 0) (dirblock_new parent (replicate 8 direntry_zero) (mkLink 0 0)))
      else mret tt) Q R s.
Proof.
  intros U Hne Hnd Hon Hp Hch Hlen HQ. pose proof (disk_bound _ (proj1 U)) as Hb.
  assert (Forall in_u64 chain) as H64.
  { eapply Forall_impl; [exact Hon|]. unfold on_disk, in_u64. intros. lia. }
  pose proof (λ i, proj1 (chunk_block_spec parent chain children i Hp H64 Hch)) as Hwf.
  destruct children as [|c children].
  - change (Z.to_nat _) with 1%nat in Hlen. destruct chain as [|l [|]]; [done| |done].
    change (chunk_count []) with 0%nat. cbn [seq forM length Nat.eqb].
    apply wp_bind, wp_ret, on_w_wp. inversion Hon; subst.
    change (dirblock_new parent (replicate 8 direntry_zero) (mkLink 0 0))
      with (chunk_block parent [l] [] 0).
    apply write_data_wp; [done|done|apply length_encode, Hwf|]. intros w' U' [S' P']. apply HQ; [done..| |].
    + intros i x Hx. apply list_lookup_singleton_Some in Hx as [-> <-].
      rewrite P', Z.eqb_refl; [done|]. match goal with H : on_disk _ l |- _ => apply H end.
    + intros j Hj Hnin. rewrite P' by done. rewrite (proj2 (Z.eqb_neq j _)); [done|].
      intros ->. apply Hnin. by constructor.
  - change (length (c :: children) =? 0)%nat with false.
    assert (0 < div_ceil (len (c :: children)) 8) by (apply div_ceil_pos; unfold len; simpl; lia).
    unfold chunk_count. rewrite Z.max_l in Hlen by lia. rewrite <- Hlen. apply wp_bind.
    by apply write_arrays_wp; [..|intros; apply wp_ret, HQ].
Qed.

Lemma dir_sync_wp d ls s (Q : unit → DB → Prop) (R : FSError → DB → Prop) :
  db_ok s → dir_on_disk s d ls → in_u64 (d_parent d) → Forall child_wf (d_children d) →
  (∀ s', dir_synced s d ls s' → Q tt s') → (∀ s', R NoSpace s') → wp (dir_sync d) Q R s.
Proof.
  intros Hok (Hne & Hnd & Huse & bs & Hch) Hp Hwf HQ HR. unfold dir_sync.
  set (n := Z.to_nat (Z.max (div_ceil (len (d_children d)) 8) 1)). cbv zeta.
  assert (0 < n)%nat as Hn by lia. pose proof Hok as (U & _).
  apply wp_bind, on_w_wp, wp_bind, wp_gets.
  eapply (collect_wp _ _ _ ls bs []); [done|done|by eapply dchain_bound|]. intros w1 U1 E1. cbn [app].
  assert (db_ok (w1, s.2)) as Hok1.
  { destruct Hok as (_ & V2 & V3 & V4 & V5). split_and!; [done..|]. simpl. by rewrite (proj1 E1). }
  pose proof (disk_bound _ (proj1 U1)) as Hdb.
  assert (Forall (on_disk w1) ls) as Hon.
  { pose proof (dchain_eq _ _ _ _ _ E1 Hch) as Hch1. clear -Hch1. induction Hch1; by constructor. }
  apply wp_bind, free_blocks_wp; [done| |by apply Forall_drop|].
  { apply Forall_drop. eapply Forall_impl; [exact Huse|]. intros l [Hl _]. exact Hl. }
  intros s2 ((G1 & G1' & G1'') & G2 & G3). simpl in *.
  assert ([start (d_head d)] = take 1 ls) as -> by (by inversion Hch; subst).
  apply wp_bind, build_chain_wp; [done|done|done| |done].
  intros new s3 Hlen Hnew Hfree HT.
  destruct (new_chain_facts ls n new (w1, s.2) s2 s3) as (N1 & N2 & N3 & N4); [done..|].
  set (chain := take n ls ++ new) in *. destruct HT as ((T1 & T1' & T1'') & T2 & T3).
  rewrite !Forall_and in N2. destruct N2 as (N2a & N2b & N2c).
  assert (chain ≠ []) as Hcne by (intros E; rewrite E in Hlen; simpl in Hlen; lia).
  assert (s3.1 = w1) as E3 by congruence.
  apply write_blocks_wp; [by rewrite E3|done|done|by rewrite E3|done|done|done|].
  intros w' U' S' P1 P2. rewrite E3 in *. apply HQ. split_and!.
  - destruct T2 as (_ & V2 & V3 & V4 & V5). split_and!; [done..|]. simpl. rewrite S', <- E3. done.
  - simpl. rewrite S'. apply E1.
  - simpl. congruence.
  - simpl. congruence.
  - intros j Hj Hnin Hnf. simpl. rewrite P2; [by apply E1|done|]. by intros [?|?]%N3.
  - done.
  - exists chain, (chunk_block (d_parent d) chain (d_children d) <$> seq 0 (length chain)).
    split_and!; [|done|rewrite !Forall_and; done|].
    + pose proof (written_dchain w' chain (d_parent d) (d_children d) 0 (d_head d)) as Hw.
      rewrite Nat.sub_0_r in Hw. apply Hw; [done|done| |done|lia|done| |by inversion Hch; subst].
      * eapply Forall_impl; [exact N2a|]. intros x. by apply on_disk_eq.
      * subst chain. inversion Hch; subst; [done|]. destruct n; [lia|done].
    + rewrite <- list_fmap_compose, <- (chunks_concat (d_children d) (length chain)).
      * f_equal. apply list_fmap_ext. intros _ i _. apply chunk_block_spec; [done| |done].
        eapply Forall_impl; [exact N2a|]. unfold on_disk, in_u64. simpl. intros. lia.
      * rewrite Hlen. pose proof (div_ceil_bounds (len (d_children d)) 8 ltac:(done)).
        unfold len in *. lia.
Qed.

(** ** Loading a directory *)

(** The entry is loaded without an error. *)
Definition loads w (e : DirEntry) : Prop :=
  ∀ w1 (Q : DirectoryEntry → W → Prop) (R : FSError → W → Prop),
  up w1 → disk_eq w w1 →
  (∀ c w2, up w2 → disk_eq w1 w2 → to_dentry c = e → Q c w2) → wp (entry_from_dir_entry e) Q R w1.

(** The links of a file: a direct pointer, or a chain of link blocks that satisfy
    [P]. *)
Definition file_links_ok (P : Z → Prop) w (c : DirectoryEntry) : Prop :=
  match c with
  | EFile f =>
      is_direct (f_head f) = true ∨
      ∃ l ls' bs', f_head f = mkLink l 0 ∧ chain w (l :: ls') bs' ∧ NoDup (l :: ls') ∧
        Forall P (l :: ls')
  | _ => True
  end.

(** Link blocks that are in use and not among [ls]. *)
Definition child_resolves s (ls : list Z) : DirectoryEntry → Prop :=
  file_links_ok (λ x, ¬ free_block s x ∧ x ∉ ls) s.1.

Lemma file_links_kept (P : Z → Prop) w w' c :
  disk_sectors w' = disk_sectors w → (∀ j, 0 <= j → P j → sector w' j = sector w j) →
  file_links_ok P w c → file_links_ok P w' c.
Proof.
  intros E1 E2. destruct c as [f| |]; [|done..].
  intros [?|(l & ls & bs & H1 & H2 & H3 & H4)]; [by left|right].
  exists l, ls, bs. split_and!; [done| |done..]. eapply chain_kept; [done| |exact H2].
  rewrite Forall_forall in H4. intros x Hx. apply E2; [|by apply H4].
  assert (Forall (on_disk w) (l :: ls)) as Hon; [|rewrite Forall_forall in Hon; by destruct (Hon x Hx)].
  clear -H2. remember (l :: ls) as m. clear Heqm. induction H2; by constructor.
Qed.

Lemma file_loads w f :
  (is_direct (f_head f) = true ∨
   ∃ l ls' bs', f_head f = mkLink l 0 ∧ chain w (l :: ls') bs' ∧ NoDup (l :: ls')) →
  loads w (to_dentry (EFile f)).
Proof.
  intros Hf w1 Q R U1 E1 HQ. apply wp_bind.
  change (file_from_dir_entry (to_dentry (EFile f)))
    with (links ← resolve_links (f_head f); mret (mkFile (f_name f) (sum_sizes links) (f_head f) links) : M W FSError File).
  apply wp_bind. eapply wp_ext; [apply resolve_links_eq|]. apply wp_bind.
  assert (∀ t w2, up w2 → disk_eq w1 w2 →
    wp (mret (mkFile (f_name f) (sum_sizes t) (f_head f) t)) (λ f, wp (mret (EFile f)) Q R) R w2) as Hret.
  { intros t w2 U2 E2. apply wp_ret, wp_ret. by apply HQ. }
  destruct Hf as [Hd|(l & ls & bs & El & Hc & Hnd)].
  - apply wp_bind, wp_gets. unfold chain_fuel. cbn [trace_loop].
    destruct (is_valid (f_head f)); cbn [negb]; rewrite ?Hd; apply wp_ret, wp_ret, Hret; done.
  - rewrite El. eapply trace_wp; [done|by eapply chain_eq|done|]. intros w2 U2 E2.
    rewrite <- El. by apply wp_ret, Hret.
Qed.

Lemma child_loads P w c : file_links_ok P w c → loads w (to_dentry c).
Proof.
  destruct c as [f|name link|name dest]; intros Hc.
  - apply file_loads. destruct Hc as [?|(l & ls & bs & ? & ? & ? & _)]; [by left|right].
    by exists l, ls, bs.
  - intros w1 Q R U1 E1 HQ; by apply wp_ret, HQ.
  - intros w1 Q R U1 E1 HQ; by apply wp_ret, HQ.
Qed.

(** Every entry that counts belongs to a child. *)
Lemma entries_load P w bs cs :
  concat (block_entries <$> bs) = to_dentry <$> cs → Forall (file_links_ok P w) cs →
  Forall (λ e, named e = true → loads w e) (concat (entries <$> bs)).
Proof.
  intros Hent Hcs. apply Forall_forall. intros e He Hn.
  assert (e ∈ to_dentry <$> cs) as (c & -> & Hc)%list_elem_of_fmap.
  { rewrite <- Hent. apply elem_of_concat. apply elem_of_concat in He as (es & Hes & He).
    apply list_elem_of_fmap in Hes as (b' & -> & Hb'). exists (block_entries b').
    split; [apply list_elem_of_fmap; by exists b'|]. apply list_elem_of_filter. by rewrite Hn. }
  eapply child_loads. rewrite Forall_forall in Hcs. by apply Hcs.
Qed.

Lemma add_entries_wp es w acc (Q : list DirectoryEntry → W → Prop) (R : FSError → W → Prop) w0 :
  up w → disk_eq w0 w → Forall (λ e, named e = true → loads w0 e) es →
  (∀ cs w', up w' → disk_eq w0 w' →
     to_dentry <$> cs = (to_dentry <$> acc) ++ filter (λ e, Is_true (named e)) es → Q cs w') →
  wp (foldM add_entry acc es) Q R w.
Proof.
  intros U E H. revert w acc U E. induction H as [|e es He _ IH]; intros w acc U E HQ.
  { apply wp_ret, HQ; [done..|]. by rewrite app_nil_r. }
  cbn [foldM]. apply wp_bind. unfold add_entry.
  destruct (name_is_empty (de_name e)) eqn:En.
  { apply wp_ret, IH; [done..|]. rewrite filter_cons_False in HQ; [done|].
    unfold named. rewrite En. by intros []. }
  assert (named e = true) as Hn by (unfold named; by rewrite En).
  rewrite filter_cons_True in HQ by (by rewrite Hn).
  assert (wp (entry_from_dir_entry e) (λ c w2, up w2 ∧ disk_eq w w2 ∧ to_dentry c = e) (λ _ _, False) w)
    as Hl by (apply (He Hn); auto).
  apply wp_Ok in Hl as (c & w2 & Ec & U2 & E2 & Hc).
  eapply wp_step; [unfold flatten_result; by rewrite Ec|]. apply wp_ret, IH; [done|by etransitivity|].
  intros cs w' U' E' Hcs. apply HQ; [done..|]. rewrite Hcs, fmap_app, <- app_assoc. cbn. by rewrite Hc.
Qed.

Lemma add_children_wp fuel w p ls bs acc (Q : list DirectoryEntry → W → Prop) (R : FSError → W → Prop) w0 :
  up w → disk_eq w0 w → dchain w p ls bs → (length ls < fuel)%nat →
  Forall (λ e, named e = true → loads w0 e) (concat (entries <$> bs)) →
  (∀ cs w', up w' → disk_eq w0 w' →
     to_dentry <$> cs = (to_dentry <$> acc) ++ concat (block_entries <$> bs) → Q cs w') →
  wp (add_children_loop fuel acc p) Q R w.
Proof.
  intros U E H. revert fuel w p bs acc U E H.
  induction ls as [|l ls IH]; intros fuel w p bs acc U E H Hf Hl HQ;
    (destruct fuel as [|fuel]; [simpl in Hf; lia|]); cbn [add_children_loop]; inversion H; subst.
  - match goal with HD : is_direct p = false |- _ => rewrite HD end. apply wp_ret, HQ; [done..|].
    by rewrite app_nil_r.
  - match goal with HD : is_direct p = true |- _ => rewrite HD end.
    rewrite fmap_cons in Hl. cbn [concat] in Hl. apply Forall_app in Hl as [Hl1 Hl2].
    apply wp_bind, read_data_wp; [done|done|]. intros w1 U1 E1.
    apply wp_bind. apply (add_entries_wp _ _ _ _ _ w0); [done|by etransitivity|done|].
    intros cs w2 U2 E2 Hcs. eapply (IH fuel w2); [done|done| |simpl in *; lia|done|].
    { eapply dchain_eq; [|done]. destruct E as [F1 F2], E2 as [G1 G2]. split; [congruence|].
      intros j Hj. by rewrite G2, F2. }
    intros cs' w3 U3 E3 Hcs'. apply HQ; [done..|]. rewrite Hcs', Hcs, fmap_cons. cbn [concat]. by rewrite <- app_assoc.
Qed.

(** C24. Writing a directory and loading it again gives the same entries, in the
    same order, however many blocks it takes; [dir_sync] fails only for lack of
    space, the blocks of the directory are then in use, and nothing but its old
    blocks and free blocks is overwritten. *)
Theorem directory_roundtrip (d : Directory) (ls : list Z) (b : DirBlock) s :
  db_ok s → dir_on_disk s d ls → in_u64 (d_parent d) → Forall child_wf (d_children d) →
  Forall (child_resolves s ls) (d_children d) →
  wp (dir_sync d) (λ _ s',
      dir_synced s d ls s' ∧
      wp (from_dir_block b (d_name d) (d_head d))
        (λ d' _, to_dentry <$> d_children d' = to_dentry <$> d_children d) (λ _ _, False) s'.1)
    (λ e _, e = NoSpace) s.
Proof.
  intros Hok Hd Hp Hwf Hres. apply (dir_sync_wp d ls); [done..| |done]. intros s' Hs'.
  split; [done|]. destruct Hs' as (O & S' & _ & _ & Hkeep & _ & ls' & bs' & Hch & Hnd & _ & Hent).
  apply wp_bind, wp_bind, wp_gets.
  eapply (add_children_wp _ _ _ ls' bs' [] _ _ s'.1);
    [apply O|done|done|eapply dchain_bound; [apply O|done..]| |].
  - eapply entries_load; [done|]. eapply Forall_impl; [exact Hres|].
    intros c. apply file_links_kept; [done|]. intros j Hj [? ?]. by apply Hkeep.
  - intros cs w' _ _ Hcs. apply wp_ret. cbn [d_children]. by rewrite Hcs.
Qed.
End dir_proofs.

End LemonDir.
