(* ===== verification/LemonFS.v ===== *)
(** * The LemonFS file system (src/kernel/src/fs/lemonfs/mod.rs and
    src/kernel/src/fs/mod.rs)

    The methods of [FileSystem] for [LemonFS], mounting and formatting.  The
    state is the [LemonFS] structure with the disk in place of its [drive]
    field.  A copy that would leave its buffers, which is undefined behaviour in
    the code, is a panic of the model. *)

From S2P Require Import Prelude Errors Pages Storage Names Bitmap LemonDisk LemonLinks LemonFile.
From S2P Require Import LemonDir.
Import Errors Pages Storage Names LemonDisk LemonLinks LemonFile LemonDir.

Module LemonFS.

Record LemonFS (W : Type) := mkFS {
  drive : W; superblock : SuperBlock; bitmap : Bitmap.BitmapAllocator; root : list DirectoryEntry
}.
Arguments mkFS {W}.
Arguments drive {W}.
Arguments superblock {W}.
Arguments bitmap {W}.
Arguments root {W}.

(** [Vec::swap_remove] *)
Definition swap_remove {A} (i : nat) (l : list A) : list A :=
  match last l with
  | Some x => if (S i =? length l)%nat then removelast l else <[i := x]> (removelast l)
  | None => l
  end.

Section lemonfs.
Context {W : Type} {DK : SectorDisk W}.

Abbreviation FS A := (M (LemonFS W) FSError A).

Definition on_drive {A} (m : M W FSError A) : FS A := λ fs,
  let '(r, w) := m (drive fs) in (r, mkFS w (superblock fs) (bitmap fs) (root fs)).

Definition on_db {A} (m : M (W * Bitmap.BitmapAllocator) FSError A) : FS A := λ fs,
  let '(r, (w, b)) := m (drive fs, bitmap fs) in (r, mkFS w (superblock fs) b (root fs)).

Definition set_root (f : list DirectoryEntry → list DirectoryEntry) : FS unit :=
  modify (λ fs, mkFS (drive fs) (superblock fs) (bitmap fs) (f (root fs))).

Definition root_ptr (fs : LemonFS W) : LinkPointer := mkLink (data_end (superblock fs)) 512.

Definition root_dir (fs : LemonFS W) : Directory :=
  mkDirectory (from_str [SLASH]) 0 (root fs) (root_ptr fs).

(** One step of the walk of [get_parent]. *)
Definition descend (curr_parent : Directory) (component : Str) : FS Directory :=
  dentry ← lift (ok_or (get_child curr_parent component) FileNotFound);
  match dentry with
  | EFile _ => fail BadFileType
  | ESymLink _ dest =>
      on_drive (block ← link_read DirBlock dest; from_dir_block block (from_str component) dest)
  | EDirectory _ _ => on_drive (from_directory_entry dentry)
  end.

Definition get_parent (path : Str) : FS Directory :=
  curr_parent ← gets root_dir;
  foldM descend curr_parent (components (parent path)).

(** ** [create] and [delete] *)

Definition create (path : Str) (flags : Z) : FS unit :=
  if is_root path then fail IsRoot
  else
    dir ← get_parent path;
    match find_child_idx dir (name path) with
    | Some _ => fail FileExists
    | None =>
      flags ← lift (ok_or (from_bits (u8 flags)) BadFlags);
      let filetype := from_dirflags flags in
      start ← match filetype with
              | TDirectory | TFile => on_db alloc_block
              | TSymlink => mret 0
              end;
      let dir_entry := entry_new (from_str (name path)) start filetype in
      on_db (give_child dir dir_entry);;
      (if is_root (parent path) then set_root (λ root, root ++ [dir_entry]) else mret tt)
    end.

Definition with_children (d : Directory) (children : list DirectoryEntry) : Directory :=
  mkDirectory (d_name d) (d_parent d) children (d_head d).

(** Deleting what an entry stands for. *)
Definition delete_entry (file : DirectoryEntry) : FS unit :=
  match file with
  | EFile f => on_db (file_delete f)
  | EDirectory _ _ =>
      dir ← on_drive (from_directory_entry file);
      on_db (dir_delete dir)
  | ESymLink _ _ => mret tt
  end.

Definition delete (path : Str) : FS unit :=
  if is_root path then fail IsRoot
  else
    dir ← get_parent path;
    file_idx ← lift (ok_or (find_child_idx dir (name path)) FileNotFound);
    file ← or_panic (d_children dir !! file_idx);
    let dir := with_children dir (swap_remove file_idx (d_children dir)) in
    delete_entry file;;
    on_db (dir_sync dir);;
    if is_root (parent path) then
      root ← gets root;
      idx ← lift (ok_or (position (name path) root) FileNotFound);
      set_root (swap_remove idx)
    else mret tt.

(** ** Queries *)

Definition file_size (path : Str) : FS Z :=
  if is_root path then fail IsRoot
  else
    dir ← get_parent path;
    dentry ← lift (ok_or (get_child dir (name path)) FileNotFound);
    match dentry with
    | EFile file => mret (f_size file)
    | _ => fail BadFileType
    end.

Definition list_dir (path : Str) : FS (list Str) :=
  if is_root path then gets (λ fs, entry_name <$> root fs)
  else
    dir ← get_parent path;
    dentry_pos ← lift (ok_or (find_child_idx dir (name path)) FileNotFound);
    dentry ← or_panic (d_children dir !! dentry_pos);
    dir ← match dentry with
          | EFile _ => fail BadFileType
          | ESymLink name dest =>
              on_drive (block ← link_read DirBlock dest; from_dir_block block name dest)
          | EDirectory _ _ => on_drive (from_directory_entry dentry)
          end;
    mret (entry_name <$> d_children dir).

(** ** Reading *)

(** [core::ptr::copy] of [n] bytes from the start of [src] to [offset] in [dst]. *)
Definition copy_to {S E} (src dst : PhysPage) (offset n : Z) : M S E PhysPage :=
  if (n <=? Z.of_nat (length (bytes src))) && (offset + n <=? Z.of_nat (length (bytes dst)))
  then mret (mkPage (count dst) (splice (Z.to_nat offset) (take (Z.to_nat n) (bytes src)) (bytes dst)))
  else panic.

(** The loop of [read]: the page and the offset. *)
Definition read_link (read_size : Z) (st : PhysPage * Z) (link : LinkPointer) :
    M W FSError (PhysPage * Z) :=
  let '(dest_page, offset) := st in
  if read_size <=? offset then mret (dest_page, offset)
  else
    page ← map_errM io_error (disk_read (start link) (div_ceil (size link) 512));
    let bytes_to_read := Z.min (read_size ⊟ offset) (size link) in
    dest_page ← copy_to page dest_page offset bytes_to_read;
    mret (dest_page, offset ⊞ bytes_to_read).

Definition read_links (links : list LinkPointer) (dest_page : PhysPage) : M W FSError (Z * PhysPage) :=
  let read_size := Z.min (sum_sizes links) (count dest_page ⊠ PAGE_SIZE) in
  st ← foldM (read_link read_size) (dest_page, 0) links;
  mret (read_size, st.1).

Definition read (path : Str) (dest_page : PhysPage) : FS (Z * PhysPage) :=
  if is_root path then fail IsRoot
  else
    dir ← get_parent path;
    dentry ← lift (ok_or (get_child dir (name path)) FileNotFound);
    links ← match dentry with
            | EDirectory _ _ => fail BadFileType
            | EFile f => mret (f_links f)
            | ESymLink _ dest => on_drive (resolve_links dest)
            end;
    on_drive (read_links links dest_page).

(** ** Writing *)

(** The blocks the direct links cover. *)
Definition link_blocks (direct : list LinkPointer) : list Z :=
  concat ((λ link, (λ block, start link ⊞ block) <$> seqZ 0 (div_ceil (size link) 512)) <$> direct).

(** The first [sectors] blocks, new ones where there are too few. *)
Definition pick_blocks (blocks : list Z) (sectors : nat) :
    M (W * Bitmap.BitmapAllocator) FSError (list Z) :=
  foldM (λ chain i,
    b ← match blocks !! i with Some b => mret b | None => alloc_block end;
    mret (chain ++ [b])) [] (seq 0 sectors).

(** The links that will hold [src]: old blocks are kept, missing ones
    allocated and surplus ones freed. *)
Definition reallocate (head : LinkPointer) (src : PhysPage) :
    M (W * Bitmap.BitmapAllocator) FSError LinkPointer :=
  t ← on_w (trace head);
  let '(direct, indirect) := t in
  forM indirect (λ link, free_zero (start link) 1);;
  let blocks := link_blocks direct in
  let sectors := Z.to_nat (div_ceil (count src ⊠ PAGE_SIZE) 512) in
  chain ← pick_blocks blocks sectors;
  forM (drop sectors blocks) (λ block, free_zero block 1);;
  build_file_chain chain.

(** The body of the loop that writes the data of one link; [page] is zero before
    and after it. *)
Definition write_link (src : PhysPage) (st : PhysPage * Z) (link : LinkPointer) :
    M W FSError (PhysPage * Z) :=
  let '(page, offset) := st in
  page ← (if offset + size link <=? Z.of_nat (length (bytes src)) then
            copy_to (mkPage (count src) (drop (Z.to_nat offset) (bytes src))) page 0 (size link)
          else panic);
  map_errM io_error (disk_write (start link) (div_ceil (size link) 512) page);;
  page ← copy_to (mkPage 0 (replicate (Z.to_nat (size link)) 0)) page 0 (size link);
  mret (page, offset ⊞ size link).

Definition write_links (links : list LinkPointer) (src : PhysPage) : M W FSError unit :=
  match links with
  | [] => panic
  | l :: ls =>
      let max_size := foldl Z.max (size l) (size <$> ls) in
      page ← map_errM io_error (disk_page (div_ceil max_size PAGE_SIZE));
      foldM (write_link src) (page, 0) links;;
      mret tt
  end.

Definition write (path : Str) (src : PhysPage) : FS unit :=
  if is_root path then fail IsRoot
  else
    dir ← get_parent path;
    dentry_index ← lift (ok_or (find_child_idx dir (name path)) FileNotFound);
    dentry ← or_panic (d_children dir !! dentry_index);
    match dentry with
    | EFile file =>
        head ← on_db (reallocate (f_head file) src);
        links ← on_drive (resolve_links head);
        on_drive (write_links links src);;
        let file := mkFile (f_name file) (sum_sizes links) head (f_links file) in
        let dir := with_children dir (<[dentry_index := EFile file]> (d_children dir)) in
        on_db (dir_sync dir);;
        root ← gets root;
        match is_root (parent path), position (name path) root with
        | true, Some i => set_root (λ root, <[i := EFile file]> root)
        | _, _ => mret tt
        end
    | _ => fail BadFileType
    end.

(** ** Symbolic links *)

(** What a link to an entry points to. *)
Definition entry_target (e : DirectoryEntry) : LinkPointer :=
  match e with
  | EFile f => f_head f
  | EDirectory _ link => link
  | ESymLink _ dest => dest
  end.

Definition route_symlink (symlink_path dest_path : Str) : FS unit :=
  if is_root symlink_path then fail IsRoot
  else
    dir ← get_parent (parent symlink_path);
    dentry_idx ← lift (ok_or (find_child_idx dir (name symlink_path)) FileNotFound);
    entry ← or_panic (d_children dir !! dentry_idx);
    match entry with
    | ESymLink sname _ =>
        dest_parent ← get_parent dest_path;
        dest_index ← lift (ok_or (find_child_idx dest_parent (name dest_path)) FileNotFound);
        e ← or_panic (d_children dest_parent !! dest_index);
        let child := ESymLink sname (entry_target e) in
        on_db (dir_sync (with_children dir (<[dentry_idx := child]> (d_children dir))));;
        root ← gets root;
        match is_root (parent symlink_path), position (name symlink_path) root with
        | true, Some i => set_root (λ root, <[i := child]> root)
        | _, _ => mret tt
        end
    | _ => fail BadFileType
    end.

Definition sync : FS unit :=
  fs ← gets id;
  on_drive (write_sb (superblock fs));;
  on_drive (bitmap_sync (bitmap fs) (bitmap_start (superblock fs))).

(** ** Mounting *)

Definition format : M W FSError SuperBlock :=
  n ← gets disk_sectors;
  sb ← lift (ok_or (superblock_new n) NoSpace);
  write_sb sb;;
  zero_sectors (bitmap_start sb) (data_start sb ⊟ bitmap_start sb);;
  zero_sectors (data_end sb) 1;;
  mret sb.

Definition find_superblock : M W FSError SuperBlock := λ w,
  match get_superblock w with
  | (Ok sb, w) => (Ok sb.1, w)
  | (Err BadSuperblock, w) => format w
  | (Err e, w) => (Err e, w)
  | (Panic, w) => (Panic, w)
  | (Loop, w) => (Loop, w)
  end.

(** The bitmap and the root directory that go with a superblock. *)
Definition load (superblock : SuperBlock) :
    M W FSError (SuperBlock * Bitmap.BitmapAllocator * list DirectoryEntry) :=
  bitmap ← foldM (λ bitmap block,
    bitmap_block ← read_data (list Z) block;
    or_panic (Bitmap.add_block bitmap bitmap_block))
    (Bitmap.new (data_start superblock))
    (seqZ (bitmap_start superblock) (data_start superblock - bitmap_start superblock));
  bitmap ← or_panic (Bitmap.reserve_from bitmap (data_end superblock ⊟ 1));
  let root_ptr := mkLink (data_end superblock) 512 in
  root_block ← link_read DirBlock root_ptr;
  root_dir ← from_dir_block root_block (from_str [SLASH]) root_ptr;
  mret (superblock, bitmap, d_children root_dir).

Definition init : M W FSError (SuperBlock * Bitmap.BitmapAllocator * list DirectoryEntry) :=
  superblock ← find_superblock;
  load superblock.
End lemonfs.

(** [fs::init]: the LemonFS partitions of a drive. *)
Definition fs_init {W} `{StorageDrive W} (partitions : list Partition) :
    M W FSError (list (Partition * (SuperBlock * Bitmap.BitmapAllocator * list DirectoryEntry))) :=
  foldM (λ filesystems p,
    match type_ p with
    | Storage.LemonFS =>
        fs ← init (DK := partition_disk p);
        mret (filesystems ++ [(p, fs)])
    | Efi => mret filesystems
    | Unknown _ =>
        superblock ← map_errM io_error (read_sectors p 0 1);
        magic ← lift (ok_or (Pages.read_data 8 1 superblock 0) IOError);
        if str_eqb magic LEMONFS_MAGIC then
          fs ← init (DK := partition_disk p);
          mret (filesystems ++ [(p, fs)])
        else mret filesystems
    end) [] partitions.

(** ** The cache of the root directory *)

Section cache.
Context {W : Type} {DK : SectorDisk W}.
Implicit Types fs : LemonFS W.

Lemma get_parent_root path fs :
  (length (components path) <= 1)%nat → get_parent path fs = (Ok (root_dir fs), fs).
Proof.
  intros H. unfold get_parent. rewrite gets_bind, components_parent.
  by destruct (components path) as [|c [|]]; [done|done|simpl in H; lia].
Qed.

Lemma is_root_parent path : (length (components path) <= 1)%nat → is_root (parent path) = true.
Proof.
  intros H. unfold parent. rewrite is_root_from_vec.
  by destruct (components path) as [|c [|]]; [done|done|simpl in H; lia].
Qed.

Lemma one_component path n : components path = [n] → is_root path = false ∧ name path = n.
Proof.
  intros H. unfold name. rewrite H. split; [|done]. unfold is_root, str_eqb.
  apply bool_decide_eq_false. intros ->. done.
Qed.

Lemma find_position n l : List.find (λ e, str_eqb (entry_name e) n) l = position n l ≫= (l !!.).
Proof.
  induction l as [|e l IH]; [done|]. simpl. destruct (str_eqb (entry_name e) n); [done|].
  rewrite IH. by destruct (position n l).
Qed.

Lemma position_insert n l i e e' :
  l !! i = Some e → entry_name e' = entry_name e → position n (<[i := e']> l) = position n l.
Proof.
  revert i. induction l as [|x l IH]; intros [|i] Hi E; simplify_eq/=; [by rewrite E|].
  by rewrite (IH i).
Qed.

Lemma on_db_root {A} (m : M (W * Bitmap.BitmapAllocator) FSError A) fs r fs' :
  on_db m fs = (r, fs') → root fs' = root fs.
Proof. unfold on_db. destruct (m _) as [? [? ?]]. by intros [= <- <-]. Qed.

Lemma on_drive_root {A} (m : M W FSError A) fs r fs' : on_drive m fs = (r, fs') → root fs' = root fs.
Proof. unfold on_drive. destruct (m _) as [? ?]. by intros [= <- <-]. Qed.

(** What [write] leaves in the cache for a file of the root directory. *)
Lemma write_root_cache path n i f src fs fs' :
  components path = [n] → position n (root fs) = Some i → root fs !! i = Some (EFile f) →
  write path src fs = (Ok tt, fs') →
  ∃ size head, root fs' = <[i := EFile (mkFile (f_name f) size head (f_links f))]> (root fs).
Proof.
  intros Hc Hp Hf Hw. destruct (one_component path n Hc) as [Hr Hn]. unfold write in Hw.
  rewrite Hr in Hw. erewrite bind_Ok in Hw by (apply get_parent_root; by rewrite Hc).
  unfold find_child_idx in Hw. cbn [d_children root_dir] in Hw. rewrite Hn, Hp in Hw.
  cbn [lift ok_or] in Hw. erewrite bind_Ok in Hw by done. rewrite Hf in Hw.
  erewrite bind_Ok in Hw by done.
  apply bind_Ok_inv in Hw as (head & fs1 & E1%on_db_root & Hw).
  apply bind_Ok_inv in Hw as (links & fs2 & E2%on_drive_root & Hw).
  apply bind_Ok_inv in Hw as ([] & fs3 & E3%on_drive_root & Hw). cbv zeta in Hw.
  apply bind_Ok_inv in Hw as ([] & fs4 & E4%on_db_root & Hw). rewrite gets_bind in Hw.
  rewrite is_root_parent in Hw by (by rewrite Hc). rewrite E4, E3, E2, E1, Hp in Hw.
  injection Hw as <-. simpl. rewrite E4, E3, E2, E1. eauto.
Qed.

(** A file of the root directory is read through the links that were cached
    when it was mounted or created: [write] updates its head and size in the
    cache but not its links.  A file created since the mount reads as empty
    after it has been written. *)
Theorem root_write_not_read (path : Str) n i f src dest fs fs' :
  components path = [n] → position n (root fs) = Some i → root fs !! i = Some (EFile f) →
  write path src fs = (Ok tt, fs') →
  read path dest fs' = on_drive (read_links (f_links f) dest) fs' ∧
  (f_links f = [] → read path dest fs' = (Ok (0, dest), fs')).
Proof.
  intros Hc Hp Hf Hw. destruct (write_root_cache path n i f src fs fs' Hc Hp Hf Hw) as (sz & head & Hroot).
  destruct (one_component path n Hc) as [Hr Hn].
  set (f' := mkFile (f_name f) sz head (f_links f)) in *.
  assert (read path dest fs' = on_drive (read_links (f_links f) dest) fs') as E.
  { unfold read. rewrite Hr. erewrite bind_Ok by (apply get_parent_root; by rewrite Hc).
    unfold get_child. cbn [d_children root_dir]. rewrite Hn, find_position, Hroot.
    rewrite (position_insert n _ i (EFile f)), Hp by done. cbn [mbind option_bind].
    rewrite list_lookup_insert_eq by (by eapply lookup_lt_Some). done. }
  split; [done|]. intros El. rewrite E, El. unfold on_drive, read_links. cbn.
  replace (0 `min` (count dest ⊠ PAGE_SIZE)) with 0
    by (pose proof (u64_range (count dest * PAGE_SIZE)); unfold in_u64 in *; lia).
  by destruct fs', dest.
Qed.

(** A symbolic link that is not in the root directory cannot be routed: the
    code takes the parent of its path twice, and looks the link up one level too
    high. *)
Theorem route_symlink_looks_too_high (path dest_path : Str) a b fs :
  components path = [a; b] → position b (root fs) = None →
  route_symlink path dest_path fs = (Err FileNotFound, fs).
Proof.
  intros Hc Hp. assert (is_root path = false) as Hr.
  { unfold is_root, str_eqb. apply bool_decide_eq_false. intros ->. done. }
  unfold route_symlink. rewrite Hr. erewrite bind_Ok.
  2:{ apply get_parent_root. rewrite components_parent, Hc. simpl. lia. }
  unfold find_child_idx. cbn [d_children root_dir]. unfold name. rewrite Hc. simpl. by rewrite Hp.
Qed.
End cache.

(** ** File contents *)

Section contents.
Context {W : Type} {DK : SectorDisk W} {SL : SectorLaws W}.
Implicit Types w : W.

(** Block number [j] of [blocks] holds sector [j] of [data]. *)
Definition holds (data : list Z) (blocks : list Z) w : Prop :=
  ∀ j b, blocks !! j = Some b → sector w b = slice (j * 512) 512 data.

Lemma extent_sectors p : extent_ok p → ∃ k, 0 < k ∧ size p = k * 512 ∧ size p / 512 = k ∧ div_ceil (size p) 512 = k.
Proof.
  intros (_ & H & [k Hk] & _). exists k. rewrite Hk, Z.div_mul, div_ceil_mult by done. lia.
Qed.

Lemma splice_0 {A} (new l : list A) : splice 0 new l = new ++ drop (length new) l.
Proof. done. Qed.

Lemma copy_to_wp {S E} src dst off n (Q : PhysPage → S → Prop) (R : E → S → Prop) s :
  n <= Z.of_nat (length (bytes src)) → off + n <= Z.of_nat (length (bytes dst)) →
  Q (mkPage (count dst) (splice (Z.to_nat off) (take (Z.to_nat n) (bytes src)) (bytes dst))) s →
  wp (copy_to src dst off n) Q R s.
Proof.
  intros H1 H2 HQ. unfold copy_to. rewrite (proj2 (Z.leb_le _ _) H1), (proj2 (Z.leb_le _ _) H2). done.
Qed.

(** Filling the first bytes of a zero page, and clearing them again. *)
Lemma refill_zero c (data : list Z) n :
  0 <= c → length data = n → (n <= Z.to_nat (c * PAGE_SIZE))%nat →
  let page := splice 0 data (bytes (zero_page c)) in
  length page = Z.to_nat (c * PAGE_SIZE) ∧
  splice 0 (replicate n 0) page = bytes (zero_page c) ∧
  ∀ a m, (a + m <= n)%nat → slice a m page = slice a m data.
Proof.
  intros Hc <- Hle page. subst page. unfold zero_page. cbn [bytes].
  set (len := Z.to_nat (c * PAGE_SIZE)) in *. rewrite !splice_0, length_replicate, drop_replicate.
  split_and!.
  - rewrite length_app, length_replicate. lia.
  - rewrite drop_app_length', <- replicate_add by done. f_equal. lia.
  - intros a m Ham. unfold slice. rewrite drop_app_le by lia.
    rewrite take_app_le by (rewrite length_drop; lia). done.
Qed.

Lemma write_link_wp src c off p w (Q : PhysPage * Z → W → Prop) (R : FSError → W → Prop) :
  up w → page_ok src → 0 <= c <= 2 ^ 51 → extent_ok p → size p <= c * PAGE_SIZE → 0 <= off →
  off + size p <= count src * PAGE_SIZE → start p + size p / 512 <= disk_sectors w →
  (∀ w', up w' → disk_sectors w' = disk_sectors w →
     (∀ j, 0 <= j → sector w' j = if (start p <=? j) && (j <? start p + size p / 512)
        then slice (Z.to_nat (off + (j - start p) * 512)) 512 (bytes src) else sector w j) →
     Q (zero_page c, off + size p) w') →
  wp (write_link src (zero_page c, off) p) Q R w.
Proof.
  intros [U1 U2] [Hs1 Hs2] Hc Hp Hfit Ho Hle Hdisk HQ.
  destruct (extent_sectors p Hp) as (k & K1 & K2 & K3 & K4). destruct Hp as (P1 & _ & _ & P4).
  unfold write_link. unfold PAGE_SIZE in *. rewrite Hs2.
  rewrite (proj2 (Z.leb_le (off + size p) _)) by lia.
  set (data := slice (Z.to_nat off) (Z.to_nat (size p)) (bytes src)).
  assert (length data = Z.to_nat (size p)) as Hdata by (apply length_slice; rewrite Hs2; lia).
  destruct (refill_zero c data _ (proj1 Hc) Hdata) as (R1 & R2 & R3); [unfold PAGE_SIZE; lia|].
  assert (page_ok (mkPage c (splice 0 data (bytes (zero_page c))))) as Hok by done.
  apply wp_bind, copy_to_wp; [simpl; rewrite length_drop, Hs2; lia| |].
  { simpl. rewrite length_replicate. unfold PAGE_SIZE. lia. }
  cbn [bytes count]. change (take (Z.to_nat (size p)) (drop (Z.to_nat off) (bytes src))) with data.
  change (Z.to_nat 0) with 0%nat. rewrite K4. apply wp_bind, wp_map_errM.
  eapply wp_mono; [apply (disk_write_spec _ _ _ _ U1 Hok); [lia|lia|lia|unfold PAGE_SIZE; simpl; lia]| |by intros].
  intros [] w' (A1 & A2 & A3 & A4). apply wp_bind, copy_to_wp; cbn [bytes count].
  { rewrite length_replicate. lia. }
  { rewrite R1. unfold PAGE_SIZE. lia. }
  apply wp_ret. change (Z.to_nat 0) with 0%nat. rewrite take_ge by (by rewrite length_replicate).
  rewrite R2, u64_small by (unfold in_u64; lia).
  apply HQ; [by split; auto|done|]. intros j Hj. rewrite A4, K3 by done.
  destruct ((start p <=? j) && (j <? start p + k)) eqn:E; [|done]. zb.
  unfold psec. cbn [bytes]. rewrite R3 by lia. unfold data. rewrite slice_slice by lia. f_equal. lia.
Qed.

Lemma write_loop_wp src c links pre w (Q : PhysPage * Z → W → Prop) (R : FSError → W → Prop) :
  let blocks l := concat (extent_blocks <$> l) in
  up w → page_ok src → 0 <= c <= 2 ^ 51 → Forall extent_ok links →
  Forall (λ p, size p <= c * PAGE_SIZE) links →
  NoDup (pre ++ blocks links) → Forall (on_disk w) (pre ++ blocks links) →
  512 * len (pre ++ blocks links) <= count src * PAGE_SIZE → holds (bytes src) pre w →
  (∀ r w', up w' → disk_sectors w' = disk_sectors w → holds (bytes src) (pre ++ blocks links) w' →
     (∀ j, 0 <= j → j ∉ blocks links → sector w' j = sector w j) → Q r w') →
  wp (foldM (write_link src) (zero_page c, 512 * len pre) links) Q R w.
Proof.
  intros blocks. revert pre w. induction links as [|p links IH]; intros pre w U Hs Hc He Hf Hnd Hon Hle Hh HQ.
  { apply wp_ret, HQ; [done..| |done]. unfold blocks. cbn. by rewrite app_nil_r. }
  apply Forall_cons in He as [Hp He]. apply Forall_cons in Hf as [Hfp Hf].
  assert (blocks (p :: links) = extent_blocks p ++ blocks links) as Eb by done. rewrite Eb in *.
  destruct (extent_sectors p Hp) as (k & K1 & K2 & K3 & K4).
  assert (length (extent_blocks p) = Z.to_nat k) as Hlen
    by (unfold extent_blocks; by rewrite length_seqZ, K3).
  rewrite app_assoc in Hnd, Hon, Hle. pose proof Hon as [[Hon1 Hon2]%Forall_app Hon3]%Forall_app.
  rewrite Forall_forall in Hon1, Hon2. pose proof Hle as Hle'. unfold len in Hle'. rewrite !length_app in Hle'.
  cbn [foldM]. apply wp_bind.
  apply write_link_wp; [done|done|done|done|done|unfold len; lia|unfold len; lia| |].
  { assert (on_disk w (start p + (k - 1))) as [_ ?]; [|lia]. apply Hon2, elem_of_seqZ. lia. }
  intros w1 U1 S1 P1. replace (512 * len pre + size p) with (512 * len (pre ++ extent_blocks p))
    by (unfold len; rewrite length_app, Hlen; lia).
  assert (∀ j, 0 <= j → j ∉ extent_blocks p → sector w1 j = sector w j) as Hkeep1.
  { intros j Hj Hnin. rewrite P1 by done. case_if as E; [|done]. zb. destruct Hnin. apply elem_of_seqZ. lia. }
  apply IH; [done|done|done|done|done|done| |done| |].
  - eapply Forall_impl; [exact Hon|]. intros x. by apply on_disk_eq.
  - intros j b [Hj|[Hj1 Hj2]]%lookup_app_Some.
    + apply list_elem_of_lookup_2 in Hj as Hb. rewrite Hkeep1; [by apply Hh|by apply Hon1|].
      rewrite <- app_assoc in Hnd. apply NoDup_app in Hnd as (_ & Hnd & _). intros Hin.
      apply (Hnd b Hb), elem_of_app. by left.
    + apply list_elem_of_lookup_2 in Hj2 as Hb. apply lookup_seqZ in Hj2 as [-> Hj2].
      rewrite P1 by (by apply Hon2). rewrite (proj2 (Z.leb_le (start p) _)), (proj2 (Z.ltb_lt _ (start p + size p / 512))) by lia.
      simpl. f_equal. unfold len. lia.
  - intros r w' U' S' Hh' Hkeep. rewrite <- app_assoc in Hh'. apply HQ; [done|congruence|done|].
    intros j Hj [Hn1 Hn2]%not_elem_of_app. by rewrite Hkeep, Hkeep1.
Qed.

(** Equal sectors make equal runs of bytes. *)
Lemma slices_eq (l1 l2 : list Z) m k :
  (∀ i, (i < k)%nat → slice (i * 512) 512 l1 = slice ((m + i) * 512) 512 l2) →
  slice 0 (k * 512) l1 = slice (m * 512) (k * 512) l2.
Proof.
  induction k as [|k IH]; intros H; [by unfold slice; rewrite !take_0|].
  assert (∀ a n b (l : list Z), slice a (n + b) l = slice a n l ++ slice (a + n) b l) as Hs.
  { intros a n b l. unfold slice. rewrite <- (take_drop n (drop a l)) at 1. rewrite drop_drop.
    destruct (decide (n <= length (drop a l))%nat) as [Hle|Hlt].
    - rewrite take_app_ge by (rewrite length_take; lia). f_equal. f_equal. rewrite length_take. lia.
    - rewrite !(drop_ge l (a + n)) by (rewrite length_drop in Hlt; lia). rewrite take_nil, !app_nil_r.
      rewrite take_ge; [done|]. rewrite length_take. lia. }
  replace (S k * 512)%nat with (k * 512 + 512)%nat by lia. rewrite !Hs, IH by (intros i Hi; apply H; lia).
  f_equal. rewrite Nat.add_0_l, (H k) by lia. f_equal. lia.
Qed.

(** A page whose first [m] sectors come from [data]. *)
Definition mixed (data : list Z) (dest : PhysPage) (m : nat) : PhysPage :=
  mkPage (count dest) (take (m * 512) data ++ drop (m * 512) (bytes dest)).

Lemma mixed_step data dest m k :
  ((m + k) * 512 <= length data)%nat → ((m + k) * 512 <= length (bytes dest))%nat →
  splice (m * 512) (slice (m * 512) (k * 512) data) (bytes (mixed data dest m)) =
  bytes (mixed data dest (m + k)).
Proof.
  intros H1 H2. unfold mixed. cbn [bytes]. unfold splice.
  assert (length (take (m * 512) data) = (m * 512)%nat) as Hl by (rewrite length_take; lia).
  rewrite length_slice by lia. rewrite take_app_length' by done.
  rewrite drop_app_ge by lia. rewrite Hl, drop_drop, app_assoc. f_equal; [|f_equal; lia].
  unfold slice. replace ((m + k) * 512)%nat with (m * 512 + k * 512)%nat by lia.
  rewrite <- (take_drop (m * 512) data) at 3. rewrite take_app_ge by lia. rewrite Hl. do 2 f_equal. lia.
Qed.

Lemma read_link_wp total data dest pre p w (Q : PhysPage * Z → W → Prop) (R : FSError → W → Prop) :
  up w → extent_ok p → page_ok dest → total <= Z.of_nat (length data) →
  Forall (on_disk w) (extent_blocks p) → holds data (pre ++ extent_blocks p) w →
  512 * len (pre ++ extent_blocks p) <= total → total <= count dest * PAGE_SIZE →
  (∀ w', up w' → disk_eq w w' →
     Q (mixed data dest (length (pre ++ extent_blocks p)), 512 * len (pre ++ extent_blocks p)) w') →
  wp (read_link total (mixed data dest (length pre), 512 * len pre) p) Q R w.
Proof.
  intros [U1 U2] Hp [Hd1 Hd2] Hdata Hon Hh Hle Htot HQ.
  destruct (extent_sectors p Hp) as (k & K1 & K2 & K3 & K4). destruct Hp as (P1 & _ & _ & P4).
  assert (length (extent_blocks p) = Z.to_nat k) as Hlen
    by (unfold extent_blocks; by rewrite length_seqZ, K3).
  unfold len in *. rewrite length_app, Hlen in *. unfold PAGE_SIZE in *.
  unfold read_link. rewrite (proj2 (Z.leb_gt total _)) by lia. rewrite K4.
  rewrite (u64_small (total - _)) by (unfold in_u64; lia).
  rewrite Z.min_r by lia. apply wp_bind, wp_map_errM. rewrite Forall_forall in Hon.
  eapply wp_mono; [apply disk_read_spec; [done|lia|lia|]| |by intros].
  { assert (on_disk w (start p + (k - 1))) as [_ ?]; [|lia]. apply Hon, elem_of_seqZ. lia. }
  intros pg w' ([O1 O2] & C & P & D1 & D2 & D3 & D4).
  pose proof (div_ceil_bounds (k * 512) 4096 ltac:(done)) as Bd. unfold PAGE_SIZE in *.
  apply wp_bind, copy_to_wp; [rewrite O2, C, K2; lia| |].
  { unfold mixed. cbn [bytes]. rewrite length_app, length_take, length_drop, Hd2. lia. }
  apply wp_ret. rewrite u64_small by (unfold in_u64; lia).
  replace (take (Z.to_nat (size p)) (bytes pg)) with (slice (length pre * 512) (Z.to_nat k * 512) data).
  2:{ rewrite <- (slices_eq (bytes pg) data (length pre) (Z.to_nat k)).
      - unfold slice. rewrite drop_0. f_equal. lia.
      - intros i Hi. specialize (P (Z.of_nat i) ltac:(lia)). unfold psec in P.
        replace (Z.to_nat (Z.of_nat i * 512)) with (i * 512)%nat in P by lia. rewrite P.
        apply Hh. rewrite lookup_app_r by lia. apply lookup_seqZ. rewrite K3. lia. }
  replace (Z.to_nat (512 * Z.of_nat (length pre))) with (length pre * 512)%nat by lia.
  rewrite mixed_step by (rewrite ?Hd2; lia).
  replace (512 * Z.of_nat (length pre) + size p) with (512 * Z.of_nat (length pre + Z.to_nat k)) by lia.
  apply HQ; [by split; auto|]. by split.
Qed.

Lemma read_loop_wp total data dest links pre w (Q : PhysPage * Z → W → Prop) (R : FSError → W → Prop) :
  let blocks l := concat (extent_blocks <$> l) in
  up w → Forall extent_ok links → page_ok dest → total <= Z.of_nat (length data) →
  Forall (on_disk w) (pre ++ blocks links) → holds data (pre ++ blocks links) w →
  512 * len (pre ++ blocks links) <= total → total <= count dest * PAGE_SIZE →
  (∀ w' off, Q (mixed data dest (length (pre ++ blocks links)), off) w') →
  wp (foldM (read_link total) (mixed data dest (length pre), 512 * len pre) links) Q R w.
Proof.
  intros blocks. revert pre w. induction links as [|p links IH]; intros pre w U He Hd Hdata Hon Hh Hle Htot HQ.
  { apply wp_ret. unfold blocks in HQ. cbn in HQ. rewrite app_nil_r in HQ. apply HQ. }
  apply Forall_cons in He as [Hp He].
  assert (blocks (p :: links) = extent_blocks p ++ blocks links) as Eb by done. rewrite Eb, app_assoc in *.
  pose proof Hon as [[_ Hon1]%Forall_app _]%Forall_app. cbn [foldM]. apply wp_bind.
  apply read_link_wp; [done|done|done|done|done| | |done|].
  - intros j b Hj. apply Hh. by apply lookup_app_l_Some.
  - unfold len in *. rewrite length_app in Hle. lia.
  - intros w1 U1 [E1 E2]. apply IH; [done|done|done|done| | |done|done|done].
    + eapply Forall_impl; [exact Hon|]. intros x. by apply on_disk_eq.
    + intros j b Hj. rewrite E2; [by apply Hh|]. rewrite Forall_forall in Hon.
      by apply Hon; eapply list_elem_of_lookup_2.
Qed.

Lemma foldl_max (xs : list Z) m b :
  m <= foldl Z.max m xs ∧ (∀ x, x ∈ xs → x <= foldl Z.max m xs) ∧
  (m <= b → Forall (λ x, x <= b) xs → foldl Z.max m xs <= b).
Proof.
  revert m. induction xs as [|x xs IH]; intros m; [split_and!; [done|by intros ? ?%elem_of_nil|done]|].
  cbn [foldl]. destruct (IH (Z.max m x)) as (I1 & I2 & I3). split_and!; [lia|..].
  - intros y [->|Hy]%elem_of_cons; [lia|by apply I2].
  - intros Hm Hx. inversion Hx; subst. apply I3; [lia|done].
Qed.

(** The largest link: an upper bound that a page can be allocated for. *)
Lemma max_sizes l (ls : list LinkPointer) :
  Forall extent_ok (l :: ls) → let m := foldl Z.max (size l) (size <$> ls) in
  0 <= m <= 2 ^ 62 ∧ Forall (λ p, size p <= m) (l :: ls).
Proof.
  intros He m. destruct (foldl_max (size <$> ls) (size l) (2 ^ 62)) as (M1 & M2 & M3). fold m in M1, M2, M3.
  assert (Forall (λ p, 0 < size p <= 2 ^ 62) (l :: ls)) as Hb.
  { eapply Forall_impl; [exact He|]. intros p Hp. destruct (extent_sectors p Hp) as (k & ? & ? & ? & _).
    destruct Hp as (? & ? & _ & ?). lia. }
  apply Forall_cons in Hb as [Hb1 Hb2]. split; [split; [lia|]|].
  - apply M3; [lia|]. apply Forall_fmap. eapply Forall_impl; [exact Hb2|]. simpl. lia.
  - apply Forall_cons. split; [done|]. apply Forall_forall. intros p Hp. apply M2, list_elem_of_fmap. by exists p.
Qed.

(** C13. Writing a file through its links and reading it back returns the data:
    for links over distinct blocks of a healthy disk, [read] after [write] copies
    exactly the bytes written, leaves the rest of the destination alone and
    reports their number; no other block of the disk changes. *)
Theorem file_data_roundtrip (links : list LinkPointer) (src dest : PhysPage) w :
  let blocks := concat (extent_blocks <$> links) in
  up w → page_ok src → page_ok dest → links ≠ [] → Forall extent_ok links →
  NoDup blocks → Forall (on_disk w) blocks →
  512 * len blocks <= count src * PAGE_SIZE → 512 * len blocks <= count dest * PAGE_SIZE →
  wp (write_links links src) (λ _ w',
      (∀ j, 0 <= j → j ∉ blocks → sector w' j = sector w j) ∧
      wp (read_links links dest)
        (λ r _, r = (512 * len blocks, mixed (bytes src) dest (length blocks))) (λ _ _, False) w')
    (λ _ _, False) w.
Proof.
  intros blocks U Hs Hd Hne He Hnd Hon H1 H2. destruct links as [|l ls]; [done|].
  pose proof (sum_sizes_spec (l :: ls) He) as Hsum. fold blocks in Hsum.
  destruct (Hs) as [Hs1 Hs2], (Hd) as [Hd1 Hd2]. unfold PAGE_SIZE in *.
  rewrite u64_small in Hsum by (unfold in_u64, len; unfold len in *; lia).
  destruct (max_sizes l ls He) as [Hm1 Hm2]. set (m := foldl Z.max (size l) (size <$> ls)) in *.
  pose proof (div_ceil_bounds m 4096 ltac:(done)) as Bd.
  unfold write_links. fold m. apply wp_bind, wp_map_errM. unfold PAGE_SIZE.
  eapply wp_mono; [apply disk_page_spec; [apply U|lia]| |intros e w' Hn; apply Hn, U].
  intros pg w1 (-> & A1 & A2 & A3 & A4). apply wp_bind.
  assert (Forall (on_disk w1) blocks) as Hon1 by (eapply Forall_impl; [exact Hon|]; intros x; by apply on_disk_eq).
  apply (write_loop_wp src _ (l :: ls) []); [split; [done|apply A3, U]|done|lia|done| |done|done|done|by intros ? ?|].
  { eapply Forall_impl; [exact Hm2|]. intros p Hp. unfold PAGE_SIZE. simpl in Hp. lia. }
  intros r w2 U2 S2 Hh Hkeep. apply wp_ret. split.
  { intros j Hj Hn. rewrite Hkeep by done. by apply A4. }
  unfold read_links. rewrite Hsum. rewrite (u64_small (count dest * PAGE_SIZE)) by (unfold in_u64, PAGE_SIZE; lia).
  unfold PAGE_SIZE. rewrite Z.min_l by done. apply wp_bind.
  replace dest with (mixed (bytes src) dest 0) at 1 by (unfold mixed; simpl; by destruct dest).
  apply (read_loop_wp _ (bytes src) dest (l :: ls) []);
    [done|done|done|rewrite Hs2; unfold PAGE_SIZE, len in *; lia| |done|done|done|].
  - eapply Forall_impl; [exact Hon1|]. intros x. by apply on_disk_eq.
  - intros w' off. by apply wp_ret.
Qed.
End contents.

(** ** Mounting *)

Section mount.
Context {W : Type} {DK : SectorDisk W} {SL : SectorLaws W}.
Implicit Types w : W.

Lemma length_block_raw st : Bitmap.state_ok st → length (Bitmap.block_raw st) = 512%nat.
Proof. destruct st; [done..|]. by intros [[? _] _]. Qed.

(** Loading the blocks [l] of a bitmap. *)
Lemma load_bitmap_wp l pre ds b0 w (Q : Bitmap.BitmapAllocator → W → Prop) (R : FSError → W → Prop) :
  up w → Forall Bitmap.state_ok l → 0 <= b0 → b0 + len l <= disk_sectors w →
  (∀ i st, l !! i = Some st → sector w (b0 + Z.of_nat i) = Bitmap.block_raw st) →
  (∀ w', up w' → disk_eq w w' → Q (Bitmap.mkBitmap (pre ++ l) ds) w') →
  wp (foldM (λ bitmap block,
    bitmap_block ← read_data (list Z) block;
    or_panic (Bitmap.add_block bitmap bitmap_block)) (Bitmap.mkBitmap pre ds) (seqZ b0 (len l))) Q R w.
Proof.
  intros U Hl. revert pre b0 w U. induction Hl as [|st l Hst Hl IH]; intros pre b0 w U Hb0 Hle Hsec HQ.
  { apply wp_ret. specialize (HQ w U ltac:(done)). by rewrite app_nil_r in HQ. }
  unfold len in *. cbn [length] in *. rewrite seqZ_cons by lia.
  replace (Z.pred (Z.of_nat (S (length l)))) with (Z.of_nat (length l)) by lia.
  cbn [foldM]. apply wp_bind, wp_bind, read_data_wp; [done|unfold on_disk; lia|]. intros w1 U1 E1.
  pose proof (Hsec 0%nat st eq_refl) as H0. rewrite Z.add_0_r in H0. cbn [decode lemon_bitmap].
  rewrite H0, Bitmap.add_block_raw by done. apply wp_ret. apply IH; [done|lia| | |].
  - rewrite (proj1 E1). lia.
  - intros i st' Hi. rewrite (proj2 E1) by lia. specialize (Hsec (S i) st' Hi). rewrite <- Hsec. f_equal. lia.
  - intros w2 U2 E2. rewrite <- app_assoc. apply HQ; [done|by etransitivity].
Qed.

(** Loading from a disk that holds the blocks [l] of a bitmap and the chain of
    the root directory. *)
Lemma load_wp sb l ls bs cs (P : Z → Prop) w
    (Q : SuperBlock * Bitmap.BitmapAllocator * list DirectoryEntry → W → Prop)
    (R : FSError → W → Prop) :
  up w → Forall Bitmap.state_ok l → 0 <= bitmap_start sb → data_start sb = bitmap_start sb + len l →
  data_start sb < data_end sb <= data_start sb + 4096 * len l →
  data_start sb + 4096 * len l < 18446744073709551616 → on_disk w (data_end sb) →
  (∀ i st, l !! i = Some st → sector w (bitmap_start sb + Z.of_nat i) = Bitmap.block_raw st) →
  dchain w (mkLink (data_end sb) 512) ls bs → NoDup ls →
  concat (block_entries <$> bs) = to_dentry <$> cs → Forall (file_links_ok P w) cs →
  (∀ b root w', up w' → disk_eq w w' → Bitmap.inv b → Bitmap.nbits b = 4096 * len l →
     Bitmap.data_start b = data_start sb →
     (∀ j, 0 <= j → Bitmap.bit_used b j =
        (data_end sb - 1 - data_start sb <? j) || Bitmap.bit_used (Bitmap.mkBitmap l (data_start sb)) j) →
     to_dentry <$> root = to_dentry <$> cs → Q (sb, b, root) w') →
  wp (load sb) Q R w.
Proof.
  intros U Hl Hb0 Hds Hde H64 Hon Hsec Hch Hnd Hent Hcs HQ. pose proof (disk_bound w (proj1 U)) as Hdb.
  unfold load. replace (data_start sb - bitmap_start sb) with (len l) by lia.
  unfold on_disk in Hon. assert (0 <= len l) by (unfold len; lia).
  apply wp_bind, load_bitmap_wp; [done|done|done|lia|done|]. intros w1 U1 E1. cbn [app].
  rewrite (u64_small (data_end sb - 1)) by (unfold in_u64; lia).
  set (b0 := Bitmap.mkBitmap l (data_start sb)).
  assert (Bitmap.nbits b0 = 4096 * len l) as Hnb by (unfold Bitmap.nbits, Bitmap.BITS_PER_BLOCK, len; simpl; lia).
  destruct (Bitmap.reserve_from_spec b0 (data_end sb - 1)) as (b & Eb & I & N & D & Ub).
  { split_and!; [done|rewrite Hnb; unfold in_u64; lia|simpl; lia]. }
  { simpl. lia. }
  { rewrite Hnb. simpl. lia. }
  rewrite Eb. apply wp_bind, wp_ret, wp_bind, read_data_wp; [done|apply (on_disk_eq _ w); [apply E1|exact Hon]|].
  intros w2 U2 E2. assert (disk_eq w w2) as E12 by (by etransitivity).
  apply wp_bind, wp_bind, wp_bind, wp_gets.
  eapply (add_children_wp _ w2 _ ls bs [] _ _ w); [done|done|by eapply dchain_eq|..].
  - eapply dchain_bound; [done|by eapply dchain_eq|done].
  - by eapply entries_load.
  - intros cs' w3 U3 E3 Hcs'. apply wp_ret, wp_ret. cbn [d_children].
    apply HQ; [done|done|done|congruence|done|exact Ub|]. by rewrite Hcs', Hent.
Qed.

(** The state of a mounted file system: a superblock in range, a bitmap in which
    the blocks past the data are reserved, and a root directory on disk with the
    cached entries. *)
Definition mounted (fs : LemonFS W) : Prop :=
  let sb := superblock fs in
  let b := bitmap fs in
  db_ok (drive fs, b) ∧ wf_sb sb ∧ bitmap_start sb = 1 ∧
  data_start sb = 1 + len (Bitmap.blocks b) ∧ Bitmap.data_start b = data_start sb ∧
  data_start sb < data_end sb < disk_sectors (drive fs) - 1 ∧
  data_end sb <= data_start sb + Bitmap.nbits b ∧
  (∀ x, free_block (drive fs, b) x → x < data_end sb) ∧
  ∃ ls bs, dchain (drive fs) (root_ptr fs) ls bs ∧ NoDup ls ∧
    Forall (λ l, data_start sb <= l < disk_sectors (drive fs) - 1) ls ∧
    concat (block_entries <$> bs) = to_dentry <$> root fs ∧
    Forall (file_links_ok (λ l, data_start sb <= l < disk_sectors (drive fs) - 1) (drive fs)) (root fs).

Lemma superblock_new_spec n sb :
  n <= 2 ^ 53 → superblock_new n = Some sb →
  wf_sb sb ∧ 0x1000 <= n ∧ bitmap_start sb = 1 ∧ data_start sb = 1 + div_ceil n 4096 ∧
  data_end sb = n - 2 ∧ 1 <= div_ceil n 4096 ∧ n <= 4096 * div_ceil n 4096 < n + 4096.
Proof.
  intros Hn. unfold superblock_new. destruct (n <? 0x1000) eqn:E; [done|]. zb.
  intros <-%(inj Some).
  pose proof (div_ceil_bounds n 4096 ltac:(lia)). unfold wf_sb, in_u32, in_u64.
  cbn [magic version sb_reserved flags checksum bitmap_start data_start data_end sb_padding].
  split_and!; try lia; try apply length_replicate; try reflexivity.
  unfold bytes_ok. rewrite !Forall_app. split_and!; [|by apply Forall_replicate..].
  unfold LEMONFS_MAGIC, in_u8. repeat constructor; lia.
Qed.

Lemma find_superblock_wp w (Q : SuperBlock → W → Prop) (R : FSError → W → Prop) :
  wp get_superblock (λ r w', Q r.1 w')
    (λ e w', match e with BadSuperblock => wp format Q R w' | _ => R e w' end) w →
  wp find_superblock Q R w.
Proof.
  unfold wp, find_superblock. destruct (get_superblock w) as [[sb|e| |] w']; [done| |done..].
  by destruct e.
Qed.

(** What [format] leaves on the disk. *)
Lemma format_wp sb w (Q : SuperBlock → W → Prop) (R : FSError → W → Prop) :
  up w → superblock_new (disk_sectors w) = Some sb →
  (∀ w', up w' → disk_sectors w' = disk_sectors w →
     (∀ j, bitmap_start sb <= j < data_start sb → sector w' j = replicate 512 0) →
     sector w' (data_end sb) = replicate 512 0 → Q sb w') →
  wp format Q R w.
Proof.
  intros U Hsb HQ. pose proof (disk_bound w (proj1 U)) as Hdb.
  destruct (superblock_new_spec _ _ (proj2 Hdb) Hsb) as (Hwf & Hn & B1 & B2 & B3 & B4 & B5).
  unfold format. apply wp_bind, wp_gets, wp_bind. rewrite Hsb. apply wp_ret, wp_bind.
  apply write_sb_wp; [done|done|lia|]. intros w1 U1 S1 _.
  rewrite (u64_small (data_start sb - bitmap_start sb)) by (unfold in_u64; lia).
  apply wp_bind, zero_range_wp; [done|lia|lia|lia|]. intros w2 U2 [S2 P2].
  apply wp_bind, zero_range_wp; [done|lia|lia|lia|]. intros w3 U3 [S3 P3].
  apply wp_ret, HQ; [done|lia| |].
  - intros j Hj. rewrite P3, P2 by lia.
    rewrite (proj2 (Z.leb_le (bitmap_start sb) j)), (proj2 (Z.ltb_lt j (bitmap_start sb + _))) by lia.
    by destruct (_ && _).
  - rewrite P3, Z.leb_refl, (proj2 (Z.ltb_lt _ (data_end sb + 1))) by lia. done.
Qed.

Lemma zero_dirblock :
  next (decode_dirblock (replicate 512 0)) = mkLink 0 0 ∧
  block_entries (decode_dirblock (replicate 512 0)) = [].
Proof. split; vm_compute; reflexivity. Qed.

Lemma bit_used_free k ds j : 0 <= j → Bitmap.bit_used (Bitmap.mkBitmap (replicate k Bitmap.Free) ds) j = (4096 * Z.of_nat k <=? j).
Proof.
  intros Hj. unfold Bitmap.bit_used, Bitmap.block_of, Bitmap.BITS_PER_BLOCK. cbn [Bitmap.blocks].
  destruct (4096 * Z.of_nat k <=? j) eqn:E; zb.
  - rewrite lookup_ge_None_2; [done|]. rewrite length_replicate.
    assert (Z.of_nat k <= j / 4096) by (apply Z.div_le_lower_bound; lia). lia.
  - rewrite lookup_replicate_2; [done|].
    assert (0 <= j / 4096 < Z.of_nat k); [|lia].
    split; [apply Z.div_pos; lia|apply Z.div_lt_upper_bound; lia].
Qed.

(** C26. On a healthy disk of at least 4096 sectors that holds no superblock,
    mounting formats it: the file system is mounted and empty, and exactly the
    blocks from [data_start] to [data_end] are free. *)
Theorem format_mount w :
  up w → 0x1000 <= disk_sectors w →
  check_sb (decode (sector w 0)) = false →
  check_sb (decode (sector w (disk_sectors w - 1))) = false →
  wp init (λ r w',
      let '(sb, b, rt) := r in
      superblock_new (disk_sectors w) = Some sb ∧ rt = [] ∧ mounted (mkFS w' sb b rt) ∧
      ∀ x, free_block (w', b) x ↔ data_start sb <= x < data_end sb)
    (λ _ _, False) w.
Proof.
  intros U Hn C1 C2. pose proof (disk_bound w (proj1 U)) as Hdb.
  destruct (superblock_new (disk_sectors w)) as [sb|] eqn:Hsb.
  2:{ unfold superblock_new in Hsb. destruct (_ <? _) eqn:E; zb; [lia|done]. }
  destruct (superblock_new_spec _ _ (proj2 Hdb) Hsb) as (Hwf & _ & B1 & B2 & B3 & B4 & B5).
  apply wp_bind, find_superblock_wp, get_superblock_wp; [done|lia|]. intros w1 U1 [S1 P1].
  cbv zeta. rewrite C1, C2. apply (format_wp sb); [done|by rewrite S1|]. intros w2 U2 S2 Z1 Z2.
  set (k := Z.to_nat (div_ceil (disk_sectors w) 4096)).
  assert (len (replicate k Bitmap.Free) = div_ceil (disk_sectors w) 4096) as Hlen
    by (unfold len; rewrite length_replicate; lia).
  assert (dchain w2 (mkLink (data_end sb) 512) [data_end sb] [decode_dirblock (replicate 512 0)]) as Hch.
  { apply dchain_cons; [done|simpl; lia|unfold on_disk; simpl; lia|simpl start; by rewrite Z2|].
    rewrite (proj1 zero_dirblock). by constructor. }
  apply (load_wp sb (replicate k Bitmap.Free) [data_end sb] [decode_dirblock (replicate 512 0)] []
    (λ _, False)); [done|by apply Forall_replicate|lia|lia|lia|lia|unfold on_disk; lia| |done
    |apply NoDup_singleton|cbn [fmap list_fmap concat]; by rewrite (proj2 zero_dirblock)|constructor|].
  { intros i st [-> Hi]%lookup_replicate. rewrite Z1 by lia. done. }
  intros b rt w' U' [S' P'] I N D Ub Hrt. destruct rt; [|done].
  assert (∀ x, free_block (w', b) x ↔ data_start sb <= x < data_end sb) as Hfree.
  { intros x. unfold free_block. cbn [snd]. rewrite D. split.
    - intros [H1 H2]. rewrite Ub in H2 by lia. apply orb_false_elim in H2 as [H2 _]. zb. lia.
    - intros H1. split; [lia|]. rewrite Ub, bit_used_free by lia.
      apply orb_false_intro; [apply Z.ltb_ge|apply Z.leb_gt]; lia. }
  split_and!; [done|done| |done]. unfold mounted. cbn [superblock bitmap drive root].
  split_and!; [|done|done| |done|lia|lia|lia|intros x Hx%Hfree; lia|].
  - split_and!; [done|done|simpl; lia|simpl; lia|]. intros x Hx%Hfree. simpl. lia.
  - unfold Bitmap.nbits, Bitmap.BITS_PER_BLOCK in N. unfold len in *. lia.
  - exists [data_end sb], [decode_dirblock (replicate 512 0)]. split_and!.
    + eapply dchain_eq; [|done]. done.
    + apply NoDup_singleton.
    + constructor; [lia|constructor].
    + cbn [fmap list_fmap concat]. by rewrite (proj2 zero_dirblock).
    + constructor.
Qed.

(** ** Synchronising and mounting again *)

Lemma bitmap_sync_wp b b0 w (Q : unit → W → Prop) (R : FSError → W → Prop) :
  let l := Bitmap.blocks b in
  up w → Forall Bitmap.state_ok l → 0 <= b0 → b0 + len l <= disk_sectors w →
  (∀ w', up w' → disk_sectors w' = disk_sectors w →
     (∀ i st, l !! i = Some st → sector w' (b0 + Z.of_nat i) = Bitmap.block_raw st) →
     (∀ j, 0 <= j → j < b0 ∨ b0 + len l <= j → sector w' j = sector w j) → Q tt w') →
  wp (bitmap_sync b b0) Q R w.
Proof.
  intros l U Hl Hb0 Hle HQ. pose proof (disk_bound w (proj1 U)) as Hdb. unfold bitmap_sync. fold l.
  eapply wp_mono; [apply (wp_forM (λ k w', up w' ∧ disk_sectors w' = disk_sectors w ∧
    (∀ i st, (i < k)%nat → l !! i = Some st → sector w' (b0 + Z.of_nat i) = Bitmap.block_raw st) ∧
    (∀ j, 0 <= j → j < b0 ∨ b0 + Z.of_nat k <= j → sector w' j = sector w j)))| |done].
  - split_and!; [done|done|lia|done].
  - intros k [i st] w1 Hk (U1 & S1 & P1 & P2).
    apply lookup_zip_Some in Hk as [[-> Hk]%lookup_seqZ Hst]. unfold len in *.
    assert (Bitmap.state_ok st) by (by eapply Forall_lookup_1).
    rewrite u64_small by (unfold in_u64; lia).
    apply write_data_wp; [done|unfold on_disk; lia|by apply length_block_raw|].
    intros w2 U2 [S2 P3]. split_and!; [done|lia| |].
    + intros i st' Hi Hst'. rewrite P3 by lia. destruct (_ =? _) eqn:E; zb.
      * assert (i = k) as -> by lia. by simplify_eq.
      * apply P1; [lia|done].
    + intros j Hj Hout. rewrite P3 by done. rewrite (proj2 (Z.eqb_neq j _)) by lia. apply P2; [done|lia].
  - intros [] w' (U' & S' & P1 & P2).
    assert (length (zip (seqZ 0 (len l)) l) = length l) as Hz.
    { rewrite length_zip, length_seqZ. unfold len. lia. }
    rewrite Hz in *. apply HQ; [done|done| |done]. intros i st Hi. apply P1; [by eapply lookup_lt_Some|done].
Qed.

Lemma on_drive_wp {A} (m : M W FSError A) (Q : A → LemonFS W → Prop) (R : FSError → LemonFS W → Prop) fs :
  wp m (λ a w, Q a (mkFS w (superblock fs) (bitmap fs) (root fs)))
    (λ e w, R e (mkFS w (superblock fs) (bitmap fs) (root fs))) (drive fs) → wp (on_drive m) Q R fs.
Proof. unfold wp, on_drive. by destruct (m (drive fs)) as [[] ?]. Qed.

(** C9. What [sync] saves is what the next mount finds: after [sync] on a mounted
    file system, mounting the disk gives the superblock that was written, the
    same bitmap and a root directory with the same entries. *)
Theorem sync_remount (fs : LemonFS W) :
  mounted fs → up (drive fs) →
  wp sync (λ _ fs',
      wp init (λ r _, ∃ rt, r = (stamp (superblock fs), bitmap fs, rt) ∧
                 to_dentry <$> rt = to_dentry <$> root fs) (λ _ _, False) (drive fs'))
    (λ _ _, False) fs.
Proof.
  destruct fs as [w sb b rt]. intros (Hok & Hwf & B1 & B2 & B3 & B4 & B5 & B6 & ls & bs & Hch & Hnd & Hls & Hent & Hfl) U.
  cbn [superblock bitmap drive root root_ptr] in *. pose proof (disk_bound w (proj1 U)) as Hdb.
  destruct (Hok) as (_ & I & D1 & D2 & D3). cbn [fst snd] in *.
  assert (0 <= len (Bitmap.blocks b)) by (unfold len; lia).
  assert (Bitmap.nbits b = 4096 * len (Bitmap.blocks b)) as Hnb
    by (unfold Bitmap.nbits, Bitmap.BITS_PER_BLOCK, len; lia).
  unfold sync. apply wp_bind, wp_gets. cbn [id superblock bitmap]. rewrite B1.
  apply wp_bind, on_drive_wp, write_sb_wp; [done|done|simpl; lia|]. cbn [drive]. intros w1 U1 S1 P1.
  apply on_drive_wp. cbn [drive superblock bitmap root].
  apply bitmap_sync_wp; [done|by destruct I|lia|lia|]. intros w2 U2 S2 P2 P3.
  assert (∀ j, data_start sb <= j < disk_sectors w - 1 → sector w2 j = sector w j) as Hkeep.
  { intros j Hj. rewrite P3, P1 by lia.
    rewrite (proj2 (Z.eqb_neq j 0)), (proj2 (Z.eqb_neq j (disk_sectors w - 1))) by lia. done. }
  apply wp_bind, find_superblock_wp, get_superblock_wp; [done|lia|]. intros w3 U3 E3. cbv zeta.
  assert (decode (sector w2 0) = stamp sb) as Hd.
  { rewrite P3, P1 by lia. exact (decode_encode (A := SuperBlock) _ (stamp_wf sb Hwf)). }
  rewrite Hd, stamp_check. cbn [fst].
  assert (∀ j, data_start sb <= j < disk_sectors w - 1 → sector w3 j = sector w j) as Hkeep3.
  { intros j Hj. rewrite (proj2 E3) by lia. by apply Hkeep. }
  assert (disk_sectors w3 = disk_sectors w) as S3 by (rewrite (proj1 E3); lia).
  rewrite Forall_forall in Hls.
  apply (load_wp (stamp sb) (Bitmap.blocks b) ls bs rt
    (λ l, data_start sb <= l < disk_sectors w - 1));
    unfold stamp; cbn [bitmap_start data_start data_end with_checksum with_flags];
    [done|by destruct I|lia|lia|lia|lia|unfold on_disk; lia| | |done|done| |].
  - intros i st Hi. apply lookup_lt_Some in Hi as Hlt. rewrite (proj2 E3) by lia. rewrite B1. by apply P2.
  - eapply dchain_kept; [done| |exact Hch]. intros l Hl. by apply Hkeep3, Hls.
  - eapply Forall_impl; [exact Hfl|]. intros c. apply file_links_kept; [done|]. intros j _. apply Hkeep3.
  - intros b' rt' w' U' E' I' N' D' Ub Hrt. fold (stamp sb). exists rt'. split; [|done]. do 2 f_equal.
    apply Bitmap.bitmap_canonical; [done|done|congruence|congruence|]. intros i Hi. rewrite Ub by lia.
    destruct b as [l ds]. simpl in B3. subst ds.
    destruct (data_end sb - 1 - data_start sb <? i) eqn:E; [|done]. zb. cbn [orb]. symmetry.
    apply not_false_iff_true. intros Hf. specialize (B6 (data_start sb + i)). unfold free_block in B6.
    cbn [snd Bitmap.data_start] in B6. replace (data_start sb + i - data_start sb) with i in B6 by lia.
    specialize (B6 ltac:(split; [lia|done])). lia.
Qed.
End mount.

End LemonFS.
