(* ===== verification/LemonExamples.v ===== *)
(** * LemonFS on a disk in memory

    The theorems on LemonFS at work on a concrete disk: 16384 sectors of 512
    bytes, all zero at first. *)

From S2P Require Import Prelude Errors Pages Storage RamDisk Names Bitmap LemonDisk LemonLinks.
From S2P Require Import LemonFile LemonDir LemonFS.
From Stdlib Require Strings.String.
Import String.StringSyntax.
Import Errors Pages Storage RamDisk Names LemonDisk LemonLinks LemonFile LemonDir LemonFS.

Module LemonExamples.

Definition part : Partition := mkPartition 0 16384 [] Storage.LemonFS (mkGuid 0 0 0 [] []).
Definition ex_drive : StorageDrive RamDisk := ram_drive 512 16384.
Definition ex_laws : @DriveLaws RamDisk ex_drive := ram_laws 512 16384 ltac:(done).
Definition ex_disk : SectorDisk RamDisk := @partition_disk RamDisk ex_drive part.
Definition ex_sectors : @SectorLaws RamDisk ex_disk := @partition_sector_laws RamDisk ex_drive ex_laws part.

#[local] Existing Instance ex_disk.
#[local] Existing Instance ex_sectors.

Abbreviation DB := (RamDisk * Bitmap.BitmapAllocator)%type.

Lemma ex_up (d : RamDisk) : up d.
Proof. split; [|done]. split_and!; [by exists 1, 8|done..]. Qed.

Lemma ex_disk_sectors (d : RamDisk) : disk_sectors d = 16384.
Proof. reflexivity. Qed.

Definition ex_sb : SuperBlock := default (mkSB [] 0 [] 0 0 0 0 0 []) (superblock_new 16384).

Lemma ex_sb_wf : wf_sb ex_sb.
Proof. apply (superblock_new_spec 16384); [lia|]. reflexivity. Qed.

Lemma superblock_roundtrip_witness :
  ∃ w, write_sb ex_sb (∅ : RamDisk) = (Ok tt, w) ∧
  ∃ w', get_superblock w = (Ok (stamp ex_sb, false), w').
Proof.
  destruct (wp_Ok _ _ _ (superblock_roundtrip ex_sb (∅ : RamDisk) (ex_up ∅) ex_sb_wf
    ltac:(rewrite ex_disk_sectors; lia))) as ([] & w & E & _ & H & _).
  exists w. split; [exact E|]. apply wp_Ok in H as (r & w' & E' & ->). by exists w'.
Defined.

(** A bitmap whose first 4096 blocks are in use and whose next 4096 are free. *)
Definition ex_bitmap : Bitmap.BitmapAllocator := Bitmap.mkBitmap [Bitmap.Full; Bitmap.Free] 2.
Definition ex_db : DB := (∅, ex_bitmap).

Lemma ex_free (x : Z) : free_block ex_db x → 4098 <= x < 8194.
Proof.
  intros [H1 H2]. cbn in H1, H2. destruct (decide (x < 8194)).
  - split; [|done]. destruct (decide (4098 <= x)); [done|]. exfalso. revert H2.
    unfold Bitmap.bit_used, Bitmap.block_of, Bitmap.BITS_PER_BLOCK.
    rewrite (Z.div_small (x - 2)) by lia. done.
  - rewrite Bitmap.bit_used_outside in H2; [done|]. change (8192 <= x - 2). lia.
Qed.

Lemma ex_db_ok : db_ok ex_db.
Proof.
  split_and!; [apply ex_up|split_and!; [by repeat constructor|done|done]|done|done|].
  intros lba H%ex_free. rewrite ex_disk_sectors. lia.
Qed.

Lemma build_file_chain_roundtrip_witness :
  (build_file_chain [10; 11; 20] ex_db).1 = Ok (mkLink 4098 0) ∧
  wp (build_file_chain [10; 11; 20]) (λ head s',
      wp (trace head) (λ t _, concat (extent_blocks <$> t.1) = [10; 11; 20]) (λ _ _, False) s'.1)
    (λ e _, e = NoSpace) ex_db.
Proof.
  split; [vm_compute; reflexivity|].
  eapply wp_mono; [apply (build_file_chain_roundtrip [10; 11; 20] ex_db ex_db_ok ltac:(done))| |done].
  - repeat constructor; lia.
  - intros head s' (_ & _ & H). eapply wp_mono; [exact H| |done]. by intros t w' (? & _).
Defined.

Definition ex_dir : Directory :=
  mkDirectory (from_str (str "d")) 7
    [EDirectory (from_str (str "bin")) (mkLink 50 512); ESymLink (from_str (str "l")) (mkLink 0 0);
     EFile (mkFile (from_str (str "f")) 512 (mkLink 70 512) [])] (mkLink 60 512).

Lemma zero_sector (x : Z) : 0 <= x < 16384 → sector (∅ : RamDisk) x = replicate 512 0.
Proof.
  intros Hx. change (sec (H0 := ex_laws) part ∅ x = replicate 512 0). unfold sec.
  change (block_size (StorageDrive := ex_drive) ∅ / 512) with 1. rewrite Z.mod_1_r. reflexivity.
Qed.

(** A directory of one block that is still zero. *)
Lemma zero_dchain (x : Z) :
  0 < x < 16384 → dchain (∅ : RamDisk) (mkLink x 512) [x] [decode_dirblock (replicate 512 0)].
Proof.
  intros Hx. apply (dchain_cons ∅ (mkLink x 512)); [done|simpl; lia|split; rewrite ?ex_disk_sectors; simpl; lia| |].
  - cbn [start]. by rewrite zero_sector by lia.
  - rewrite (proj1 zero_dirblock). by constructor.
Qed.

Lemma directory_roundtrip_witness :
  (dir_sync ex_dir ex_db).1 = Ok tt ∧
  wp (dir_sync ex_dir) (λ _ s',
      wp (from_dir_block (decode_dirblock []) (d_name ex_dir) (d_head ex_dir))
        (λ d' _, to_dentry <$> d_children d' = to_dentry <$> d_children ex_dir) (λ _ _, False) s'.1)
    (λ e _, e = NoSpace) ex_db.
Proof.
  split; [vm_compute; reflexivity|].
  eapply wp_mono; [apply (directory_roundtrip ex_dir [60] (decode_dirblock []) ex_db ex_db_ok)| |done].
  - split_and!; [done|apply NoDup_singleton| |].
    + constructor; [|constructor]. split; [split; vm_compute; congruence|]. intros Hf%ex_free. lia.
    + eexists. apply zero_dchain. lia.
  - done.
  - repeat constructor; vm_compute; congruence.
  - repeat constructor.
  - by intros [] s' [_ ?].
Defined.

Lemma file_data_roundtrip_witness :
  wp (write_links [mkLink 10 1024; mkLink 20 512] (pattern 1)) (λ _ w',
      wp (read_links [mkLink 10 1024; mkLink 20 512] (zero_page 1))
        (λ r _, r.1 = 1536 ∧ psec r.2 2 = replicate 512 3) (λ _ _, False) w')
    (λ _ _, False) (∅ : RamDisk).
Proof.
  eapply wp_mono; [apply (file_data_roundtrip [mkLink 10 1024; mkLink 20 512] (pattern 1) (zero_page 1) ∅
    (ex_up ∅))| |done].
  - split; vm_compute; [split; congruence|reflexivity].
  - by apply page_ok_zero.
  - done.
  - apply Forall_cons. split; [|apply Forall_cons; split; [|apply Forall_nil_2]].
    + split_and!; [simpl; lia|done|by exists 2|vm_compute; congruence].
    + split_and!; [simpl; lia|done|by exists 1|vm_compute; congruence].
  - apply (bool_decide_unpack _). vm_compute. exact I.
  - repeat constructor; vm_compute; congruence.
  - vm_compute. congruence.
  - vm_compute. congruence.
  - intros [] w' [_ H]. eapply wp_mono; [exact H| |intros e w'' []]. intros r w'' ->. split; vm_compute; reflexivity.
Defined.

Lemma format_mount_witness :
  ∃ sb b w, init (∅ : RamDisk) = (Ok (sb, b, []), w) ∧ mounted (mkFS w sb b []) ∧ data_end sb = 16382.
Proof.
  destruct (wp_Ok _ _ _ (format_mount (∅ : RamDisk) (ex_up ∅) ltac:(rewrite ex_disk_sectors; lia)
    ltac:(rewrite zero_sector by lia; vm_compute; reflexivity)
    ltac:(rewrite ex_disk_sectors, zero_sector by lia; vm_compute; reflexivity)))
    as ([[sb b] rt] & w & E & Hsb & -> & Hm & _).
  exists sb, b, w. split; [exact E|]. split; [exact Hm|].
  rewrite ex_disk_sectors in Hsb. apply (superblock_new_spec 16384) in Hsb; [|lia].
  by destruct Hsb as (_ & _ & _ & _ & -> & _).
Defined.

(** A file system with one file, whose links are not cached. *)
Definition ex_fs : LemonFS.LemonFS RamDisk :=
  mkFS ∅ ex_sb (Bitmap.mkBitmap (replicate 4 Bitmap.Full) 5)
    [EFile (mkFile (from_str (str "a")) 0 (mkLink 100 4096) [])].

Lemma root_write_not_read_witness :
  (write (str "/a") (pattern 1) ex_fs).1 = Ok tt ∧
  (read (str "/a") (zero_page 1) (write (str "/a") (pattern 1) ex_fs).2).1 = Ok (0, zero_page 1) ∧
  (file_size (str "/a") (write (str "/a") (pattern 1) ex_fs).2).1 = Ok 4096.
Proof.
  assert ((write (str "/a") (pattern 1) ex_fs).1 = Ok tt) as E by (vm_compute; reflexivity).
  split; [exact E|]. split; [|vm_compute; reflexivity].
  destruct (write (str "/a") (pattern 1) ex_fs) as [r fs'] eqn:Ew. cbn [fst] in E. subst r. cbn [snd].
  destruct (root_write_not_read (str "/a") (str "a") 0 _ (pattern 1) (zero_page 1) ex_fs fs'
    eq_refl eq_refl eq_refl Ew) as [_ H]. by rewrite H.
Defined.

Lemma route_symlink_looks_too_high_witness :
  route_symlink (str "/d/l") (str "/a") ex_fs = (Err FileNotFound, ex_fs).
Proof.
  exact (route_symlink_looks_too_high (str "/d/l") (str "/a") (str "d") (str "l") ex_fs eq_refl eq_refl).
Defined.

(** The same file system without the file. *)
Definition ex_empty : LemonFS.LemonFS RamDisk :=
  mkFS ∅ ex_sb (Bitmap.mkBitmap (replicate 4 Bitmap.Full) 5) [].

Lemma ex_empty_mounted : mounted ex_empty.
Proof.
  destruct (superblock_new_spec 16384 ex_sb ltac:(lia) eq_refl) as (Hwf & _ & B1 & B2 & B3 & _).
  assert (∀ x, ¬ free_block (∅ : RamDisk, bitmap ex_empty) x) as Hfull.
  { intros x [H1 H2]. cbn [snd] in *. unfold Bitmap.bit_used in H2.
    destruct (Bitmap.blocks _ !! _) as [st|] eqn:E; [|done].
    change (Bitmap.blocks (bitmap ex_empty)) with (replicate 4 Bitmap.Full) in E.
    by apply lookup_replicate in E as [-> _]. }
  unfold mounted. cbn [superblock ex_empty]. rewrite B1, B2, B3.
  split_and!; [|exact Hwf|done|done|done|done|done|done|by intros x ?%Hfull|].
  - split_and!; [apply ex_up|split_and!; [by repeat constructor|done|done]|done|done|by intros x ?%Hfull].
  - exists [16382], [decode_dirblock (replicate 512 0)]. split_and!.
    + apply zero_dchain. lia.
    + apply NoDup_singleton.
    + constructor; [|constructor]. split; vm_compute; congruence.
    + cbn [fmap list_fmap concat]. by rewrite (proj2 zero_dirblock).
    + constructor.
Qed.

Lemma sync_remount_witness :
  ∃ fs, sync ex_empty = (Ok tt, fs) ∧
  ∃ w, init (drive fs) = (Ok (stamp ex_sb, bitmap ex_empty, []), w).
Proof.
  destruct (wp_Ok _ _ _ (sync_remount ex_empty ex_empty_mounted (ex_up ∅))) as ([] & fs & E & H).
  exists fs. split; [exact E|]. apply wp_Ok in H as (r & w & E' & rt & -> & Hrt).
  exists w. destruct rt; [exact E'|discriminate].
Defined.
End LemonExamples.
