(* ===== verification/Gpt.v ===== *)
(** * GUID partition tables (src/kernel/src/drivers/storage/gpt/)

    [gpt_init] reads the protective MBR, the primary or backup header and the
    entry array of a drive.  Its last loop has [continue] statements that do not
    advance the offset; the model repeats the round as the code does. *)

From S2P Require Import Prelude Errors Crc Pages Storage Names.
Import Errors Pages Storage Names.

Module Gpt.

(** ** GUIDs and partition types *)

Definition be_bytes (n : nat) (x : Z) : list Z := rev (le_bytes n x).

Definition guid_new (time_low time_mid time_high_ver clock_seq node : Z) : Guid :=
  mkGuid time_low time_mid time_high_ver (be_bytes 2 clock_seq) (slice 2 6 (be_bytes 8 node)).

Definition GUID_ZERO : Guid := guid_new 0 0 0 0 0.
Definition EFI_GUID : Guid := guid_new 0xC12A7328 0xF81F 0x11D2 0xBA4B 0xA0C93EC93B.
Definition LEMONFS_GUID : Guid := guid_new 0x8CBD0D4E 0xFE62 0x49CC 0xA982 0xFBD6F69ED888.

Definition type_guid (t : PartitionType) : Guid :=
  match t with
  | Efi => EFI_GUID
  | LemonFS => LEMONFS_GUID
  | Unknown guid => guid
  end.

Definition from_guid (guid : Guid) : PartitionType :=
  if decide (guid = LEMONFS_GUID) then LemonFS
  else if decide (guid = EFI_GUID) then Efi
  else Unknown guid.

(** ** Structures on disk *)

(** A little-endian field; a cell of memory holds a byte. *)
Definition at_ (off n : nat) (l : list Z) : Z := le_val (u8 <$> slice off n l).

Definition decode_guid (l : list Z) : Guid :=
  mkGuid (at_ 0 4 l) (at_ 4 2 l) (at_ 6 2 l) (slice 8 2 l) (slice 10 6 l).

(** The fields of [ProtectiveMBR] that are read. *)
Record ProtectiveMBR := mkMBR { protective_type : Z; boot_signature : Z }.

Definition decode_mbr (l : list Z) : ProtectiveMBR := mkMBR (at_ 450 1 l) (at_ 510 2 l).

Record PrimaryGPTHeader := mkHeader {
  signature : list Z; revision : Z; hdr_size : Z; header_crc : Z; hdr_reserved : Z;
  curr_block : Z; backup_block : Z; first_usable : Z; last_usable : Z; disk_guid : Guid;
  entry_start : Z; entry_count : Z; entry_byte_count : Z; entry_array_crc : Z
}.

Definition decode_header (l : list Z) : PrimaryGPTHeader :=
  mkHeader (slice 0 8 l) (at_ 8 4 l) (at_ 12 4 l) (at_ 16 4 l) (at_ 20 4 l) (at_ 24 8 l) (at_ 32 8 l)
    (at_ 40 8 l) (at_ 48 8 l) (decode_guid (slice 56 16 l)) (at_ 72 8 l) (at_ 80 4 l) (at_ 84 4 l)
    (at_ 88 4 l).

Record PartitionEntry := mkEntry {
  entry_type_guid : Guid; partition_guid : Guid; start_block : Z; end_block : Z; entry_flags : Z;
  entry_name : list Z
}.

(** An array of 16-bit units. *)
Definition units (k : nat) (l : list Z) : list Z := (λ i, at_ (2 * i) 2 l) <$> seq 0 k.

Definition decode_entry (l : list Z) : PartitionEntry :=
  mkEntry (decode_guid (slice 0 16 l)) (decode_guid (slice 16 16 l)) (at_ 32 8 l) (at_ 40 8 l)
    (at_ 48 8 l) (units 36 (slice 56 72 l)).

(** ** [String::from_utf16_lossy] *)

Definition encode_utf8 (c : Z) : list Z :=
  if c <? 0x80 then [c]
  else if c <? 0x800 then [Z.lor 0xC0 (Z.shiftr c 6); Z.lor 0x80 (Z.land c 0x3F)]
  else if c <? 0x10000 then
    [Z.lor 0xE0 (Z.shiftr c 12); Z.lor 0x80 (Z.land (Z.shiftr c 6) 0x3F); Z.lor 0x80 (Z.land c 0x3F)]
  else
    [Z.lor 0xF0 (Z.shiftr c 18); Z.lor 0x80 (Z.land (Z.shiftr c 12) 0x3F);
     Z.lor 0x80 (Z.land (Z.shiftr c 6) 0x3F); Z.lor 0x80 (Z.land c 0x3F)].

Fixpoint utf16_lossy (l : list Z) : Str :=
  match l with
  | [] => []
  | u :: l' =>
      if between 0xD800 0xDFFF u then
        match l' with
        | v :: l'' =>
            if (u <? 0xDC00) && between 0xDC00 0xDFFF v
            then encode_utf8 (0x10000 + (Z.land u 0x3FF) * 1024 + Z.land v 0x3FF) ++ utf16_lossy l''
            else encode_utf8 0xFFFD ++ utf16_lossy l'
        | [] => encode_utf8 0xFFFD
        end
      else encode_utf8 u ++ utf16_lossy l'
  end.

(** The name up to the first zero unit. *)
Fixpoint until_zero (l : list Z) : list Z :=
  match l with
  | [] => []
  | u :: l => if u =? 0 then [] else u :: until_zero l
  end.

(** ** Header checks *)

Definition GPT_SIG : list Z := [69; 70; 73; 32; 80; 65; 82; 84].

(** [checked_add(..) > Some(..)], where [None] is less than [Some]. *)
Definition option_gt (o : option Z) (x : Z) : bool :=
  match o with Some y => x <? y | None => false end.

Section gpt.
Context {W : Type} {SD : StorageDrive W}.

(** [header_bytes] are the first [size] bytes of the block. *)
Definition check_gpt_header (w : W) (header : PrimaryGPTHeader) (header_bytes : list Z)
    (is_backup : bool) : bool :=
  if negb (str_eqb (signature header) GPT_SIG) || (hdr_size header <? 92)
     || (block_size w <? hdr_size header) then false
  else
    let expected_block := if is_backup then block_count w ⊟ 1 else 1 in
    if negb (curr_block header =? expected_block) then false
    else if negb (crc32 (splice 16 (replicate 4 0) header_bytes) =? header_crc header) then false
    else if entry_count header <? 128 then false
    else if entry_byte_count header <? 128 then false
    else
      match checked_mul (entry_count header) (entry_byte_count header) with
      | None => false
      | Some total =>
          let alternate := if is_backup then 1 else block_count w ⊟ 1 in
          if (last_usable header <? first_usable header) || (block_count w <? last_usable header)
             || (entry_start header <=? 1) then false
          else if negb (backup_block header =? alternate) then false
          else
            let array_sectors := div_ceil total (block_size w) in
            negb (option_gt (checked_add (entry_start header) array_sectors) (first_usable header))
      end.

Abbreviation GResult A := (M W GPTError A).

Definition io {E A} (m : M W E A) : GResult A := map_errM (λ _, GPTIOError) m.

(** The header at the start of a page, and whether it passes. *)
Definition page_header (page : PhysPage) : GResult PrimaryGPTHeader :=
  data ← lift (ok_or (read_data 92 1 page 0) GPTIOError);
  mret (decode_header data).

Definition checked_header (page : PhysPage) (header : PrimaryGPTHeader) (is_backup : bool) :
    GResult bool :=
  gets (λ w, check_gpt_header w header (take (Z.to_nat (hdr_size header)) (bytes page)) is_backup).

(** The primary header, or else the one in the last block. *)
Definition find_header : GResult (PrimaryGPTHeader * bool) :=
  pages ← io (read_smart 1 1);
  gpt_header ← page_header pages;
  ok ← checked_header pages gpt_header false;
  if ok : bool then mret (gpt_header, false)
  else
    n ← gets block_count;
    pages ← io (read_blocks (n ⊟ 1) 1 pages);
    gpt_header ← page_header pages;
    ok ← checked_header pages gpt_header true;
    if ok : bool then mret (gpt_header, true) else fail BadHeader.

(** The entry array a header describes: its size in bytes and its blocks. *)
Definition read_entries (header : PrimaryGPTHeader) : GResult (Z * PhysPage) :=
  let total := Z.min (entry_count header * entry_byte_count header) (1024 * 1024 * 16) in
  bs ← gets block_size;
  array_block_count ← div_ceil_panic total bs;
  page ← io (read_smart (entry_start header) array_block_count);
  mret (total, page).

Definition entries_ok (header : PrimaryGPTHeader) (total : Z) (page : PhysPage) : bool :=
  crc32 (take (Z.to_nat total) (bytes page)) =? entry_array_crc header.

(** The array of the header, or that of the backup header. *)
Definition find_entries (header : PrimaryGPTHeader) (is_backup : bool) :
    GResult (PrimaryGPTHeader * PhysPage) :=
  r ← read_entries header;
  let '(total, entry_blocks) := r in
  if entries_ok header total entry_blocks then mret (header, entry_blocks)
  else
    backup_header_page ← io (read_smart (backup_block header) 1);
    header ← (if is_backup then mret header
              else
                h ← page_header backup_header_page;
                ok ← checked_header backup_header_page h true;
                if ok : bool then mret h else fail BadHeader);
    r ← read_entries header;
    let '(total, entry_blocks) := r in
    if entries_ok header total entry_blocks then mret (header, entry_blocks) else fail EntryCRCFailed.

(** ** The partitions *)

Definition entry_partition (entry : PartitionEntry) : Partition :=
  mkPartition (start_block entry) ((end_block entry ⊟ start_block entry) ⊞ 1)
    (utf16_lossy (until_zero (entry_name entry))) (from_guid (entry_type_guid entry))
    (partition_guid entry).

(** The three conditions under which the loop continues with the same entry. *)
Definition skips (header : PrimaryGPTHeader) (res : list Partition) (entry : PartitionEntry) : bool :=
  (match last res with
   | Some p => start_block entry <? start p ⊞ size_blocks p
   | None => false
   end)
  || (start_block entry <? first_usable header) || (last_usable header <? end_block entry)
  || (end_block entry <? start_block entry).

Fixpoint scan_entries (fuel : nat) (header : PrimaryGPTHeader) (entry_blocks : PhysPage)
    (res : list Partition) (offset : Z) : Prelude.res GPTError (list Partition) :=
  match fuel with
  | O => Loop
  | S fuel =>
      match read_data 128 1 entry_blocks offset with
      | None => Ok res
      | Some data =>
          let entry := decode_entry data in
          if decide (entry_type_guid entry = GUID_ZERO) then Ok res
          else if skips header res entry then scan_entries fuel header entry_blocks res offset
          else
            scan_entries fuel header entry_blocks (res ++ [entry_partition entry])
              (offset ⊞ entry_byte_count header)
      end
  end.

(** Entries have at least 128 bytes, so a page holds at most 32. *)
Definition scan_fuel (entry_blocks : PhysPage) : nat := S (Z.to_nat (count entry_blocks * 32)).

Definition gpt_init : GResult (list Partition) :=
  mbr_block ← io (read_smart 0 1);
  data ← lift (ok_or (read_data 512 1 mbr_block 0) GPTIOError);
  let mbr := decode_mbr data in
  if negb (boot_signature mbr =? 0xAA55) then fail BadMBR
  else
    h ← find_header;
    let '(gpt_header, is_backup) := h in
    e ← find_entries gpt_header is_backup;
    let '(gpt_header, entry_blocks) := e in
    lift (scan_entries (scan_fuel entry_blocks) gpt_header entry_blocks [] 0).
End gpt.

(** ** Accepted partitions *)

Lemma at_nonneg off n l : 0 <= at_ off n l.
Proof.
  unfold at_. apply (le_val_range (u8 <$> slice off n l)). apply Forall_fmap, Forall_true. intros x. apply u8_range.
Qed.

(** The partitions found so far: in the usable range, in order and apart. *)
Definition parts_ok (header : PrimaryGPTHeader) (res : list Partition) : Prop :=
  Forall (λ p, first_usable header <= start p ∧ 0 <= start p ∧ 0 < size_blocks p ∧
    start p + size_blocks p <= last_usable header + 1) res ∧
  StronglySorted (λ p q, start p + size_blocks p <= start q) res.

Lemma parts_ok_snoc header res entry :
  parts_ok header res → 0 <= start_block entry → last_usable header < 18446744073709551615 →
  skips header res entry = false → parts_ok header (res ++ [entry_partition entry]).
Proof.
  intros [H1 H2] Hs Hlast Hk. unfold skips in Hk.
  apply orb_false_elim in Hk as [[[K1 K2]%orb_false_elim K3]%orb_false_elim K4]. zb.
  assert (size_blocks (entry_partition entry) = end_block entry - start_block entry + 1) as Esz.
  { cbn [size_blocks entry_partition].
    rewrite (u64_small (end_block entry - _)), u64_small by (unfold in_u64; lia). done. }
  change (start (entry_partition entry)) with (start_block entry) in *.
  split.
  - apply Forall_app_2; [done|]. constructor; [|constructor]. rewrite Esz.
    change (start (entry_partition entry)) with (start_block entry). lia.
  - apply StronglySorted_app_iff. split_and!; [done|repeat constructor|].
    intros p q Hp ->%list_elem_of_singleton. change (start (entry_partition entry)) with (start_block entry).
    destruct res as [|l res _] using rev_ind; [by apply elem_of_nil in Hp|]. rewrite last_snoc in K1. zb.
    rewrite Forall_app in H1. destruct H1 as [H1 Hl]. inversion Hl as [|? ? (L1 & L2 & L3 & L4) _]; subst.
    rewrite u64_small in K1 by (unfold in_u64; lia).
    apply elem_of_app in Hp as [Hp| ->%list_elem_of_singleton]; [|lia].
    apply StronglySorted_app_iff in H2 as (_ & _ & H2).
    specialize (H2 p l Hp ltac:(by apply list_elem_of_singleton)). lia.
Qed.

Lemma scan_entries_ok fuel header blocks res offset ps :
  parts_ok header res → last_usable header < 18446744073709551615 →
  scan_entries fuel header blocks res offset = Ok ps → parts_ok header ps.
Proof.
  intros Hok Hl. revert res offset Hok. induction fuel as [|fuel IH]; intros res offset Hok Hs; [done|].
  cbn [scan_entries] in Hs. destruct (read_data 128 1 blocks offset) as [data|]; [|by simplify_eq].
  destruct (decide _); [by simplify_eq|]. destruct (skips _ _ _) eqn:Ek; [by eapply IH|].
  eapply IH; [|exact Hs]. apply parts_ok_snoc; [done|apply at_nonneg|done|done].
Qed.

(** ** What the scan computes *)

(** The entries of the table up to the first unused one. *)
Fixpoint table (n : nat) (header : PrimaryGPTHeader) (entry_blocks : PhysPage) (offset : Z) :
    list PartitionEntry :=
  match n with
  | O => []
  | S n =>
      match read_data 128 1 entry_blocks offset with
      | None => []
      | Some data =>
          let entry := decode_entry data in
          if decide (entry_type_guid entry = GUID_ZERO) then []
          else entry :: table n header entry_blocks (offset ⊞ entry_byte_count header)
      end
  end.

(** A table whose entries lie in the usable range, in order and apart. *)
Definition well_placed (header : PrimaryGPTHeader) (es : list PartitionEntry) : Prop :=
  Forall (λ e, first_usable header <= start_block e ∧ start_block e <= end_block e ∧
    end_block e <= last_usable header) es ∧
  StronglySorted (λ e f, end_block e < start_block f) es.

Lemma well_placed_app header es fs : well_placed header (es ++ fs) → well_placed header es.
Proof.
  intros [H1 H2]. rewrite Forall_app in H1. rewrite StronglySorted_app_iff in H2. split; [apply H1|apply H2].
Qed.

Lemma entry_partition_end header e :
  0 <= start_block e <= end_block e → end_block e <= last_usable header →
  last_usable header < 18446744073709551615 →
  start (entry_partition e) ⊞ size_blocks (entry_partition e) = end_block e + 1.
Proof.
  intros. cbn [start size_blocks entry_partition].
  rewrite (u64_small (end_block e - _)), (u64_small (end_block e - _ + 1)), u64_small by (unfold in_u64; lia). lia.
Qed.

(** An entry is skipped exactly when it does not fit behind the ones before it. *)
Lemma skips_spec header done e :
  last_usable header < 18446744073709551615 → Forall (λ e, 0 <= start_block e) done → 0 <= start_block e →
  well_placed header done →
  skips header (entry_partition <$> done) e = false ↔ well_placed header (done ++ [e]).
Proof.
  intros Hl Hd He [H1 H2]. unfold skips, well_placed.
  rewrite Forall_app, Forall_singleton, StronglySorted_app_iff, !orb_false_iff, fmap_last, !Z.ltb_ge.
  destruct done as [|l done _] using rev_ind.
  - simpl. split; [|naive_solver lia]. intros [[[_ ?] ?] ?]. split_and!; try lia; [repeat constructor..|].
    by intros ? ? ?%elem_of_nil.
  - rewrite last_snoc. cbn [fmap option_fmap option_map]. rewrite Forall_app, Forall_singleton in Hd, H1.
    destruct Hd as [_ Hd], H1 as [H1 Hlr].
    rewrite (entry_partition_end header l), Z.ltb_ge by lia.
    rewrite StronglySorted_app_iff in H2. destruct H2 as (H2 & H3 & H4). split.
    + intros [[[? ?] ?] ?]. split_and!; try lia; [by apply Forall_app_2; [|constructor]| |repeat constructor|].
      * apply StronglySorted_app_iff. done.
      * intros a b Ha ->%list_elem_of_singleton. apply elem_of_app in Ha as [Ha| ->%list_elem_of_singleton]; [|lia].
        specialize (H4 a l Ha ltac:(by apply list_elem_of_singleton)). lia.
    + intros ((_ & ?) & _ & _ & H5).
      specialize (H5 l e ltac:(apply elem_of_app; right; by apply list_elem_of_singleton)
        ltac:(by apply list_elem_of_singleton)). lia.
Qed.

(** A skipped entry is looked at for ever. *)
Lemma scan_stuck fuel header blocks res offset data :
  read_data 128 1 blocks offset = Some data → entry_type_guid (decode_entry data) ≠ GUID_ZERO →
  skips header res (decode_entry data) = true → scan_entries fuel header blocks res offset = Loop.
Proof.
  intros Hr Hz Hs. induction fuel as [|fuel IH]; [done|]. cbn [scan_entries]. rewrite Hr.
  rewrite decide_False by done. by rewrite Hs.
Qed.

Lemma read_entry_bound blocks offset data :
  page_ok blocks → 0 <= offset < 2 ^ 63 → read_data 128 1 blocks offset = Some data →
  offset + 128 <= count blocks * PAGE_SIZE.
Proof.
  intros [Hc _] Ho Hr. unfold read_data, PAGE_SIZE in *.
  rewrite !u64_small in Hr by (unfold in_u64; lia). case_bool; [done|]. zb. lia.
Qed.

Lemma scan_table n header blocks done offset :
  let es := table n header blocks offset in
  page_ok blocks → 128 <= entry_byte_count header < 2 ^ 32 → last_usable header < 18446744073709551615 →
  0 <= offset < 2 ^ 63 → count blocks * PAGE_SIZE < 2 ^ 62 →
  Z.max 0 (count blocks * PAGE_SIZE - offset) + 128 <= 128 * Z.of_nat n →
  Forall (λ e, 0 <= start_block e) done → well_placed header done →
  (well_placed header (done ++ es) →
     scan_entries n header blocks (entry_partition <$> done) offset = Ok (entry_partition <$> done ++ es)) ∧
  (¬ well_placed header (done ++ es) →
     ∀ fuel, scan_entries fuel header blocks (entry_partition <$> done) offset = Loop).
Proof.
  cbv zeta. intros Hp Hb Hl. revert done offset. induction n as [|n IH]; intros done offset Ho Hc Hn Hd Hw; [lia|].
  cbn [table scan_entries]. destruct (read_data 128 1 blocks offset) as [data|] eqn:Er;
    [|rewrite app_nil_r; split; [done|intros []; done]].
  destruct (decide _) as [|Hz]; [rewrite app_nil_r; split; [done|intros []; done]|].
  pose proof (read_entry_bound _ _ _ Hp Ho Er).
  assert (offset ⊞ entry_byte_count header = offset + entry_byte_count header) as Eo
    by (apply u64_small; unfold in_u64; lia).
  assert (0 <= start_block (decode_entry data)) as Hs by apply at_nonneg.
  pose proof (skips_spec header done (decode_entry data) Hl Hd Hs Hw) as Hk.
  set (e := decode_entry data) in *. set (es := table n header blocks _).
  replace (done ++ e :: es) with ((done ++ [e]) ++ es) by by rewrite <- app_assoc.
  destruct (skips header (entry_partition <$> done) e) eqn:Ek.
  - split; [intros Hw'%well_placed_app; apply Hk in Hw'; done|]. intros _ fuel. by eapply scan_stuck.
  - assert (Hw' : well_placed header (done ++ [e])) by by apply Hk.
    specialize (IH (done ++ [e]) (offset ⊞ entry_byte_count header)).
    rewrite fmap_app in IH. fold es in IH. cbn [fmap list_fmap] in IH.
    destruct IH as [IH1 IH2]; [lia|done|lia|by apply Forall_app_2; [|constructor]|done|].
    split; [done|]. intros Hnot [|fuel]; [done|]. cbn [scan_entries]. rewrite Er, decide_False by done.
    fold e. rewrite Ek. by apply IH2.
Qed.

(** C36. The scan of the entry array: when the used entries lie in the usable range,
    in order and apart, it returns their partitions, within the fuel of [gpt_init];
    any other table, with an entry the code means to skip, makes the loop of
    [init] run for ever, whatever the fuel. *)
Theorem gpt_scan_spec header blocks :
  let es := table (scan_fuel blocks) header blocks 0 in
  page_ok blocks → count blocks < 2 ^ 50 → 128 <= entry_byte_count header < 2 ^ 32 →
  last_usable header < 18446744073709551615 →
  (well_placed header es →
     scan_entries (scan_fuel blocks) header blocks [] 0 = Ok (entry_partition <$> es)) ∧
  (¬ well_placed header es → ∀ fuel, scan_entries fuel header blocks [] 0 = Loop).
Proof.
  intros es Hp Hc Hb Hl. apply (scan_table _ header blocks [] 0); try done.
  - unfold PAGE_SIZE. lia.
  - destruct Hp as [? _]. unfold scan_fuel, PAGE_SIZE. lia.
  - repeat constructor.
Qed.

Section gpt_proofs.
Context {W : Type} {SD : StorageDrive W}.
Implicit Types w : W.

(** The geometry of a drive does not change. *)
Variable N : Z.
Hypothesis fixed_count : ∀ w, block_count w = N.

Lemma header_last w header data b :
  check_gpt_header w header data b = true → last_usable header <= N ∧ 128 <= entry_byte_count header.
Proof.
  unfold check_gpt_header. rewrite fixed_count. repeat case_bool; try done. zb.
  destruct (checked_mul _ _); [|done]. repeat case_bool; try done. zb. lia.
Qed.

Lemma find_header_ok w header b w' :
  find_header w = (Ok (header, b), w') → last_usable header <= N ∧ 128 <= entry_byte_count header.
Proof.
  unfold find_header. intros (pg & w1 & _ & H)%bind_Ok_inv.
  apply bind_Ok_inv in H as (h & w2 & _ & H). apply bind_Ok_inv in H as (ok & w3 & E & H).
  injection E as E <-. destruct ok.
  { injection H as <- _ _. by eapply header_last. }
  apply bind_Ok_inv in H as (n & w4 & _ & H). apply bind_Ok_inv in H as (pg' & w5 & _ & H).
  apply bind_Ok_inv in H as (h' & w6 & _ & H). apply bind_Ok_inv in H as (ok & w7 & E' & H).
  injection E' as E' <-. destruct ok; [|done]. injection H as <- _ _. by eapply header_last.
Qed.

Lemma find_entries_ok w header b header' page w' :
  last_usable header <= N ∧ 128 <= entry_byte_count header →
  find_entries header b w = (Ok (header', page), w') →
  last_usable header' <= N ∧ 128 <= entry_byte_count header'.
Proof.
  intros Hh H. unfold find_entries in H. apply bind_Ok_inv in H as ([total pg] & w1 & _ & H).
  destruct (entries_ok _ _ _); [by injection H as <- _ _|].
  apply bind_Ok_inv in H as (pg' & w2 & _ & H). apply bind_Ok_inv in H as (h & w3 & E & H).
  apply bind_Ok_inv in H as ([total' pg''] & w4 & _ & H).
  destruct (entries_ok _ _ _); [|done]. injection H as <- _ _. destruct b; [by injection E as <- _|].
  apply bind_Ok_inv in E as (h' & w5 & _ & E). apply bind_Ok_inv in E as (ok & w6 & E' & E).
  injection E' as E' <-. destruct ok; [|done]. injection E as <- _. by eapply header_last.
Qed.

(** The partitions of a drive are in the order of the table, do not overlap,
    are not empty and end at most one block past the last block of the drive. *)
Theorem gpt_partitions_disjoint w ps w' :
  N < 18446744073709551615 → gpt_init w = (Ok ps, w') →
  StronglySorted (λ p q, start p + size_blocks p <= start q) ps ∧
  Forall (λ p, 0 <= start p ∧ 0 < size_blocks p ∧ start p + size_blocks p <= N + 1) ps.
Proof.
  intros HN H. unfold gpt_init in H. apply bind_Ok_inv in H as (mb & w1 & _ & H).
  apply bind_Ok_inv in H as (data & w2 & _ & H). destruct (negb _); [done|].
  apply bind_Ok_inv in H as ([h b] & w3 & Eh%find_header_ok & H).
  apply bind_Ok_inv in H as ([h' pg] & w4 & Ee & H). apply find_entries_ok in Ee as [El _]; [|done].
  apply (f_equal fst) in H. unfold lift in H. cbn [fst] in H. apply scan_entries_ok in H as [H1 H2]; [|by repeat constructor|lia].
  split; [done|]. eapply Forall_impl; [exact H1|]. simpl. intros p ?. lia.
Qed.

(** A backup header with the layout of the GPT specification, where the entry
    array of the backup lies behind the usable blocks, never passes the check. *)
Theorem backup_header_rejected w header data :
  last_usable header < entry_start header →
  entry_start header + div_ceil (entry_count header * entry_byte_count header) (block_size w)
    < 18446744073709551616 →
  0 < entry_count header * entry_byte_count header → 0 < block_size w →
  check_gpt_header w header data true = false.
Proof.
  intros H1 H2 H3 H4. unfold check_gpt_header. repeat case_bool; try done.
  unfold checked_mul. case_bool; [|done]. repeat case_bool; try done. zb.
  pose proof (div_ceil_pos _ _ H3 H4).
  unfold checked_add. rewrite (proj2 (Z.ltb_lt _ _) H2). simpl.
  rewrite (proj2 (Z.ltb_lt _ _)) by lia. done.
Qed.
End gpt_proofs.

End Gpt.
