(* ===== verification/GptExamples.v ===== *)
(** * Partition tables on a disk in memory

    The hypotheses of the theorems of [Gpt] hold on a disk of 100 blocks of 512
    bytes with a table of two partitions. *)

From S2P Require Import Prelude Errors Crc Pages Storage RamDisk Gpt.
Import Errors Pages Storage RamDisk Gpt.

Module GptExamples.

Definition guid_bytes (x : Z) : list Z := le_bytes 16 x.

Definition entry_bytes (guid first last : Z) : list Z :=
  guid_bytes guid ++ guid_bytes (guid + 1) ++ le_bytes 8 first ++ le_bytes 8 last ++ le_bytes 8 0
  ++ [82; 0; 111; 0; 111; 0; 116; 0] ++ replicate 64 0.

Definition entries : list Z :=
  entry_bytes 77 34 40 ++ entry_bytes 99 50 90 ++ replicate (126 * 128) 0.

Definition header_with (crc : Z) : list Z :=
  GPT_SIG ++ le_bytes 4 0x10000 ++ le_bytes 4 92 ++ le_bytes 4 crc ++ le_bytes 4 0 ++ le_bytes 8 1
  ++ le_bytes 8 99 ++ le_bytes 8 34 ++ le_bytes 8 90 ++ guid_bytes 5 ++ le_bytes 8 2
  ++ le_bytes 4 128 ++ le_bytes 4 128 ++ le_bytes 4 (crc32 entries).

Definition header_bytes : list Z := header_with (crc32 (header_with 0)).

Definition disk_bytes : list Z :=
  replicate 510 0 ++ [0x55; 0xAA] ++ header_bytes ++ replicate 420 0 ++ entries.

Definition gpt_disk : RamDisk :=
  list_to_map ((λ i, (Z.of_nat i, slice (512 * i) 512 disk_bytes)) <$> seq 0 34).

#[local] Instance gpt_drive : StorageDrive RamDisk := ram_drive 512 100.

Lemma gpt_partitions_disjoint_witness :
  ∃ p q w', gpt_init gpt_disk = (Ok [p; q], w') ∧
    StronglySorted (λ p q, start p + size_blocks p <= start q) [p; q] ∧
    Forall (λ p, 0 <= start p ∧ 0 < size_blocks p ∧ start p + size_blocks p <= 100 + 1) [p; q].
Proof.
  destruct (gpt_init gpt_disk) as [r w'] eqn:E.
  assert (match r with Ok [p; q] => true | _ => false end = true) as Hr.
  { change r with (fst (r, w')). rewrite <- E. vm_compute. reflexivity. }
  destruct r as [[|p [|q [|]]]| | |]; try discriminate Hr.
  exists p, q, w'. split; [reflexivity|].
  apply (@gpt_partitions_disjoint RamDisk gpt_drive 100 (λ _, eq_refl) gpt_disk _ w'); [reflexivity|exact E].
Defined.

(** The table of the disk, and one with the entries swapped. *)
Definition table_page (l : list Z) : PhysPage := mkPage 1 (resize 4096 0 l).
Definition the_header : PrimaryGPTHeader := decode_header header_bytes.
Definition good_page : PhysPage := table_page entries.
Definition swapped_page : PhysPage := table_page (entry_bytes 99 50 90 ++ entry_bytes 77 34 40).

Lemma table_page_ok l : page_ok (table_page l).
Proof. split; [done|]. cbn [bytes table_page]. rewrite length_resize. reflexivity. Qed.

Definition blocks_of (es : list PartitionEntry) : list (Z * Z) :=
  (λ e, (start_block e, end_block e)) <$> es.

Definition placed (header : PrimaryGPTHeader) (l : list (Z * Z)) : Prop :=
  Forall (λ '(s, e), first_usable header <= s ∧ s <= e ∧ e <= last_usable header) l ∧
  StronglySorted (λ '(_, e) '(s, _), e < s) l.

Lemma well_placed_blocks header es : well_placed header es ↔ placed header (blocks_of es).
Proof.
  unfold well_placed, placed, blocks_of. rewrite Forall_fmap. apply and_iff_compat_l.
  induction es as [|e es IH]; [split; constructor|]. cbn [fmap list_fmap]. split.
  - intros H. inversion H; subst. constructor; [by apply IH|]. by apply Forall_fmap.
  - intros H. inversion H as [|? ? H1 H2]; subst. constructor; [by apply IH|].
    rewrite Forall_fmap in H2. done.
Qed.

Lemma gpt_scan_spec_witness :
  (∃ es, length es = 2%nat ∧
    scan_entries (scan_fuel good_page) the_header good_page [] 0 = Ok (entry_partition <$> es)) ∧
  (∀ fuel, scan_entries fuel the_header swapped_page [] 0 = Loop).
Proof.
  split.
  - exists (table (scan_fuel good_page) the_header good_page 0). split; [vm_compute; reflexivity|].
    apply (gpt_scan_spec the_header good_page); [apply table_page_ok|reflexivity|..];
      [vm_compute; split; [discriminate|reflexivity]|vm_compute; reflexivity|].
    apply well_placed_blocks. vm_compute. split; repeat constructor; discriminate.
  - intros fuel. revert fuel.
    apply (gpt_scan_spec the_header swapped_page); [apply table_page_ok|reflexivity|..];
      [vm_compute; split; [discriminate|reflexivity]|vm_compute; reflexivity|].
    intros [_ H]%well_placed_blocks. revert H. vm_compute. intros H. inversion H as [|? ? _ H']; subst.
    inversion H' as [|? ? H'' _]; subst. discriminate H''.
Defined.

(** The backup header of the same disk: entries in blocks 67 to 98, usable blocks 34 to 66. *)
Definition backup_header : PrimaryGPTHeader :=
  mkHeader GPT_SIG 0x10000 92 0 0 99 1 34 66 GUID_ZERO 67 128 128 0.

Lemma backup_header_rejected_witness : check_gpt_header gpt_disk backup_header [] true = false.
Proof.
  apply (backup_header_rejected gpt_disk backup_header []); vm_compute; reflexivity.
Defined.

End GptExamples.
