(* ===== verification/Virt.v ===== *)
(** * Virtual memory (src/kernel/src/memory/virt.rs, user.rs)

    A [VMemAllocator] hands out virtual address ranges of one address space and
    maps them.  The page tables are changed through the mapper of the [x86_64]
    crate, a type class here ([Mapper]) with its documented behaviour
    ([MapperLaws]) stated on the leaves of the tables: which page is mapped to
    which frame, by an entry of which size.  [find_free_ranges] reads the tables
    themselves, as the function [mem] from table address and index to entry. *)

From S2P Require Import Prelude Errors RangeAllocator.
Import Errors.

Module Virt.

Definition SIZE_L1 : Z := Z.shiftl 1 12.
Definition SIZE_L2 : Z := Z.shiftl 1 21.
Definition SIZE_L3 : Z := Z.shiftl 1 30.
Definition SIZE_L4 : Z := Z.shiftl 1 39.

Inductive AddressSpace := Kernel | User.

#[export] Instance AddressSpace_eq_dec : EqDecision AddressSpace.
Proof. solve_decision. Defined.

Record VirtualRegion := mkRegion { rstart : Z; rsize : Z }.

(** ** The [x86_64] crate *)

Inductive PageSize := Size4KiB | Size2MiB | Size1GiB.

#[export] Instance PageSize_eq_dec : EqDecision PageSize.
Proof. solve_decision. Defined.

Definition SIZE (sz : PageSize) : Z :=
  match sz with Size4KiB => 0x1000 | Size2MiB => 0x200000 | Size1GiB => 0x40000000 end.

(** [PageTableFlags] *)
Definition PRESENT : Z := 1.
Definition WRITABLE : Z := 2.
Definition USER_ACCESSIBLE : Z := 4.
Definition WRITE_THROUGH : Z := 8.
Definition NO_CACHE : Z := 16.
Definition GLOBAL : Z := 256.
Definition NO_EXECUTE : Z := 0x8000000000000000.

Inductive MapToError := FrameAllocationFailed | MapParentHuge | PageAlreadyMapped.
Inductive UnmapError := UnmapParentHuge | PageNotMapped | InvalidFrameAddress.

(** Address arithmetic of the crate; [None] is a panic. *)
Class Addresses := {
  virt_new : Z → option Z;
  virt_add : Z → Z → option Z;
  virt_sub : Z → Z → option Z;
  phys_add : Z → Z → option Z;
  phys_new : Z → option Z
}.

(** The mapper for the tables below one L4 table; [W] is the state of the tables
    and of the frame allocator. *)
Class Mapper (W : Type) := {
  map_to : PageSize → Z → Z → Z → M W MapToError unit;
  unmap_page : PageSize → Z → M W UnmapError Z;
  clean_up_addr_range : Z → Z → M W Empty_set unit
}.

Definition canonical (a : Z) : Prop := 0 <= a < 2 ^ 47 ∨ 2 ^ 64 - 2 ^ 47 <= a < 2 ^ 64.

Class AddressLaws `{AD : Addresses} := {
  virt_new_ok a : canonical a → virt_new a = Some a;
  virt_add_ok a n : 0 <= n → canonical (a + n) → virt_add a n = Some (a + n);
  virt_add_panics a n : 0 <= n → ¬ canonical (a + n) → virt_add a n = None;
  virt_sub_ok a n : 0 <= n → canonical (a - n) → virt_sub a n = Some (a - n);
  phys_add_ok a n : 0 <= a → 0 <= n → a + n < 2 ^ 52 → phys_add a n = Some (a + n);
  phys_new_ok a : 0 <= a < 2 ^ 52 → phys_new a = Some a
}.

(** A 4 KiB page of the address space, as the tables map it: the size of the
    entry that maps it, the frame of the page and the flags. *)
Record Leaf := mkLeaf { lsize : PageSize; lframe : Z; lflags : Z }.

(** The number of 4 KiB pages of an entry, and the first page of the entry that
    holds page [v]. *)
Definition pages (sz : PageSize) : Z := SIZE sz / 4096.
Definition block (sz : PageSize) (v : Z) : Z := v - v mod pages sz.

Definition in_run (v n x : Z) : bool := (v <=? x) && (x <? v + n).

Class MapperLaws W `{MP : Mapper W} := {
  leaf : W → Z → option Leaf;
  leaf_block w v v' l :
    leaf w v = Some l → block (lsize l) v' = block (lsize l) v →
    ∃ l', leaf w v' = Some l' ∧ lsize l' = lsize l;
  map_to_law sz p f fl w :
    (SIZE sz | p) → (SIZE sz | f) →
    wp (map_to sz p f fl)
      (λ _ w', ∀ v,
        (in_run (p / 4096) (pages sz) v = true → leaf w v = None) ∧
        leaf w' v = if in_run (p / 4096) (pages sz) v
                    then Some (mkLeaf sz (f + (v - p / 4096) * 4096) fl) else leaf w v)
      (λ _ w', ∀ v, leaf w' v = leaf w v) w;
  unmap_law sz p w :
    (SIZE sz | p) →
    wp (unmap_page sz p)
      (λ _ w', (∃ l, leaf w (p / 4096) = Some l ∧ lsize l = sz) ∧
        ∀ v, leaf w' v = if in_run (p / 4096) (pages sz) v then None else leaf w v)
      (λ e w', (∀ v, leaf w' v = leaf w v) ∧
        (∀ l, leaf w (p / 4096) = Some l → lsize l ≠ sz) ∧
        (sz = Size4KiB → leaf w (p / 4096) = None → e = PageNotMapped)) w;
  clean_up_law p q w :
    wp (clean_up_addr_range p q) (λ _ w', ∀ v, leaf w' v = leaf w v) (λ _ _, False) w
}.

(** ** [VMemAllocator] *)

Definition align_down (a b : Z) : Z := a - a mod b.

Definition opt_panic {S E A} (o : option A) : M S E A :=
  match o with Some a => mret a | None => panic end.

(** The result of a fallible call, as a value. *)
Definition attempt {S E F A} (m : M S E A) : M S F (E + A) := λ s,
  match m s with
  | (Ok a, s) => (Ok (inr a), s)
  | (Err e, s) => (Ok (inl e), s)
  | (Panic, s) => (Panic, s)
  | (Loop, s) => (Loop, s)
  end.

Section allocator.
Context {W : Type} {AD : Addresses} {MP : Mapper W}.

(** One of the loops of [map]. *)
Fixpoint map_pages (n : nat) (sz : PageSize) (curr_virt curr_phys flags : Z) :
    M W MemoryError (Z * Z) :=
  match n with
  | O => mret (curr_virt, curr_phys)
  | S n =>
      map_errM (λ _, InvalidMapping)
        (map_to sz (align_down curr_virt (SIZE sz)) (align_down curr_phys (SIZE sz)) flags);;
      curr_virt ← opt_panic (virt_add curr_virt (SIZE sz));
      curr_phys ← opt_panic (phys_add curr_phys (SIZE sz));
      map_pages n sz curr_virt curr_phys flags
  end.

(** The part of [map] for one of the two large page sizes. *)
Definition map_large (sz : PageSize) (flags rem curr_virt curr_phys : Z) :
    M W MemoryError (Z * Z * Z) :=
  if (SIZE sz <=? rem) && is_multiple_of curr_phys (SIZE sz) && is_multiple_of curr_virt (SIZE sz) then
    let count := rem / SIZE sz in
    p ← map_pages (Z.to_nat count) sz curr_virt curr_phys flags;
    mret (rem ⊟ (count ⊠ SIZE sz), p.1, p.2)
  else mret (rem, curr_virt, curr_phys).

Definition map (region : VirtualRegion) (phys flags : Z) : M W MemoryError unit :=
  let flags := Z.lor flags PRESENT in
  r ← map_large Size1GiB flags (rsize region) (rstart region) phys;
  let '(rem, curr_virt, curr_phys) := r in
  r ← map_large Size2MiB flags rem curr_virt curr_phys;
  let '(rem, curr_virt, curr_phys) := r in
  let count := div_ceil rem (SIZE Size4KiB) in
  map_pages (Z.to_nat count) Size4KiB curr_virt curr_phys flags;;
  mret tt.

(** The attempts of [unmap] at the two large page sizes. *)
Definition unmap_large (sz : PageSize) (rem curr : Z) : M W MemoryError bool :=
  if (SIZE sz <=? rem) && is_multiple_of curr (SIZE sz) then
    r ← attempt (unmap_page sz (align_down curr (SIZE sz)));
    mret match r with inr _ => true | inl _ => false end
  else mret false.

Fixpoint unmap_loop (fuel : nat) (curr e : Z) : M W MemoryError unit :=
  match fuel with
  | O => lift Loop
  | S fuel =>
      if negb (curr <? e) then mret tt
      else
        let rem := e - curr in
        done ← unmap_large Size1GiB rem curr;
        if done : bool then
          curr ← opt_panic (virt_add curr (SIZE Size1GiB)); unmap_loop fuel curr e
        else
        done ← unmap_large Size2MiB rem curr;
        if done : bool then
          curr ← opt_panic (virt_add curr (SIZE Size2MiB)); unmap_loop fuel curr e
        else
        r ← attempt (unmap_page Size4KiB (align_down curr (SIZE Size4KiB)));
        match r with
        | inr _ | inl PageNotMapped =>
            curr ← opt_panic (virt_add curr (SIZE Size4KiB)); unmap_loop fuel curr e
        | inl _ => fail InvalidMapping
        end
  end.

(** Every round advances by at least a page. *)
Definition unmap_fuel (region : VirtualRegion) : nat := S (Z.to_nat (div_ceil (rsize region) 4096)).

Definition unmap (region : VirtualRegion) : M W MemoryError unit :=
  e ← opt_panic (virt_add (rstart region) (rsize region));
  unmap_loop (unmap_fuel region) (rstart region) e;;
  last ← opt_panic (virt_sub e 1);
  map_errM (λ e : Empty_set, match e with end)
    (clean_up_addr_range (align_down (rstart region) 4096) (align_down last 4096)).

Record VMemAllocator := mkVMem { page_table : W; allocator : Ranges.RangeAllocator }.

(** The methods on the page table, which leave the ranges alone. *)
Definition on_table {E A} (m : M W E A) : M VMemAllocator E A := λ s,
  let '(r, w) := m (page_table s) in (r, mkVMem w (allocator s)).

Definition alloc (count : Z) : M VMemAllocator Empty_set (option VirtualRegion) :=
  if count =? 0 then mret None
  else
    let align :=
      if is_multiple_of count 0x40000 then SIZE Size1GiB
      else if is_multiple_of count 0x200 then SIZE Size2MiB
      else SIZE Size4KiB in
    let size_bytes := count ⊠ SIZE Size4KiB in
    λ s,
      let '(start, al) := Ranges.allocate (allocator s) size_bytes align in
      let s := mkVMem (page_table s) al in
      match start with
      | None => (Ok None, s)
      | Some start =>
          match virt_new start with
          | None => (Panic, s)
          | Some start => (Ok (Some (mkRegion start size_bytes)), s)
          end
      end.

Definition reserve (region : VirtualRegion) : M VMemAllocator MemoryError unit :=
  if negb (is_multiple_of (rsize region) PAGE_SIZE) then fail InvalidMapping
  else if negb (is_multiple_of (rstart region) PAGE_SIZE) then fail InvalidMapping
  else λ s,
    let '(b, al) := Ranges.reserve (allocator s) (rstart region) (rsize region) in
    (if b then Ok tt else Err InvalidMapping, mkVMem (page_table s) al).

Definition free (region : VirtualRegion) : M VMemAllocator MemoryError unit :=
  on_table (unmap region);;
  modify (λ s, mkVMem (page_table s) (Ranges.free_range (allocator s) (rstart region) (rsize region))).

Definition map_fixed (region : VirtualRegion) (phys flags : Z) : M VMemAllocator MemoryError unit :=
  reserve region;;
  r ← attempt (on_table (map region phys flags));
  match r with
  | inl e => free region;; fail e
  | inr _ => mret tt
  end.

(** [MMIORegion::new] (wrappers.rs) and [map_page] (user.rs). *)
Definition mmio_flags : Z :=
  Z.lor (Z.lor (Z.lor (Z.lor NO_CACHE NO_EXECUTE) GLOBAL) WRITABLE) WRITE_THROUGH.

Definition mmio_new (phys pages : Z) : M VMemAllocator Empty_set (option VirtualRegion) :=
  r ← alloc pages;
  match r with
  | None => mret None
  | Some region =>
      r ← attempt (on_table (map region phys mmio_flags));
      match r with
      | inl _ => attempt (free region);; mret None
      | inr _ => mret (Some region)
      end
  end.

Definition map_page (phys count flags : Z) : M VMemAllocator MemoryError VirtualRegion :=
  r ← map_errM (λ e : Empty_set, match e with end) (alloc count);
  match r with
  | None => fail OutOfMemory
  | Some virt => on_table (map virt phys (Z.lor flags USER_ACCESSIBLE));; mret virt
  end.
End allocator.

(** ** Reading the tables *)

Section tables.
(** Entry [i] of the table at physical address [t]. *)
Variable mem : Z → Z → Z.

(** The fields of an x86-64 page-table entry. *)
Definition entry_addr (e : Z) : Z := Z.land e 0x000FFFFFFFFFF000.
Definition is_unused (e : Z) : bool := e =? 0.
Definition is_present (e : Z) : bool := Z.testbit e 0.
Definition is_huge (e : Z) : bool := Z.testbit e 7.

(** The argument of [VirtAddr::new]; it is canonical ([index_to_addr_sum]). *)
Definition index_to_addr (l4 l3 l2 l1 : Z) : Z :=
  let addr := Z.lor (Z.lor (Z.lor (Z.shiftl l4 39) (Z.shiftl l3 30)) (Z.shiftl l2 21)) (Z.shiftl l1 12) in
  if Z.land (Z.shiftr addr 47) 1 =? 1 then Z.lor addr 0xFFFF000000000000 else addr.

Definition find_free_l1 (l4 l3 l2 t : Z) : list VirtualRegion :=
  seqZ 0 512 ≫= λ l1,
    if is_unused (mem t l1) then [mkRegion (index_to_addr l4 l3 l2 l1) SIZE_L1] else [].

Definition find_free_l2 (l4 l3 t : Z) : list VirtualRegion :=
  seqZ 0 512 ≫= λ l2,
    let e := mem t l2 in
    if is_unused e then [mkRegion (index_to_addr l4 l3 l2 0) SIZE_L2]
    else if is_huge e then []
    else find_free_l1 l4 l3 l2 (entry_addr e).

Definition find_free_l3 (l4 t : Z) : list VirtualRegion :=
  seqZ 0 512 ≫= λ l3,
    let e := mem t l3 in
    if is_unused e then [mkRegion (index_to_addr l4 l3 0 0) SIZE_L3]
    else if is_huge e then []
    else find_free_l2 l4 l3 (entry_addr e).

Definition half (space : AddressSpace) : list Z :=
  match space with Kernel => seqZ 256 256 | User => seqZ 0 256 end.

Definition find_free_ranges (page_table : Z) (space : AddressSpace) : list VirtualRegion :=
  half space ≫= λ l4,
    let e := mem page_table l4 in
    if is_unused e then [mkRegion (index_to_addr l4 0 0 0) SIZE_L4]
    else find_free_l3 l4 (entry_addr e).

(** The ranges of [VMemAllocator::new]. *)
Definition new_ranges (page_table : Z) (space : AddressSpace) : Ranges.RangeAllocator :=
  foldl (λ al range,
    let start := rstart range in
    let e := start ⊞ rsize range in
    Ranges.add_range al start e) Ranges.new (find_free_ranges page_table space).

(** The frames [VMemAllocator::drop] frees, in order. *)
Definition drop_frames (page_table : Z) : list Z :=
  seqZ 0 256 ≫= λ i4,
    let l4e := mem page_table i4 in
    if negb (is_present l4e) then []
    else
      (seqZ 0 512 ≫= λ i3,
        let l3e := mem (entry_addr l4e) i3 in
        if negb (is_present l3e) || is_huge l3e then []
        else
          (seqZ 0 512 ≫= λ i2,
            let l2e := mem (entry_addr l3e) i2 in
            if negb (is_present l2e) || is_huge l2e then [] else [entry_addr l2e])
          ++ [entry_addr l3e])
      ++ [entry_addr l4e].
End tables.

(** The L4 table of [new_user_allocator]: the higher half of the active one
    without user access. *)
Definition user_entry (e : Z) : Z := Z.lor (entry_addr e) (Z.ldiff (Z.ldiff e 0x000FFFFFFFFFF000) USER_ACCESSIBLE).

Definition user_table (curr : Z → Z) (i : Z) : Z :=
  if (256 <=? i) && (i <? 512) then user_entry (curr i) else 0.

(** The memory once the table is written to the page at [phys], and the ranges
    of the new allocator. *)
Definition with_table (mem : Z → Z → Z) (phys : Z) (table : Z → Z) : Z → Z → Z :=
  λ t, if t =? phys then table else mem t.

Definition new_user_ranges (mem : Z → Z → Z) (active_l4 phys : Z) : Ranges.RangeAllocator :=
  new_ranges (with_table mem phys (user_table (mem active_l4))) phys User.

(** ** Mapping and unmapping *)

Lemma span_pos sz : 0 < pages sz.
Proof. destruct sz; done. Qed.

Lemma SIZE_pages sz : SIZE sz = pages sz * 4096.
Proof. destruct sz; done. Qed.

Lemma in_run_spec v n x : in_run v n x = true ↔ v <= x < v + n.
Proof. unfold in_run. rewrite andb_true_iff, Z.leb_le, Z.ltb_lt. done. Qed.

Lemma in_run_false v n x : in_run v n x = false ↔ ¬ (v <= x < v + n).
Proof. rewrite <- in_run_spec. destruct (in_run v n x); intuition congruence. Qed.

Lemma align_down_id a b : 0 < b → (b | a) → align_down a b = a.
Proof. intros Hb H. unfold align_down. rewrite (proj2 (Z.mod_divide a b ltac:(lia)) H). lia. Qed.

(** A region within one half of the address space whose end is an address too. *)
Definition region_ok (a n : Z) : Prop :=
  0 <= n ∧ (0 <= a ∧ a + n < 2 ^ 47 ∨ 2 ^ 64 - 2 ^ 47 <= a ∧ a + n < 2 ^ 64).

Lemma region_canonical a n k : region_ok a n → 0 <= k <= n → canonical (a + k).
Proof. unfold region_ok, canonical. lia. Qed.

Lemma wp_attempt {S E F A} (m : M S E A) (Q : E + A → S → Prop) (R : F → S → Prop) s :
  wp m (λ a, Q (inr a)) (λ e, Q (inl e)) s → wp (attempt m) Q R s.
Proof. unfold wp, attempt. destruct (m s) as [[] ?]; done. Qed.

Lemma wp_opt_panic {S E A} (o : option A) a (Q : A → S → Prop) (R : E → S → Prop) s :
  o = Some a → Q a s → wp (opt_panic o) Q R s.
Proof. by intros ->. Qed.

Section proofs.
Context {W : Type} {AD : Addresses} {MP : Mapper W} {AL : AddressLaws} {ML : MapperLaws W}.
Implicit Types w : W.

Definition translation (w : W) (v : Z) : option (Z * Z) := (λ l, (lframe l, lflags l)) <$> leaf w v.

(** The entries that map the pages of a run map no others. *)
Definition closed (w : W) (lo hi : Z) : Prop :=
  ∀ v l, lo <= v < hi → leaf w v = Some l →
    lo <= block (lsize l) v ∧ block (lsize l) v + pages (lsize l) <= hi.

(** [w'] is [w] with the pages from [lo] to [hi], unmapped before, mapped to the
    frames from [f]. *)
Definition grown (w w' : W) (lo hi f fl : Z) : Prop :=
  lo <= hi ∧ closed w' lo hi ∧
  ∀ v, if decide (lo <= v < hi)
       then leaf w v = None ∧ translation w' v = Some (f + (v - lo) * 4096, fl)
       else leaf w' v = leaf w v.

Lemma grown_refl w lo f fl : grown w w lo lo f fl.
Proof. split_and!; [lia|intros v l ?; lia|]. intros v. rewrite decide_False by lia. done. Qed.

Lemma grown_trans w w1 w2 lo mid hi f f' fl :
  grown w w1 lo mid f fl → grown w1 w2 mid hi f' fl → f' = f + (mid - lo) * 4096 →
  grown w w2 lo hi f fl.
Proof.
  intros (H1 & C1 & G1) (H2 & C2 & G2) ->. split_and!; [lia|..].
  - intros v l Hv Hl. destruct (decide (v < mid)).
    + specialize (G2 v). rewrite decide_False in G2 by lia. rewrite G2 in Hl.
      destruct (C1 v l ltac:(lia) Hl). lia.
    + destruct (C2 v l ltac:(lia) Hl). lia.
  - intros v. specialize (G1 v). specialize (G2 v).
    destruct (decide (lo <= v < mid)), (decide (mid <= v < hi)), (decide (lo <= v < hi)); try lia.
    + destruct G1 as [G1 T]. split; [done|]. unfold translation in *. by rewrite G2.
    + destruct G2 as [G2 T]. rewrite G1 in G2. split; [done|]. rewrite T. do 2 f_equal. lia.
    + congruence.
Qed.

Lemma grown_one sz p f fl w w' :
  (SIZE sz | p) →
  (∀ v, (in_run (p / 4096) (pages sz) v = true → leaf w v = None) ∧
    leaf w' v = if in_run (p / 4096) (pages sz) v
                then Some (mkLeaf sz (f + (v - p / 4096) * 4096) fl) else leaf w v) →
  grown w w' (p / 4096) (p / 4096 + pages sz) f fl.
Proof.
  intros [k Hk] H. pose proof (span_pos sz).
  assert (p / 4096 = k * pages sz) as E.
  { rewrite Hk, SIZE_pages, Z.mul_assoc. apply Z.div_mul. lia. }
  split_and!; [lia|..].
  - intros v l Hv Hl. destruct (H v) as [_ H']. rewrite Hl in H'.
    rewrite (proj2 (in_run_spec _ _ _) Hv) in H'. injection H' as ->. cbn [lsize]. unfold block. rewrite E in *.
    pose proof (Z.mod_pos_bound v (pages sz)). pose proof (Z.div_mod v (pages sz)).
    assert (v / pages sz = k) as Hq by (symmetry; apply (Z.div_unique_pos v (pages sz) k (v - k * pages sz)); lia).
    rewrite Hq in *. lia.
  - intros v. destruct (H v) as [Hn Hl]. unfold translation. rewrite Hl. case_decide as Hv.
    + rewrite (proj2 (in_run_spec _ _ _) Hv). split; [by apply Hn, in_run_spec|done].
    + rewrite (proj2 (in_run_false _ _ _) Hv). done.
Qed.

Lemma map_pages_wp n sz virt phys flags w :
  (SIZE sz | virt) → (SIZE sz | phys) → region_ok virt (Z.of_nat n * SIZE sz) →
  0 <= phys → phys + Z.of_nat n * SIZE sz < 2 ^ 52 →
  wp (map_pages n sz virt phys flags)
    (λ p w', p = (virt + Z.of_nat n * SIZE sz, phys + Z.of_nat n * SIZE sz) ∧
      grown w w' (virt / 4096) (virt / 4096 + Z.of_nat n * pages sz) phys flags)
    (λ e w', e = InvalidMapping ∧ (0 < n)%nat ∧ ∃ k, k <= virt / 4096 + Z.of_nat n * pages sz ∧
      grown w w' (virt / 4096) k phys flags) w.
Proof.
  pose proof (span_pos sz) as Hp. pose proof (SIZE_pages sz) as Es.
  revert virt phys w. induction n as [|n IH]; intros virt phys w Hv Hf Hr Hf0 Hf1; cbn [map_pages].
  { apply wp_ret. rewrite !Z.add_0_r. split; [done|]. apply grown_refl. }
  rewrite Nat2Z.inj_succ in *. rewrite Z.mul_succ_l in *.
  assert (0 <= Z.of_nat n * SIZE sz) by (apply Z.mul_nonneg_nonneg; lia).
  assert (0 <= Z.of_nat n * pages sz) by (apply Z.mul_nonneg_nonneg; lia).
  rewrite !align_down_id by (done || lia).
  assert ((virt + SIZE sz) / 4096 = virt / 4096 + pages sz) as Ed by (rewrite Es; apply Z.div_add; lia).
  apply wp_bind, wp_map_errM. eapply wp_mono; [apply (map_to_law sz virt phys flags w); done|..].
  2:{ intros ? w' Hu. split_and!; [done|lia|]. exists (virt / 4096). split; [lia|].
      split_and!; [lia|intros v l ?; lia|]. intros v. rewrite decide_False by lia. done. }
  intros ? w1 G1%grown_one; [|done].
  apply wp_bind. eapply wp_opt_panic; [apply virt_add_ok; [lia|eapply region_canonical; [done|lia]]|].
  apply wp_bind. eapply wp_opt_panic; [apply phys_add_ok; lia|].
  eapply wp_mono; [apply IH|..]; [by apply Z.divide_add_r| by apply Z.divide_add_r | |lia..| |].
  { unfold region_ok in *. lia. }
  - intros p w2 [-> G2]. rewrite Ed in G2. split; [f_equal; lia|].
    replace (virt / 4096 + Z.succ (Z.of_nat n) * pages sz)
      with (virt / 4096 + pages sz + Z.of_nat n * pages sz) by lia.
    eapply grown_trans; [exact G1|exact G2|lia].
  - intros e w2 (-> & _ & k & Hk & G2). rewrite Ed in *. split_and!; [done|lia|]. exists k. split; [lia|].
    eapply grown_trans; [exact G1|exact G2|lia].
Qed.

(** A run of pages of a region: [rem] bytes are left of it from [virt]. *)
Definition partial (w w' : W) (virt phys rem flags : Z) : Prop :=
  0 < rem ∧ ∃ k, k <= (virt + rem) / 4096 ∧ grown w w' (virt / 4096) k phys flags.

Lemma map_large_wp sz flags rem virt phys w :
  (4096 | virt) → (4096 | rem) → (4096 | phys) → region_ok virt rem → 0 <= phys → phys + rem < 2 ^ 52 →
  wp (map_large sz flags rem virt phys)
    (λ r w', ∃ n, 0 <= n <= rem ∧ (4096 | n) ∧ r = (rem - n, virt + n, phys + n) ∧
      grown w w' (virt / 4096) ((virt + n) / 4096) phys flags)
    (λ e w', e = InvalidMapping ∧ partial w w' virt phys rem flags) w.
Proof.
  intros Hv Hn Hf Hr H0 H1. pose proof (span_pos sz) as Hp. pose proof (SIZE_pages sz) as Es.
  unfold map_large. destruct (_ && _) eqn:E.
  2:{ apply wp_ret. exists 0. split; [unfold region_ok in Hr; lia|]. rewrite Z.sub_0_r, !Z.add_0_r.
      split_and!; [by exists 0|done|]. apply grown_refl. }
  apply andb_true_iff in E as [[E1 E2]%andb_true_iff E3]. zb.
  apply is_multiple_of_spec in E2, E3; [|lia..].
  assert (0 <= rem / SIZE sz) as Hc by (apply Z.div_pos; lia).
  assert (rem / SIZE sz * SIZE sz <= rem) as Hle
    by (pose proof (Z.mul_div_le rem (SIZE sz)); lia).
  assert (0 <= rem / SIZE sz * SIZE sz) by (apply Z.mul_nonneg_nonneg; lia).
  assert ((virt + rem / SIZE sz * SIZE sz) / 4096 = virt / 4096 + rem / SIZE sz * pages sz) as Ed.
  { rewrite Es at 2. rewrite Z.mul_assoc. apply Z.div_add. lia. }
  assert (region_ok virt (rem / SIZE sz * SIZE sz)) as Hr' by (unfold region_ok in *; lia).
  assert ((virt + rem / SIZE sz * SIZE sz) / 4096 <= (virt + rem) / 4096) by (apply Z.div_le_mono; lia).
  apply wp_bind. eapply wp_mono.
  { apply map_pages_wp; [done..| | |]; rewrite ?Z2Nat.id by lia; [done|lia|lia]. }
  - rewrite Z2Nat.id by lia. intros ? w' [-> G]. apply wp_ret. exists (rem / SIZE sz * SIZE sz).
    split; [lia|]. split.
    { rewrite Es. rewrite Z.mul_assoc. by exists (rem / (pages sz * 4096) * pages sz). }
    cbn [fst snd]. unfold region_ok in Hr. rewrite (u64_small (_ * _)), u64_small by (unfold in_u64; lia).
    rewrite Ed. done.
  - rewrite Z2Nat.id by lia. intros e w' (-> & _ & k & Hk & G). split; [done|]. split; [lia|]. exists k. split; [lia|done].
Qed.

Lemma grown_bytes w w1 w2 virt n hi f fl :
  (4096 | n) → grown w w1 (virt / 4096) ((virt + n) / 4096) f fl →
  grown w1 w2 ((virt + n) / 4096) hi (f + n) fl → grown w w2 (virt / 4096) hi f fl.
Proof.
  intros [q ->] G1 G2. eapply grown_trans; [exact G1|exact G2|]. rewrite Z.div_add by lia. lia.
Qed.

Lemma map_wp region phys flags w :
  (4096 | rstart region) → (4096 | rsize region) → (4096 | phys) →
  region_ok (rstart region) (rsize region) → 0 <= phys → phys + rsize region < 2 ^ 52 →
  wp (map region phys flags)
    (λ _ w', grown w w' (rstart region / 4096) ((rstart region + rsize region) / 4096) phys
      (Z.lor flags PRESENT))
    (λ e w', e = InvalidMapping ∧
      partial w w' (rstart region) phys (rsize region) (Z.lor flags PRESENT)) w.
Proof.
  destruct region as [virt rem]. cbn [rstart rsize]. set (fl := Z.lor flags PRESENT).
  intros Hv Hn Hf Hr H0 H1. unfold map. cbn [rstart rsize]. fold fl.
  apply wp_bind. eapply wp_mono; [by apply map_large_wp|..]; [|by intros e w' ?].
  intros ? w1 (n1 & Hn1 & D1 & -> & G1). cbv beta iota.
  assert ((4096 | virt + n1) ∧ (4096 | rem - n1) ∧ (4096 | phys + n1)) as (A1 & A2 & A3)
    by (split_and!; [apply Z.divide_add_r|apply Z.divide_sub_r|apply Z.divide_add_r]; done).
  assert (region_ok (virt + n1) (rem - n1)) as Hr1 by (unfold region_ok in *; lia).
  apply wp_bind. eapply wp_mono; [apply map_large_wp; [done..|lia|lia]|..].
  2:{ intros e w2 (-> & Hpos & k & Hk & G2). split; [done|]. split; [lia|]. exists k.
      replace (virt + n1 + (rem - n1)) with (virt + rem) in Hk by lia. split; [done|].
      eapply grown_bytes; [exact D1|exact G1|exact G2]. }
  intros ? w2 (n2 & Hn2 & D2 & -> & G2). cbv beta iota.
  assert (grown w w2 (virt / 4096) ((virt + (n1 + n2)) / 4096) phys fl) as G12.
  { rewrite Z.add_assoc. eapply grown_bytes; [exact D1|exact G1|exact G2]. }
  assert (4096 | n1 + n2) as D12 by by apply Z.divide_add_r.
  set (n := n1 + n2) in *. replace (rem - n1 - n2) with (rem - n) by lia.
  replace (virt + n1 + n2) with (virt + n) by lia. replace (phys + n1 + n2) with (phys + n) by lia.
  assert (4096 | rem - n) as [q Eq] by by apply Z.divide_sub_r. cbn [SIZE].
  rewrite Eq, div_ceil_mult by lia.
  assert (Z.of_nat (Z.to_nat q) = q) as Hq by lia.
  apply wp_bind. eapply wp_mono; [apply (map_pages_wp (Z.to_nat q) Size4KiB)|..]; cbn [SIZE]; rewrite ?Hq;
    [by apply Z.divide_add_r|by apply Z.divide_add_r|unfold region_ok in *; lia|lia|lia|..].
  - intros ? w3 [_ G3]. apply wp_ret. eapply grown_bytes; [exact D12|exact G12|].
    replace ((virt + rem) / 4096) with ((virt + n) / 4096 + q * pages Size4KiB); [exact G3|].
    change (pages Size4KiB) with 1. rewrite <- Z.div_add by lia. f_equal. lia.
  - intros e w3 (-> & Hpos & k & Hk & G3). split; [done|]. split; [lia|]. exists k. split.
    + etransitivity; [exact Hk|]. change (pages Size4KiB) with 1. rewrite <- Z.div_add by lia.
      apply Z.div_le_mono; lia.
    + eapply grown_bytes; [exact D12|exact G12|exact G3].
Qed.
(** The pages from [lo] to [hi] are gone, all others are as before. *)
Definition cleared (w w' : W) (lo hi : Z) : Prop :=
  ∀ v, leaf w' v = if decide (lo <= v < hi) then None else leaf w v.

Lemma cleared_trans w w1 w2 lo mid hi :
  lo <= mid <= hi → cleared w w1 lo mid → cleared w1 w2 mid hi → cleared w w2 lo hi.
Proof.
  intros Hm C1 C2 v. rewrite C2, C1.
  destruct (decide (lo <= v < mid)), (decide (mid <= v < hi)), (decide (lo <= v < hi)); done || lia.
Qed.

Lemma block_le sz v : block sz v <= v < block sz v + pages sz.
Proof. unfold block. pose proof (Z.mod_pos_bound v (pages sz) (span_pos sz)). lia. Qed.

Lemma block_eq sz v x : block sz v <= x < block sz v + pages sz → block sz x = block sz v.
Proof.
  unfold block. pose proof (span_pos sz). pose proof (Z.div_mod v (pages sz) ltac:(lia)).
  pose proof (Z.div_mod x (pages sz) ltac:(lia)). intros Hx.
  assert (x / pages sz = v / pages sz) as E; [|rewrite E in *; lia].
  symmetry. apply (Z.div_unique_pos x (pages sz) _ (x - pages sz * (v / pages sz))); lia.
Qed.

(** After the entry at [lo], or the unmapped page there, is dealt with, the rest
    of a closed run is closed. *)
Lemma closed_rest w w' lo mid hi :
  closed w lo hi → lo < mid → cleared w w' lo mid →
  match leaf w lo with Some l => mid = lo + pages (lsize l) | None => mid = lo + 1 end →
  closed w' mid hi.
Proof.
  intros C Hm Cl Hs v l Hv Hl. rewrite Cl, decide_False in Hl by lia.
  destruct (C v l ltac:(lia) Hl) as [B1 B2]. split; [|done].
  pose proof (block_le (lsize l) v) as Bl. set (b := block (lsize l) v) in *.
  destruct (decide (mid <= b)) as [|Hlt]; [done|exfalso].
  assert (block (lsize l) b = b) as Hbv by (apply block_eq; fold b; pose proof (span_pos (lsize l)); lia).
  destruct (leaf_block w v b l Hl Hbv) as (lb & Eb & Sb).
  destruct (leaf w lo) as [l0|] eqn:E0; [|assert (b = lo) as -> by lia; congruence].
  destruct (C lo l0 ltac:(lia) E0) as [C1 C2]. pose proof (block_le (lsize l0) lo).
  assert (block (lsize l0) lo = lo) as B0 by lia.
  destruct (leaf_block w lo b l0 E0) as (lb' & Eb' & Sb'); [apply block_eq; lia|].
  assert (lsize l = lsize l0) as El by congruence.
  pose proof (block_eq (lsize l0) lo b ltac:(lia)). rewrite El in Hbv, Bl. lia.
Qed.

(** One large page of [unmap]: it goes when it is mapped with that size. *)
Lemma unmap_large_wp sz rem curr w :
  0 <= rem → (4096 | curr) →
  wp (unmap_large sz rem curr)
    (λ b w', if b : bool
       then SIZE sz <= rem ∧ (∃ l, leaf w (curr / 4096) = Some l ∧ lsize l = sz) ∧
            cleared w w' (curr / 4096) (curr / 4096 + pages sz)
       else (∀ v, leaf w' v = leaf w v) ∧
            ((SIZE sz | curr) → SIZE sz <= rem → ∀ l, leaf w (curr / 4096) = Some l → lsize l ≠ sz))
    (λ _ _, False) w.
Proof.
  intros Hr Hc. pose proof (span_pos sz). pose proof (SIZE_pages sz). unfold unmap_large.
  destruct (_ && _) eqn:E.
  - apply andb_true_iff in E as [E1 E2]. zb. apply is_multiple_of_spec in E2; [|lia].
    rewrite align_down_id by (done || lia).
    apply wp_bind, wp_attempt. eapply wp_mono; [by apply unmap_law|..].
    + intros ? w' [Hl Hw]. apply wp_ret. split_and!; [done..|]. intros v. rewrite Hw.
      destruct (in_run _ _ _) eqn:Ei; case_decide as Hd; [done| | |done];
        rewrite <- in_run_spec in Hd; congruence.
    + intros e w' (Hw & Hl & _). apply wp_ret. done.
  - apply wp_ret. split; [done|]. intros D L. apply andb_false_iff in E as [E|E]; zb; [lia|].
    apply is_multiple_of_spec in D; [|lia]. congruence.
Qed.
Lemma cleared_ext w w1 w2 lo hi : (∀ v, leaf w1 v = leaf w v) → cleared w1 w2 lo hi → cleared w w2 lo hi.
Proof. intros E C v. by rewrite C, E. Qed.

Lemma cleared_same w w' lo : (∀ v, leaf w' v = leaf w v) → leaf w lo = None → cleared w w' lo (lo + 1).
Proof. intros E N v. rewrite E. case_decide; [|done]. by assert (v = lo) as -> by lia. Qed.

(** A page at the start of a closed run that is mapped by a larger entry can be
    unmapped with the size of that entry. *)
Lemma closed_head w curr e l :
  closed w (curr / 4096) (e / 4096) → (4096 | curr) → (4096 | e) → curr < e →
  leaf w (curr / 4096) = Some l → (SIZE (lsize l) | curr) ∧ SIZE (lsize l) <= e - curr.
Proof.
  intros C [k ->] [m ->] Hlt Hl. rewrite !Z.div_mul in * by lia.
  destruct (C k l ltac:(lia) Hl) as [B1 B2]. pose proof (block_le (lsize l) k).
  assert (k mod pages (lsize l) = 0) as Hm by (unfold block in *; lia).
  pose proof (span_pos (lsize l)). pose proof (Z.div_mod k (pages (lsize l)) ltac:(lia)).
  rewrite SIZE_pages. split; [|unfold block in *; lia].
  exists (k / pages (lsize l)). lia.
Qed.

Definition unmaps (m : M W MemoryError unit) (curr e : Z) (w : W) : Prop :=
  wp m (λ _ w', cleared w w' (curr / 4096) (e / 4096)) (λ _ _, False) w.

(** The loop after the entry of size [sz] at [curr] is gone. *)
Lemma unmap_next fuel curr e w sz w1 :
  (∀ curr w, (4096 | curr) → (4096 | e) → region_ok curr (e - curr) → closed w (curr / 4096) (e / 4096) →
     e - curr < Z.of_nat fuel * 4096 → unmaps (unmap_loop fuel curr e) curr e w) →
  (4096 | curr) → (4096 | e) → region_ok curr (e - curr) → closed w (curr / 4096) (e / 4096) →
  e - curr < Z.of_nat (S fuel) * 4096 →
  cleared w w1 (curr / 4096) (curr / 4096 + pages sz) → SIZE sz <= e - curr →
  match leaf w (curr / 4096) with Some l => lsize l = sz | None => sz = Size4KiB end →
  wp (curr ← opt_panic (virt_add curr (SIZE sz)); unmap_loop fuel curr e)
    (λ _ w', cleared w w' (curr / 4096) (e / 4096)) (λ _ _, False) w1.
Proof.
  intros IH Hc He Hr C Hf Hcl Hsz Hl. pose proof (span_pos sz). pose proof (SIZE_pages sz) as Es.
  assert ((curr + SIZE sz) / 4096 = curr / 4096 + pages sz) as Ed by (rewrite Es; apply Z.div_add; lia).
  assert (4096 | curr + SIZE sz) by (apply Z.divide_add_r; [done|]; rewrite Es; by exists (pages sz)).
  apply wp_bind. eapply wp_opt_panic; [apply virt_add_ok; [lia|eapply region_canonical; [done|lia]]|].
  eapply wp_mono; [apply IH; try done| |done].
  - unfold region_ok in *. lia.
  - rewrite Ed. apply (closed_rest w w1 (curr / 4096)); [done|lia|done|].
    destruct (leaf w (curr / 4096)); subst; done.
  - assert (4096 <= SIZE sz) by (destruct sz; done). lia.
  - intros ? w2 C2. rewrite Ed in C2. eapply cleared_trans; [|exact Hcl|exact C2].
    rewrite <- Ed. split; apply Z.div_le_mono; lia.
Qed.

Lemma unmap_loop_wp fuel curr e w :
  (4096 | curr) → (4096 | e) → region_ok curr (e - curr) → closed w (curr / 4096) (e / 4096) →
  e - curr < Z.of_nat fuel * 4096 →
  unmaps (unmap_loop fuel curr e) curr e w.
Proof.
  revert curr w. induction fuel as [|fuel IH]; intros curr w Hc He Hr C Hf; [unfold region_ok in Hr; lia|].
  cbn [unmap_loop]. destruct (curr <? e) eqn:E; zb; cbn [negb].
  2:{ apply wp_ret. assert (curr = e) as -> by (unfold region_ok in Hr; lia). intros v. by rewrite decide_False by lia. }
  pose proof (λ sz w1, unmap_next fuel curr e w sz w1 IH Hc He Hr C Hf) as Hnext.
  cbv zeta. apply wp_bind. eapply wp_mono; [apply unmap_large_wp; [lia|done]| |done].
  intros b w1 H1. destruct b; [destruct H1 as (L & (l & El & Sl) & Cl); apply Hnext; [done..|by rewrite El]|].
  destruct H1 as [E1 N1].
  apply wp_bind. eapply wp_mono; [apply unmap_large_wp; [lia|done]| |done].
  intros b w2 H2. destruct b.
  { destruct H2 as (L & (l & El & Sl) & Cl). rewrite E1 in El.
    apply Hnext; [by eapply cleared_ext|done|by rewrite El]. }
  destruct H2 as [E2 N2]. rewrite align_down_id by done. setoid_rewrite E1 in E2. setoid_rewrite E1 in N2.
  assert (4096 <= e - curr) as Hpage.
  { destruct Hc as [a ->], He as [b ->]. lia. }
  apply wp_bind, wp_attempt. eapply wp_mono; [by apply unmap_law|..].
  - intros ? w3 [(l & El & Sl) Hw]. rewrite E2 in El. apply (Hnext Size4KiB); [|done|by rewrite El].
    intros v. rewrite Hw, E2. change (pages Size4KiB) with 1.
    destruct (in_run _ _ _) eqn:Ei; case_decide as Hd; try done; rewrite <- in_run_spec in Hd; congruence.
  - intros er w3 (Hw & Hl & Hn). setoid_rewrite E2 in Hw. rewrite E2 in Hn, Hl.
    assert (leaf w (curr / 4096) = None) as N.
    { destruct (leaf w (curr / 4096)) as [l|] eqn:El; [|done]. exfalso.
      destruct (closed_head w curr e l C Hc He ltac:(lia) El) as [D L]. destruct (lsize l) eqn:Es.
      - by eapply Hl.
      - by eapply N2.
      - by eapply N1. }
    rewrite Hn by done. apply (Hnext Size4KiB); [by apply cleared_same|done|by rewrite N].
Qed.
Lemma unmap_wp region w :
  (4096 | rstart region) → (4096 | rsize region) → region_ok (rstart region) (rsize region) →
  0 < rsize region → closed w (rstart region / 4096) ((rstart region + rsize region) / 4096) →
  unmaps (unmap region) (rstart region) (rstart region + rsize region) w.
Proof.
  destruct region as [start size]. cbn [rstart rsize]. intros Hs Hn Hr Hpos C. unfold unmap, unmap_fuel, unmaps.
  cbn [rstart rsize]. destruct (Hn) as [k Hk]. rewrite Hk, div_ceil_mult, <- Hk by lia.
  apply wp_bind. eapply wp_opt_panic; [apply virt_add_ok; [lia|eapply region_canonical; [done|lia]]|].
  apply wp_bind. eapply wp_mono; [apply unmap_loop_wp; try done| |done].
  - by apply Z.divide_add_r.
  - by replace (start + size - start) with size by lia.
  - lia.
  - intros ? w1 Cl. apply wp_bind. eapply wp_opt_panic.
    { apply virt_sub_ok; [lia|]. replace (start + size - 1) with (start + (size - 1)) by lia.
      eapply region_canonical; [done|lia]. }
    apply wp_map_errM. eapply wp_mono; [apply clean_up_law| |done].
    intros ? w2 E v. rewrite E. apply Cl.
Qed.

(** ** The allocator *)

(** Nothing is mapped at a free address. *)
Definition Inv (s : VMemAllocator) : Prop :=
  Ranges.inv (allocator s) ∧
  ∀ x, Ranges.free_at (allocator s) x → leaf (page_table s) (x / 4096) = None.

Lemma wp_on_table {E A} (m : M W E A) Q R s :
  wp m (λ a w, Q a (mkVMem w (allocator s))) (λ e w, R e (mkVMem w (allocator s))) (page_table s) →
  wp (on_table m) Q R s.
Proof. unfold wp, on_table. destruct (m (page_table s)) as [[] ?]; done. Qed.

(** A run that [map] has begun to map, unmapped and freed. *)
Lemma free_partial s al region phys flags w :
  Inv s → (4096 | rstart region) → (4096 | rsize region) → region_ok (rstart region) (rsize region) →
  Ranges.free_range al (rstart region) (rsize region) = allocator s →
  Ranges.all_free (allocator s) (rstart region) (rsize region) →
  partial (page_table s) w (rstart region) phys (rsize region) flags →
  wp (free region)
    (λ _ s', allocator s' = allocator s ∧ ∀ v, leaf (page_table s') v = leaf (page_table s) v)
    (λ _ _, False) (mkVMem w al).
Proof.
  destruct region as [start size]. cbn [rstart rsize].
  intros [_ Hu] Hs Hn Hr Hal Hfree (Hpos & k & Hk & Hlo & C & G). unfold free. apply wp_bind, wp_on_table.
  cbn [page_table allocator rstart rsize].
  assert (∀ v, start / 4096 <= v < (start + size) / 4096 → leaf (page_table s) v = None) as Hnone.
  { intros v Hv. rewrite <- (Z.div_mul v 4096) by lia. apply Hu, Hfree.
    destruct Hs as [a ->], Hn as [b ->]. rewrite <- Z.mul_add_distr_r in *. rewrite !Z.div_mul in Hv by lia. lia. }
  eapply wp_mono; [apply unmap_wp; cbn [rstart rsize]; try done| |done].
  - intros v l Hv Hl. destruct (decide (v < k)) as [Hvk|].
    + destruct (C v l ltac:(lia) Hl). lia.
    + specialize (G v). rewrite decide_False in G by lia. rewrite G, Hnone in Hl by lia. done.
  - intros ? w' Cl. unfold wp, modify. cbn [allocator page_table rstart rsize]. split; [done|].
    intros v. rewrite Cl. cbn [rstart rsize]. case_decide as Hv; [by rewrite Hnone by lia|].
    specialize (G v). by rewrite decide_False in G by lia.
Qed.

Lemma region_of_free al a n :
  Ranges.inv al → Ranges.all_free al a n → 0 < n → 0 <= a ∧ a + n < 18446744073709551616.
Proof.
  intros Hi Hf Hn. destruct (Ranges.all_free_one_range al a n Hi Hn Hf) as (r & Hr & H1 & H2).
  destruct Hi as [Hok _]. rewrite Forall_forall in Hok. specialize (Hok r Hr). unfold Ranges.ok in Hok. lia.
Qed.

(** What [map_fixed] promises: the region was free and is mapped, or nothing changed. *)
Definition mapped_fixed (s s' : VMemAllocator) (region : VirtualRegion) (phys flags : Z) : Prop :=
  Ranges.all_free (allocator s) (rstart region) (rsize region) ∧
  (∀ x, Ranges.free_at (allocator s') x ↔
     Ranges.free_at (allocator s) x ∧ ¬ (rstart region <= x < rstart region + rsize region)) ∧
  grown (page_table s) (page_table s') (rstart region / 4096) ((rstart region + rsize region) / 4096)
    phys (Z.lor flags PRESENT).

Definition unchanged (s s' : VMemAllocator) : Prop :=
  allocator s' = allocator s ∧ ∀ v, leaf (page_table s') v = leaf (page_table s) v.

Lemma mapped_fixed_inv s s' region phys flags :
  (4096 | rstart region) → (4096 | rsize region) →
  Inv s → Ranges.inv (allocator s') → mapped_fixed s s' region phys flags → Inv s'.
Proof.
  destruct region as [start size]. intros Hs Hn [_ Hu] Hi (_ & Hx & _ & _ & G). cbn [rstart rsize] in *.
  split; [done|]. intros x [Hf Hno]%Hx. specialize (G (x / 4096)). rewrite decide_False in G; [by rewrite G, Hu|].
  destruct Hs as [a ->], Hn as [b ->]. rewrite <- Z.mul_add_distr_r in *. rewrite !Z.div_mul by lia.
  pose proof (Z.div_mod x 4096). pose proof (Z.mod_pos_bound x 4096). lia.
Qed.

Lemma map_fixed_wp s region phys flags :
  Inv s → region_ok (rstart region) (rsize region) → (4096 | phys) → 0 <= phys →
  phys + rsize region < 2 ^ 52 →
  wp (map_fixed region phys flags)
    (λ _ s', mapped_fixed s s' region phys flags ∧ Inv s')
    (λ e s', e = InvalidMapping ∧ unchanged s s') s.
Proof.
  intros Hinv Hr Hp H0 H1. destruct region as [start size]. cbn [rstart rsize] in *.
  assert (in_u64 start ∧ 0 <= size) as [Hs64 Hsz] by (unfold region_ok, in_u64 in *; lia).
  unfold map_fixed. apply wp_bind. unfold reserve. cbn [rstart rsize].
  destruct (is_multiple_of size PAGE_SIZE) eqn:En; [|done].
  destruct (is_multiple_of start PAGE_SIZE) eqn:Es; [|done]. cbn [negb].
  apply is_multiple_of_spec in En, Es; [|done..]. change PAGE_SIZE with 4096 in *.
  pose proof (Ranges.reserve_spec (allocator s) start size (proj1 Hinv) Hs64 Hsz) as Hres. unfold wp at 1.
  destruct (Ranges.reserve (allocator s) start size) as [b al] eqn:Eb. destruct Hres as (Hi & Hb & Hx).
  destruct b.
  2:{ split; [done|]. split; [|done]. apply Ranges.inv_canonical; [done|apply Hinv|]. intros x. rewrite Hx.
      cbn [allocator]. intuition congruence. }
  apply proj1 in Hb. specialize (Hb eq_refl).
  apply wp_bind, wp_attempt, wp_on_table. cbn [page_table allocator].
  eapply wp_mono; [apply (map_wp (mkRegion start size)); cbn [rstart rsize]; done|..]; cbn [rstart rsize].
  - intros ? w G. apply wp_ret.
    assert (mapped_fixed s (mkVMem w al) (mkRegion start size) phys flags) as Hm.
    { split_and!; [done| |done]. intros x. cbn [allocator rstart rsize]. rewrite Hx. intuition. }
    split; [done|]. eapply (mapped_fixed_inv s _ (mkRegion start size)); [exact Es|exact En|exact Hinv|exact Hi|exact Hm].
  - intros e w [-> Hpart]. apply wp_bind.
    eapply wp_mono; [eapply (free_partial s al (mkRegion start size) phys)| |done]; cbn [rstart rsize]; try done.
    apply Ranges.free_taken; try done; [apply Hinv|apply Hpart|]. intros x. rewrite Hx. intuition.
Qed.

(** C21. [map_fixed] is all or nothing: when it succeeds the whole region was free
    and every page of it is mapped to its frame, with all other pages and free
    ranges as before; when it fails, at whatever page, the rollback leaves the
    free ranges and all mappings exactly as they were.  It never panics or runs
    for ever on a region whose end is an address, and keeps free addresses
    unmapped. *)
Theorem map_fixed_atomic s region phys flags :
  Inv s → region_ok (rstart region) (rsize region) → (4096 | phys) → 0 <= phys →
  phys + rsize region < 2 ^ 52 →
  wp (map_fixed region phys flags)
    (λ _ s', mapped_fixed s s' region phys flags ∧ Inv s')
    (λ e s', e = InvalidMapping ∧ unchanged s s') s.
Proof. exact (map_fixed_wp s region phys flags). Qed.

Definition page_align (count : Z) : Z :=
  if is_multiple_of count 0x40000 then SIZE Size1GiB
  else if is_multiple_of count 0x200 then SIZE Size2MiB else SIZE Size4KiB.

Lemma page_align_spec count : 0 < page_align count ∧ (4096 | page_align count).
Proof.
  unfold page_align. repeat case_bool; cbn [SIZE]; (split; [done|]);
    [by exists 262144|by exists 512|by exists 1].
Qed.

(** [mmio_new] maps a fresh region of kernel space or changes nothing. *)
Lemma mmio_new_wp s phys count :
  Inv s → (∀ x, Ranges.free_at (allocator s) x → 2 ^ 64 - 2 ^ 47 <= x) →
  Forall (Ranges.no_wrap (count * 4096) (page_align count)) (Ranges.free (allocator s)) →
  0 < count < 2 ^ 40 → (4096 | phys) → 0 <= phys → phys + count * 4096 < 2 ^ 52 →
  wp (mmio_new phys count)
    (λ r s', match r with
       | Some region => rsize region = count * 4096 ∧ (page_align count | rstart region) ∧
           mapped_fixed s s' region phys mmio_flags ∧ Inv s'
       | None => unchanged s s'
       end) (λ _ _, False) s.
Proof.
  intros Hinv Hk Hnw Hc Hp H0 H1. unfold mmio_new, alloc. destruct (count =? 0) eqn:E; zb; [lia|].
  fold (page_align count). cbn [SIZE]. rewrite (u64_small (count * 4096)) by (unfold in_u64; lia).
  destruct (page_align_spec count) as [Hap Had].
  pose proof (Ranges.allocate_spec (allocator s) (count * 4096) (page_align count) (proj1 Hinv)
    ltac:(lia) Hap Hnw) as Ha.
  apply wp_bind. unfold wp at 1.
  destruct (Ranges.allocate _ _ _) as [[a|] al]; [|destruct Ha as [-> _]; apply wp_ret; done].
  destruct Ha as (Da & Hf & Hi & Hx & _).
  destruct (region_of_free _ _ _ (proj1 Hinv) Hf ltac:(lia)) as [_ Hhi].
  pose proof (Hk a (Hf a ltac:(lia))) as Hlo. rewrite virt_new_ok by (unfold canonical; lia).
  assert (4096 | a) as D by by etransitivity. assert (4096 | count * 4096) as Dn by by exists count.
  assert (region_ok a (count * 4096)) as Hr by (unfold region_ok; lia).
  apply wp_bind, wp_attempt, wp_on_table. cbn [page_table allocator].
  eapply wp_mono; [apply (map_wp (mkRegion a (count * 4096))); cbn [rstart rsize]; done|..]; cbn [rstart rsize].
  - intros ? w G. apply wp_ret.
    assert (mapped_fixed s (mkVMem w al) (mkRegion a (count * 4096)) phys mmio_flags) as Hm by (split_and!; done).
    split_and!; [done..|].
    eapply (mapped_fixed_inv s _ (mkRegion a (count * 4096))); [exact D|exact Dn|exact Hinv|exact Hi|exact Hm].
  - intros e w [-> Hpart]. apply wp_bind, wp_attempt.
    eapply wp_mono; [eapply (free_partial s al (mkRegion a (count * 4096)) phys)| |done]; cbn [rstart rsize]; try done.
    apply Ranges.free_taken; try done; [apply Hinv|lia].
Qed.

(** ** Regions that end where user space does *)

Lemma wpp_opt_panic {S E A} (o : option A) (Q : A → S → Prop) (R : E → S → Prop) s :
  (∀ a, o = Some a → Q a s) → wpp (opt_panic o) Q R True s.
Proof. intros H. destruct o; [by apply H|done]. Qed.

(** An address below the end of user space moves on to one below it, or the
    addition panics. *)
Lemma virt_add_user a n b : 0 <= a → 0 <= n → a + n <= 2 ^ 47 → virt_add a n = Some b → b = a + n ∧ a + n < 2 ^ 47.
Proof.
  intros Ha Hn Hle Hb. destruct (decide (a + n < 2 ^ 47)) as [Hlt|].
  - rewrite virt_add_ok in Hb by (unfold canonical; lia). by injection Hb as <-.
  - rewrite virt_add_panics in Hb by (unfold canonical; lia). done.
Qed.

Lemma map_pages_user n sz virt phys flags w :
  (SIZE sz | virt) → (SIZE sz | phys) → 0 <= virt < 2 ^ 47 → virt + Z.of_nat n * SIZE sz <= 2 ^ 47 →
  0 <= phys → phys + Z.of_nat n * SIZE sz < 2 ^ 52 →
  wpp (map_pages n sz virt phys flags)
    (λ p _, p = (virt + Z.of_nat n * SIZE sz, phys + Z.of_nat n * SIZE sz) ∧ virt + Z.of_nat n * SIZE sz < 2 ^ 47)
    (λ _ _, True) True w.
Proof.
  pose proof (span_pos sz) as Hp. pose proof (SIZE_pages sz) as Es.
  revert virt phys w. induction n as [|n IH]; intros virt phys w Hv Hf Hr Hr1 Hf0 Hf1; cbn [map_pages].
  { apply wpp_ret. rewrite !Z.add_0_r. split; [done|lia]. }
  rewrite Nat2Z.inj_succ, Z.mul_succ_l in *.
  assert (0 <= Z.of_nat n * SIZE sz) by (apply Z.mul_nonneg_nonneg; lia).
  rewrite !align_down_id by (done || lia).
  apply wpp_bind, wpp_map_errM, wp_wpp. eapply wp_mono; [apply (map_to_law sz virt phys flags w); done| |done].
  intros ? w1 _. apply wpp_bind, wpp_opt_panic. intros v Hv1. apply virt_add_user in Hv1 as [-> Hlt]; [|lia..].
  apply wpp_bind, wpp_opt_panic. intros f Hf2. rewrite phys_add_ok in Hf2 by lia. injection Hf2 as <-.
  eapply wpp_mono; [apply IH|..]; [by apply Z.divide_add_r|by apply Z.divide_add_r|lia..| |done|done].
  intros p w2 [-> Hp2]. split; [f_equal; lia|lia].
Qed.

Lemma map_large_user sz flags rem virt phys w :
  (4096 | virt) → (4096 | rem) → (4096 | phys) → 0 <= rem → 0 <= virt < 2 ^ 47 → virt + rem <= 2 ^ 47 →
  0 <= phys → phys + rem < 2 ^ 52 →
  wpp (map_large sz flags rem virt phys)
    (λ r _, ∃ n, 0 <= n <= rem ∧ (4096 | n) ∧ r = (rem - n, virt + n, phys + n) ∧ virt + n < 2 ^ 47)
    (λ _ _, True) True w.
Proof.
  intros Hv Hn Hf Hr0 Hr Hr1 H0 H1. pose proof (span_pos sz) as Hp. pose proof (SIZE_pages sz) as Es.
  unfold map_large. destruct (_ && _) eqn:E.
  2:{ apply wpp_ret. exists 0. rewrite Z.sub_0_r, !Z.add_0_r. split_and!; [lia|lia|by exists 0|done|lia]. }
  apply andb_true_iff in E as [[E1 E2]%andb_true_iff E3]. zb.
  apply is_multiple_of_spec in E2, E3; [|lia..].
  assert (0 <= rem / SIZE sz) as Hc by (apply Z.div_pos; lia).
  assert (rem / SIZE sz * SIZE sz <= rem) as Hle by (pose proof (Z.mul_div_le rem (SIZE sz)); lia).
  assert (0 <= rem / SIZE sz * SIZE sz) by (apply Z.mul_nonneg_nonneg; lia).
  apply wpp_bind. eapply wpp_mono; [apply map_pages_user; rewrite ?Z2Nat.id by lia; try done; lia| |done|done].
  rewrite Z2Nat.id by lia. intros ? w' [-> Hlt]. apply wpp_ret. exists (rem / SIZE sz * SIZE sz).
  split_and!; [lia|lia| | |done].
  { rewrite Es. rewrite Z.mul_assoc. by exists (rem / (pages sz * 4096) * pages sz). }
  cbn [fst snd]. by rewrite (u64_small (_ * _)), u64_small by (unfold in_u64; lia).
Qed.

(** A region that ends where user space does is not mapped: the address after its
    last page is computed, which is not canonical. *)
Lemma map_top virt rem phys flags w :
  (4096 | virt) → (4096 | rem) → (4096 | phys) → 0 < rem → 0 <= virt → virt + rem = 2 ^ 47 →
  0 <= phys → phys + rem < 2 ^ 52 →
  wpp (map (mkRegion virt rem) phys flags) (λ _ _, False) (λ _ _, True) True w.
Proof.
  intros Hv Hn Hf Hr0 Hr Hr1 H0 H1. unfold map. cbn [rstart rsize]. set (fl := Z.lor flags PRESENT).
  apply wpp_bind. eapply wpp_mono; [apply map_large_user; try done; lia| |done|done].
  intros ? w1 (n1 & Hn1 & D1 & -> & L1). cbv beta iota.
  apply wpp_bind. eapply wpp_mono; [apply map_large_user|..]; [by apply Z.divide_add_r|by apply Z.divide_sub_r|
    by apply Z.divide_add_r|lia..| |done|done].
  intros ? w2 (n2 & Hn2 & D2 & -> & L2). cbv beta iota. cbn [SIZE].
  assert (4096 | rem - n1 - n2) as [q Eq] by (by repeat apply Z.divide_sub_r). rewrite Eq, div_ceil_mult by lia.
  assert (Z.of_nat (Z.to_nat q) = q) as Hq by lia.
  apply wpp_bind. eapply wpp_mono; [apply (map_pages_user (Z.to_nat q) Size4KiB)|..]; cbn [SIZE]; rewrite ?Hq;
    [by repeat apply Z.divide_add_r|by repeat apply Z.divide_add_r|lia|lia|lia|lia| |done|done].
  intros p w3 [_ L3]. lia.
Qed.

(** So [map_fixed] of a free region that ends there panics, in the loop that maps
    it or when it rolls back. *)
Lemma map_fixed_top s virt rem phys flags :
  Inv s → (4096 | virt) → (4096 | rem) → (4096 | phys) → 0 < rem → 0 <= virt → virt + rem = 2 ^ 47 →
  0 <= phys → phys + rem < 2 ^ 52 → Ranges.all_free (allocator s) virt rem →
  (map_fixed (mkRegion virt rem) phys flags s).1 = Panic.
Proof.
  intros Hinv Hv Hn Hp Hr0 Hr Hr1 H0 H1 Hf. unfold map_fixed, reserve. cbn [rstart rsize].
  rewrite (proj2 (is_multiple_of_spec rem PAGE_SIZE ltac:(done)) Hn), (proj2 (is_multiple_of_spec virt PAGE_SIZE ltac:(done)) Hv).
  cbn [negb]. unfold mbind, M_bind.
  pose proof (Ranges.reserve_spec (allocator s) virt rem (proj1 Hinv) ltac:(unfold in_u64; lia) ltac:(lia)) as Hres.
  destruct (Ranges.reserve _ _ _) as [b al]. destruct Hres as (_ & Hb & _). rewrite (proj2 Hb Hf).
  unfold attempt, on_table. cbn [page_table allocator].
  pose proof (map_top virt rem phys flags (page_table s) Hv Hn Hp Hr0 Hr Hr1 H0 H1) as Hm. unfold wpp in Hm.
  destruct (map _ _ _ _) as [[] w]; try done.
  unfold free, on_table, unmap. cbn [rstart rsize]. unfold mbind, M_bind.
  by rewrite virt_add_panics by (unfold canonical; lia).
Qed.
End proofs.

End Virt.
