(* ===== verification/PageTables.v ===== *)
(** * The free ranges of an address space (src/kernel/src/memory/virt.rs)

    [find_free_ranges] against the page walk of the processor: the ranges a new
    [VMemAllocator] starts with are exactly the addresses whose walk ends at an
    unused entry. *)

From S2P Require Import Prelude Errors RangeAllocator Virt.
Import Virt.

Module PageTables.

(** ** Addresses from indices *)

Definition index (i : Z) : Prop := 0 <= i < 512.

(** The first address below an entry of the four tables. *)
Definition base (l4 l3 l2 l1 : Z) : Z :=
  (if 256 <=? l4 then 2 ^ 64 - 2 ^ 48 else 0) + l4 * 2 ^ 39 + l3 * 2 ^ 30 + l2 * 2 ^ 21 + l1 * 2 ^ 12.

Lemma index_to_addr_sum l4 l3 l2 l1 :
  index l4 → index l3 → index l2 → index l1 → index_to_addr l4 l3 l2 l1 = base l4 l3 l2 l1.
Proof.
  unfold index, index_to_addr, base. intros H4 H3 H2 H1. rewrite !Z.shiftl_mul_pow2 by lia.
  rewrite (lor_add (l4 * 2 ^ 39) (l3 * 2 ^ 30) 39), (lor_add (_ + _) (l2 * 2 ^ 21) 30),
    (lor_add (_ + _ + _) (l1 * 2 ^ 12) 21);
    [|lia|lia| |lia|lia| |lia|lia|by exists l4].
  2:{ exists (l4 * 2 ^ 18 + l3 * 2 ^ 9 + l2). lia. }
  2:{ exists (l4 * 2 ^ 9 + l3). lia. }
  set (x := l4 * 2 ^ 39 + l3 * 2 ^ 30 + l2 * 2 ^ 21 + l1 * 2 ^ 12).
  rewrite (Z.land_ones _ 1) by lia. rewrite Z.shiftr_div_pow2 by lia.
  destruct (256 <=? l4) eqn:E; zb.
  - assert (x / 2 ^ 47 = 1) as -> by (symmetry; apply (Z.div_unique_pos x (2 ^ 47) 1 (x - 2 ^ 47)); lia). simpl.
    rewrite Z.lor_comm, (lor_add _ x 48); [lia|lia|lia|]. by exists 0xFFFF.
  - assert (x / 2 ^ 47 = 0) as -> by (apply Z.div_small; lia). simpl. lia.
Qed.

Lemma base_canonical l4 l3 l2 l1 :
  index l4 → index l3 → index l2 → index l1 → canonical (base l4 l3 l2 l1).
Proof. unfold index, base, canonical. case_bool; zb; lia. Qed.

(** ** Lists of regions that tile a part of a block *)

Definition covered (l : list VirtualRegion) (a : Z) : Prop :=
  Exists (λ r, rstart r <= a < rstart r + rsize r) l.

Definition tiles (l : list VirtualRegion) (lo hi : Z) : Prop :=
  Forall (λ r, lo <= rstart r ∧ 0 < rsize r ∧ rstart r + rsize r <= hi) l ∧
  StronglySorted (λ r s, rstart r + rsize r <= rstart s) l.

Lemma tiles_one lo n : 0 < n → tiles [mkRegion lo n] lo (lo + n).
Proof. intros. split; repeat constructor; simpl; lia. Qed.

Lemma tiles_nil lo hi : tiles [] lo hi.
Proof. split; constructor. Qed.

Lemma tiles_app l1 l2 lo mid hi :
  lo <= mid <= hi → tiles l1 lo mid → tiles l2 mid hi → tiles (l1 ++ l2) lo hi.
Proof.
  intros Hm [F1 S1] [F2 S2]. split.
  - apply Forall_app. split; eapply Forall_impl; [exact F1| |exact F2|]; simpl; lia.
  - apply StronglySorted_app_iff. split_and!; [done..|]. rewrite Forall_forall in F1, F2.
    intros x y Hx Hy. specialize (F1 x Hx). specialize (F2 y Hy). simpl in *. lia.
Qed.

Lemma covered_app l1 l2 a : covered (l1 ++ l2) a ↔ covered l1 a ∨ covered l2 a.
Proof. apply Exists_app. Qed.

Lemma covered_one lo n a : covered [mkRegion lo n] a ↔ lo <= a < lo + n.
Proof. unfold covered. rewrite Exists_cons, Exists_nil. simpl. tauto. Qed.

Lemma covered_nil a : covered [] a ↔ False.
Proof. apply Exists_nil. Qed.

Lemma tiles_covered l lo hi a : tiles l lo hi → covered l a → lo <= a < hi.
Proof.
  intros [F _] (r & Hr & Ha)%Exists_exists. rewrite Forall_forall in F. specialize (F r Hr). simpl in *. lia.
Qed.

(** [l] tiles exactly the addresses of a block that satisfy [Q]. *)
Definition exact (l : list VirtualRegion) (lo hi : Z) (Q : Z → bool) : Prop :=
  tiles l lo hi ∧ ∀ a, covered l a ↔ lo <= a < hi ∧ Q a = true.

Lemma exact_app l1 l2 lo mid hi Q :
  lo <= mid <= hi → exact l1 lo mid Q → exact l2 mid hi Q → exact (l1 ++ l2) lo hi Q.
Proof.
  intros Hm [T1 C1] [T2 C2]. split; [by eapply tiles_app|]. intros a. rewrite covered_app, C1, C2.
  destruct (decide (a < mid)); intuition lia.
Qed.

Lemma exact_one lo n Q : 0 < n → (∀ a, lo <= a < lo + n → Q a = true) → exact [mkRegion lo n] lo (lo + n) Q.
Proof. intros Hn HQ. split; [by apply tiles_one|]. intros a. rewrite covered_one. intuition. Qed.

Lemma exact_nil lo hi Q : (∀ a, lo <= a < hi → Q a = false) → exact [] lo hi Q.
Proof.
  intros HQ. split; [apply tiles_nil|]. intros a. rewrite covered_nil. split; [done|].
  intros [Ha Ht]. rewrite HQ in Ht; done.
Qed.

Lemma exact_ext l lo hi Q Q' : (∀ a, lo <= a < hi → Q a = Q' a) → exact l lo hi Q → exact l lo hi Q'.
Proof.
  intros HQ [T C]. split; [done|]. intros a. rewrite C. split; intros [Ha Ht]; (split; [done|]); [|].
  - by rewrite <- HQ.
  - by rewrite HQ.
Qed.

Lemma exact_bind (f : Z → list VirtualRegion) b B m n Q :
  0 < B → (∀ i, m <= i < m + Z.of_nat n → exact (f i) (b + i * B) (b + (i + 1) * B) Q) →
  exact (seqZ m (Z.of_nat n) ≫= f) (b + m * B) (b + (m + Z.of_nat n) * B) Q.
Proof.
  intros HB. induction n as [|n IH]; intros Hf; [apply exact_nil; lia|].
  replace (Z.of_nat (S n)) with (Z.of_nat n + 1) by lia. rewrite seqZ_snoc, bind_app by lia.
  cbn [mbind list_bind]. rewrite app_nil_r, Z.add_assoc.
  eapply exact_app; [|apply IH; intros i Hi; apply Hf; lia|apply Hf; lia]. lia.
Qed.

Lemma exact_table (f : Z → list VirtualRegion) b B Q :
  0 < B → (∀ i, index i → exact (f i) (b + i * B) (b + i * B + B) Q) →
  exact (seqZ 0 512 ≫= f) b (b + 512 * B) Q.
Proof.
  intros HB Hf. pose proof (exact_bind f b B 0 512 Q HB) as H.
  replace (b + 0 * B) with b in H by lia. apply H. intros i Hi.
  replace (b + (i + 1) * B) with (b + i * B + B) by lia. by apply Hf.
Qed.

(** ** The walk *)

Section walk.
Variable mem : Z → Z → Z.

(** The index of an address into the tables of a level, counted from 1. *)
Definition pt_index (level a : Z) : Z := Z.land (Z.shiftr a (3 + 9 * level)) 511.

(** The walk for address [a], from a table of each level, ends at an entry that
    is not used. *)
Definition walk1 (t a : Z) : bool := is_unused (mem t (pt_index 1 a)).

Definition walk2 (t a : Z) : bool :=
  let e := mem t (pt_index 2 a) in
  if is_unused e then true else if is_huge e then false else walk1 (entry_addr e) a.

Definition walk3 (t a : Z) : bool :=
  let e := mem t (pt_index 3 a) in
  if is_unused e then true else if is_huge e then false else walk2 (entry_addr e) a.

Definition walk_free (l4 a : Z) : bool :=
  let e := mem l4 (pt_index 4 a) in
  if is_unused e then true else walk3 (entry_addr e) a.

Lemma pt_index_at level c i r a :
  1 <= level → index i → 0 <= r < 2 ^ (3 + 9 * level) →
  a = (c * 512 + i) * 2 ^ (3 + 9 * level) + r → pt_index level a = i.
Proof.
  intros Hl Hi Hr ->. unfold pt_index, index in *. rewrite (Z.land_ones _ 9), Z.shiftr_div_pow2 by lia.
  rewrite Z.div_add_l, (Z.div_small r) by lia. rewrite Z.add_0_r, Z.add_comm, Z.mod_add by lia. by apply Z.mod_small.
Qed.

(** The sign bits are a multiple of the reach of the L4 table. *)
Definition sign (l4 : Z) : Z := if 256 <=? l4 then 0xFFFF else 0.

Lemma base_sign l4 l3 l2 l1 :
  base l4 l3 l2 l1 = (((sign l4 * 512 + l4) * 512 + l3) * 512 + l2) * 2 ^ 21 + l1 * 2 ^ 12.
Proof. unfold base, sign. case_bool; lia. Qed.

Lemma exact_l1 l4 l3 l2 t :
  index l4 → index l3 → index l2 →
  exact (find_free_l1 mem l4 l3 l2 t) (base l4 l3 l2 0) (base l4 l3 l2 0 + SIZE_L2) (walk1 t).
Proof.
  intros H4 H3 H2. apply (exact_table _ _ SIZE_L1); [done|]. intros i Hi. rewrite index_to_addr_sum by done.
  replace (base l4 l3 l2 0 + i * SIZE_L1) with (base l4 l3 l2 i) by (unfold base; change SIZE_L1 with (2 ^ 12); lia).
  assert (∀ a, base l4 l3 l2 i <= a < base l4 l3 l2 i + SIZE_L1 → walk1 t a = is_unused (mem t i)) as Hw.
  { intros a Ha. change SIZE_L1 with (2 ^ 12) in Ha. unfold walk1. rewrite base_sign in Ha.
    erewrite (pt_index_at 1 _ i (a - base l4 l3 l2 i)); [done|lia|done|rewrite base_sign; lia|].
    rewrite base_sign. instantiate (1 := ((sign l4 * 512 + l4) * 512 + l3) * 512 + l2). lia. }
  destruct (is_unused (mem t i)); [by apply exact_one|by apply exact_nil].
Qed.

Lemma exact_l2 l4 l3 t :
  index l4 → index l3 →
  exact (find_free_l2 mem l4 l3 t) (base l4 l3 0 0) (base l4 l3 0 0 + SIZE_L3) (walk2 t).
Proof.
  intros H4 H3. apply (exact_table _ _ SIZE_L2); [done|]. intros i Hi. rewrite index_to_addr_sum by done.
  replace (base l4 l3 0 0 + i * SIZE_L2) with (base l4 l3 i 0) by (unfold base; change SIZE_L2 with (2 ^ 21); lia).
  assert (∀ a, base l4 l3 i 0 <= a < base l4 l3 i 0 + SIZE_L2 → pt_index 2 a = i) as Hw.
  { intros a Ha. change SIZE_L2 with (2 ^ 21) in Ha. rewrite base_sign in Ha.
    eapply (pt_index_at 2 _ i (a - base l4 l3 i 0)); [lia|done|rewrite base_sign; lia|].
    rewrite base_sign. instantiate (1 := (sign l4 * 512 + l4) * 512 + l3). lia. }
  cbv zeta. destruct (is_unused (mem t i)) eqn:E; [|destruct (is_huge (mem t i)) eqn:Eh].
  - apply exact_one; [done|]. intros a Ha. unfold walk2. by rewrite Hw, E.
  - apply exact_nil. intros a Ha. unfold walk2. by rewrite Hw, E, Eh.
  - eapply exact_ext; [|by apply exact_l1]. intros a Ha. unfold walk2. by rewrite Hw, E, Eh.
Qed.

Lemma exact_l3 l4 t :
  index l4 → exact (find_free_l3 mem l4 t) (base l4 0 0 0) (base l4 0 0 0 + SIZE_L4) (walk3 t).
Proof.
  intros H4. apply (exact_table _ _ SIZE_L3); [done|]. intros i Hi. rewrite index_to_addr_sum by done.
  replace (base l4 0 0 0 + i * SIZE_L3) with (base l4 i 0 0) by (unfold base; change SIZE_L3 with (2 ^ 30); lia).
  assert (∀ a, base l4 i 0 0 <= a < base l4 i 0 0 + SIZE_L3 → pt_index 3 a = i) as Hw.
  { intros a Ha. change SIZE_L3 with (2 ^ 30) in Ha. rewrite base_sign in Ha.
    eapply (pt_index_at 3 _ i (a - base l4 i 0 0)); [lia|done|rewrite base_sign; lia|].
    rewrite base_sign. instantiate (1 := sign l4 * 512 + l4). lia. }
  cbv zeta. destruct (is_unused (mem t i)) eqn:E; [|destruct (is_huge (mem t i)) eqn:Eh].
  - apply exact_one; [done|]. intros a Ha. unfold walk3. by rewrite Hw, E.
  - apply exact_nil. intros a Ha. unfold walk3. by rewrite Hw, E, Eh.
  - eapply exact_ext; [|by apply exact_l2]. intros a Ha. unfold walk3. by rewrite Hw, E, Eh.
Qed.

Definition half_base (space : AddressSpace) : Z :=
  match space with Kernel => 2 ^ 64 - 2 ^ 47 | User => 0 end.

Lemma exact_free_ranges t space :
  exact (find_free_ranges mem t space) (half_base space) (half_base space + 2 ^ 47) (walk_free t).
Proof.
  set (first := match space with Kernel => 256 | User => 0 end).
  assert (half space = seqZ first 256) as Eh by by destruct space.
  assert (∀ i, first <= i < first + 256 → index i) as Hi by (unfold index, first; destruct space; lia).
  set (b := half_base space - first * SIZE_L4).
  assert (∀ i, first <= i < first + 256 → base i 0 0 0 = b + i * SIZE_L4) as Hb.
  { intros i Hi'. unfold base, b, half_base, first in *. change SIZE_L4 with (2 ^ 39).
    destruct space; case_bool; zb; lia. }
  unfold find_free_ranges. rewrite Eh.
  pose proof (exact_bind (λ l4, let e := mem t l4 in
    if is_unused e then [mkRegion (index_to_addr l4 0 0 0) SIZE_L4] else find_free_l3 mem l4 (entry_addr e))
    b SIZE_L4 first 256 (walk_free t) ltac:(done)) as H.
  replace (b + first * SIZE_L4) with (half_base space) in H by (unfold b; lia).
  replace (b + (first + Z.of_nat 256) * SIZE_L4) with (half_base space + 2 ^ 47) in H
    by (unfold b; change SIZE_L4 with (2 ^ 39); lia).
  apply H. clear H. intros i Hi'. specialize (Hi i Hi'). rewrite index_to_addr_sum by done.
  replace (b + (i + 1) * SIZE_L4) with (base i 0 0 0 + SIZE_L4) by (rewrite Hb by lia; lia).
  rewrite <- (Hb i) by lia.
  assert (∀ a, base i 0 0 0 <= a < base i 0 0 0 + SIZE_L4 → pt_index 4 a = i) as Hw.
  { intros a Ha. change SIZE_L4 with (2 ^ 39) in Ha. rewrite base_sign in Ha.
    eapply (pt_index_at 4 _ i (a - base i 0 0 0)); [lia|done|rewrite base_sign; lia|].
    rewrite base_sign. instantiate (1 := sign i). lia. }
  cbv zeta. destruct (is_unused (mem t i)) eqn:E.
  - apply exact_one; [done|]. intros a Ha. unfold walk_free. by rewrite Hw, E.
  - eapply exact_ext; [|by apply exact_l3]. intros a Ha. unfold walk_free. by rewrite Hw, E.
Qed.

(** ** The ranges of a new allocator *)

Definition add_region (al : Ranges.RangeAllocator) (range : VirtualRegion) : Ranges.RangeAllocator :=
  Ranges.add_range al (rstart range) (rstart range ⊞ rsize range).

Lemma tiles_tail r l lo hi : tiles (r :: l) lo hi → tiles l (rstart r + rsize r) hi.
Proof.
  intros [F S]. inversion F as [|? ? _ F']; subst. inversion S as [|? ? S' Hr]; subst.
  split; [|done]. rewrite Forall_forall in *. intros x Hx. specialize (F' x Hx). specialize (Hr x Hx). simpl in *. lia.
Qed.

Lemma add_regions b al l lo hi :
  0 <= b → hi <= 2 ^ 64 → hi - b < 2 ^ 64 →
  Forall (Ranges.within b hi) (Ranges.free al) → StronglySorted Ranges.sep (Ranges.free al) →
  tiles l lo hi → b <= lo → (∀ x, Ranges.free_at al x → x < lo) →
  let al' := foldl add_region al l in
  Forall (Ranges.within b hi) (Ranges.free al') ∧ StronglySorted Ranges.sep (Ranges.free al') ∧
  ∀ x, Ranges.free_at al' x ↔ Ranges.free_at al x ∨ covered l x.
Proof.
  intros H0 Hh Hl. revert al lo. induction l as [|r l IH]; intros al lo Hw Hs T Hb Hf; cbn [foldl].
  { split_and!; [done..|]. intros x. rewrite covered_nil. tauto. }
  pose proof (tiles_tail _ _ _ _ T) as T'. destruct T as [F _]. inversion F as [|? ? Hr _]; subst.
  assert (add_region al r = Ranges.coalesce (Ranges.push al (Ranges.mkRange (rstart r) (rsize r)))) as E.
  { unfold add_region, Ranges.add_range. do 3 f_equal. uint_lia. }
  rewrite E. destruct (Ranges.push_within b hi al (rstart r) (rsize r)) as (Hw' & Hs' & Hx); [done..|lia|lia|lia| |].
  { intros x Hx Hfree. apply Hf in Hfree. lia. }
  destruct (IH _ _ Hw' Hs' T') as (IH1 & IH2 & IH3); [lia| |].
  { intros x [Hfree|?]%Hx; [apply Hf in Hfree|]; lia. }
  split_and!; [done..|]. intros x. rewrite IH3, Hx. unfold covered. rewrite Exists_cons. tauto.
Qed.

(** Ranges that do not reach the end of the address space. *)
Lemma within_ok b al :
  0 <= b → Forall (Ranges.within b (2 ^ 64)) (Ranges.free al) → ¬ Ranges.free_at al (2 ^ 64 - 1) →
  Forall Ranges.ok (Ranges.free al).
Proof.
  intros Hb Hw Hn. rewrite Forall_forall in *. intros r Hr. specialize (Hw r Hr).
  unfold Ranges.ok, Ranges.within in *. split_and!; [lia..|].
  destruct (decide (Ranges.r_end r = 2 ^ 64)); [|lia]. exfalso. apply Hn, Exists_exists. exists r. split; [done|].
  unfold Ranges.covers, Ranges.r_end in *. lia.
Qed.

Lemma new_ranges_spec t space :
  let al := new_ranges mem t space in
  Forall (Ranges.within (half_base space) (half_base space + 2 ^ 47)) (Ranges.free al) ∧
  StronglySorted Ranges.sep (Ranges.free al) ∧
  (∀ x, Ranges.free_at al x ↔ half_base space <= x < half_base space + 2 ^ 47 ∧ walk_free t x = true) ∧
  (space = User ∨ walk_free t (2 ^ 64 - 1) = false → Ranges.inv al).
Proof.
  destruct (exact_free_ranges t space) as [T C].
  destruct (add_regions (half_base space) Ranges.new _ _ (half_base space + 2 ^ 47)
    ltac:(by destruct space) ltac:(by destruct space) ltac:(lia) ltac:(constructor) ltac:(constructor) T)
    as (H1 & H2 & H3); [lia|by intros x ?%Exists_nil|].
  assert (∀ x, Ranges.free_at (new_ranges mem t space) x ↔
    half_base space <= x < half_base space + 2 ^ 47 ∧ walk_free t x = true) as Hx.
  { intros x. rewrite <- C. etransitivity; [apply H3|]. split; [intros [?%Exists_nil|]; done|tauto]. }
  split_and!; [exact H1|exact H2|exact Hx|]. intros Hk. split; [|exact H2].
  apply (within_ok (half_base space)); [by destruct space| |].
  - eapply Forall_impl; [exact H1|]. unfold Ranges.within. intros r. destruct space; simpl; lia.
  - rewrite Hx. intros [Hb Hf]. destruct Hk as [->|Hk]; [simpl in Hb; lia|congruence].
Qed.
End walk.

(** C25. The allocator made for an address space starts with exactly the free
    addresses of that half, whatever the tables hold: an address is in one of its
    ranges if and only if the page walk for it ends at an unused entry.  The
    ranges lie in the half, sorted and with gaps between them.  Those of a user
    space satisfy the invariant of the range allocator, and so do those of the
    kernel unless the very last page of the address space is free: then the last
    range ends at 2^64, where the sums of the allocator wrap. *)
Theorem vmem_new_exact mem t space :
  let al := new_ranges mem t space in
  (∀ x, Ranges.free_at al x ↔ half_base space <= x < half_base space + 2 ^ 47 ∧ walk_free mem t x = true) ∧
  Forall (Ranges.within (half_base space) (half_base space + 2 ^ 47)) (Ranges.free al) ∧
  StronglySorted Ranges.sep (Ranges.free al) ∧
  (Ranges.inv al ↔ space = User ∨ walk_free mem t (2 ^ 64 - 1) = false).
Proof.
  intros al. destruct (new_ranges_spec mem t space) as (H1 & H2 & H3 & H4). split_and!; [exact H3|exact H1|exact H2|].
  split; [|exact H4]. intros [Hok _]. destruct space; [right|by left].
  destruct (walk_free mem t (2 ^ 64 - 1)) eqn:E; [|done]. exfalso.
  assert (Ranges.free_at al (2 ^ 64 - 1)) as (r & Hr & Hc)%Exists_exists by (apply H3; split; [simpl; lia|done]).
  rewrite Forall_forall in Hok. specialize (Hok r Hr). unfold Ranges.ok, Ranges.covers in *. lia.
Qed.

(** ** A new user space *)

Lemma user_entry_spec e : user_entry e = Z.ldiff e USER_ACCESSIBLE.
Proof.
  unfold user_entry, entry_addr. apply Z.bits_inj'. intros i Hi.
  rewrite Z.lor_spec, !Z.ldiff_spec, Z.land_spec.
  destruct (decide (i = 2)) as [->|Hne]; [by destruct (Z.testbit e 2)|].
  assert (Z.testbit USER_ACCESSIBLE i = false) as ->.
  { change USER_ACCESSIBLE with (2 ^ 2). apply Z.pow2_bits_false. lia. }
  destruct (Z.testbit e i), (Z.testbit _ i); done.
Qed.

Lemma user_walk mem active phys a :
  0 <= a < 2 ^ 47 → walk_free (with_table mem phys (user_table (mem active))) phys a = true.
Proof.
  intros Ha. unfold walk_free, with_table. rewrite Z.eqb_refl.
  assert (0 <= pt_index 4 a < 256) as Hi.
  { unfold pt_index. rewrite (Z.land_ones _ 9), Z.shiftr_div_pow2 by lia.
    assert (0 <= a / 2 ^ (3 + 9 * 4) < 256) by (split; [apply Z.div_pos; lia|apply Z.div_lt_upper_bound; lia]).
    rewrite Z.mod_small; lia. }
  unfold user_table. destruct (256 <=? pt_index 4 a) eqn:E; zb; [lia|done].
Qed.

(** The whole lower half is free and the higher half is that of the active
    table without user access. *)
Lemma new_user_ranges_spec mem active phys :
  new_user_ranges mem active phys = Ranges.mkAllocator [Ranges.mkRange 0 (2 ^ 47)].
Proof.
  destruct (new_ranges_spec (with_table mem phys (user_table (mem active))) phys User) as (_ & _ & Hx & Hi).
  apply Ranges.inv_canonical; [apply Hi; by left| |].
  - split; repeat constructor; done.
  - intros x. unfold new_user_ranges. rewrite Hx. unfold Ranges.free_at. cbn [Ranges.free].
    rewrite Exists_cons, Exists_nil. unfold Ranges.covers, Ranges.r_end. cbn [Ranges.start Ranges.length half_base].
    split; [intros [? _]; left; lia|]. intros [Hx'|[]]. split; [lia|]. apply user_walk. lia.
Qed.

End PageTables.
