(* ===== verification/Elf.v ===== *)
(** * The ELF loader (src/kernel/src/elf/loader.rs) and new user spaces (memory/user.rs)

    Parsing the file is the [elf] crate's work and a parameter here, as are the
    file system, the page allocator and the memory that holds page tables (the
    class [Machine]).  The loader's own checks, the copying of segments and the
    mapping through [VMemAllocator] are modelled in full. *)

From stdpp Require Import sorting.
From S2P Require Import Prelude Errors RangeAllocator Pages Names Virt PageTables.
Import Errors Pages Names Virt PageTables.

Module Elf.

Definition USER_END : Z := 0x0000800000000000.

(** ** What the [elf] crate gives *)

Inductive Class_ := ELF32 | ELF64.

#[export] Instance Class_eq_dec : EqDecision Class_.
Proof. solve_decision. Defined.

Record ProgramHeader := mkPhdr {
  p_type : Z; p_flags : Z; p_offset : Z; p_vaddr : Z; p_filesz : Z; p_memsz : Z
}.

Record ElfBytes := mkElf {
  class : Class_; e_machine : Z; e_type : Z; e_entry : Z;
  segments : option (list ProgramHeader)
}.

Definition EM_X86_64 : Z := 62.
Definition ET_EXEC : Z := 2.
Definition ET_DYN : Z := 3.
Definition PT_LOAD : Z := 1.

(** ** The checks *)

Record Segment := mkSegment {
  virt_addr : Z; start : Z; end_ : Z; file_start : Z; file_end : Z; mem_size : Z;
  page_offset : Z; flags : Z; executable : bool
}.

Section loader.
Context {ParseError : Type}.
Abbreviation LoaderError := (LoaderError ParseError).

Definition parse_header (elf : ElfBytes) : res LoaderError Z :=
  if negb (bool_decide (class elf = ELF64)) then Err BadClass
  else if negb (e_machine elf =? EM_X86_64) then Err BadTarget
  else if negb ((ET_EXEC =? e_type elf) || (ET_DYN =? e_type elf)) then Err BadType
  else if e_type elf =? ET_EXEC then Ok 0 else Ok 0x400000.

Definition page_flags (flags : Z) : Z :=
  let res := 0 in
  let res := if Z.land flags 1 =? 0 then Z.lor res NO_EXECUTE else res in
  let res := if Z.land (Z.shiftr flags 1) 1 =? 1 then Z.lor res WRITABLE else res in
  Z.lor res USER_ACCESSIBLE.

(** One round of the loop of [parse_segments]; [None] is [continue]. *)
Definition parse_segment (data_len base : Z) (phdr : ProgramHeader) : res LoaderError (option Segment) :=
  if negb (p_type phdr =? PT_LOAD) then Ok None
  else if p_memsz phdr <? p_filesz phdr then Err BadSegments
  else if p_memsz phdr =? 0 then Ok None
  else
    let file_start := p_offset phdr in
    file_end ← ok_or (checked_add file_start (p_filesz phdr)) (LoaderMemory OutOfBounds);
    if data_len <? file_end then Err (LoaderMemory OutOfBounds)
    else
      virt_addr ← ok_or (checked_add base (p_vaddr phdr)) (LoaderMemory OutOfBounds);
      mem_end ← ok_or (checked_add virt_addr (p_memsz phdr)) (LoaderMemory OutOfBounds);
      let start := (virt_addr / PAGE_SIZE) ⊠ PAGE_SIZE in
      end_ ← ok_or (checked_next_multiple_of mem_end PAGE_SIZE) (LoaderMemory OutOfBounds);
      if USER_END <? end_ then Err (LoaderMemory OutOfBounds)
      else
        let flags := page_flags (p_flags phdr) in
        Ok (Some (mkSegment virt_addr start end_ file_start file_end (p_memsz phdr)
          (virt_addr ⊟ start) flags (negb (Z.land flags NO_EXECUTE =? NO_EXECUTE)))).

Fixpoint parse_phdrs (data_len base : Z) (res : list Segment) (phdrs : list ProgramHeader) :
    Prelude.res LoaderError (list Segment) :=
  match phdrs with
  | [] => Ok res
  | phdr :: phdrs =>
      s ← parse_segment data_len base phdr;
      parse_phdrs data_len base (match s with Some seg => res ++ [seg] | None => res end) phdrs
  end.

Definition parse_segments (elf : ElfBytes) (data_len base : Z) : res LoaderError (list Segment) :=
  phdrs ← ok_or (segments elf) NoSegments;
  res ← parse_phdrs data_len base [] phdrs;
  if decide (res = []) then Err NoSegments else Ok res.

(** [sort_unstable_by_key]: segments that start at the same address end the
    check with an error in any order. *)
Definition by_start (s t : Segment) : Prop := start s <= start t.

#[export] Instance by_start_dec : RelDecision by_start.
Proof. unfold by_start. intros s t. apply _. Defined.
#[export] Instance by_start_total : Total by_start.
Proof. unfold by_start. intros s t. lia. Qed.
#[export] Instance by_start_trans : Transitive by_start.
Proof. unfold by_start. intros s t u. lia. Qed.

Fixpoint windows_ok (segs : list Segment) : bool :=
  match segs with
  | a :: (b :: _) as segs => negb (start b <? end_ a) && windows_ok segs
  | _ => true
  end.

Definition check_no_overlap (segs : list Segment) : res LoaderError (list Segment) :=
  let segs := merge_sort by_start segs in
  if windows_ok segs then Ok segs else Err OverlappingSegments.

Context {AD : Addresses}.

Definition validate_entry (entry base : Z) (segs : list Segment) : res LoaderError Z :=
  entry ← ok_or (checked_add base entry) (LoaderMemory OutOfBounds);
  let in_exec := existsb (λ s, executable s &&
    ((virt_addr s <=? entry) && (entry <? virt_addr s ⊞ mem_size s))) segs in
  if negb in_exec then Err (LoaderMemory InvalidMapping)
  else ok_or (virt_new entry) (LoaderMemory InvalidMapping).
End loader.

(** ** Loading *)

(** A run of pages with its physical address. *)
Record Frame := mkFrame { phys : Z; page : PhysPage }.

(** The machine below the loader: the file system, the page allocator and the
    page tables in memory.  [use_l4] hands a table to the mapper. *)
Class Machine (W : Type) := {
  file_size : Str → M W FSError Z;
  fs_read : Str → PhysPage → M W FSError (Z * PhysPage);
  phys_page_new : Z → M W MemoryError Frame;
  table_mem : W → Z → Z → Z;
  active_l4 : W → Z;
  write_table : Z → (Z → Z) → W → W;
  use_l4 : Z → W → W
}.

Section load.
Context {W ParseError : Type} {AD : Addresses} {MP : Mapper W} {MC : Machine W}.
Variable minimal_parse : list Z → res ParseError ElfBytes.

(** [KernelError], with the loader's errors beside the others. *)
Inductive LoadError :=
| ELoader (e : LoaderError ParseError)
| EMemory (e : MemoryError)
| EFS (e : FSError).

Definition new_user_allocator : M W MemoryError (Ranges.RangeAllocator * Frame) :=
  frame ← phys_page_new 1;
  table ← gets (λ w, user_table (table_mem w (active_l4 w)));
  modify (write_table (phys frame) table);;
  ranges ← gets (λ w, new_ranges (table_mem w) (phys frame) User);
  modify (use_l4 (phys frame));;
  mret (ranges, frame).

Definition read_file (path : Str) : M W LoadError (PhysPage * Z) :=
  size ← map_errM EFS (file_size path);
  frame ← map_errM EMemory (phys_page_new (div_ceil size PAGE_SIZE));
  r ← map_errM EFS (fs_read path (page frame));
  let '(bytes_read, page) := r in
  mret (page, bytes_read).

(** A slice [l[a..b]]; out of range it panics. *)
Definition index_slice {S E} (a b : Z) (l : list Z) : M S E (list Z) :=
  if (a <=? b) && (b <=? Z.of_nat (length l)) then mret (slice (Z.to_nat a) (Z.to_nat (b - a)) l) else panic.

(** [dst[a..a + src.len()].copy_from_slice(src)] *)
Definition copy_into {S E} (a : Z) (src : list Z) (p : PhysPage) : M S E PhysPage :=
  if a + Z.of_nat (length src) <=? Z.of_nat (length (bytes p))
  then mret (mkPage (count p) (splice (Z.to_nat a) src (bytes p))) else panic.

Definition map_segment (seg : Segment) (data : list Z) : M (VMemAllocator (W := W)) MemoryError Frame :=
  let count := div_ceil (end_ seg ⊟ start seg) PAGE_SIZE in
  frame ← on_table (phys_page_new count);
  src ← index_slice (file_start seg) (file_end seg) data;
  p ← copy_into (page_offset seg) src (page frame);
  start ← opt_panic (virt_new (start seg));
  map_fixed (mkRegion start (end_ seg ⊟ Elf.start seg)) (phys frame) (flags seg);;
  mret (mkFrame (phys frame) p).

Fixpoint map_segments (segs : list Segment) (data : list Z) (pages : list Frame) :
    M (VMemAllocator (W := W)) MemoryError (list Frame) :=
  match segs with
  | [] => mret pages
  | seg :: segs => p ← map_segment seg data; map_segments segs data (pages ++ [p])
  end.

(** The loader's calls on a new allocator with its ranges. *)
Definition with_ranges {E A} (al : Ranges.RangeAllocator) (m : M (VMemAllocator (W := W)) E A) :
    M W E (A * Ranges.RangeAllocator) := λ w,
  match m (mkVMem w al) with
  | (Ok a, s) => (Ok (a, allocator s), page_table s)
  | (Err e, s) => (Err e, page_table s)
  | (Panic, s) => (Panic, page_table s)
  | (Loop, s) => (Loop, page_table s)
  end.

Record LoadedBinary := mkLoaded {
  entry : Z; ranges : Ranges.RangeAllocator; l4_page : Frame; loaded : list Frame
}.

Definition loader {A} (r : res (LoaderError ParseError) A) : M W LoadError A := lift (map_err ELoader r).

Definition load (path : Str) : M W LoadError LoadedBinary :=
  r ← read_file path;
  let '(page, data_len) := r in
  data ← index_slice 0 data_len (bytes page);
  elf ← loader (map_err Parse (minimal_parse data));
  base ← loader (parse_header elf);
  segs ← loader (parse_segments elf (Z.of_nat (length data)) base);
  segs ← loader (check_no_overlap segs);
  entry ← loader (validate_entry (e_entry elf) base segs);
  space ← map_errM EMemory new_user_allocator;
  m ← map_errM EMemory (with_ranges space.1 (map_segments segs data []));
  mret (mkLoaded entry m.2 space.2 m.1).
End load.

(** ** What the checks accept *)

(** A header as the crate returns it: the fields have their widths. *)
Definition phdr_ok (p : ProgramHeader) : Prop :=
  in_u64 (p_offset p) ∧ in_u64 (p_vaddr p) ∧ in_u64 (p_filesz p) ∧ in_u64 (p_memsz p).

(** A segment that passed: page bounds around its memory, in user space, with
    its bytes in the file. *)
Definition seg_ok (data_len : Z) (s : Segment) : Prop :=
  (4096 | start s) ∧ (4096 | end_ s) ∧ 0 <= start s <= virt_addr s ∧
  0 < mem_size s ∧ virt_addr s + mem_size s <= end_ s <= USER_END ∧
  virt_addr s < start s + 4096 ∧ end_ s < virt_addr s + mem_size s + 4096 ∧
  page_offset s = virt_addr s - start s ∧
  0 <= file_start s <= file_end s ∧ file_end s <= data_len ∧ file_end s - file_start s <= mem_size s.

Section check_proofs.
Context {ParseError : Type}.

Lemma res_bind_Ok {E A B} (r : res E A) (f : A → res E B) b :
  (a ← r; f a) = Ok b → ∃ a, r = Ok a ∧ f a = Ok b.
Proof. destruct r; try done. eauto. Qed.

Lemma ok_or_Ok {E A} (o : option A) (e : E) a : ok_or o e = Ok a ↔ o = Some a.
Proof. destruct o; simpl; split; congruence. Qed.

Lemma checked_next_multiple_of_Some a b c :
  0 < b → checked_next_multiple_of a b = Some c → a <= c < a + b ∧ (b | c).
Proof.
  intros Hb H. unfold checked_next_multiple_of in H. pose proof (Z.div_mod a b ltac:(lia)).
  pose proof (Z.mod_pos_bound a b Hb). destruct (a mod b =? 0) eqn:E; zb.
  - injection H as <-. split; [lia|]. exists (a / b). lia.
  - apply checked_add_Some in H as [-> _]. split; [lia|]. exists (a / b + 1). lia.
Qed.

Lemma parse_segment_ok data_len base phdr s :
  phdr_ok phdr → 0 <= base → parse_segment (ParseError := ParseError) data_len base phdr = Ok (Some s) →
  seg_ok data_len s.
Proof.
  intros (Ho & Hv & Hfs & Hms) Hb. unfold parse_segment, in_u64 in *. repeat case_bool; try done. zb.
  intros (fe & [-> ?]%ok_or_Ok%checked_add_Some & K)%res_bind_Ok. case_bool; [done|]. zb.
  apply res_bind_Ok in K as (va' & [-> ?]%ok_or_Ok%checked_add_Some & K).
  apply res_bind_Ok in K as (me & [-> ?]%ok_or_Ok%checked_add_Some & K).
  apply res_bind_Ok in K as (en & He%ok_or_Ok & K). case_bool; [done|]. zb.
  set (va := base + p_vaddr phdr) in *. pose proof (Z.div_mod va 4096). pose proof (Z.mod_pos_bound va 4096).
  unfold PAGE_SIZE in *. apply checked_next_multiple_of_Some in He as [He Hd]; [|done].
  rewrite (u64_small (va / 4096 * 4096)) in K by (unfold in_u64; lia).
  rewrite u64_small in K by (unfold in_u64; lia). injection K as <-.
  unfold seg_ok. cbn [start end_ virt_addr mem_size page_offset file_start file_end].
  split_and!; try lia; [by exists (va / 4096)|done].
Qed.

Lemma parse_phdrs_ok data_len base acc phdrs segs :
  Forall phdr_ok phdrs → 0 <= base → Forall (seg_ok data_len) acc →
  parse_phdrs (ParseError := ParseError) data_len base acc phdrs = Ok segs → Forall (seg_ok data_len) segs.
Proof.
  intros Hp Hb. revert acc. induction Hp as [|phdr phdrs H1 _ IH]; intros acc Ha K; [by injection K as <-|].
  cbn [parse_phdrs] in K. apply res_bind_Ok in K as (o & E & K). eapply IH; [|exact K].
  destruct o as [seg|]; [|done]. apply Forall_app_2; [done|]. constructor; [|constructor].
  by eapply parse_segment_ok.
Qed.

(** Disjoint and in order. *)
Definition apart (segs : list Segment) : Prop := StronglySorted (λ s t, end_ s <= start t) segs.

Lemma windows_apart data_len segs : Forall (seg_ok data_len) segs → windows_ok segs = true → apart segs.
Proof.
  induction segs as [|a [|b segs] IH]; intros Hs Hw; [constructor|repeat constructor|].
  inversion Hs as [|? ? Ha Hs']; subst. cbn [windows_ok] in Hw. apply andb_true_iff in Hw as [Hab Hw].
  apply negb_true_iff in Hab. zb. specialize (IH Hs' Hw).
  constructor; [done|]. inversion Hs' as [|? ? Hb _]; subst. inversion IH as [|? ? _ Hall]; subst.
  constructor; [done|]. eapply Forall_impl; [exact Hall|]. simpl. unfold seg_ok in Hb. lia.
Qed.

Lemma check_no_overlap_ok data_len segs segs' :
  Forall (seg_ok data_len) segs → check_no_overlap (ParseError := ParseError) segs = Ok segs' →
  segs' ≡ₚ segs ∧ Forall (seg_ok data_len) segs' ∧ apart segs'.
Proof.
  unfold check_no_overlap. intros Hs. destruct (windows_ok _) eqn:E; [|done]. intros [= <-].
  assert (merge_sort by_start segs ≡ₚ segs) as P by apply merge_sort_Permutation.
  assert (Forall (seg_ok data_len) (merge_sort by_start segs)) as F by by rewrite P.
  split_and!; [done..|]. by eapply windows_apart.
Qed.

Lemma parse_header_base elf base :
  parse_header (ParseError := ParseError) elf = Ok base → class elf = ELF64 ∧ e_machine elf = EM_X86_64 ∧ 0 <= base.
Proof.
  unfold parse_header. case_bool_decide as Hc; [|done]. cbn [negb].
  repeat case_bool; try done; zb; intros [= <-]; split_and!; done || lia.
Qed.
End check_proofs.

Section entry_proofs.
Context {ParseError : Type} {AD : Addresses} {AL : AddressLaws}.

Definition in_exec (segs : list Segment) (a : Z) : Prop :=
  Exists (λ s, executable s = true ∧ virt_addr s <= a < virt_addr s + mem_size s) segs.

Lemma validate_entry_ok data_len entry base segs a :
  Forall (seg_ok data_len) segs → validate_entry (ParseError := ParseError) entry base segs = Ok a →
  a = base + entry ∧ in_exec segs a.
Proof.
  intros Hs K. unfold validate_entry in K.
  apply res_bind_Ok in K as (e & [-> He]%ok_or_Ok%checked_add_Some & K).
  destruct (existsb _ segs) eqn:E; [|done]. cbn [negb] in K. apply ok_or_Ok in K.
  apply existsb_exists in E as (s & Hin%list_elem_of_In & Hx).
  apply andb_true_iff in Hx as [Hx [H1 H2]%andb_true_iff]. zb.
  pose proof (proj1 (Forall_forall _ _) Hs s Hin) as Hok. unfold seg_ok, USER_END in Hok.
  rewrite u64_small in H2 by (unfold in_u64; lia).
  rewrite virt_new_ok in K by (unfold canonical; lia). injection K as <-.
  split; [done|]. apply Exists_exists. exists s. split; [done|]. done.
Qed.
End entry_proofs.

(** ** What [load] does *)

(** Frames lie in the part of memory that the direct map covers. *)
Class MachineLaws W `{MC : Machine W} `{ML : MapperLaws W} := {
  phys_page_law n w :
    0 <= n →
    wp (phys_page_new n)
      (λ f w', page f = zero_page n ∧ (4096 | phys f) ∧ 0 <= phys f ∧ phys f + n * 4096 < 2 ^ 46 ∧
        ∀ v, leaf w' v = leaf w v)
      (λ _ _, True) w;
  file_size_law path w : wp (file_size path) (λ n _, 0 <= n) (λ _ _, True) w;
  fs_read_law path dest w :
    wp (fs_read path dest)
      (λ r _, length (bytes r.2) = length (bytes dest) ∧ 0 <= r.1 <= Z.of_nat (length (bytes dest)))
      (λ _ _, True) w;
  table_mem_law t table w : table_mem (write_table t table w) = with_table (table_mem w) t table;
  use_l4_law t w v : walk_free (table_mem w) t (v * 4096) = true → leaf (use_l4 t w) v = None
}.

Section load_proofs.
Context {W ParseError : Type} {AD : Addresses} {MP : Mapper W} {MC : Machine W}.
Context {AL : AddressLaws} {ML : MapperLaws W} {MCL : MachineLaws W}.
Implicit Types w : W.

(** The memory image of a segment. *)
Definition image (seg : Segment) (data : list Z) : PhysPage :=
  let n := (end_ seg - start seg) / 4096 in
  mkPage n (splice (Z.to_nat (page_offset seg))
    (slice (Z.to_nat (file_start seg)) (Z.to_nat (file_end seg - file_start seg)) data)
    (replicate (Z.to_nat (n * PAGE_SIZE)) 0)).

Definition seg_region (seg : Segment) : VirtualRegion := mkRegion (start seg) (end_ seg - start seg).

(** Every page of the segment is mapped, with its flags, to the frame that holds
    its part of the image. *)
Definition seg_loaded (data : list Z) (w : W) (seg : Segment) (f : Frame) : Prop :=
  page f = image seg data ∧
  ∀ v, start seg / 4096 <= v < end_ seg / 4096 →
    translation w v = Some (phys f + (v - start seg / 4096) * 4096, Z.lor (flags seg) PRESENT).

Lemma wp_index_slice {S E} a b l (Q : list Z → S → Prop) (R : E → S → Prop) s :
  a <= b → b <= Z.of_nat (length l) → Q (slice (Z.to_nat a) (Z.to_nat (b - a)) l) s →
  wp (index_slice a b l) Q R s.
Proof.
  intros H1 H2 HQ. unfold index_slice.
  rewrite (proj2 (Z.leb_le _ _) H1), (proj2 (Z.leb_le _ _) H2). by apply wp_ret.
Qed.

Lemma Inv_ext (s s' : VMemAllocator (W := W)) :
  allocator s' = allocator s → (∀ v, leaf (page_table s') v = leaf (page_table s) v) → Inv s → Inv s'.
Proof. intros Ea El [H1 H2]. split; [by rewrite Ea|]. intros x Hx. rewrite El. apply H2. by rewrite <- Ea. Qed.

Lemma mapped_fixed_ext (s s1 s' : VMemAllocator (W := W)) region ph fl :
  allocator s1 = allocator s → (∀ v, leaf (page_table s1) v = leaf (page_table s) v) →
  mapped_fixed s1 s' region ph fl → mapped_fixed s s' region ph fl.
Proof.
  intros Ea El (H1 & H2 & H3 & H4 & H5). unfold mapped_fixed. rewrite <- Ea.
  do 4 (split; [done|]). intros v. specialize (H5 v). by rewrite El in H5.
Qed.

Lemma map_segment_wp seg data (s : VMemAllocator (W := W)) :
  Inv s → seg_ok (Z.of_nat (length data)) seg → end_ seg < USER_END →
  wp (map_segment seg data)
    (λ f s', page f = image seg data ∧ mapped_fixed s s' (seg_region seg) (phys f) (flags seg) ∧ Inv s')
    (λ _ _, True) s.
Proof.
  intros Hinv Hseg Htop. unfold seg_ok, USER_END in *.
  destruct Hseg as (D1 & D2 & Hs & Hm & He & Hv & He' & Hpo & Hf & Hf' & Hfl).
  unfold map_segment. rewrite (u64_small (end_ seg - start seg)) by (unfold in_u64; lia).
  assert (4096 | end_ seg - start seg) as Dn by by apply Z.divide_sub_r.
  destruct (Dn) as [n En].
  assert (div_ceil (end_ seg - start seg) PAGE_SIZE = n) as -> by (rewrite En; by apply div_ceil_mult).
  assert (Z.of_nat (length (slice (Z.to_nat (file_start seg)) (Z.to_nat (file_end seg - file_start seg)) data))
    = file_end seg - file_start seg) as Hlen by (rewrite length_slice; lia).
  apply wp_bind, wp_on_table. eapply wp_mono; [apply phys_page_law; lia| |done].
  intros f w1 (Hpg & Hal & Hp0 & Hp1 & Hw1). apply wp_bind, wp_index_slice; [lia|lia|].
  apply wp_bind. unfold copy_into. rewrite Hlen, Hpg. cbn [zero_page bytes count].
  rewrite length_replicate, Z2Nat.id by (unfold PAGE_SIZE; lia). unfold PAGE_SIZE at 1.
  destruct (_ <=? n * 4096) eqn:E; zb; [|lia]. apply wp_ret.
  apply wp_bind. eapply wp_opt_panic; [apply virt_new_ok; unfold canonical; lia|].
  apply wp_bind. eapply wp_mono; [apply map_fixed_wp|..]; cbn [rstart rsize]; [|unfold region_ok; lia|done|lia|lia| |done].
  - by eapply (Inv_ext s).
  - intros ? s' [Hmf Hi]. apply wp_ret. cbn [page phys]. split_and!; [|eapply (mapped_fixed_ext s); [| |exact Hmf]; done|done].
    unfold image. rewrite En, Z.div_mul by lia. done.
Qed.

Lemma seg_loaded_mapped data s s' seg f :
  seg_ok (Z.of_nat (length data)) seg → page f = image seg data →
  mapped_fixed s s' (seg_region seg) (phys f) (flags seg) → seg_loaded data (page_table s') seg f.
Proof.
  intros Hseg Hpg (_ & _ & _ & _ & G). split; [done|]. intros v Hv. specialize (G v).
  cbn [seg_region rstart rsize] in G. replace (start seg + (end_ seg - start seg)) with (end_ seg) in G by lia.
  rewrite decide_True in G by done. apply G.
Qed.

(** A mapping that is there stays when another region is mapped. *)
Lemma translation_stays (s s' : VMemAllocator (W := W)) region ph fl v x :
  mapped_fixed s s' region ph fl → translation (page_table s) v = Some x → translation (page_table s') v = Some x.
Proof.
  intros (_ & _ & _ & _ & G) Ht. specialize (G v). unfold translation in *. case_decide.
  - destruct G as [G _]. by rewrite G in Ht.
  - by rewrite G.
Qed.

(** Pages outside the segments are not touched. *)
Definition outside (segs : list Segment) (v : Z) : Prop :=
  Forall (λ s, ¬ (start s / 4096 <= v < end_ s / 4096)) segs.

Lemma map_segments_wp data segs done pages (s : VMemAllocator (W := W)) :
  Forall (seg_ok (Z.of_nat (length data))) segs → Forall (λ s, end_ s < USER_END) segs →
  Inv s → Forall2 (seg_loaded data (page_table s)) done pages →
  wp (map_segments segs data pages)
    (λ l s', Forall2 (seg_loaded data (page_table s')) (done ++ segs) l ∧ Inv s' ∧
      (∀ v, outside segs v → leaf (page_table s') v = leaf (page_table s) v) ∧
      ∀ x, Ranges.free_at (allocator s) x → Forall (λ s, end_ s <= x) segs → Ranges.free_at (allocator s') x)
    (λ _ _, True) s.
Proof.
  intros Hs. revert done pages s. induction Hs as [|seg segs Hseg _ IH]; intros done pages s Ht Hinv Hd; cbn [map_segments].
  { apply wp_ret. rewrite app_nil_r. done. }
  inversion Ht as [|? ? Ht1 Ht2]; subst.
  apply wp_bind. eapply wp_mono; [by apply map_segment_wp| |done]. intros f s1 (Hpg & Hmf & Hi).
  eapply wp_mono; [apply (IH (done ++ [seg]) (pages ++ [f]) s1 Ht2 Hi)| |done].
  - apply Forall2_app; [|constructor; [by eapply seg_loaded_mapped|constructor]].
    eapply Forall2_impl; [exact Hd|]. intros g fg [H1 H2]. split; [done|]. intros v Hv.
    eapply translation_stays; [exact Hmf|]. by apply H2.
  - intros l s2 (F & Hi2 & Hout & Hfr). rewrite <- app_assoc in F. split_and!; [done..| |].
    2:{ intros x Hx Hall. inversion Hall as [|? ? Hx1 Hx2]; subst. apply Hfr; [|done].
        destruct Hmf as (_ & Hfree & _). apply Hfree. cbn [seg_region rstart rsize]. split; [done|lia]. }
    intros v Hv. inversion Hv as [|? ? Hv1 Hv2]; subst. rewrite Hout by done.
    destruct Hmf as (_ & _ & _ & _ & G). specialize (G v). cbn [seg_region rstart rsize] in G.
    replace (start seg + (end_ seg - start seg)) with (end_ seg) in G by lia. by rewrite decide_False in G.
Qed.

(** Results that are a value or an error. *)
Definition plain {E A} (r : res E A) : Prop := match r with Ok _ | Err _ => True | _ => False end.

Lemma plain_bind {E A B} (r : res E A) (f : A → res E B) : plain r → (∀ a, plain (f a)) → plain (a ← r; f a).
Proof. destruct r; intros Hr Hf; try done. apply Hf. Qed.

Lemma plain_ok_or {E A} (o : option A) (e : E) : plain (ok_or o e).
Proof. by destruct o. Qed.

Lemma wp_loader {A} (r : res (LoaderError ParseError) A) (Q : A → W → Prop) w :
  plain r → (∀ a, r = Ok a → Q a w) → wp (loader r) Q (λ _ _, True) w.
Proof. unfold wp, loader, lift. destruct r; simpl; auto. Qed.

Ltac plain_tac :=
  repeat first [apply plain_bind; [apply plain_ok_or|intros ?] | case_bool | apply plain_ok_or | done].

Lemma parse_header_plain elf : plain (parse_header (ParseError := ParseError) elf).
Proof. unfold parse_header. plain_tac. Qed.

Lemma parse_segments_plain elf n b : plain (parse_segments (ParseError := ParseError) elf n b).
Proof.
  apply plain_bind; [apply plain_ok_or|]. intros phdrs. apply plain_bind; [|intros l; by destruct (decide _)].
  generalize (@nil Segment). induction phdrs as [|p phdrs IH]; intros acc; [done|]. cbn [parse_phdrs].
  apply plain_bind; [|intros ?; apply IH]. unfold parse_segment. plain_tac.
Qed.

Lemma check_no_overlap_plain segs : plain (check_no_overlap (ParseError := ParseError) segs).
Proof. unfold check_no_overlap. by case_bool. Qed.

Lemma validate_entry_plain en b segs : plain (validate_entry (ParseError := ParseError) en b segs).
Proof. unfold validate_entry. plain_tac. Qed.

Lemma wp_with_ranges {E A} al (m : M (VMemAllocator (W := W)) E A) Q R w :
  wp m (λ a s, Q (a, allocator s) (page_table s)) (λ e s, R e (page_table s)) (mkVMem w al) →
  wp (with_ranges al m) Q R w.
Proof. unfold wp, with_ranges. destruct (m _) as [[] ?]; done. Qed.

Lemma wpp_with_ranges {E A} al (m : M (VMemAllocator (W := W)) E A) Q R P w :
  wpp m (λ a s, Q (a, allocator s) (page_table s)) (λ e s, R e (page_table s)) P (mkVMem w al) →
  wpp (with_ranges al m) Q R P w.
Proof. unfold wpp, with_ranges. destruct (m _) as [[] ?]; done. Qed.

(** A new user space: everything free and nothing mapped. *)
Lemma new_user_allocator_wp w :
  wp new_user_allocator
    (λ r w', Inv (mkVMem w' r.1) ∧ (∀ v, 0 <= v < 2 ^ 35 → leaf w' v = None) ∧
      ∀ x, 0 <= x < 2 ^ 47 → Ranges.free_at r.1 x) (λ _ _, True) w.
Proof.
  unfold new_user_allocator. apply wp_bind. eapply wp_mono; [by apply phys_page_law| |done].
  intros f w1 _. apply wp_bind, wp_gets, wp_bind. set (t := user_table _). unfold wp at 1, modify.
  apply wp_bind, wp_gets, wp_bind. unfold wp at 1. apply wp_ret. cbn [fst]. rewrite table_mem_law.
  change (new_ranges (with_table (table_mem w1) (phys f) t) (phys f) User)
    with (new_user_ranges (table_mem w1) (active_l4 w1) (phys f)).
  assert (∀ v, 0 <= v < 2 ^ 35 → leaf (use_l4 (phys f) (write_table (phys f) t w1)) v = None) as Hn.
  { intros v Hv. apply use_l4_law. rewrite table_mem_law. apply user_walk. lia. }
  rewrite new_user_ranges_spec. split_and!; [|done|intros x Hx; apply Exists_cons; left; unfold Ranges.covers, Ranges.r_end; simpl; lia].
  split; [split; repeat constructor; done|].
  intros x Hx. apply Hn. apply Exists_cons in Hx as [Hx|Hx%Exists_nil]; [|done].
  unfold Ranges.covers, Ranges.r_end in Hx. simpl in Hx.
  split; [apply Z.div_pos; lia|apply Z.div_lt_upper_bound; lia].
Qed.

(** A segment that ends where user space does passes the checks, but mapping it
    computes the address after its last page, which is not canonical: unless an
    allocation fails first, the kernel panics. *)
Lemma map_segment_top seg data (s : VMemAllocator (W := W)) :
  Inv s → seg_ok (Z.of_nat (length data)) seg → end_ seg = USER_END →
  Ranges.all_free (allocator s) (start seg) (end_ seg - start seg) →
  wpp (map_segment seg data) (λ _ _, False) (λ _ _, True) True s.
Proof.
  intros Hinv Hseg Htop Hfree. unfold seg_ok, USER_END in *.
  destruct Hseg as (D1 & D2 & Hs & Hm & He & Hv & He' & Hpo & Hf & Hf' & Hfl).
  unfold map_segment. rewrite (u64_small (end_ seg - start seg)) by (unfold in_u64; lia).
  assert (4096 | end_ seg - start seg) as Dn by by apply Z.divide_sub_r.
  destruct (Dn) as [n En].
  assert (div_ceil (end_ seg - start seg) PAGE_SIZE = n) as -> by (rewrite En; by apply div_ceil_mult).
  apply wpp_bind, wp_wpp, wp_on_table. eapply wp_mono; [apply phys_page_law; lia| |done].
  intros f w1 (Hpg & Hal & Hp0 & Hp1 & Hw1). apply wpp_bind.
  unfold index_slice. destruct (_ && _); [apply wpp_ret|done].
  apply wpp_bind. unfold copy_into. destruct (_ <=? _); [apply wpp_ret|done].
  apply wpp_bind, wpp_opt_panic. intros a Ha. rewrite virt_new_ok in Ha by (unfold canonical; lia). injection Ha as <-.
  apply wpp_bind. unfold wpp at 1.
  pose proof (map_fixed_top (mkVMem w1 (allocator s)) (start seg) (end_ seg - start seg) (phys f) (flags seg)) as Hp.
  destruct (map_fixed _ _ _ _) as [r s']. cbn [fst] in Hp. rewrite Hp; try done; try lia. by eapply (Inv_ext s).
Qed.

(** The one segment that can end there is the last. *)
Lemma apart_top data_len segs : Forall (seg_ok data_len) segs → apart segs →
  Forall (λ s, end_ s < USER_END) segs ∨
  ∃ l t, segs = l ++ [t] ∧ end_ t = USER_END ∧ Forall (λ s, end_ s < USER_END ∧ end_ s <= start t) l.
Proof.
  intros Hok Hap. destruct (decide (Forall (λ s, end_ s < USER_END) segs)) as [|Hn]; [by left|right].
  destruct segs as [|t l] using rev_ind; [by destruct Hn|]. clear IHl. exists l, t.
  apply StronglySorted_app_iff in Hap as (_ & _ & Hlt). apply Forall_app in Hok as [Hl Ht]. inversion Ht as [|? ? Ht' _]; subst.
  assert (Forall (λ s, end_ s < USER_END ∧ end_ s <= start t) l) as Hbelow.
  { apply Forall_forall. intros s Hs. specialize (Hlt s t Hs ltac:(by left)). unfold seg_ok, USER_END in *. lia. }
  split_and!; [done| |done]. destruct (decide (end_ t < USER_END)); [|unfold seg_ok in Ht'; lia].
  exfalso. apply Hn, Forall_app. split; [|by constructor]. eapply Forall_impl; [exact Hbelow|]. simpl. tauto.
Qed.

Lemma map_segments_app l1 l2 data pages (s : VMemAllocator (W := W)) :
  map_segments (l1 ++ l2) data pages s = (ps ← map_segments l1 data pages; map_segments l2 data ps) s.
Proof.
  revert pages s. induction l1 as [|seg l1 IH]; intros pages s; [done|]. cbn [map_segments app].
  unfold mbind, M_bind. destruct (map_segment seg data s) as [[f| | |] s1]; [|done..]. apply IH.
Qed.

Variable minimal_parse : list Z → res ParseError ElfBytes.

(** The parser of the crate returns, with headers whose fields have their widths. *)
Hypothesis parse_returns : ∀ data,
  match minimal_parse data with
  | Ok elf => Forall phdr_ok (default [] (segments elf))
  | Err _ => True
  | _ => False
  end.

Lemma parse_segments_ok data elf base segs :
  minimal_parse data = Ok elf → 0 <= base →
  parse_segments (ParseError := ParseError) elf (Z.of_nat (length data)) base = Ok segs →
  Forall (seg_ok (Z.of_nat (length data))) segs.
Proof.
  intros Hp Hb K. pose proof (parse_returns data) as Hr. rewrite Hp in Hr. unfold parse_segments in K.
  apply res_bind_Ok in K as (phdrs & Hph%ok_or_Ok & K). rewrite Hph in Hr.
  apply res_bind_Ok in K as (l & Hl & K). destruct (decide (l = [])); [done|]. injection K as <-.
  eapply parse_phdrs_ok; [exact Hr|exact Hb|constructor|exact Hl].
Qed.

Lemma read_file_wp path w :
  wp (read_file (ParseError := ParseError) path)
    (λ r _, 0 <= r.2 <= Z.of_nat (length (bytes r.1))) (λ _ _, True) w.
Proof.
  unfold read_file. apply wp_bind, wp_map_errM. eapply wp_mono; [apply file_size_law| |done].
  intros n w1 Hn. apply wp_bind, wp_map_errM.
  eapply wp_mono; [apply phys_page_law; by apply div_ceil_nonneg| |done].
  intros f w2 _. apply wp_bind, wp_map_errM. eapply wp_mono; [apply fs_read_law| |done].
  intros [k p] w3 [Hl Hk]. apply wp_ret. cbn [fst snd] in *. lia.
Qed.

(** The bytes of the file, as [read_file] gives them. *)
Definition file_data (path : Str) (w : W) : option (list Z) :=
  match read_file (ParseError := ParseError) path w with
  | (Ok (p, n), _) => Some (slice 0 (Z.to_nat n) (bytes p))
  | _ => None
  end.

(** The segments that the loader finds in a file. *)
Definition segments_of (data : list Z) (elf : ElfBytes) (base : Z) (segs : list Segment) : Prop :=
  minimal_parse data = Ok elf ∧ parse_header (ParseError := ParseError) elf = Ok base ∧
  parse_segments (ParseError := ParseError) elf (Z.of_nat (length data)) base = Ok segs.

(** A file with a segment up to the very end of user space. *)
Definition reaches_top (data : list Z) : Prop :=
  ∃ elf base segs, segments_of data elf base segs ∧ Exists (λ s, end_ s = USER_END) segs.

(** What [load] leaves: the segments of a file, mapped in a new address space. *)
Definition loaded_ok (data : list Z) (bin : LoadedBinary) (w' : W) : Prop :=
  ∃ elf base segs0 segs,
    segments_of data elf base segs0 ∧
    segs ≡ₚ segs0 ∧ apart segs ∧ Forall (seg_ok (Z.of_nat (length data))) segs ∧ Forall (λ s, end_ s < USER_END) segs ∧
    Forall2 (seg_loaded data w') segs (loaded bin) ∧
    (∀ v, 0 <= v < 2 ^ 35 → outside segs v → leaf w' v = None) ∧
    entry bin = base + e_entry elf ∧ in_exec segs (entry bin).

(** All segments, in a space where all of the user half is free. *)
Lemma map_all_wpp data segs (s : VMemAllocator (W := W)) :
  Forall (seg_ok (Z.of_nat (length data))) segs → apart segs → Inv s →
  (∀ x, 0 <= x < 2 ^ 47 → Ranges.free_at (allocator s) x) →
  wpp (map_segments segs data [])
    (λ l s', Forall (λ s, end_ s < USER_END) segs ∧ Forall2 (seg_loaded data (page_table s')) segs l ∧ Inv s' ∧
      ∀ v, outside segs v → leaf (page_table s') v = leaf (page_table s) v)
    (λ _ _, True) (Exists (λ s, end_ s = USER_END) segs) s.
Proof.
  intros Hok Hap Hinv Hfree. destruct (apart_top _ _ Hok Hap) as [Hlow|(l & t & -> & Ht & Hl)].
  { apply wp_wpp. eapply wp_mono; [by apply (map_segments_wp data segs [] [])| |done]. intros ps s' (F & Hi & Hout & _). done. }
  apply Forall_app in Hok as [Hokl Hokt]. inversion Hokt as [|? ? Ht' _]; subst.
  unfold wpp. rewrite map_segments_app. change (wpp (ps ← map_segments l data []; map_segments [t] data ps)
    (λ ps s', Forall (λ s, end_ s < USER_END) (l ++ [t]) ∧ Forall2 (seg_loaded data (page_table s')) (l ++ [t]) ps ∧ Inv s' ∧
      ∀ v, outside (l ++ [t]) v → leaf (page_table s') v = leaf (page_table s) v)
    (λ _ _, True) (Exists (λ s, end_ s = USER_END) (l ++ [t])) s).
  apply wpp_bind, wp_wpp. eapply wp_mono; [apply (map_segments_wp data l [] []); [done| |done|constructor]| |done].
  { eapply Forall_impl; [exact Hl|]. simpl. tauto. }
  intros ps s1 (_ & Hi & _ & Hfr). cbn [map_segments]. apply wpp_bind.
  eapply wpp_mono; [apply map_segment_top; [exact Hi|exact Ht'|exact Ht|]|done|done|].
  - intros x Hx. unfold seg_ok, USER_END in *. apply Hfr; [apply Hfree; lia|].
    eapply Forall_impl; [exact Hl|]. simpl. lia.
  - intros _. apply Exists_app. right. by left.
Qed.

Lemma load_binary_wpp path w :
  wpp (load minimal_parse path)
    (λ bin w', (∃ data, file_data path w = Some data ∧ loaded_ok data bin w') ∧
      Inv (mkVMem w' (ranges bin)) ∧ in_u64 (entry bin))
    (λ _ _, True) (∃ data, file_data path w = Some data ∧ reaches_top data) w.
Proof.
  unfold load, file_data. pose proof (read_file_wp path w) as Hread. apply wpp_bind. unfold wp in Hread. unfold wpp at 1.
  destruct (read_file path w) as [[[pg n]| | |] w1]; [|done..]. cbn [fst snd] in Hread.
  apply wpp_bind, wp_wpp, wp_index_slice; [lia|lia|]. rewrite Z.sub_0_r. change (Z.to_nat 0) with 0%nat.
  set (data := slice _ _ _). pose proof (parse_returns data) as Hpr.
  apply wpp_bind, wp_wpp, wp_loader; [destruct (minimal_parse data); done|]. intros elf Helf.
  assert (minimal_parse data = Ok elf) as Hparse by (destruct (minimal_parse data); simpl in Helf; congruence).
  apply wpp_bind, wp_wpp, wp_loader; [apply parse_header_plain|]. intros base Hbase.
  destruct (parse_header_base _ _ Hbase) as (_ & _ & Hb0).
  apply wpp_bind, wp_wpp, wp_loader; [apply parse_segments_plain|]. intros segs0 Hsegs.
  pose proof (parse_segments_ok _ _ _ _ Hparse Hb0 Hsegs) as Hok0.
  apply wpp_bind, wp_wpp, wp_loader; [apply check_no_overlap_plain|]. intros segs Hseg.
  destruct (check_no_overlap_ok _ _ _ Hok0 Hseg) as (Hperm & Hok & Hap).
  apply wpp_bind, wp_wpp, wp_loader; [apply validate_entry_plain|]. intros en Hen.
  destruct (validate_entry_ok _ _ _ _ _ Hok Hen) as [Hen1 Hen2].
  apply wpp_bind, wpp_map_errM, wp_wpp. eapply wp_mono; [apply new_user_allocator_wp| |done].
  intros [al l4] w2 (Hinv & Hnone & Hfree). cbn [fst] in Hinv, Hfree.
  apply wpp_bind, wpp_map_errM, wpp_with_ranges. cbn [fst].
  eapply wpp_mono; [by apply (map_all_wpp data segs)| |done|].
  2:{ intros Ht. exists data. split; [done|]. exists elf, base, segs0. split; [done|]. by rewrite <- Hperm. }
  intros l [w3 al3] (Hlow & F & Hi & Hout). apply wpp_ret. cbn [fst snd page_table allocator ranges entry].
  split_and!; [|done|].
  - exists data. split; [done|]. exists elf, base, segs0, segs. split_and!; try done.
    intros v Hv Ho. etransitivity; [exact (Hout v Ho)|by apply Hnone].
  - apply Exists_exists in Hen2 as (sg & Hsg & _ & Hr). rewrite Forall_forall in Hok. apply Hok in Hsg.
    unfold seg_ok, USER_END, in_u64 in *. lia.
Qed.

(** C14. Loading a file, whatever it holds.  A binary that [load] accepts: every
    loadable segment of the file is mapped at its address, page by page, with the
    access its header asks for, to memory that holds the bytes of the file and
    zeros; the segments lie in user space, below its very end, and do not overlap;
    no other page of the new space is mapped; the entry point lies in an executable
    segment.  Otherwise [load] returns an error, and it panics only on a file with a segment
    that ends at the very end of user space. *)
Theorem load_maps_segments path w :
  match load minimal_parse path w with
  | (Ok bin, w') => ∃ data elf base segs0 segs,
      file_data path w = Some data ∧ minimal_parse data = Ok elf ∧
      parse_header (ParseError := ParseError) elf = Ok base ∧
      parse_segments (ParseError := ParseError) elf (Z.of_nat (length data)) base = Ok segs0 ∧
      segs ≡ₚ segs0 ∧ apart segs ∧ Forall (seg_ok (Z.of_nat (length data))) segs ∧ Forall (λ s, end_ s < USER_END) segs ∧
      Forall2 (seg_loaded data w') segs (loaded bin) ∧
      (∀ v, 0 <= v < 2 ^ 35 → outside segs v → leaf w' v = None) ∧
      entry bin = base + e_entry elf ∧ in_exec segs (entry bin)
  | (Err _, _) => True
  | (Panic, _) => ∃ data, file_data path w = Some data ∧ reaches_top data
  | (Loop, _) => False
  end.
Proof.
  pose proof (load_binary_wpp path w) as H. unfold wpp in H. destruct (load _ _ _) as [[bin| | |] w']; try done.
  destruct H as ((data & Hd & elf & base & segs0 & segs & (H1 & H2 & H3) & H) & _). exists data, elf, base, segs0, segs.
  split_and!; try done; apply H.
Qed.
End load_proofs.

End Elf.
