(* ===== verification/VirtExamples.v ===== *)
(** * Page tables in a finite map

    An implementation of the mapper that keeps its leaves in a finite map and
    refuses large pages, and a machine around it with one file, on which the
    hypotheses of the theorems on virtual memory and the loader hold. *)

From S2P Require Import Prelude Errors RangeAllocator Pages Names Virt PageTables Elf.
Import Errors Pages Names Virt PageTables Elf.

Module VirtExamples.

Definition canonicalb (a : Z) : bool :=
  ((0 <=? a) && (a <? 2 ^ 47)) || ((2 ^ 64 - 2 ^ 47 <=? a) && (a <? 2 ^ 64)).

Lemma canonicalb_spec a : canonicalb a = true ↔ canonical a.
Proof. unfold canonicalb, canonical. rewrite orb_true_iff, !andb_true_iff, !Z.leb_le, !Z.ltb_lt. tauto. Qed.

Definition checked (a : Z) : option Z := if canonicalb a then Some a else None.

Lemma checked_ok a : canonical a → checked a = Some a.
Proof. intros H%canonicalb_spec. unfold checked. by rewrite H. Qed.

Lemma checked_panics a : ¬ canonical a → checked a = None.
Proof. unfold checked. destruct (canonicalb a) eqn:E; [|done]. by apply canonicalb_spec in E. Qed.

#[export] Instance addresses : Addresses := {|
  virt_new a := checked a;
  virt_add a n := checked (a + n);
  virt_sub a n := checked (a - n);
  phys_add a n := if a + n <? 2 ^ 52 then Some (a + n) else None;
  phys_new a := if a <? 2 ^ 52 then Some a else None
|}.

#[export] Instance address_laws : AddressLaws.
Proof.
  split; simpl; intros.
  - by apply checked_ok.
  - by apply checked_ok.
  - by apply checked_panics.
  - by apply checked_ok.
  - by rewrite (proj2 (Z.ltb_lt _ _)).
  - rewrite (proj2 (Z.ltb_lt _ _)); [done|lia].
Qed.

(** The machine: leaves, tables in memory, the next free frame and the file. *)
Record Mach := mkMach { leaves : gmap Z (Z * Z); tables : Z → Z → Z; next : nat; file : list Z }.

Definition with_leaves (w : Mach) (l : gmap Z (Z * Z)) : Mach := mkMach l (tables w) (next w) (file w).

#[export] Instance mapper : Mapper Mach := {|
  map_to sz p f fl := λ w,
    match sz with
    | Size4KiB =>
        match leaves w !! (p / 4096) with
        | Some _ => (Err PageAlreadyMapped, w)
        | None => (Ok tt, with_leaves w (<[p / 4096 := (f, fl)]> (leaves w)))
        end
    | _ => (Err FrameAllocationFailed, w)
    end;
  unmap_page sz p := λ w,
    match sz, leaves w !! (p / 4096) with
    | Size4KiB, Some (f, _) => (Ok f, with_leaves w (delete (p / 4096) (leaves w)))
    | _, _ => (Err PageNotMapped, w)
    end;
  clean_up_addr_range _ _ := mret tt
|}.

Definition small_leaf (x : Z * Z) : Leaf := mkLeaf Size4KiB x.1 x.2.

Lemma in_run_one v x : in_run v (pages Size4KiB) x = bool_decide (v = x).
Proof.
  change (pages Size4KiB) with 1. destruct (in_run v 1 x) eqn:E; symmetry.
  - apply in_run_spec in E. apply bool_decide_eq_true. lia.
  - apply in_run_false in E. apply bool_decide_eq_false. lia.
Qed.

#[export] Program Instance mapper_laws : MapperLaws Mach := {|
  leaf w v := small_leaf <$> leaves w !! v
|}.
Next Obligation.
  intros w v v' l H E. cbv beta in *. destruct (leaves w !! v) as [x|] eqn:Ev; [|by inversion H]. injection H as <-.
  unfold block in E. change (pages (lsize (small_leaf x))) with 1 in E. rewrite !Z.mod_1_r in E.
  replace v' with v by lia. rewrite Ev. by exists (small_leaf x).
Qed.
Next Obligation.
  intros sz p f fl w Hp Hf. unfold wp. destruct sz; simpl; try done.
  destruct (leaves w !! (p / 4096)) eqn:E; [done|]. intros v. rewrite in_run_one. simpl.
  destruct (decide (p / 4096 = v)) as [<-|Hne].
  - rewrite bool_decide_true by done. rewrite E, lookup_insert_eq. split; [done|].
    simpl. unfold small_leaf. simpl. do 2 f_equal. lia.
  - rewrite bool_decide_false by done. by rewrite lookup_insert_ne.
Qed.
Next Obligation.
  intros sz p w Hp. unfold wp.
  assert (∀ l, small_leaf <$> leaves w !! (p / 4096) = Some l → lsize l = Size4KiB) as Hs.
  { intros l H. destruct (leaves w !! (p / 4096)); [|done]. by injection H as <-. }
  destruct sz; cbn [unmap_page mapper]; destruct (leaves w !! (p / 4096)) as [[f fl]|] eqn:E;
    try (split_and!; [done|intros l H; rewrite (Hs l H); done|done]).
  split; [by eexists|]. intros v. rewrite in_run_one. simpl. destruct (decide (p / 4096 = v)) as [<-|Hne].
  - by rewrite bool_decide_true, lookup_delete_eq by done.
  - by rewrite bool_decide_false, lookup_delete_ne by done.
Qed.
Next Obligation. done. Qed.

#[export] Instance machine : Machine Mach := {|
  file_size _ := gets (λ w, Z.of_nat (length (file w)));
  fs_read _ dest := λ w,
    let n := Nat.min (length (file w)) (length (bytes dest)) in
    (Ok (Z.of_nat n, mkPage (count dest) (splice 0 (take n (file w)) (bytes dest))), w);
  phys_page_new n := λ w,
    let phys := Z.of_nat (next w) * 4096 in
    if phys + n * 4096 <? 2 ^ 40
    then (Ok (mkFrame phys (zero_page n)), mkMach (leaves w) (tables w) (next w + Z.to_nat n) (file w))
    else (Err OutOfMemory, w);
  table_mem := tables;
  active_l4 _ := 0;
  write_table t table w := mkMach (leaves w) (with_table (tables w) t table) (next w) (file w);
  use_l4 _ w := with_leaves w ∅
|}.

#[export] Instance machine_laws : MachineLaws Mach.
Proof.
  split.
  - intros n w Hn. unfold wp, phys_page_new, machine. destruct (_ <? _) eqn:E; zb; [|done]. cbn [phys page].
    split_and!; [done|by exists (Z.of_nat (next w))|lia|lia|done].
  - intros path w. apply wp_gets. lia.
  - intros path dest w. unfold wp, fs_read, machine. cbn [fst snd bytes].
    rewrite length_splice; [lia|]. rewrite length_take. lia.
  - done.
  - done.
Qed.

(** ** Mapping two pages *)

Definition mach0 : Mach := mkMach ∅ (λ _ _, 0) 16 (replicate 100 7).

Definition space0 : VMemAllocator := mkVMem mach0 (Ranges.mkAllocator [Ranges.mkRange 0 (2 ^ 47)]).

Lemma space0_Inv : Inv space0.
Proof. split; [split; repeat constructor; done|done]. Qed.

Lemma map_fixed_atomic_witness :
  wp (map_fixed (mkRegion 0x400000 0x2000) 0x10000 USER_ACCESSIBLE)
    (λ _ s', mapped_fixed space0 s' (mkRegion 0x400000 0x2000) 0x10000 USER_ACCESSIBLE ∧ Inv s')
    (λ e s', e = InvalidMapping ∧ unchanged space0 s') space0.
Proof.
  apply (map_fixed_atomic space0 (mkRegion 0x400000 0x2000) 0x10000 USER_ACCESSIBLE);
    [apply space0_Inv|unfold region_ok; simpl; lia|by exists 16|lia|simpl; lia].
Defined.

(** ** Loading a file with two segments *)

Definition phdr1 : ProgramHeader := mkPhdr PT_LOAD 4 0 0x400020 50 0x60.
Definition phdr2 : ProgramHeader := mkPhdr PT_LOAD 5 50 0x401000 50 0x1800.

Definition seg1 : Segment := mkSegment 0x400020 0x400000 0x401000 0 50 0x60 0x20 (page_flags 4) false.
Definition seg2 : Segment := mkSegment 0x401000 0x401000 0x403000 50 100 0x1800 0 (page_flags 5) true.

Lemma parse_seg1 n :
  parse_segment (ParseError := unit) n 0 phdr1 = if n <? 50 then Err (LoaderMemory OutOfBounds) else Ok (Some seg1).
Proof. vm_compute. reflexivity. Qed.

Lemma parse_seg2 n :
  parse_segment (ParseError := unit) n 0 phdr2 = if n <? 100 then Err (LoaderMemory OutOfBounds) else Ok (Some seg2).
Proof. vm_compute. reflexivity. Qed.

Definition the_elf : ElfBytes := mkElf ELF64 EM_X86_64 ET_EXEC 0x401010 (Some [phdr1; phdr2]).

Definition parse (data : list Z) : res unit ElfBytes := Ok the_elf.

Lemma parse_returns data :
  match parse data with
  | Ok elf => Forall phdr_ok (default [] (segments elf))
  | Err _ => True
  | _ => False
  end.
Proof. repeat constructor; done. Qed.

Lemma load_returns :
  match load (ParseError := unit) parse [] mach0 with
  | (Ok bin, _) => Nat.eqb (length (loaded bin)) 2
  | _ => false
  end = true.
Proof. vm_compute. reflexivity. Qed.

Lemma load_maps_segments_witness :
  ∃ bin w', load (ParseError := unit) parse [] mach0 = (Ok bin, w') ∧ length (loaded bin) = 2%nat ∧
    ∃ data segs, file_data (ParseError := unit) [] mach0 = Some data ∧ apart segs ∧
      Forall2 (seg_loaded data w') segs (loaded bin) ∧ in_exec segs (entry bin).
Proof.
  pose proof load_returns as Hr. pose proof (load_maps_segments parse parse_returns [] mach0) as H.
  destruct (load parse [] mach0) as [[bin| | |] w']; try discriminate Hr.
  exists bin, w'. split; [reflexivity|]. split; [by apply Nat.eqb_eq|].
  destruct H as (data & elf & base & segs0 & segs & H0 & _ & _ & _ & _ & H1 & _ & _ & H2 & _ & _ & H3).
  exists data, segs. split_and!; assumption.
Defined.

(** *** A file with a segment of one page at the end of user space *)

Definition top_phdr : ProgramHeader := mkPhdr PT_LOAD 5 0 0x7FFFFFFFF000 0 0x1000.
Definition parse_top (data : list Z) : res unit ElfBytes :=
  Ok (mkElf ELF64 EM_X86_64 ET_EXEC 0x7FFFFFFFF010 (Some [top_phdr])).

(** The checks accept it and the kernel panics. *)
Lemma top_segment_panics : (load (ParseError := unit) parse_top [] mach0).1 = Panic.
Proof. vm_compute. reflexivity. Qed.

End VirtExamples.
