(* ===== verification/Helpers.v ===== *)
(** * Helpers (src/kernel/src/helpers/): time, timeouts, [LateInit], [InterruptMutex]

    The clock and the condition of a wait read the state of the machine.  The
    interrupt mutex is a step relation on one processor: its interrupt flag and
    the guards it holds. *)

From S2P Require Import Prelude.

Module Helpers.

(** ** Time *)

Inductive Time :=
| Nanoseconds (x : Z) | Milliseconds (x : Z) | Seconds (x : Z) | Minutes (x : Z) | Hours (x : Z)
| Days (x : Z).

#[export] Instance Time_eq_dec : EqDecision Time.
Proof. solve_decision. Defined.

Definition to_nanos (t : Time) : Z :=
  match t with
  | Nanoseconds x => x
  | Milliseconds x => x ⊠ 1000000
  | Seconds x => x ⊠ 1000000000
  | Minutes x => x ⊠ 60000000000
  | Hours x => x ⊠ 3600000000000
  | Days x => x ⊠ 86400000000000
  end.

Definition time_mul (t : Time) (rhs : Z) : Time := Nanoseconds (to_nanos t ⊠ rhs).

(** ** Waiting *)

(** The condition [f] and the clock [passed_nanos] read the state of the
    machine, and reading may change it. *)
Section waits.
Context {W E : Type}.
Variables (passed_nanos : M W E Z) (f : M W E bool).

Fixpoint timeout_loop (fuel : nat) (start timeout : Z) : M W E bool :=
  match fuel with
  | O => lift Loop
  | S fuel =>
      c ← f;
      if c : bool then
        now ← passed_nanos;
        if timeout <? now ⊟ start then mret false else timeout_loop fuel start timeout
      else mret true
  end.

Definition wait_timeout (fuel : nat) (timeout : Time) : M W E bool :=
  start ← passed_nanos; timeout_loop fuel start (to_nanos timeout).

Fixpoint wait_while (fuel : nat) : M W E unit :=
  match fuel with
  | O => lift Loop
  | S fuel => c ← f; if c : bool then wait_while fuel else mret tt
  end.

Fixpoint wait_loop (fuel : nat) (start time : Z) : M W E unit :=
  match fuel with
  | O => lift Loop
  | S fuel => now ← passed_nanos; if now ⊟ start <? time then wait_loop fuel start time else mret tt
  end.

Definition wait (fuel : nat) (time : Time) : M W E unit :=
  start ← passed_nanos; wait_loop fuel start (to_nanos time).
End waits.

(** ** [LateInit] *)

Record LateInit (T : Type) := mkLateInit { init_ : bool; data_ : option T }.
Arguments mkLateInit {T}.
Arguments init_ {T}.
Arguments data_ {T}.

Definition late_new {T} : LateInit T := mkLateInit false None.

Definition late_init {T E} (val : T) : M (LateInit T) E T := λ s,
  if init_ s then (Panic, s) else (Ok val, mkLateInit true (Some val)).

(** Reading data that was never written would be undefined; it is a panic here
    and never happens ([late_get_defined]). *)
Definition late_get {T E} : M (LateInit T) E T := λ s,
  if negb (init_ s) then (Panic, s)
  else match data_ s with Some t => (Ok t, s) | None => (Panic, s) end.

Definition late_try_get {T E} : M (LateInit T) E (option T) :=
  b ← gets init_;
  if negb b then mret None else t ← late_get; mret (Some t).

(** [get_mut], and what is done through it. *)
Definition late_get_mut {T E} (f : T → T) : M (LateInit T) E unit := λ s,
  if negb (init_ s) then (Panic, s)
  else match data_ s with Some t => (Ok tt, mkLateInit (init_ s) (Some (f t))) | None => (Panic, s) end.

(** [drop]: the value whose destructor runs, if one was written. *)
Definition late_drop {T} (s : LateInit T) : option T := if init_ s then data_ s else None.

(** ** [InterruptMutex] *)

(** A processor: its interrupt flag and the guards it holds, the newest first.
    A guard is its mutex and the flag saved when it was locked. *)
Record Cpu := mkCpu { enabled : bool; guards : list (nat * bool) }.

Definition holds (c : Cpu) (l : nat) : bool := existsb (λ g, Nat.eqb g.1 l) (guards c).

(** [lock] on a mutex that no processor holds. *)
Definition lock (l : nat) (c : Cpu) : Cpu :=
  let int_status := enabled c in
  mkCpu false ((l, int_status) :: guards c).

(** [try_lock]; [held] tells whether the mutex is held, by whomever. *)
Definition try_lock (held : bool) (l : nat) (c : Cpu) : bool * Cpu :=
  let int_status := enabled c in
  if held then (false, mkCpu int_status (guards c))
  else (true, mkCpu false ((l, int_status) :: guards c)).

(** Dropping guard number [i]: the mutex is unlocked, then interrupts are
    enabled if they were when it was locked. *)
Definition drop_guard (i : nat) (c : Cpu) : Cpu :=
  match (guards c !! i : option (nat * bool)) with
  | Some (_, int_status) => mkCpu (if int_status then true else enabled c) (delete i (guards c))
  | None => c
  end.

(** ** Properties *)

(** A wait ends with the condition over, or with the limit passed.  [I] holds
    before every poll, [D] when the condition is over, [F] when the limit has
    passed; [left] bounds the polls that remain. *)
Section wait_proofs.
Context {W E : Type} (passed_nanos : M W E Z) (f : M W E bool).
Variables (I D F : W → Prop) (R : E → W → Prop) (start timeout : Z) (left : W → Z).
Hypothesis poll : ∀ w, I w → wp f (λ c w', if c : bool then I w' ∧ left w' = left w else D w') R w.
Hypothesis tick : ∀ w, I w →
  wp passed_nanos (λ now w', (timeout < now ⊟ start → F w') ∧ (now ⊟ start <= timeout → I w' ∧ 0 <= left w' < left w)) R w.

Lemma timeout_loop_wp fuel w :
  I w → left w < Z.of_nat fuel → (0 < fuel)%nat →
  wp (timeout_loop passed_nanos f fuel start timeout) (λ b w', if b : bool then D w' else F w') R w.
Proof.
  revert w. induction fuel as [|fuel IH]; intros w HI Hl Hf; [lia|]. cbn [timeout_loop].
  apply wp_bind. eapply wp_mono; [by apply poll| |done]. intros [] w' Hw; [|by apply wp_ret].
  destruct Hw as [Hw Hle]. apply wp_bind. eapply wp_mono; [by apply tick| |done].
  intros now w'' [Hw' Hlt]. destruct (timeout <? now ⊟ start) eqn:Hc; zb; [by apply wp_ret, Hw'|].
  destruct (Hlt ltac:(lia)). apply IH; [done|lia..].
Qed.

Lemma wait_loop_wp fuel w :
  I w → left w < Z.of_nat fuel → (0 < fuel)%nat →
  wp (wait_loop passed_nanos fuel start (timeout + 1)) (λ _ w', F w') R w.
Proof.
  revert w. induction fuel as [|fuel IH]; intros w HI Hl Hf; [lia|]. cbn [wait_loop].
  apply wp_bind. eapply wp_mono; [by apply tick| |done]. intros now w' [Hw' Hlt].
  destruct (now ⊟ start <? timeout + 1) eqn:Hc; zb; [|apply wp_ret, Hw'; lia].
  destruct (Hlt ltac:(lia)). apply IH; [done|lia..].
Qed.
End wait_proofs.

(** A value that was initialised can be read, and is the one written. *)
Lemma late_get_defined {T E} (t : T) s :
  (late_init (E := E) t s).1 = Ok t → late_get (E := E) (late_init (E := E) t s).2 = (Ok t, mkLateInit true (Some t)).
Proof. unfold late_init. destruct (init_ s); [done|]. intros _. reflexivity. Qed.

(** Guards taken and dropped in any order, and in the order of scopes. *)
Inductive lock_step : Cpu → Cpu → Prop :=
| step_lock l c : holds c l = false → lock_step c (lock l c)
| step_drop c : guards c ≠ [] → lock_step c (drop_guard 0 c).

(** What nested guards keep: interrupts are off under a guard, and the oldest
    guard knows the flag from before. *)
Definition masked (b : bool) (c : Cpu) : Prop :=
  match last (guards c) with
  | None => enabled c = b
  | Some g => enabled c = false ∧ g.2 = b ∧ Forall (λ g, g.2 = false) (removelast (guards c))
  end.

Lemma masked_step b c c' : masked b c → lock_step c c' → masked b c'.
Proof.
  unfold masked. intros H Hs. destruct Hs as [l c Hh|c Hne]; unfold lock, drop_guard; cbn [guards enabled].
  - rewrite last_cons. destruct (last (guards c)) as [g|] eqn:E.
    + destruct H as (H1 & H2 & H3). split_and!; [done..|]. destruct (guards c); [done|].
      cbn [removelast]. constructor; done.
    + destruct (guards c) as [|g' gs] eqn:Eg; [done|]. by rewrite last_cons in E; destruct (last gs).
  - destruct (guards c) as [|[l s] gs] eqn:Eg; [done|]. cbn [guards enabled lookup list_lookup delete list_delete].
    rewrite last_cons in H. destruct (last gs) as [g|] eqn:E.
    + destruct H as (H1 & H2 & H3). destruct gs as [|g' gs]; [done|]. cbn [removelast] in H3.
      inversion H3 as [|? ? Hs0 H4]; subst. simpl in Hs0. subst s. done.
    + destruct H as (H1 & H2 & _). simpl in H2. subst. by destruct b.
Qed.

(** Interrupt mutexes in nested scopes: from a processor without guards, in
    every state reached by locking and by dropping the newest guard, interrupts
    are off while a guard is held, and the flag is the original one when none is
    held. *)
Theorem interrupts_masked b c :
  rtc lock_step (mkCpu b []) c →
  (guards c ≠ [] → enabled c = false) ∧ (guards c = [] → enabled c = b).
Proof.
  intros H. assert (masked b c) as Hm.
  { assert (masked b (mkCpu b [])) as H0 by done. induction H as [|c1 c2 c3 Hs _ IH]; [done|].
    by eapply IH, masked_step. }
  unfold masked in Hm. split; intros Hg.
  - destruct (last (guards c)) as [g|] eqn:E; [tauto|]. destruct (guards c) as [|g gs]; [done|].
    rewrite last_cons in E. by destruct (last gs).
  - rewrite Hg in Hm. done.
Qed.

(** Dropped in another order, guards leave interrupts on under a lock. *)
Lemma drop_order_matters :
  let c := drop_guard 1 (lock 2 (lock 1 (mkCpu true []))) in enabled c = true ∧ guards c = [(2%nat, false)].
Proof. split; reflexivity. Qed.

Lemma interrupts_masked_witness : enabled (lock 2 (lock 1 (mkCpu true []))) = false.
Proof.
  apply (interrupts_masked true); [|discriminate].
  eapply rtc_l; [by apply (step_lock 1)|]. eapply rtc_l; [by apply (step_lock 2)|]. apply rtc_refl.
Defined.

End Helpers.
