(* ===== verification/Locks.v ===== *)
(** * Mutexes between processors (src/kernel/src/helpers/interrupt_mutex.rs)

    Any number of processors lock, try, use and drop any number of
    [InterruptMutex]es, instruction by instruction and in any interleaving, and
    take interrupts whose handlers do the same.  [Helpers] has the same
    operations on one processor, as single steps.  Guards are dropped in any order,
    as Rust lets them be; what holds only of runs that drop them carefully is
    stated of [scoped_moves].

    A processor is its interrupt flag and a stack of activities: the code that
    runs and the code that interrupts have suspended.  The atomic exchange of the
    spin crate is one step: a mutex has an owner or none.  Each mutex protects a
    value of type [T]; a guard remembers the value it found and what was done to
    it since, for the theorems only. *)

From S2P Require Import Prelude.

Module Locks.

Section locks.
Context {T : Type}.

(** [InterruptGuard]: the mutex and the flag from before. *)
Record Guard := mkGuard { mutex : nat; int_status : bool; found : T; done_to : list (T → T) }.

(** Where an activity is: in [lock] or [try_lock] before it reads the flag,
    before it disables interrupts, and at the mutex; or about to enable
    interrupts again, after dropping a guard or a failed try. *)
Inductive PC :=
| Run
| Reading (try : bool) (l : nat)
| Disabling (try : bool) (l : nat) (status : bool)
| AtMutex (try : bool) (l : nat) (status : bool)
| Enabling (status : bool).

Record Frame := mkFrame { pc : PC; guards : list Guard }.
Record Cpu := mkCpu { flag : bool; top : Frame; below : list Frame }.
Record System := mkSystem { cpus : nat → Cpu; owner : nat → option nat; value : nat → T }.

Definition set_cpu (i : nat) (c : Cpu) (s : System) : System :=
  mkSystem (λ j, if decide (j = i) then c else cpus s j) (owner s) (value s).
Definition set_owner (l : nat) (o : option nat) (s : System) : System :=
  mkSystem (cpus s) (λ k, if decide (k = l) then o else owner s k) (value s).
Definition set_value (l : nat) (v : T) (s : System) : System :=
  mkSystem (cpus s) (owner s) (λ k, if decide (k = l) then v else value s k).

Definition goto (p : PC) (c : Cpu) : Cpu := mkCpu (flag c) (mkFrame p (guards (top c))) (below c).
Definition with_flag (b : bool) (c : Cpu) : Cpu := mkCpu b (top c) (below c).
Definition with_guards (gs : list Guard) (c : Cpu) : Cpu := mkCpu (flag c) (mkFrame (pc (top c)) gs) (below c).

(** One instruction of [lock], [try_lock] or [drop].  [lock] stays at a mutex
    that is held; [try_lock] gives up. *)
Definition advance (i : nat) (s : System) : option System :=
  let c := cpus s i in
  match pc (top c) with
  | Run => None
  | Reading try l => Some (set_cpu i (goto (Disabling try l (flag c)) c) s)
  | Disabling try l b => Some (set_cpu i (with_flag false (goto (AtMutex try l b) c)) s)
  | AtMutex try l b =>
      match owner s l with
      | None =>
          let g := mkGuard l b (value s l) [] in
          Some (set_owner l (Some i) (set_cpu i (with_guards (g :: guards (top c)) (goto Run c)) s))
      | Some _ => if try then Some (set_cpu i (goto (Enabling b) c) s) else None
      end
  | Enabling b => Some (set_cpu i (with_flag (if b then true else flag c) (goto Run c)) s)
  end.

(** Dropping guard number [k], counted from the newest: the mutex is free before
    interrupts are on. *)
Definition drop_guard (i k : nat) (s : System) : option System :=
  let c := cpus s i in
  match pc (top c), guards (top c) !! k with
  | Run, Some g =>
      Some (set_owner (mutex g) None (set_cpu i (with_guards (delete k (guards (top c))) (goto (Enabling (int_status g)) c)) s))
  | _, _ => None
  end.

(** Using the value behind guard number [k] ([deref_mut]). *)
Definition update (i k : nat) (f : T → T) (s : System) : option System :=
  let c := cpus s i in
  match pc (top c), guards (top c) !! k with
  | Run, Some g =>
      let g' := mkGuard (mutex g) (int_status g) (found g) (done_to g ++ [f]) in
      Some (set_value (mutex g) (f (value s (mutex g))) (set_cpu i (with_guards (<[k := g']> (guards (top c))) c) s))
  | _, _ => None
  end.

(** An interrupt, through a gate that disables interrupts, and the return from
    it. *)
Definition interrupt (i : nat) (s : System) : option System :=
  let c := cpus s i in
  if flag c then Some (set_cpu i (mkCpu false (mkFrame Run []) (top c :: below c)) s) else None.
Definition iret (i : nat) (s : System) : option System :=
  let c := cpus s i in
  match pc (top c), guards (top c), below c with
  | Run, [], f :: fs => Some (set_cpu i (mkCpu true f fs) s)
  | _, _, _ => None
  end.

Inductive Action :=
| Call (i : nat) (try : bool) (l : nat)
| Advance (i : nat)
| DropGuard (i k : nat)
| Update (i k : nat) (f : T → T)
| Interrupt (i : nat)
| Iret (i : nat)
| SetFlag (i : nat) (b : bool).

(** [SetFlag] is [interrupts::enable] and [interrupts::disable]. *)
Definition step (a : Action) (s : System) : option System :=
  match a with
  | Call i try l => match pc (top (cpus s i)) with Run => Some (set_cpu i (goto (Reading try l) (cpus s i)) s) | _ => None end
  | Advance i => advance i s
  | DropGuard i k => drop_guard i k s
  | Update i k f => update i k f s
  | Interrupt i => interrupt i s
  | Iret i => iret i s
  | SetFlag i b =>
      match pc (top (cpus s i)) with
      | Run => Some (set_cpu i (with_flag b (cpus s i)) s)
      | _ => None
      end
  end.

Definition start (values : nat → T) : System :=
  mkSystem (λ _, mkCpu false (mkFrame Run []) []) (λ _, None) values.

Definition moves (s s' : System) : Prop := ∃ a, step a s = Some s'.

(** ** What every interleaving keeps *)

(** The guards of all activities of a processor, the newest first. *)
Definition stack (c : Cpu) : list Frame := top c :: below c.
Definition all_guards (c : Cpu) : list Guard := stack c ≫= guards.
Definition held (c : Cpu) : list nat := mutex <$> all_guards c.

Definition owns (s : System) (i : nat) : Prop :=
  NoDup (held (cpus s i)) ∧ ∀ l, l ∈ held (cpus s i) ↔ owner s l = Some i.

(** The value is what the holder alone has made of the one it found. *)
Definition values (s : System) (i : nat) : Prop :=
  ∀ g, g ∈ all_guards (cpus s i) → value s (mutex g) = fold_left (λ v f, f v) (done_to g) (found g).

Definition inv (s : System) : Prop := ∀ i, owns s i ∧ values s i.

Lemma cpus_set i c s j : cpus (set_cpu i c s) j = if decide (j = i) then c else cpus s j.
Proof. done. Qed.

Lemma all_guards_top c : all_guards c = guards (top c) ++ (below c ≫= guards).
Proof. done. Qed.

(** A step of one processor that touches no mutex. *)
Lemma locks_inv_local i c s : inv s → all_guards c = all_guards (cpus s i) → inv (set_cpu i c s).
Proof.
  intros Hinv Hg j. unfold owns, values, held. rewrite cpus_set. destruct (decide (j = i)) as [->|]; [|apply Hinv].
  rewrite Hg. apply Hinv.
Qed.

(** A step of one processor that takes or gives back mutex [l]. *)
Lemma locks_inv_owner i c s l o : inv s →
  (owner s l = None ∧ o = Some i ∧ ∃ b, all_guards c = mkGuard l b (value s l) [] :: all_guards (cpus s i)) ∨
  (o = None ∧ ∃ g, g :: all_guards c ≡ₚ all_guards (cpus s i) ∧ mutex g = l) →
  inv (set_owner l o (set_cpu i c s)).
Proof.
  intros Hinv Hl j. destruct (Hinv j) as ([Nj Oj] & Vj). destruct (Hinv i) as ([Ni Oi] & Vi).
  unfold owns, values. cbn [cpus owner value set_owner set_cpu]. destruct (decide (j = i)) as [->|Hne].
  - destruct Hl as [(Ho & -> & b & Hg)|(-> & g & Hg & <-)].
    + assert (held c = l :: held (cpus s i)) as Hh by (unfold held; by rewrite Hg).
      assert (l ∉ held (cpus s i)) as Hn by (rewrite Oi; congruence). split_and!; [rewrite Hh; by constructor| |].
      * intros k. rewrite Hh, elem_of_cons, Oi. destruct (decide (k = l)) as [->|]; naive_solver.
      * rewrite Hg. intros g [->|Hin]%elem_of_cons; [done|by apply Vi].
    + assert (held (cpus s i) ≡ₚ mutex g :: held c) as Hh by (unfold held; by rewrite <- Hg). rewrite Hh in Ni.
      setoid_rewrite Hh in Oi. apply NoDup_cons in Ni as [Hn Ni].
      split_and!; [done| |intros g' Hg'; apply Vi; rewrite <- Hg; by right].
      intros k. destruct (decide (k = mutex g)) as [->|]; [naive_solver|]. rewrite <- Oi, elem_of_cons. naive_solver.
  - split_and!; [done| |done]. intros k. rewrite Oj. destruct (decide (k = l)) as [->|]; [|done].
    destruct Hl as [(-> & -> & _)|(-> & g & Hg & <-)]; [naive_solver|].
    assert (owner s (mutex g) = Some i) as -> by (apply Oi; unfold held; rewrite <- Hg; by left). naive_solver.
Qed.

(** A use of a value the processor has locked. *)
Lemma locks_inv_update i k f s s' : inv s → update i k f s = Some s' → inv s'.
Proof.
  intros Hinv Hs j. unfold update in Hs. destruct (pc (top (cpus s i))) eqn:Hpc; try done.
  destruct (guards (top (cpus s i)) !! k) as [g|] eqn:Hk; [|done]. injection Hs as <-.
  destruct (Hinv j) as ([Nj Oj] & Vj). destruct (Hinv i) as ([Ni Oi] & Vi).
  set (g' := mkGuard (mutex g) (int_status g) (found g) (done_to g ++ [f])).
  assert (all_guards (cpus s i) !! k = Some g) as Hka by (rewrite all_guards_top; by apply lookup_app_l_Some).
  assert (g ∈ all_guards (cpus s i)) as Hg by (by eapply list_elem_of_lookup_2).
  assert (mutex g ∈ held (cpus s i)) as Hin by (by apply list_elem_of_fmap_2).
  assert (all_guards (with_guards (<[k := g']> (guards (top (cpus s i)))) (cpus s i)) = <[k := g']> (all_guards (cpus s i))) as Hall.
  { rewrite !all_guards_top. cbn. by rewrite insert_app_l by (by eapply lookup_lt_Some). }
  assert (mutex <$> <[k := g']> (all_guards (cpus s i)) = held (cpus s i)) as Hheld.
  { rewrite list_fmap_insert. apply list_insert_id. unfold held. by rewrite list_lookup_fmap, Hka. }
  unfold owns, values. cbn [cpus owner value set_value set_cpu]. destruct (decide (j = i)) as [->|Hne].
  - unfold held at 1 2. rewrite Hall, Hheld. split; [done|].
    intros h (m & Hm)%list_elem_of_lookup. destruct (decide (m = k)) as [->|Hmk].
    + rewrite list_lookup_insert_eq in Hm by (by eapply lookup_lt_Some). injection Hm as <-. cbn.
      rewrite decide_True by done. by rewrite fold_left_app, <- (Vi g Hg).
    + rewrite list_lookup_insert_ne in Hm by done. rewrite decide_False; [apply Vi; by eapply list_elem_of_lookup_2|].
      intros E. apply Hmk. eapply (NoDup_lookup _ _ _ (mutex g) Ni); unfold held; rewrite list_lookup_fmap; [by rewrite Hm, <- E|by rewrite Hka].
  - split_and!; [done..|]. intros h Hh. rewrite decide_False; [by apply Vj|]. intros E.
    apply Oi in Hin. apply (list_elem_of_fmap_2 mutex), Oj in Hh. congruence.
Qed.

Lemma locks_inv_advance i s s' : inv s → advance i s = Some s' → inv s'.
Proof.
  intros Hinv Hs. unfold advance in Hs.
  destruct (pc (top (cpus s i))) as [|try l|try l b|try l b|b] eqn:Hpc; [done| | | |];
    [..|destruct (owner s l) as [o|] eqn:Ho; [destruct try; [|done]|]|]; injection Hs as <-; try by apply locks_inv_local.
  apply locks_inv_owner; [done|]. left. split_and!; [done..|by exists b].
Qed.

Lemma locks_inv_drop i k s s' : inv s → drop_guard i k s = Some s' → inv s'.
Proof.
  intros Hinv Hs. unfold drop_guard in Hs. destruct (pc (top (cpus s i))); try done.
  destruct (guards (top (cpus s i)) !! k) as [g|] eqn:Hg; [|done].
  injection Hs as <-. apply locks_inv_owner; [done|]. right. split; [done|]. exists g. split; [|done].
  rewrite !all_guards_top. cbn. rewrite (delete_Permutation _ _ _ Hg) at 2. done.
Qed.

Lemma locks_inv_step s s' : inv s → moves s s' → inv s'.
Proof.
  intros Hinv [[i try l|i|i k|i k f|i|i|i b] Hs]; cbn in Hs.
  - destruct (pc (top (cpus s i))); try done. injection Hs as <-. by apply locks_inv_local.
  - by eapply locks_inv_advance.
  - by eapply locks_inv_drop.
  - by eapply locks_inv_update.
  - unfold interrupt in Hs. destruct (flag (cpus s i)); [|done]. injection Hs as <-. by apply locks_inv_local.
  - unfold iret in Hs. destruct (pc (top (cpus s i))); try done. destruct (guards (top (cpus s i))) eqn:Hg; [|done].
    destruct (below (cpus s i)) as [|f fs] eqn:Hb; [done|]. injection Hs as <-.
    apply locks_inv_local; [done|]. rewrite !all_guards_top, Hg, Hb. done.
  - destruct (pc (top (cpus s i))); try done. injection Hs as <-. by apply locks_inv_local.
Qed.

Lemma locks_inv_start vs : inv (start vs).
Proof.
  intros i. split_and!; [split; [constructor|]|by intros g ?%elem_of_nil].
  intros l. split; [by intros ?%elem_of_nil|done].
Qed.

Lemma locks_inv_rtc s s' : rtc moves s s' → inv s → inv s'.
Proof. induction 1 as [|s s1 s2 Hm _ IH]; intros Hs; [done|]. by eapply IH, locks_inv_step. Qed.

(** ** Interrupts *)

(** A guard taken with interrupts on is dropped as the last of its activity, and
    interrupts are not enabled by hand while one is held. *)
Definition scoped (a : Action) (s : System) : Prop :=
  match a with
  | DropGuard i k => ∀ g, guards (top (cpus s i)) !! k = Some g → int_status g = true → length (guards (top (cpus s i))) = 1%nat
  | SetFlag i true => guards (top (cpus s i)) = []
  | _ => True
  end.

Definition scoped_moves (s s' : System) : Prop := ∃ a, scoped a s ∧ step a s = Some s'.

(** All guards but the oldest were taken with interrupts off. *)
Definition nested (gs : list Guard) : Prop :=
  ∀ k g, gs !! k = Some g → (S k < length gs)%nat → int_status g = false.

(** The flag the activity saw or will restore. *)
Definition pc_masked (b : bool) (f : Frame) : Prop :=
  match pc f with
  | Run | Reading _ _ => True
  | Disabling _ _ st => st = b
  | AtMutex _ _ st | Enabling st => b = false ∧ (guards f ≠ [] → st = false)
  end.

Definition suspended (f : Frame) : Prop := guards f = [] ∧ pc_masked true f.

Definition masked (c : Cpu) : Prop :=
  (guards (top c) ≠ [] → flag c = false) ∧ nested (guards (top c)) ∧ pc_masked (flag c) (top c) ∧
  Forall suspended (below c).

Lemma nested_cons g gs : nested gs → (gs ≠ [] → int_status g = false) → nested (g :: gs).
Proof.
  intros Hn Hg [|k] h Hk Hl; cbn in *; [injection Hk as <-; apply Hg; by destruct gs; [cbn in Hl; lia|]|].
  apply (Hn k h Hk). lia.
Qed.

Lemma nested_insert gs k g g' : gs !! k = Some g → int_status g' = int_status g → nested gs → nested (<[k := g']> gs).
Proof.
  intros Hk Hi Hn m h Hm Hl. rewrite length_insert in Hl. apply list_lookup_insert_Some in Hm as [(-> & <- & _)|[_ Hm]].
  - rewrite Hi. by apply (Hn m).
  - by apply (Hn m).
Qed.

Lemma nested_delete gs k : is_Some (gs !! k) → nested gs → nested (delete k gs).
Proof.
  intros Hk Hn m h Hm Hl. rewrite length_delete in Hl by done. destruct (decide (m < k)%nat).
  - rewrite list_lookup_delete_lt in Hm by done. apply (Hn m); [done|lia].
  - rewrite list_lookup_delete_ge in Hm by lia. apply (Hn (S m)); [done|lia].
Qed.

Lemma masked_advance i s s' : masked (cpus s i) → advance i s = Some s' → masked (cpus s' i).
Proof.
  intros (M1 & M2 & M3 & M4) Hs. unfold advance in Hs. unfold pc_masked in M3.
  destruct (pc (top (cpus s i))) as [|try l|try l b|try l b|b]; [done| | | |]; cbn in M3;
    [..|destruct (owner s l) as [o|]; [destruct try; [|done]|]|]; injection Hs as <-; cbn; rewrite decide_True by done.
  - by split_and!.
  - split_and!; [done|done| |done]. split; [done|]. cbn. intros Hne. subst b. by apply M1.
  - by split_and!.
  - destruct M3 as [Hf Hb]. split_and!; [done| |done|done]. cbn. by apply nested_cons.
  - destruct M3 as [Hf Hb]. split_and!; [|done|done|done]. cbn. intros Hne. by rewrite Hb.
Qed.

Lemma masked_drop i k s s' : masked (cpus s i) → scoped (DropGuard i k) s → drop_guard i k s = Some s' → masked (cpus s' i).
Proof.
  intros (M1 & M2 & M3 & M4) Hsc Hs. unfold drop_guard in Hs. cbn in Hsc. destruct (pc (top (cpus s i))); try done.
  destruct (guards (top (cpus s i)) !! k) as [g|] eqn:Hg; [|done]. specialize (Hsc g eq_refl).
  pose proof (lookup_lt_Some _ _ _ Hg).
  assert (flag (cpus s i) = false) as Hf by (apply M1; by intros E; rewrite E in Hg).
  injection Hs as <-. cbn. rewrite decide_True by done. split_and!; cbn; [done|by apply nested_delete; [eexists|]| |done].
  split; [done|]. intros Hne. destruct (int_status g); [|done]. specialize (Hsc eq_refl). exfalso. apply Hne, nil_length_inv.
  rewrite length_delete by (by eexists). lia.
Qed.

(** A step changes the processor it is about. *)
Definition actor (a : Action) : nat :=
  match a with
  | Call i _ _ | Advance i | DropGuard i _ | Update i _ _ | Interrupt i | Iret i | SetFlag i _ => i
  end.

Lemma step_other a s s' j : step a s = Some s' → j ≠ actor a → cpus s' j = cpus s j.
Proof.
  intros Hs Hj. destruct a; cbn in *; unfold advance, drop_guard, update, interrupt, iret in Hs;
    repeat case_match; simplify_eq; cbn; by rewrite decide_False.
Qed.

Lemma scoped_masked s s' : (∀ i, masked (cpus s i)) → scoped_moves s s' → ∀ i, masked (cpus s' i).
Proof.
  intros Hm (a & Hsc & Hs) j. destruct (decide (j = actor a)) as [->|Hne]; [|by rewrite (step_other _ _ _ _ Hs Hne)].
  destruct (Hm (actor a)) as (M1 & M2 & M3 & M4). destruct a as [i try l|i|i k|i k f|i|i|i b]; cbn in Hs, Hsc, M1, M2, M3, M4 |- *.
  - destruct (pc (top (cpus s i))); try done. injection Hs as <-. cbn. rewrite decide_True by done. by split_and!.
  - by eapply masked_advance.
  - by eapply masked_drop.
  - unfold update in Hs. destruct (pc (top (cpus s i))) eqn:Hpc; try done.
    destruct (guards (top (cpus s i)) !! k) as [g|] eqn:Hk; [|done]. injection Hs as <-. cbn. rewrite decide_True by done.
    split_and!; cbn; [|by eapply nested_insert|unfold pc_masked; cbn; by rewrite Hpc|done].
    intros _. apply M1. by intros E; rewrite E in Hk.
  - unfold interrupt in Hs. destruct (flag (cpus s i)) eqn:Hf; [|done].
    assert (guards (top (cpus s i)) = []) as Hg by (destruct (guards _); [done|by discriminate M1]).
    injection Hs as <-. cbn. rewrite decide_True by done. split_and!; cbn; [done|done|done|]. by constructor.
  - unfold iret in Hs. destruct (pc (top (cpus s i))); try done. destruct (guards (top (cpus s i))); [|done].
    destruct (below (cpus s i)) as [|f fs]; [done|]. injection Hs as <-. cbn. rewrite decide_True by done.
    apply Forall_cons in M4 as [[F1 F2] M4]. unfold masked. cbn. by rewrite F1.
  - destruct (pc (top (cpus s i))) eqn:Hpc; try done. injection Hs as <-. cbn. rewrite decide_True by done.
    unfold masked, pc_masked. cbn. rewrite Hpc. split_and!; [|done|done|done]. destruct b; [|done]. by rewrite Hsc.
Qed.

Lemma masked_rtc s s' : rtc scoped_moves s s' → (∀ i, masked (cpus s i)) → ∀ i, masked (cpus s' i).
Proof. induction 1 as [|s s1 s2 Hm _ IH]; intros Hs; [done|]. by eapply IH, scoped_masked. Qed.

Lemma masked_start vs i : masked (cpus (start vs) i).
Proof. by split_and!. Qed.

(** A masked processor holds mutexes in the running activity only. *)
Lemma masked_below c : masked c → Forall (λ f, guards f = []) (below c) ∧ held c = mutex <$> guards (top c).
Proof.
  intros (_ & _ & _ & M4). assert (Forall (λ f, guards f = []) (below c)) as Hb.
  { eapply Forall_impl; [exact M4|]. by intros f [? _]. }
  split; [done|]. unfold held. rewrite all_guards_top. assert (below c ≫= guards = []) as ->; [|by rewrite app_nil_r].
  clear M4. induction Hb as [|f fs Hf _ IH]; [done|]. cbn. by rewrite Hf.
Qed.

(** ** Deadlock *)

(** The mutexes have an order, and [lock] is only called for one above all that
    the processor holds, in the running activity or in one that it has
    interrupted.  [try_lock] may be called for any. *)
Context (rank : nat → nat) (height : nat) (Hheight : ∀ l, (rank l < height)%nat).

Definition in_order (a : Action) (s : System) : Prop :=
  match a with
  | Call i false l => ∀ k, k ∈ held (cpus s i) → (rank k < rank l)%nat
  | _ => True
  end.

Definition ordered_moves (s s' : System) : Prop := ∃ a, in_order a s ∧ step a s = Some s'.

(** The mutex a call of [lock] is for. *)
Definition wants (f : Frame) : option nat :=
  match pc f with
  | Reading false l | Disabling false l _ | AtMutex false l _ => Some l
  | _ => None
  end.

(** Each activity wants a mutex above what it and those below it hold. *)
Fixpoint climbing (fs : list Frame) : Prop :=
  match fs with
  | [] => True
  | f :: fs' => (∀ l k, wants f = Some l → k ∈ mutex <$> (fs ≫= guards) → (rank k < rank l)%nat) ∧ climbing fs'
  end.

Definition climbs (s : System) : Prop := ∀ i, climbing (stack (cpus s i)).

(** A processor waits for a mutex that another activity holds. *)
Definition blocked (s : System) (i : nat) : bool :=
  match pc (top (cpus s i)) with
  | AtMutex false l _ => match owner s l with Some _ => true | None => false end
  | _ => false
  end.

Lemma not_blocked s i : blocked s i = false → pc (top (cpus s i)) = Run ∨ is_Some (advance i s).
Proof.
  unfold blocked, advance. destruct (pc (top (cpus s i))) as [|try l|try l b|try l b|b]; [by left|right..]; [by eexists..| |by eexists].
  destruct (owner s l), try; try done; by eexists.
Qed.

(** An activity that wants nothing, or what it wanted before with no more held. *)
Lemma climbing_top f f' fs :
  climbing (f :: fs) → wants f' = None ∨ (wants f' = wants f ∧ guards f' = guards f) → climbing (f' :: fs).
Proof.
  intros [Hf Hfs] Hw. split; [|done]. intros l k Hl Hk. destruct Hw as [Hw|[Hw Hg]]; [by rewrite Hw in Hl|].
  apply Hf; [congruence|]. cbn in *. by rewrite Hg in Hk.
Qed.

Lemma climbs_step s s' : climbs s → ordered_moves s s' → climbs s'.
Proof.
  intros Hc (a & Ha & Hs) j. destruct (decide (j = actor a)) as [->|Hne]; [|by rewrite (step_other _ _ _ _ Hs Hne)].
  specialize (Hc (actor a)). destruct a as [i try l|i|i k|i k f|i|i|i b]; cbn [actor step] in *.
  - destruct (pc (top (cpus s i))) eqn:Hpc; try done. injection Hs as <-. cbn [cpus set_cpu]. rewrite decide_True by done.
    split; [|apply Hc]. intros m k Hm Hk. destruct try; [done|]. injection Hm as <-. by apply Ha.
  - unfold advance in Hs. destruct (pc (top (cpus s i))) as [|try l|try l b|try l b|b] eqn:Hpc; [done| | | |];
      [..|destruct (owner s l) as [o|]; [destruct try; [|done]|]|]; injection Hs as <-;
      cbn [cpus set_cpu set_owner]; rewrite decide_True by done;
      (eapply climbing_top; [exact Hc|]); unfold wants; cbn; rewrite ?Hpc; auto.
  - unfold drop_guard in Hs. destruct (pc (top (cpus s i))); try done. destruct (guards (top (cpus s i)) !! k); [|done].
    injection Hs as <-. cbn [cpus set_cpu set_owner]. rewrite decide_True by done. eapply climbing_top; [exact Hc|]. by left.
  - unfold update in Hs. destruct (pc (top (cpus s i))) eqn:Hpc; try done. destruct (guards (top (cpus s i)) !! k); [|done].
    injection Hs as <-. cbn [cpus set_cpu set_value]. rewrite decide_True by done. eapply climbing_top; [exact Hc|].
    left. unfold wants. cbn. by rewrite Hpc.
  - unfold interrupt in Hs. destruct (flag (cpus s i)); [|done]. injection Hs as <-. cbn [cpus set_cpu]. rewrite decide_True by done.
    by split.
  - unfold iret in Hs. destruct (pc (top (cpus s i))); try done. destruct (guards (top (cpus s i))); [|done].
    unfold stack in Hc. destruct (below (cpus s i)) as [|f fs]; [done|]. injection Hs as <-. cbn [cpus set_cpu]. rewrite decide_True by done.
    by destruct Hc.
  - destruct (pc (top (cpus s i))); try done. injection Hs as <-. cbn [cpus set_cpu]. rewrite decide_True by done. exact Hc.
Qed.

Lemma ordered_rtc s s' : rtc ordered_moves s s' → inv s → climbs s → inv s' ∧ climbs s'.
Proof.
  induction 1 as [|s s1 s2 Hm _ IH]; intros Hs Hc; [done|]. apply IH; [|by eapply climbs_step].
  destruct Hm as (a & _ & Hm). eapply locks_inv_step; [done|by exists a].
Qed.

(** From a blocked processor the owners lead to one that can go on. *)
Lemma owner_chain s i n : inv s → climbs s → blocked s i = true →
  (∀ l, wants (top (cpus s i)) = Some l → (height < rank l + n)%nat) →
  ∃ j, held (cpus s j) ≠ [] ∧ blocked s j = false.
Proof.
  intros Hinv Hc. revert i. induction n as [|n IH]; intros i Hb Hn; unfold blocked in Hb;
    destruct (pc (top (cpus s i))) as [| | |[] l b|] eqn:Hpc; try done; unfold wants in Hn; rewrite Hpc in Hn;
    specialize (Hn l eq_refl); [specialize (Hheight l); lia|].
  destruct (owner s l) as [j|] eqn:Ho; [|done]. destruct (Hinv j) as ([_ Oj] & _). apply Oj in Ho.
  destruct (blocked s j) eqn:Hbj; [|exists j; split; [by intros E; rewrite E in Ho; apply elem_of_nil in Ho|done]].
  apply (IH j Hbj). intros l' Hl'. destruct (Hc j) as [Hj _]. specialize (Hj l' l Hl' Ho). lia.
Qed.
End locks.

(** C19. What interrupt mutexes promise, in every interleaving of any number of
    processors, instruction by instruction, with guards dropped in any order and
    with interrupts whose handlers lock as well: no mutex has two guards, on one
    processor or on two, and the value behind a mutex is what its holder alone has
    made of the value it found.  If moreover every guard that was taken with
    interrupts on is dropped after the later ones of its activity, and interrupts
    are not enabled by hand under a guard, then a processor that holds a mutex or
    is at one takes no interrupt, and interrupted code holds none. *)
Theorem mutexes_exclude {T} (vs : nat → T) s :
  rtc moves (start vs) s →
  (∀ i j l, l ∈ held (cpus s i) → l ∈ held (cpus s j) → i = j) ∧
  (∀ i, NoDup (held (cpus s i))) ∧
  (∀ i g, g ∈ all_guards (cpus s i) → value s (mutex g) = fold_left (λ v f, f v) (done_to g) (found g)) ∧
  (rtc scoped_moves (start vs) s → ∀ i,
     (held (cpus s i) ≠ [] ∨ (∃ try l b, pc (top (cpus s i)) = AtMutex try l b) → interrupt i s = None) ∧
     Forall (λ f, guards f = []) (below (cpus s i))).
Proof.
  intros Hr. pose proof (locks_inv_rtc _ _ Hr (locks_inv_start vs)) as Hinv. split_and!.
  - intros i j l Hi Hj. destruct (Hinv i) as [[_ Oi] _], (Hinv j) as [[_ Oj] _]. apply Oi in Hi. apply Oj in Hj. congruence.
  - intros i. apply Hinv.
  - intros i. apply Hinv.
  - intros Hs i. pose proof (masked_rtc _ _ Hs (masked_start vs) i) as Hm. destruct (masked_below _ Hm) as [Hb Hh].
    split; [|done]. intros Hi. destruct Hm as (M1 & _ & M3 & _). assert (flag (cpus s i) = false) as Hf.
    { destruct Hi as [Hi|(try & l & b & Hp)]; [apply M1; intros E; apply Hi; by rewrite Hh, E|].
      unfold pc_masked in M3. rewrite Hp in M3. apply M3. }
    unfold interrupt. by rewrite Hf.
Qed.

(** C23. With the mutexes locked in an order there is no deadlock, in whatever
    order guards are dropped: if [lock] is called only for a mutex above all that
    the processor holds, in the running code and in the code that interrupts have
    suspended, then whenever a processor waits for a mutex, some processor that
    holds one runs its code or can take the next step of its call. *)
Theorem no_deadlock {T} (vs : nat → T) (rank : nat → nat) (height : nat) s i :
  (∀ l, (rank l < height)%nat) → rtc (ordered_moves rank) (start vs) s → blocked s i = true →
  ∃ j, held (cpus s j) ≠ [] ∧ (pc (top (cpus s j)) = Run ∨ ∃ s', step (Advance j) s = Some s').
Proof.
  intros Hh Hr Hb. destruct (ordered_rtc rank _ _ Hr (locks_inv_start vs)) as [Hinv Hc].
  { intros j. split; [done|exact I]. }
  destruct (owner_chain rank height Hh s i (S height) Hinv Hc Hb) as (j & Hj & Hbj); [intros l _; lia|].
  exists j. split; [done|]. by apply not_blocked.
Qed.

(** ** Runs *)

Definition in_orderb {T} (rank : nat → nat) (a : @Action T) (s : @System T) : bool :=
  match a with
  | Call i false l => forallb (λ k, rank k <? rank l)%nat (held (cpus s i))
  | _ => true
  end.

Definition scopedb {T} (a : @Action T) (s : @System T) : bool :=
  match a with
  | DropGuard i k =>
      match guards (top (cpus s i)) !! k with
      | Some g => negb (int_status g) || (length (guards (top (cpus s i))) =? 1)%nat
      | None => true
      end
  | SetFlag i true => match guards (top (cpus s i)) with [] => true | _ => false end
  | _ => true
  end.

(** A run in order and with scoped guards. *)
Fixpoint run {T} (rank : nat → nat) (l : list (@Action T)) (s : @System T) : option (@System T) :=
  match l with
  | [] => Some s
  | a :: l => if in_orderb rank a s && scopedb a s then s ← step a s; run rank l s else None
  end.

Lemma run_steps {T} rank (l : list (@Action T)) : ∀ s s', run rank l s = Some s' →
  rtc moves s s' ∧ rtc (ordered_moves rank) s s' ∧ rtc scoped_moves s s'.
Proof.
  induction l as [|a l IH]; intros s s' H; cbn in H; [by injection H as <-|].
  destruct (in_orderb rank a s && scopedb a s) eqn:Hab; [|done]. apply andb_true_iff in Hab as [Ha Hb].
  destruct (step a s) as [s1|] eqn:E; [|done]. destruct (IH _ _ H) as (H1 & H2 & H3). split_and!.
  - eapply rtc_l; [by exists a|done].
  - eapply rtc_l; [|done]. exists a. split; [|done]. destruct a as [i [] k| | | | | |]; try done.
    intros h Hh%list_elem_of_In. cbn in Ha. rewrite forallb_forall in Ha. by apply Nat.ltb_lt, Ha.
  - eapply rtc_l; [|done]. exists a. split; [|done]. destruct a as [| |i k| | | |i []]; try done; cbn in Hb |- *.
    + intros g Hg Hi. rewrite Hg, Hi in Hb. by apply Nat.eqb_eq.
    + by destruct (guards _).
Qed.

(** Processor 0 locks mutex 3 with interrupts on and doubles its value; a handler
    on processor 1 has locked mutex 5 and waits for mutex 3.  Lower numbers come
    later in the order. *)
Definition order (l : nat) : nat := 8 - l.
Definition lock_by (i l : nat) : list (@Action Z) := [Call i false l; Advance i; Advance i; Advance i].
Definition shared : list (@Action Z) :=
  [SetFlag 0 true; SetFlag 1 true] ++ lock_by 0 3 ++ [Update 0 0 (Z.mul 2); Interrupt 1] ++ lock_by 1 5 ++
  [Call 1 false 3; Advance 1; Advance 1].

Definition seen (s : @System Z) : list nat * list nat * bool * Z :=
  (held (cpus s 0), held (cpus s 1), blocked s 1, value s 3).

Lemma shared_runs : seen <$> run order shared (start (λ _, 21)) = Some ([3%nat], [5%nat], true, 42).
Proof. by vm_compute. Qed.

Lemma shared_reached : ∃ s, run order shared (start (λ _, 21)) = Some s ∧ seen s = ([3%nat], [5%nat], true, 42).
Proof. pose proof shared_runs as H. apply fmap_Some in H as (s & E & Hs). exists s. split; [exact E|symmetry; exact Hs]. Qed.

Lemma mutexes_exclude_witness : ∃ s, run order shared (start (λ _, 21)) = Some s ∧
  interrupt 1 s = None ∧ ∀ g, g ∈ all_guards (cpus s 0) → value s (mutex g) = fold_left (λ v f, f v) (done_to g) (found g).
Proof.
  destruct shared_reached as (s & E & [= _ Hs _ _]). exists s. destruct (run_steps _ _ _ _ E) as (R1 & _ & R3).
  destruct (mutexes_exclude (λ _, 21) s R1) as (_ & _ & H3 & H4). split_and!; [exact E| |apply H3].
  apply (H4 R3 1%nat). left. by rewrite Hs.
Defined.

Lemma no_deadlock_witness : ∃ s j, run order shared (start (λ _, 21)) = Some s ∧ blocked s 1 = true ∧
  held (cpus s j) ≠ [] ∧ (pc (top (cpus s j)) = Run ∨ ∃ s', step (Advance j) s = Some s').
Proof.
  destruct shared_reached as (s & E & [= _ _ Hs _]). exists s. destruct (run_steps _ _ _ _ E) as (_ & R2 & _).
  destruct (no_deadlock (λ _, 21) order 9 s 1) as (j & H1 & H2);
    [unfold order; lia|exact R2|exact Hs|]. exists j. split_and!; [exact E|exact Hs|exact H1|exact H2].
Defined.

(** Steps in any order. *)
Definition steps {T} (l : list (@Action T)) (s : @System T) : option (@System T) :=
  foldl (λ o a, o ≫= step a) (Some s) l.

(** Locking a mutex again, as the panic handler does when the kernel panics with
    the terminal locked, waits for ever: the order forbids it. *)
Definition relock : list (@Action Z) := lock_by 0 3 ++ [Call 0 false 3; Advance 0; Advance 0].

Lemma relock_blocks :
  (λ s, (blocked s 0, owner s 3)) <$> steps relock (start (λ _, 0)) = Some (true, Some 0%nat) ∧
  run order relock (start (λ _, 0)) = None.
Proof. by vm_compute. Qed.

(** Two mutexes locked with interrupts on, the outer one dropped first: interrupts
    are enabled with the inner one held, and a handler that locks it waits for the
    code it has interrupted, for ever. *)
Definition outer_first : list (@Action Z) :=
  [SetFlag 0 true] ++ lock_by 0 5 ++ lock_by 0 3 ++ [DropGuard 0 1; Advance 0].

Lemma outer_first_enables :
  (λ s, (held (cpus s 0), flag (cpus s 0))) <$> steps outer_first (start (λ _, 0)) = Some ([3%nat], true) ∧
  (λ s, (blocked s 0, owner s 3)) <$> steps (outer_first ++ [Interrupt 0; Call 0 false 3; Advance 0; Advance 0]) (start (λ _, 0))
    = Some (true, Some 0%nat).
Proof. by vm_compute. Qed.
End Locks.
