(* ===== verification/Scheduler.v ===== *)
(** * Tasks and the scheduler (src/kernel/src/scheduling/)

    [sched_logic] is modelled as a whole on the data of one processor; the moves
    of tasks between processors ([add_task], the balancing of [idle_task]) are
    steps of a system of processors, one step for each time a scheduler lock is
    held.  Tasks that a call drops are kept in a log, [dropped]. *)

From S2P Require Import Prelude Errors Pages Helpers.
Import Errors Pages Helpers.

Module Scheduler.

(** ** Tasks *)

Inductive TaskState := Ready | Wait (t : Time) | Terminate (code : Z).

#[export] Instance TaskState_eq_dec : EqDecision TaskState.
Proof. solve_decision. Defined.

(** An address space is the physical address of its L4 table, a stack its top. *)
Inductive TaskType :=
| TKernel
| TUser (address_space syscall_stack priv_stack parent_id : Z).

Record Task := mkTask {
  id : Z; type_ : TaskType; state : TaskState; stack : Z; pages : list Z; entry : Z; sp : Z
}.

Definition with_sp (t : Task) (x : Z) : Task :=
  mkTask (id t) (type_ t) (state t) (stack t) (pages t) (entry t) x.
Definition with_state (t : Task) (s : TaskState) : Task :=
  mkTask (id t) (type_ t) s (stack t) (pages t) (entry t) (sp t).

Definition is_user (t : Task) : bool := match type_ t with TUser _ _ _ _ => true | TKernel => false end.

(** ** The scheduler of a processor *)

Record Sched := mkSched { curr : Task; ready : list Task; terminate : list Task; sleep : list Task }.

Definition sched_new (idle : Task) : Sched := mkSched idle [] [] [].

Definition sched_add_task (s : Sched) (t : Task) : Sched :=
  mkSched (curr s) (ready s ++ [t]) (terminate s) (sleep s).

Definition task_count (s : Sched) : Z * Z :=
  foldl (λ '(kernel, user) task,
    match type_ task with TKernel => (kernel + 1, user) | TUser _ _ _ _ => (kernel, user + 1) end)
    (0, 0) (ready s).

(** [Vec::remove] and [VecDeque::remove]. *)
Definition remove_at {A} (i : nat) (l : list A) : option (A * list A) :=
  match l !! i with Some x => Some (x, delete i l) | None => None end.

(** The indices of the first [count] user tasks, from index [i]. *)
Fixpoint user_indices (count : nat) (i : nat) (l : list Task) (pop_queue : list nat) : list nat :=
  match l with
  | [] => pop_queue
  | task :: l =>
      if Nat.leb count (length pop_queue) then pop_queue
      else user_indices count (S i) l (if is_user task then pop_queue ++ [i] else pop_queue)
  end.

(** The removals of [take_user_tasks], in reverse order of the indices; [None] is
    the early return of [?]. *)
Fixpoint pop_all (idx : list nat) (rdy tasks : list Task) : option (list Task) * list Task :=
  match idx with
  | [] => (Some tasks, rdy)
  | i :: idx =>
      match remove_at i rdy with
      | None => (None, rdy)
      | Some (task, rdy) => pop_all idx rdy (tasks ++ [task])
      end
  end.

Definition take_user_tasks (count : Z) (s : Sched) : option (list Task) * Sched :=
  if (task_count s).2 <? count then (None, s)
  else
    let pop_queue := user_indices (Z.to_nat count) 0 (ready s) [] in
    let '(tasks, rdy) := pop_all (rev pop_queue) (ready s) [] in
    (tasks, mkSched (curr s) rdy (terminate s) (sleep s)).

(** ** A processor *)

(** [CPUData] with the registers the scheduler writes and the log of tasks it
    dropped. *)
Record CPU := mkCPU {
  sched : Sched; idle : Task; cr3 : Z; rsp0 : Z; syscall_stack : Z; dropped : list Task
}.

Definition set_sched (c : CPU) (s : Sched) : CPU :=
  mkCPU s (idle c) (cr3 c) (rsp0 c) (syscall_stack c) (dropped c).
Definition on_sched (f : Sched → Sched) (c : CPU) : CPU := set_sched c (f (sched c)).

(** [wake i] tells whether the task at index [i] of [sleep] is due; [clock i] is
    the time read for it. *)
Definition wakes (clock : nat → Z) (i : nat) (task : Task) : bool :=
  match state task with
  | Wait x => to_nanos x <? clock i
  | Ready | Terminate _ => true
  end.

Fixpoint wake_queue (clock : nat → Z) (i : nat) (l : list Task) : list nat :=
  match l with
  | [] => []
  | task :: l => if wakes clock i task then i :: wake_queue clock (S i) l else wake_queue clock (S i) l
  end.

Definition wake_one (idx : nat) : M CPU Empty_set unit := λ c,
  let s := sched c in
  match remove_at idx (sleep s) with
  | None => (Panic, c)
  | Some (task, slp) =>
      (Ok tt, set_sched c (mkSched (curr s) (ready s ++ [with_state task Ready]) (terminate s) slp))
  end.

Definition move_to_queue (s : Sched) (task : Task) : Sched :=
  match state task with
  | Ready => mkSched (curr s) (ready s ++ [task]) (terminate s) (sleep s)
  | Terminate _ => mkSched (curr s) (ready s) (terminate s ++ [task]) (sleep s)
  | Wait _ => mkSched (curr s) (ready s) (terminate s) (sleep s ++ [task])
  end.

(** [Vec::clear] drops the tasks of the vector. *)
Definition clear_terminate (c : CPU) : CPU :=
  let s := sched c in
  mkCPU (mkSched (curr s) (ready s) [] (sleep s)) (idle c) (cr3 c) (rsp0 c) (syscall_stack c)
    (dropped c ++ terminate s).

Definition pop_ready : M CPU Empty_set (option Task) := λ c,
  let s := sched c in
  match ready s with
  | [] => (Ok None, c)
  | t :: r => (Ok (Some t), set_sched c (mkSched (curr s) r (terminate s) (sleep s)))
  end.

Section sched_logic.
Variable KERNEL_L4 : Z.

(** The address space and stacks of the next task. *)
Definition switch_to (t : Task) (c : CPU) : CPU :=
  match type_ t with
  | TKernel => mkCPU (sched c) (idle c) KERNEL_L4 (rsp0 c) (syscall_stack c) (dropped c)
  | TUser l4 sys priv _ => mkCPU (sched c) (idle c) l4 priv sys (dropped c)
  end.

Definition sched_logic (clock : nat → Z) (old_sp : Z) : M CPU Empty_set Z :=
  modify (on_sched (λ s, mkSched (with_sp (curr s) old_sp) (ready s) (terminate s) (sleep s)));;
  slp ← gets (λ c, sleep (sched c));
  forM (rev (wake_queue clock 0 slp)) wake_one;;
  next_task ← pop_ready;
  cur ← gets (λ c, curr (sched c));
  if (match next_task with None => true | Some _ => false end) && bool_decide (state cur = Ready)
  then mret (sp cur)
  else (* the same check inside the second [is_none] never succeeds *)
    next_task ← match next_task with
                | Some t => mret t
                | None => gets idle
                end;
    modify (switch_to next_task);;
    modify (on_sched (λ s, move_to_queue (mkSched next_task (ready s) (terminate s) (sleep s)) (curr s)));;
    modify clear_terminate;;
    gets (λ c, sp (curr (sched c))).
End sched_logic.

Definition kill_active_task (err_code : Z) : CPU → CPU :=
  on_sched (λ s, mkSched (with_state (curr s) (Terminate err_code)) (ready s) (terminate s) (sleep s)).

(** ** All processors *)

(** The user tasks of each queue, as its lock was taken. *)
Definition user_count (c : CPU) : Z := (task_count (sched c)).2.

Definition busiest_queue (counts : list Z) : option (nat * Z) :=
  let '(busy_cpu, max) := (foldl (λ '(busy_cpu, max, id) count,
    if max <? count then (Some id, count, S id) else (busy_cpu, max, S id)) (None, 0, 0%nat) counts).1 in
  cpu ← busy_cpu; Some (cpu, max).

Fixpoint laziest_loop (counts : list Z) (id : nat) (lazy_cpu : option nat) (min : Z) : option (nat * Z) :=
  match counts with
  | [] => cpu ← lazy_cpu; Some (cpu, min)
  | count :: counts =>
      if count =? 0 then Some (id, 0)
      else if count <? min then laziest_loop counts (S id) (Some id) count
      else laziest_loop counts (S id) lazy_cpu min
  end.

Definition laziest_queue (counts : list Z) : option (nat * Z) := laziest_loop counts 0 None U64_MAX.

(** The queue [add_task] chooses, on processor [me]. *)
Definition add_task_target (counts : list Z) (me : nat) : nat :=
  match laziest_queue counts with Some (cpu, _) => cpu | None => me end.

(** ** What one call of the scheduler does *)

(** The tasks of [sleep] that are woken, in the order they are queued, and those
    that stay. *)
Fixpoint woken (clock : nat → Z) (i : nat) (l : list Task) : list Task :=
  match l with
  | [] => []
  | t :: l => woken clock (S i) l ++ (if wakes clock i t then [with_state t Ready] else [])
  end.

Fixpoint asleep (clock : nat → Z) (i : nat) (l : list Task) : list Task :=
  match l with
  | [] => []
  | t :: l => (if wakes clock i t then [] else [t]) ++ asleep clock (S i) l
  end.

Lemma wake_queue_snoc clock i l t :
  wake_queue clock i (l ++ [t]) = wake_queue clock i l ++ (if wakes clock (i + length l) t then [(i + length l)%nat] else []).
Proof.
  revert i. induction l as [|x l IH]; intros i; cbn [wake_queue app length].
  - rewrite Nat.add_0_r. by destruct (wakes clock i t).
  - rewrite IH. replace (S i + length l)%nat with (i + S (length l))%nat by lia. by destruct (wakes clock i x).
Qed.

Lemma woken_snoc clock i l t :
  woken clock i (l ++ [t]) = (if wakes clock (i + length l) t then [with_state t Ready] else []) ++ woken clock i l.
Proof.
  revert i. induction l as [|x l IH]; intros i; cbn [woken app length].
  - rewrite Nat.add_0_r, app_nil_r. done.
  - rewrite IH, <- app_assoc. by replace (S i + length l)%nat with (i + S (length l))%nat by lia.
Qed.

Lemma asleep_snoc clock i l t :
  asleep clock i (l ++ [t]) = asleep clock i l ++ (if wakes clock (i + length l) t then [] else [t]).
Proof.
  revert i. induction l as [|x l IH]; intros i; cbn [asleep app length].
  - rewrite Nat.add_0_r. by destruct (wakes clock i t).
  - rewrite IH, <- app_assoc. by replace (S i + length l)%nat with (i + S (length l))%nat by lia.
Qed.

Lemma remove_at_middle {A} (l1 l2 : list A) x : remove_at (length l1) (l1 ++ x :: l2) = Some (x, l1 ++ l2).
Proof. unfold remove_at. by rewrite list_lookup_middle, delete_middle by done. Qed.

Lemma wake_all clock l kept c cur rdy ter :
  sched c = mkSched cur rdy ter (l ++ kept) →
  forM (rev (wake_queue clock 0 l)) wake_one c =
    (Ok tt, set_sched c (mkSched cur (rdy ++ woken clock 0 l) ter (asleep clock 0 l ++ kept))).
Proof.
  revert kept c rdy. induction l as [|t l IH] using rev_ind; intros kept c rdy Hc.
  - destruct c as [s ? ? ? ? ?]. cbn [sched] in Hc. subst s. cbn [woken asleep]. rewrite app_nil_r. reflexivity.
  - rewrite wake_queue_snoc, woken_snoc, asleep_snoc. simpl (0 + _)%nat. rewrite rev_app_distr.
    destruct (wakes clock (length l) t) eqn:E; cbn [rev app forM].
    + rewrite <- app_assoc in Hc. simpl in Hc.
      assert (wake_one (length l) c =
        (Ok tt, set_sched c (mkSched cur (rdy ++ [with_state t Ready]) ter (l ++ kept)))) as Ew.
      { unfold wake_one. rewrite Hc. cbn [sleep curr ready terminate]. by rewrite remove_at_middle. }
      mstep Ew. rewrite (IH kept _ (rdy ++ [with_state t Ready])) by done.
      rewrite app_nil_r, <- !app_assoc. done.
    + rewrite (IH (t :: kept) c rdy) by (by rewrite Hc, <- app_assoc). by rewrite <- app_assoc.
Qed.

Section tick.
Variable L4 : Z.

(** The queues after a switch to [t], the first of the ready tasks. *)
Definition switched (clock : nat → Z) (old_sp : Z) (c : CPU) (t : Task) (rdy : list Task) : CPU :=
  let s := sched c in
  let old := with_sp (curr s) old_sp in
  let slp := asleep clock 0 (sleep s) in
  let c' := switch_to L4 t c in
  mkCPU
    match state old with
    | Ready => mkSched t (rdy ++ [old]) [] slp
    | Terminate _ => mkSched t rdy [] slp
    | Wait _ => mkSched t rdy [] (slp ++ [old])
    end
    (idle c) (cr3 c') (rsp0 c') (syscall_stack c')
    (dropped c ++ terminate s ++ match state old with Terminate _ => [old] | _ => [] end).

Lemma sched_logic_switch clock old_sp c t rdy :
  ready (sched c) ++ woken clock 0 (sleep (sched c)) = t :: rdy →
  sched_logic L4 clock old_sp c = (Ok (sp t), switched clock old_sp c t rdy).
Proof.
  intros Hr. unfold sched_logic. rewrite modify_bind, gets_bind. cbn [sched on_sched set_sched sleep].
  erewrite bind_Ok.
  2:{ apply (wake_all clock (sleep (sched c)) []). rewrite app_nil_r. reflexivity. }
  rewrite app_nil_r, Hr. cbv beta. erewrite bind_Ok; [|reflexivity]. cbv beta. rewrite gets_bind.
  cbn [set_sched sched curr andb]. cbv iota. rewrite mret_bind, modify_bind.
  unfold switched, switch_to. destruct (type_ t); rewrite !modify_bind; unfold gets, move_to_queue;
    cbn [on_sched set_sched sched curr ready terminate sleep with_sp state idle];
    unfold clear_terminate, on_sched, set_sched; cbn;
    destruct (state (curr (sched c))) eqn:E; cbn; by rewrite ?app_nil_r.
Qed.

(** No other task: the running one goes on. *)
Lemma sched_logic_stay clock old_sp c :
  ready (sched c) ++ woken clock 0 (sleep (sched c)) = [] → state (curr (sched c)) = Ready →
  sched_logic L4 clock old_sp c =
    (Ok old_sp, set_sched c (mkSched (with_sp (curr (sched c)) old_sp) [] (terminate (sched c))
       (asleep clock 0 (sleep (sched c))))).
Proof.
  intros Hr Hs. unfold sched_logic. rewrite modify_bind, gets_bind. cbn [sched on_sched set_sched sleep].
  erewrite bind_Ok.
  2:{ apply (wake_all clock (sleep (sched c)) []). rewrite app_nil_r. reflexivity. }
  rewrite app_nil_r, Hr. cbv beta. erewrite bind_Ok; [|reflexivity]. cbv beta. rewrite gets_bind.
  cbn [set_sched sched curr andb with_sp state]. rewrite bool_decide_true by done. reflexivity.
Qed.
End tick.

(** A task that ended is dropped, with its stacks, by the very call that runs on
    its stack. *)
Lemma ended_task_dropped L4 clock old_sp c t rdy code :
  ready (sched c) ++ woken clock 0 (sleep (sched c)) = t :: rdy → state (curr (sched c)) = Terminate code →
  ∃ c', sched_logic L4 clock old_sp c = (Ok (sp t), c') ∧ with_sp (curr (sched c)) old_sp ∈ dropped c'.
Proof.
  intros Hr Hs. eexists. split; [by apply sched_logic_switch|]. unfold switched. cbn [dropped with_sp state].
  rewrite Hs, !elem_of_app. right; right. by left.
Qed.

(** ** Taking tasks *)

(** The order of the indices and what they point to. *)
Definition points (l : list Task) (i : nat) : Prop := ∃ t, l !! i = Some t ∧ is_user t = true.

Lemma user_indices_spec count l0 i l acc :
  drop i l0 = l → StronglySorted lt acc → Forall (λ j, (j < i)%nat ∧ points l0 j) acc →
  let r := user_indices count i l acc in
  StronglySorted lt r ∧ Forall (points l0) r.
Proof.
  revert i acc. induction l as [|t l IH]; intros i acc Hd Hs Ha; cbn [user_indices].
  { split; [done|]. eapply Forall_impl; [exact Ha|]. by intros j []. }
  destruct (Nat.leb count (length acc)); [split; [done|]; eapply Forall_impl; [exact Ha|]; by intros j []|].
  assert (l0 !! i = Some t ∧ drop (S i) l0 = l) as [Hi Hd'].
  { split; [by rewrite <- (Nat.add_0_r i), <- lookup_drop, Hd|].
    by rewrite <- Nat.add_1_r, <- drop_drop, Hd. }
  apply IH; [done|..].
  - destruct (is_user t); [|done]. apply StronglySorted_app_iff. split_and!; [done|repeat constructor|].
    intros x y Hx ->%list_elem_of_singleton. rewrite Forall_forall in Ha. by destruct (Ha x Hx).
  - assert (Forall (λ j, (j < S i)%nat ∧ points l0 j) acc) as Ha'
      by (eapply Forall_impl; [exact Ha|]; simpl; intuition lia).
    destruct (is_user t) eqn:E; [|done]. apply Forall_app_2; [done|]. constructor; [|constructor].
    split; [lia|]. by exists t.
Qed.

Lemma StronglySorted_rev {A} (R : relation A) l : StronglySorted R l → StronglySorted (flip R) (rev l).
Proof.
  induction 1 as [|x l Hs IH Hx]; [constructor|]. cbn [rev]. apply StronglySorted_app_iff.
  split_and!; [done|repeat constructor|]. intros a b Ha ->%list_elem_of_singleton. unfold flip.
  rewrite Forall_forall in Hx. apply Hx. by apply list_elem_of_In, in_rev, list_elem_of_In.
Qed.

(** A list with some elements taken out; the others do not move back. *)
Definition took (l ts rest : list Task) : Prop :=
  l ≡ₚ ts ++ rest ∧
  (∀ k t, l !! k = Some t → t ∈ ts ∨ ∃ k', (k' <= k)%nat ∧ rest !! k' = Some t) ∧
  Forall (λ t, is_user t = true) ts.

Lemma pop_all_spec idx l acc :
  StronglySorted (flip lt) idx → Forall (points l) idx →
  ∃ ts rest, pop_all idx l acc = (Some (acc ++ ts), rest) ∧ took l ts rest.
Proof.
  revert l acc. induction idx as [|i idx IH]; intros l acc Hs Hp; cbn [pop_all].
  { exists [], l. rewrite app_nil_r. split; [done|]. split_and!; [done|eauto|constructor]. }
  inversion Hs as [|? ? Hs' Hlt]; subst. inversion Hp as [|? ? (t & Hi & Hu) Hp']; subst.
  unfold remove_at. rewrite Hi.
  destruct (IH (delete i l) (acc ++ [t]) Hs') as (ts & rest & -> & P & Q & F).
  - rewrite Forall_forall in *. intros j Hj. destruct (Hp' j Hj) as (t' & Hj' & Hu').
    exists t'. split; [|done]. rewrite list_lookup_delete_lt; [done|]. by apply Hlt in Hj.
  - exists (t :: ts), rest. rewrite <- app_assoc. split; [done|]. split_and!.
    + rewrite (delete_Permutation l i t Hi). simpl. by rewrite P.
    + intros k x Hk. destruct (decide (k = i)) as [->|Hne]; [left; rewrite Hi in Hk; injection Hk as ->; by left|].
      assert (delete i l !! (if decide (k < i)%nat then k else (k - 1)%nat) = Some x) as Hk'.
      { case_decide; [by rewrite list_lookup_delete_lt by lia|].
        rewrite list_lookup_delete_ge by lia. by replace (S (k - 1)) with k by lia. }
      destruct (Q _ _ Hk') as [|(k' & Hle & Hr)]; [left; by right|right]. exists k'. split; [|done].
      case_decide; lia.
    + by constructor.
Qed.

Lemma take_user_tasks_spec n s :
  match take_user_tasks n s with
  | (None, s') => s' = s
  | (Some ts, s') => ∃ rest, s' = mkSched (curr s) rest (terminate s) (sleep s) ∧ took (ready s) ts rest
  end.
Proof.
  unfold take_user_tasks. destruct (_ <? n); [done|].
  destruct (user_indices_spec (Z.to_nat n) (ready s) 0 (ready s) []) as [H1 H2]; [done|constructor|constructor|].
  destruct (pop_all_spec (rev (user_indices (Z.to_nat n) 0 (ready s) [])) (ready s) []) as (ts & rest & -> & T);
    [by apply StronglySorted_rev| |].
  { rewrite Forall_forall in *. intros i Hi. apply H2. by apply list_elem_of_In, in_rev, list_elem_of_In. }
  by exists rest.
Qed.

(** ** The system *)

(** Where the idle task of a processor is in its loop: before it locks its own
    scheduler, looking for the busiest processor, about to lock that one, and
    with the tasks it took in its hands. *)
Inductive IdlePC :=
| ITop
| IScan (task_count : Z)
| ISteal (task_count : Z) (busiest : nat)
| IPut (tasks : list Task).

Record Sys := mkSys { cpus : list CPU; pcs : list IdlePC }.

(** What the idle task does to a scheduler under each of its locks. *)
Definition idle_take_count (busy_count own_count : Z) : Z := saturating_sub busy_count own_count / 2.

Definition idle_take (own_count : Z) (busy : CPU) : option (list Task) * CPU :=
  let take_count := idle_take_count (user_count busy) own_count in
  let '(tasks, s) := take_user_tasks take_count (sched busy) in
  (tasks, set_sched busy s).

Definition idle_put (tasks : list Task) : CPU → CPU :=
  on_sched (λ s, mkSched (curr s) (ready s ++ tasks) (terminate s) (sleep s)).

Section system.
Variable L4 : Z.

(** One step, with the tasks it adds to the system. *)
Inductive step : Sys → list Task → Sys → Prop :=
| step_tick i c clock old_sp r c' cs ps :
    cs !! i = Some c → sched_logic L4 clock old_sp c = (Ok r, c') →
    step (mkSys cs ps) [] (mkSys (<[i := c']> cs) ps)
| step_kill i c code cs ps :
    cs !! i = Some c → is_user (curr (sched c)) = true →
    step (mkSys cs ps) [] (mkSys (<[i := kill_active_task code c]> cs) ps)
| step_add me counts c t cs ps :
    length counts = length cs → cs !! add_task_target counts me = Some c → state t = Ready →
    step (mkSys cs ps) [t]
      (mkSys (<[add_task_target counts me := on_sched (λ s, sched_add_task s t) c]> cs) ps)
| step_idle_top i c cs ps :
    cs !! i = Some c → ps !! i = Some ITop →
    step (mkSys cs ps) []
      (mkSys (<[i := clear_terminate c]> cs) (<[i := IScan (user_count (clear_terminate c))]> ps))
| step_idle_scan i own counts cs ps :
    ps !! i = Some (IScan own) → length counts = length cs →
    step (mkSys cs ps) []
      (mkSys cs (<[i := match busiest_queue counts with
                        | Some (b, n) => if Nat.eqb b i || (n <? 2) then ITop else ISteal own b
                        | None => ITop
                        end]> ps))
| step_idle_steal i own b c cs ps :
    ps !! i = Some (ISteal own b) → cs !! b = Some c →
    step (mkSys cs ps) []
      (mkSys (<[b := (idle_take own c).2]> cs)
        (<[i := match (idle_take own c).1 with Some ts => IPut ts | None => ITop end]> ps))
| step_idle_put i c ts cs ps :
    ps !! i = Some (IPut ts) → cs !! i = Some c →
    step (mkSys cs ps) [] (mkSys (<[i := idle_put ts c]> cs) (<[i := ITop]> ps)).

Inductive steps : Sys → list Task → Sys → Prop :=
| steps_refl s : steps s [] s
| steps_cons s1 t1 s2 t2 s3 : step s1 t1 s2 → steps s2 t2 s3 → steps s1 (t1 ++ t2) s3.
End system.

(** ** No task is lost *)

Definition ids (l : list Task) : list Z := id <$> l.

Definition cpu_ids (c : CPU) : list Z :=
  let s := sched c in
  ids [curr s] ++ ids (ready s) ++ ids (terminate s) ++ ids (sleep s) ++ ids (dropped c).

Definition pc_ids (p : IdlePC) : list Z := match p with IPut ts => ids ts | _ => [] end.

Definition sys_ids (s : Sys) : list Z := concat (cpu_ids <$> cpus s) ++ concat (pc_ids <$> pcs s).

(** Permutations are shown by counting. *)
Abbreviation cnt l x := (count_occ Z.eq_dec l x).

Lemma perm_cnt (l l' : list Z) : l ≡ₚ l' ↔ ∀ x, cnt l x = cnt l' x.
Proof. apply Permutation_count_occ. Qed.

Lemma ids_app l l' : ids (l ++ l') = ids l ++ ids l'.
Proof. apply fmap_app. Qed.

Ltac drop_nil := repeat match goal with
  | |- context [count_occ Z.eq_dec (ids []) ?x] => change (count_occ Z.eq_dec (ids []) x) with 0%nat
  | H : context [count_occ Z.eq_dec (ids []) ?x] |- _ => change (count_occ Z.eq_dec (ids []) x) with 0%nat in H
  end.

Ltac count_ids :=
  apply perm_cnt; intros x; rewrite ?ids_app, ?count_occ_app;
  repeat match goal with H : _ ≡ₚ _ |- _ =>
    let H' := fresh in pose proof (proj1 (perm_cnt _ _) H x) as H'; rewrite ?ids_app, ?count_occ_app in H'; clear H end.

Lemma ids_perm l l' : l ≡ₚ l' → ids l ≡ₚ ids l'.
Proof. apply fmap_Permutation. Qed.

Lemma concat_insert (l : list (list Z)) i old new :
  l !! i = Some old → concat (<[i := new]> l) ++ old ≡ₚ concat l ++ new.
Proof.
  revert i. induction l as [|a l IH]; intros [|i] Hi; cbn in Hi; simplify_eq; apply perm_cnt; intros x.
  - change (<[0%nat := new]> (old :: l)) with (new :: l). cbn [concat]. rewrite !count_occ_app. lia.
  - change (<[S i := new]> (a :: l)) with (a :: <[i := new]> l). cbn [concat].
    pose proof (proj1 (perm_cnt _ _) (IH i Hi) x) as P. rewrite !count_occ_app in *. lia.
Qed.

Lemma woken_ids clock i l : ids (woken clock i l) ++ ids (asleep clock i l) ≡ₚ ids l.
Proof.
  revert i. induction l as [|t l IH]; intros i; [done|]. cbn [woken asleep].
  specialize (IH (S i)). change (ids (t :: l)) with (ids [t] ++ ids l).
  destruct (wakes clock i t); count_ids; [change (ids [with_state t Ready]) with (ids [t])|]; drop_nil; lia.
Qed.

(** The invariant: the idle task runs or is ready, a running kernel task is
    ready, and so are the tasks in the queue. *)
Definition cpu_ok (c : CPU) : Prop :=
  let s := sched c in
  Exists (λ t, id t = id (idle c) ∧ is_user t = false) (curr s :: ready s) ∧
  (state (curr s) = Ready ∨ is_user (curr s) = true) ∧
  Forall (λ t, state t = Ready) (ready s).

Definition pc_ok (p : IdlePC) : Prop :=
  match p with IPut ts => Forall (λ t, state t = Ready) ts | _ => True end.

Definition sys_ok (s : Sys) : Prop := Forall cpu_ok (cpus s) ∧ Forall pc_ok (pcs s).

Lemma woken_ready clock i l : Forall (λ t, state t = Ready) (woken clock i l).
Proof.
  revert i. induction l as [|t l IH]; intros i; [constructor|]. cbn [woken]. apply Forall_app_2; [done|].
  destruct (wakes clock i t); repeat constructor.
Qed.

Section conservation.
Variable L4 : Z.

Lemma tick_ok clock old_sp c :
  cpu_ok c → ∃ r c', sched_logic L4 clock old_sp c = (Ok r, c') ∧ cpu_ok c' ∧ cpu_ids c' ≡ₚ cpu_ids c ∧
    match ready (sched c) with [] => True | t :: _ => curr (sched c') = t end.
Proof.
  intros (Hidle & Hcur & Hrdy). pose proof (woken_ids clock 0 (sleep (sched c))) as Pw.
  pose proof (woken_ready clock 0 (sleep (sched c))) as Hw.
  destruct (ready (sched c) ++ woken clock 0 (sleep (sched c))) as [|t rdy] eqn:E.
  - apply app_eq_nil in E as [E1 E2]. rewrite E1 in *.
    apply Exists_cons in Hidle as [[Hid Hk]|Hn%Exists_nil]; [|done].
    destruct Hcur as [Hcur|Hcur]; [|congruence].
    eexists _, _. split; [apply sched_logic_stay; [by rewrite E1, E2|done]|].
    rewrite E2 in Pw. cbn [set_sched sched]. split_and!; [..|done].
    + split_and!; [by apply Exists_cons; left|by left|constructor].
    + unfold cpu_ids. cbn [set_sched sched curr ready terminate sleep dropped]. rewrite E1.
      change (ids [with_sp _ _]) with (ids [curr (sched c)]). count_ids. drop_nil. lia.
  - eexists _, _. split; [by apply sched_logic_switch|].
    assert (Forall (λ t, state t = Ready) (t :: rdy)) as Hall by (rewrite <- E; by apply Forall_app_2).
    inversion Hall as [|? ? Ht Hrdy']; subst.
    assert (ids [t] ++ ids rdy = ids (ready (sched c)) ++ ids (woken clock 0 (sleep (sched c)))) as Eids
      by (rewrite <- !ids_app; f_equal; symmetry; exact E).
    split_and!.
    + assert (Exists (λ t, id t = id (idle c) ∧ is_user t = false) (curr (sched c) :: t :: rdy)) as Hex.
      { rewrite <- E. rewrite Exists_cons, Exists_app in *. tauto. }
      unfold cpu_ok, switched. cbn [sched idle]. rewrite !Exists_cons in Hex.
      destruct (state (with_sp (curr (sched c)) old_sp)) eqn:Es; cbn [curr ready];
        (split_and!; [|by left|]); rewrite ?Exists_cons, ?Exists_app, ?Exists_cons, ?Forall_app;
        cbn [with_sp state] in Es; try done.
      * cbn [with_sp id is_user type_]. tauto.
      * split; [done|]. repeat constructor. done.
      * destruct Hex as [[_ Hk]|]; [|tauto]. destruct Hcur; congruence.
      * destruct Hex as [[_ Hk]|]; [|tauto]. destruct Hcur; congruence.
    + apply perm_cnt. intros x. pose proof (proj1 (perm_cnt _ _) Pw x) as Px.
      assert (cnt (ids [t] ++ ids rdy) x = cnt (ids (ready (sched c)) ++ ids (woken clock 0 (sleep (sched c)))) x)
        as Ex by by rewrite Eids.
      unfold cpu_ids, switched. cbn [sched dropped].
      change (ids [curr (sched c)]) with (ids [with_sp (curr (sched c)) old_sp]).
      destruct (state _); cbn [curr ready terminate sleep]; rewrite ?ids_app, ?count_occ_app in *;
        drop_nil; lia.
    + destruct (ready (sched c)) as [|t' r']; [done|]. injection E as -> _. unfold switched. cbn [sched].
      by destruct (state _).
Qed.

Lemma kill_ok code c : cpu_ok c → is_user (curr (sched c)) = true → cpu_ok (kill_active_task code c).
Proof. intros (H1 & H2 & H3) Hu. split_and!; [|by right|done]. rewrite !Exists_cons in *. exact H1. Qed.

Lemma extend_ok c ts :
  cpu_ok c → Forall (λ t, state t = Ready) ts → cpu_ok (idle_put ts c) ∧ cpu_ids (idle_put ts c) ≡ₚ ids ts ++ cpu_ids c.
Proof.
  intros (H1 & H2 & H3) Hts. split; [|unfold cpu_ids, idle_put; cbn [on_sched set_sched sched curr ready terminate sleep dropped]; count_ids; lia].
  split_and!; [|done|by apply Forall_app_2]. cbn. rewrite Exists_cons, Exists_app in *. tauto.
Qed.

Lemma clear_terminate_ok c : cpu_ok c → cpu_ok (clear_terminate c) ∧ cpu_ids (clear_terminate c) ≡ₚ cpu_ids c.
Proof.
  intros H. split; [exact H|]. unfold cpu_ids, clear_terminate. cbn [sched curr ready terminate sleep dropped].
  count_ids. drop_nil. lia.
Qed.

Lemma take_ok own c :
  cpu_ok c → cpu_ok (idle_take own c).2 ∧ pc_ok match (idle_take own c).1 with Some ts => IPut ts | None => ITop end ∧
    cpu_ids (idle_take own c).2 ++ pc_ids (match (idle_take own c).1 with Some ts => IPut ts | None => ITop end) ≡ₚ cpu_ids c.
Proof.
  intros (H1 & H2 & H3). unfold idle_take.
  pose proof (take_user_tasks_spec (idle_take_count (user_count c) own) (sched c)) as Ht.
  destruct (take_user_tasks _ _) as [[ts|] s]; cbn [fst snd].
  - destruct Ht as (rest & -> & P & S & F).
    assert (Forall (λ t, state t = Ready) (ts ++ rest)) as [F1 F2]%Forall_app by by rewrite <- P.
    split_and!; [split_and!|done|].
    + rewrite Exists_exists in *. destruct H1 as (t & Ht & Hid & Hu). exists t. split; [|done].
      cbn. apply elem_of_cons in Ht as [->|Ht]; [by left|right]. rewrite P in Ht.
      apply elem_of_app in Ht as [Ht|]; [|done]. rewrite Forall_forall in F. apply F in Ht. congruence.
    + done.
    + done.
    + unfold cpu_ids. cbn [set_sched sched curr ready terminate sleep dropped pc_ids].
      apply ids_perm in P. count_ids. lia.
  - subst. destruct c. cbn. rewrite app_nil_r. split_and!; done.
Qed.

(** One processor and one idle task change. *)
Lemma sys_update cs ps i j c c' p p' new :
  cs !! i = Some c → ps !! j = Some p → cpu_ids c' ++ pc_ids p' ≡ₚ new ++ cpu_ids c ++ pc_ids p →
  sys_ids (mkSys (<[i := c']> cs) (<[j := p']> ps)) ≡ₚ new ++ sys_ids (mkSys cs ps).
Proof.
  intros Hc Hp P. unfold sys_ids. cbn [cpus pcs]. rewrite !list_fmap_insert.
  pose proof (concat_insert (cpu_ids <$> cs) i (cpu_ids c) (cpu_ids c')
    ltac:(by rewrite list_lookup_fmap, Hc)) as P1.
  pose proof (concat_insert (pc_ids <$> ps) j (pc_ids p) (pc_ids p') ltac:(by rewrite list_lookup_fmap, Hp)) as P2.
  count_ids. lia.
Qed.

Lemma sys_update_cpu cs ps i c c' new :
  cs !! i = Some c → cpu_ids c' ≡ₚ new ++ cpu_ids c →
  sys_ids (mkSys (<[i := c']> cs) ps) ≡ₚ new ++ sys_ids (mkSys cs ps).
Proof.
  intros Hc P. unfold sys_ids. cbn [cpus pcs]. rewrite list_fmap_insert.
  pose proof (concat_insert (cpu_ids <$> cs) i (cpu_ids c) (cpu_ids c')
    ltac:(by rewrite list_lookup_fmap, Hc)) as P1.
  count_ids. lia.
Qed.

Lemma sys_update_pc cs ps i p p' :
  ps !! i = Some p → pc_ids p' = pc_ids p → sys_ids (mkSys cs (<[i := p']> ps)) = sys_ids (mkSys cs ps).
Proof.
  intros Hp E. unfold sys_ids. cbn [cpus pcs]. rewrite list_fmap_insert, E. do 2 f_equal.
  apply list_insert_id. by rewrite list_lookup_fmap, Hp.
Qed.

Lemma step_ok s new s' :
  sys_ok s → step L4 s new s' → sys_ok s' ∧ sys_ids s' ≡ₚ ids new ++ sys_ids s.
Proof.
  intros [Hc Hp]. destruct 1 as [i c clock old_sp r c' cs ps E Et|i c code cs ps E Eu|me counts c t cs ps El E Et
    |i c cs ps E Ep|i own counts cs ps Ep El|i own b c cs ps Ep E|i c ts cs ps Ep E]; cbn [cpus pcs] in *;
    try (pose proof (Forall_lookup_1 _ _ _ _ Hc E) as Hok);
    try (pose proof (Forall_lookup_1 _ _ _ _ Hp Ep) as Hpk).
  - destruct (tick_ok clock old_sp c Hok) as (r' & c'' & E' & Hok' & P & _). rewrite Et in E'. injection E' as <- <-.
    split; [split; [by apply Forall_insert|done]|]. by eapply sys_update_cpu.
  - split; [split; [by apply Forall_insert, kill_ok|done]|]. by apply (sys_update_cpu cs ps i c _ []).
  - destruct (extend_ok c [t] Hok) as [Hok' P]; [by repeat constructor|].
    split; [split; [by apply Forall_insert|done]|]. by eapply sys_update_cpu.
  - destruct (clear_terminate_ok c Hok) as [Hok' P]. split; [split; [by apply Forall_insert|by apply Forall_insert]|].
    apply (sys_update cs ps i i c _ ITop _ [] E Ep). simpl. by rewrite !app_nil_r.
  - assert (pc_ok match busiest_queue counts with
      | Some (b, n) => if Nat.eqb b i || (n <? 2) then ITop else ISteal own b | None => ITop end ∧
      pc_ids match busiest_queue counts with
      | Some (b, n) => if Nat.eqb b i || (n <? 2) then ITop else ISteal own b | None => ITop end = []) as [K1 K2]
      by (destruct (busiest_queue counts) as [[b n]|]; [destruct (_ || _)|]; done).
    split; [split; [done|by apply Forall_insert]|]. by rewrite (sys_update_pc cs ps i (IScan own)).
  - destruct (take_ok own c Hok) as (Hok' & Hpk' & P). split; [split; by apply Forall_insert|].
    apply (sys_update cs ps b i c _ (ISteal own b) _ [] E Ep). rewrite P. by rewrite app_nil_r.
  - destruct (extend_ok c ts Hok Hpk) as [Hok' P]. split; [split; by apply Forall_insert|].
    apply (sys_update cs ps i i c _ (IPut ts) _ [] E Ep). rewrite P.
    change (pc_ids ITop) with (@nil Z). change (pc_ids (IPut ts)) with (ids ts). rewrite app_nil_r.
    etransitivity; [apply Permutation_app_comm|done].
Qed.

(** C27. No task is lost or duplicated: through any interleaving of timer ticks,
    faults, new tasks and balancing on any number of processors, the tasks that
    run, wait, are queued, ended or held by a balancing idle task are exactly the
    initial ones and the added ones; on every processor the idle task stays
    runnable, so that the scheduler never falls back to a copy of it. *)
Theorem tasks_conserved s new s' :
  sys_ok s → steps L4 s new s' → sys_ok s' ∧ sys_ids s' ≡ₚ ids new ++ sys_ids s.
Proof.
  intros Hs. induction 1 as [s|s1 t1 s2 t2 s3 H1 _ IH]; [done|].
  destruct (step_ok _ _ _ Hs H1) as [Hs2 P1]. destruct (IH Hs2) as [Hs3 P2]. split; [done|].
  rewrite P2, P1, ids_app. rewrite app_assoc. f_equiv. apply Permutation_app_comm.
Qed.
End conservation.

(** ** Every ready task runs *)

(** What can happen to one scheduler, from its own processor or from others. *)
Inductive Op :=
| OTick (clock : nat → Z) (old_sp : Z)
| OKill (code : Z)
| OExtend (ts : list Task)
| OClear
| OTake (count : Z).

Section liveness.
Variable L4 : Z.

Definition apply_op (o : Op) (c : CPU) : CPU :=
  match o with
  | OTick clock old_sp => (sched_logic L4 clock old_sp c).2
  | OKill code => kill_active_task code c
  | OExtend ts => idle_put ts c
  | OClear => clear_terminate c
  | OTake n => set_sched c (take_user_tasks n (sched c)).2
  end.

Definition taken (o : Op) (c : CPU) : list Task :=
  match o with OTake n => default [] (take_user_tasks n (sched c)).1 | _ => [] end.

Definition is_tick (o : Op) : bool := match o with OTick _ _ => true | _ => false end.

Fixpoint ticks (ops : list Op) : nat :=
  match ops with
  | [] => 0
  | o :: ops => if is_tick o then S (ticks ops) else ticks ops
  end.

(** At some point [t] runs, or another processor takes it over. *)
Fixpoint served (t : Task) (ops : list Op) (c : CPU) : Prop :=
  match ops with
  | [] => False
  | o :: ops => curr (sched (apply_op o c)) = t ∨ t ∈ taken o c ∨ served t ops (apply_op o c)
  end.

Lemma tick_advances clock old_sp c k t :
  ready (sched c) !! k = Some t →
  let c' := apply_op (OTick clock old_sp) c in
  match k with
  | O => curr (sched c') = t
  | S k => ready (sched c') !! k = Some t
  end.
Proof.
  intros Hk. destruct (ready (sched c)) as [|t0 r] eqn:E; [done|].
  cbn [apply_op]. rewrite (sched_logic_switch L4 clock old_sp c t0 (r ++ woken clock 0 (sleep (sched c)))) by by rewrite E.
  cbn [snd]. unfold switched. cbn [sched]. destruct k as [|k]; [injection Hk as ->; by destruct (state _)|].
  cbn in Hk. assert (k < length r)%nat by (by eapply lookup_lt_Some).
  destruct (state _); cbn [ready]; rewrite ?lookup_app_l by (rewrite ?length_app; lia); done.
Qed.

Lemma other_keeps o c k t :
  is_tick o = false →
  ready (sched c) !! k = Some t → t ∈ taken o c ∨ ∃ k', (k' <= k)%nat ∧ ready (sched (apply_op o c)) !! k' = Some t.
Proof.
  intros Ho Hk. destruct o as [| | | |n]; [done|right; by exists k| |right; by exists k|]; cbn [taken apply_op].
  - right. exists k. split; [done|]. cbn. by apply lookup_app_l_Some.
  - pose proof (take_user_tasks_spec n (sched c)) as Ht.
    destruct (take_user_tasks n (sched c)) as [[ts|] s]; cbn [fst snd default set_sched sched].
    + destruct Ht as (rest & -> & _ & Hpos & _). cbn [ready]. by apply Hpos.
    + subst. right. by exists k.
Qed.

(** C29. Round robin: a task at position [k] of the ready queue runs within [k + 1]
    timer ticks of its processor, whatever else happens in between (new tasks,
    faults, sleepers that wake), unless another processor takes it over. *)
Theorem ready_task_runs (k : nat) (t : Task) (ops : list Op) (c : CPU) :
  ready (sched c) !! k = Some t → (k < ticks ops)%nat → served t ops c.
Proof.
  revert k c. induction ops as [|o ops IH]; intros k c Hk Ht; [simpl in Ht; lia|].
  cbn [served]. cbn [ticks] in Ht. destruct (is_tick o) eqn:Ho.
  - destruct o as [clock old_sp| | | |]; try done. pose proof (tick_advances clock old_sp c k t Hk) as Ha.
    destruct k as [|k]; [by left|]. right; right. eapply IH; [exact Ha|lia].
  - destruct (other_keeps o c k t Ho Hk) as [|(k' & Hle & Hk')]; [by right; left|].
    right; right. eapply IH; [exact Hk'|lia].
Qed.
End liveness.
End Scheduler.
