(* ===== verification/Context.v ===== *)
(** * Task contexts (src/kernel/src/scheduling/task.rs, mod.rs)

    What the timer handler saves on a stack and what it restores from one, the
    stacks [write_stack] prepares, and the making of tasks up to the first
    return to user space. *)

From S2P Require Import Prelude Errors RangeAllocator Pages Names Virt PageTables Elf Helpers Scheduler.
Import Errors Pages Names Virt PageTables Elf Helpers Scheduler.

Module Context.

(** ** The timer handler *)

(** The general registers in the order the handler pushes them (rax, rbx, rcx,
    rdx, rsi, rdi, rbp, r8 to r15) and the frame of the interrupt. *)
Record Context := mkContext {
  gprs : list Z; rip : Z; cs : Z; rflags : Z; rsp : Z; ss : Z
}.

(** A stack of 8-byte cells: the stack pointer and the memory. *)
Definition Stack_ : Type := Z * (Z → Z).

Definition push (v : Z) (s : Stack_) : Stack_ :=
  let sp := s.1 - 8 in (sp, λ a, if a =? sp then v else s.2 a).

Fixpoint push_all (vs : list Z) (s : Stack_) : Stack_ :=
  match vs with [] => s | v :: vs => push_all vs (push v s) end.

(** The processor aligns the stack and pushes its frame; the handler pushes the
    registers. *)
Definition save (c : Context) (s : Stack_) : Stack_ :=
  let s := (Z.land s.1 (-16), s.2) in
  push_all (gprs c) (push_all [ss c; rsp c; rflags c; cs c; rip c] s).

(** The pops, from r15 to rax: [n] of them give the registers in push order. *)
Fixpoint pops (n : nat) (mem : Z → Z) (sp : Z) (regs : list Z) : list Z :=
  match n with
  | O => regs
  | S n => pops n mem (sp + 8) (mem sp :: regs)
  end.

Definition restore (mem : Z → Z) (sp : Z) : Context :=
  let regs := pops 15 mem sp [] in
  let sp := sp + 15 * 8 in
  mkContext regs (mem sp) (mem (sp + 8)) (mem (sp + 16)) (mem (sp + 24)) (mem (sp + 32)).

(** The handler around the scheduler's choice of a stack. *)
Definition timer_handler (sched : Z → Z) (c : Context) (s : Stack_) : Context :=
  let '(sp, mem) := save c s in restore mem (sched sp).

(** ** New stacks *)

(** [let _ = stack.write_data(sp, v)] *)
Definition put64 (sp v : Z) (p : PhysPage) : PhysPage :=
  match write_data 8 p sp (le_bytes 8 v) with Ok p' => p' | _ => p end.

Definition write_stack (stack : PhysPage) (entry rsp cs ds : Z) : Z * PhysPage :=
  let sp := count stack ⊠ PAGE_SIZE in
  let sp := sp ⊟ 8 in
  let stack := put64 sp ds stack in
  let sp := sp ⊟ 8 in
  let stack := put64 sp rsp stack in
  let sp := sp ⊟ 8 in
  let stack := put64 sp 0x202 stack in
  let sp := sp ⊟ 8 in
  let stack := put64 sp cs stack in
  let sp := sp ⊟ 8 in
  let stack := put64 sp entry stack in
  (sp ⊟ 8 * 15, stack).

(** The memory of a stack at address [base], as cells. *)
Definition cells (base : Z) (p : PhysPage) (a : Z) : Z :=
  le_val (slice (Z.to_nat (a - base)) 8 (bytes p)).

(** ** Making tasks *)

Definition USER_STACK_PAGES : Z := 16.
Definition USER_STACK_TOP : Z := 0x7FFFFFFFF000.

(** [Task::manual] and [Task::new_kernel], given the id, the address of the stack
    and the selectors. *)
Definition new_kernel (nid entry base : Z) (stack : PhysPage) (cs ds : Z) : Task * PhysPage :=
  let rsp := base ⊞ (count stack ⊠ PAGE_SIZE) in
  let '(sp, stack) := write_stack stack entry rsp cs ds in
  (mkTask nid TKernel Ready base [] entry (sp ⊞ base), stack).

Section user.
Context {W : Type} {AD : Addresses} {MP : Mapper W} {MC : Machine W}.
Variables (hhdm user_code user_data : Z).

(** The virtual address of a run of pages. *)
Definition address (f : Frame) : Z := phys f ⊞ hhdm.

Definition stack_new : M W MemoryError Frame := phys_page_new 5.
Definition stack_top (f : Frame) : Z := address f ⊞ (count (page f) ⊠ PAGE_SIZE).

Definition new_user (nid entry rsp : Z) (stack : Frame) (l4 pid : Z) : M W MemoryError (Task * PhysPage) :=
  let '(sp, p) := write_stack (page stack) entry rsp user_code user_data in
  let sp := sp ⊞ address stack in
  sys ← stack_new;
  priv ← stack_new;
  mret (mkTask nid (TUser l4 (stack_top sys) (stack_top priv) pid) Ready (address stack) [] entry sp, p).

Definition from_binary (nid : Z) (bin : LoadedBinary) (parent_id : Z) :
    M W MemoryError (Task * PhysPage * Ranges.RangeAllocator) :=
  kstack ← stack_new;
  ustack ← phys_page_new USER_STACK_PAGES;
  let size := USER_STACK_PAGES ⊠ PAGE_SIZE in
  start ← opt_panic (virt_sub USER_STACK_TOP size);
  r ← with_ranges (ranges bin) (map_fixed (mkRegion start size) (phys ustack)
        (Z.lor (Z.lor WRITABLE NO_EXECUTE) USER_ACCESSIBLE));
  t ← new_user nid (Elf.entry bin) USER_STACK_TOP kstack (phys (l4_page bin)) parent_id;
  let '(task, p) := t in
  mret (mkTask (id task) (type_ task) (state task) (Scheduler.stack task)
          (pages task ++ (phys <$> loaded bin) ++ [phys ustack]) (Scheduler.entry task) (sp task),
        p, r.2).
End user.

(** ** Properties *)

Lemma push_all_spec vs s :
  let '(sp, mem) := push_all vs s in
  sp = s.1 - 8 * Z.of_nat (length vs) ∧
  (∀ i v, vs !! i = Some v → mem (s.1 - 8 * (Z.of_nat i + 1)) = v) ∧
  ∀ a, s.1 <= a → mem a = s.2 a.
Proof.
  revert s. induction vs as [|v vs IH]; intros s; cbn [push_all].
  { destruct s as [sp mem]. cbn. split_and!; [lia|done..]. }
  specialize (IH (push v s)). destruct (push_all vs (push v s)) as [sp mem]. destruct IH as (H1 & H2 & H3).
  cbn [push fst snd] in *. split_and!.
  - cbn [length]. lia.
  - intros [|i] x Hx; cbn in Hx.
    + injection Hx as ->. rewrite H3 by lia. replace (s.1 - 8 * (Z.of_nat 0 + 1)) with (s.1 - 8) by lia.
      by rewrite Z.eqb_refl.
    + apply H2 in Hx. rewrite <- Hx. f_equal. lia.
  - intros a Ha. rewrite H3 by lia. destruct (a =? s.1 - 8) eqn:E; zb; [lia|done].
Qed.

Lemma pops_spec n mem sp acc :
  pops n mem sp acc = rev ((λ i, mem (sp + 8 * Z.of_nat i)) <$> seq 0 n) ++ acc.
Proof.
  revert sp acc. induction n as [|n IH]; intros sp acc; [done|]. cbn [pops].
  rewrite IH. cbn [seq fmap list_fmap rev]. rewrite <- app_assoc. f_equal.
  - f_equal. rewrite <- fmap_S_seq, <- list_fmap_compose. apply list_fmap_ext. intros i x _. unfold compose. f_equal. lia.
  - cbn. do 2 f_equal. lia.
Qed.

(** A context that the timer handler saved is restored unchanged: when the
    scheduler later returns the stack pointer it was given, all registers, the
    instruction pointer, the flags and the stack are as they were, whatever the
    alignment of the interrupted stack. *)
Theorem context_roundtrip (c : Context) (s : Stack_) :
  length (gprs c) = 15%nat →
  timer_handler (λ sp, sp) c s = c ∧
  (save c s).1 = Z.land s.1 (-16) - 160.
Proof.
  intros Hlen. unfold timer_handler, save. set (s0 := (Z.land s.1 (-16), s.2)).
  pose proof (push_all_spec [ss c; rsp c; rflags c; cs c; rip c] s0) as H1.
  destruct (push_all _ s0) as [sp1 mem1] eqn:E1. destruct H1 as (Hsp1 & Hf & _).
  pose proof (push_all_spec (gprs c) (sp1, mem1)) as H2.
  destruct (push_all (gprs c) (sp1, mem1)) as [sp2 mem2]. destruct H2 as (Hsp2 & Hg & Hold).
  rewrite Hlen in Hsp2. cbn [fst snd length] in *. set (b := s0.1) in *.
  split; [|unfold b, s0 in *; cbn in *; lia].
  assert (∀ i v, [ss c; rsp c; rflags c; cs c; rip c] !! i = Some v → mem2 (b - 8 * (Z.of_nat i + 1)) = v) as Hf'.
  { intros i v Hi. rewrite Hold; [by apply Hf|]. apply lookup_lt_Some in Hi. cbn in Hi. lia. }
  unfold restore. rewrite pops_spec, app_nil_r. destruct c as [g ip cs_ fl sp_ ss_]. cbn [gprs rip cs rflags rsp ss] in *.
  f_equal; [|rewrite <- (Hf' 4%nat ip eq_refl)|rewrite <- (Hf' 3%nat cs_ eq_refl)|rewrite <- (Hf' 2%nat fl eq_refl)
    |rewrite <- (Hf' 1%nat sp_ eq_refl)|rewrite <- (Hf' 0%nat ss_ eq_refl)]; [|f_equal; lia..].
  apply list_eq_lookup_lt; [by rewrite length_rev, length_fmap, length_seq|].
  intros i Hi. rewrite length_rev, length_fmap, length_seq in Hi.
  destruct (g !! i) as [v|] eqn:Ev; [|apply lookup_ge_None in Ev; lia].
  rewrite rev_alt. change (rev_append ?l []) with (reverse l).
  rewrite reverse_lookup by (rewrite length_fmap, length_seq; done).
  rewrite list_lookup_fmap, length_fmap, length_seq, lookup_seq_lt by lia. cbn [fmap option_fmap option_map].
  rewrite <- (Hg i v Ev). do 2 f_equal. lia.
Qed.

(** ** The first context of a task *)

(** The 8-byte cell at offset [o]. *)
Definition cell (p : PhysPage) (o : Z) : Z := le_val (slice (Z.to_nat o) 8 (bytes p)).

Definition in_page (p : PhysPage) (o : Z) : Prop := 0 <= o ∧ (8 | o) ∧ o + 8 <= count p * PAGE_SIZE.

Lemma put64_spec off v p :
  page_ok p → count p < 2 ^ 40 → in_page p off → in_u64 v →
  page_ok (put64 off v p) ∧ count (put64 off v p) = count p ∧
  ∀ o, in_page p o → cell (put64 off v p) o = if o =? off then v else cell p o.
Proof.
  intros [Hc Hl] Hlt (H0 & Hd & Hle) Hv. unfold PAGE_SIZE in *.
  unfold put64, write_data, PAGE_SIZE. rewrite length_le_bytes. change (Z.of_nat 8) with 8.
  rewrite !u64_small by (unfold in_u64; lia). destruct (_ <? _) eqn:E; zb; [lia|].
  rewrite (proj2 (is_multiple_of_spec off 8 ltac:(lia)) Hd). cbn [negb].
  assert (Z.to_nat off + length (le_bytes 8 v) <= length (bytes p))%nat as Hfit
    by (rewrite length_le_bytes, Hl; lia).
  split; [split; [done|cbn [bytes]; rewrite length_splice; done]|]. split; [done|].
  intros o (Ho0 & Hod & Hole). unfold PAGE_SIZE in Hole. unfold cell. cbn [bytes]. destruct (o =? off) eqn:Eo; zb.
  - subst o. pose proof (slice_splice_same (Z.to_nat off) (le_bytes 8 v) (bytes p) Hfit) as Hs.
    rewrite length_le_bytes in Hs. rewrite Hs. by apply le_val_bytes.
  - rewrite slice_splice_disjoint; [done|done|rewrite Hl; lia|].
    rewrite length_le_bytes. destruct Hod as [a ->], Hd as [b ->]. lia.
Qed.

Lemma cells_cell base p o : cells base p (base + o) = cell p o.
Proof. unfold cells, cell. do 2 f_equal. lia. Qed.

Lemma cell_zero n o : in_page (zero_page n) o → cell (zero_page n) o = 0.
Proof.
  intros (H0 & _ & Hle). unfold cell. cbn [bytes zero_page count] in *. rewrite slice_replicate by lia. reflexivity.
Qed.

(** The cells below the top of a new stack. *)
Lemma write_stack_cells n en sp_ cs_ ds :
  1 <= n < 2 ^ 40 → in_u64 en → in_u64 sp_ → in_u64 cs_ → in_u64 ds →
  let '(sp, p) := write_stack (zero_page n) en sp_ cs_ ds in
  sp = n * 4096 - 160 ∧ count p = n ∧
  ∀ k, 1 <= k <= 20 → cell p (n * 4096 - 8 * k) =
    if k =? 5 then en else if k =? 4 then cs_ else if k =? 3 then 0x202 else if k =? 2 then sp_
    else if k =? 1 then ds else 0.
Proof.
  intros Hn He Hs Hcs Hds. unfold write_stack. cbn [count zero_page]. unfold PAGE_SIZE.
  rewrite (u64_small (n * 4096)) by (unfold in_u64; lia).
  rewrite !(u64_small (n * 4096 - 8)), !(u64_small (n * 4096 - 8 - 8)), !(u64_small (n * 4096 - 8 - 8 - 8)),
    !(u64_small (n * 4096 - 8 - 8 - 8 - 8)), !(u64_small (n * 4096 - 8 - 8 - 8 - 8 - 8)),
    u64_small by (unfold in_u64; lia).
  assert (∀ p k, count p = n → 1 <= k <= 20 → in_page p (n * 4096 - 8 * k)) as Hin.
  { intros p k Hp Hk. split_and!; [lia|exists (n * 512 - k); lia|rewrite Hp; unfold PAGE_SIZE; lia]. }
  pose proof (page_ok_zero n ltac:(lia)) as O0.
  replace (n * 4096 - 8 - 8 - 8 - 8 - 8) with (n * 4096 - 8 * 5) by lia.
  replace (n * 4096 - 8 - 8 - 8 - 8) with (n * 4096 - 8 * 4) by lia.
  replace (n * 4096 - 8 - 8 - 8) with (n * 4096 - 8 * 3) by lia.
  replace (n * 4096 - 8 - 8) with (n * 4096 - 8 * 2) by lia.
  replace (n * 4096 - 8) with (n * 4096 - 8 * 1) by lia.
  destruct (put64_spec (n * 4096 - 8 * 1) ds (zero_page n)) as (O1 & C1 & V1); [done|cbn; lia|by apply Hin|done|].
  set (p1 := put64 _ ds _) in *. cbn [zero_page count] in C1.
  destruct (put64_spec (n * 4096 - 8 * 2) sp_ p1) as (O2 & C2 & V2); [done|lia|by apply Hin|done|].
  set (p2 := put64 _ sp_ _) in *. rewrite C1 in C2.
  destruct (put64_spec (n * 4096 - 8 * 3) 0x202 p2) as (O3 & C3 & V3); [done|lia|by apply Hin|done|].
  set (p3 := put64 _ 0x202 _) in *. rewrite C2 in C3.
  destruct (put64_spec (n * 4096 - 8 * 4) cs_ p3) as (O4 & C4 & V4); [done|lia|by apply Hin|done|].
  set (p4 := put64 _ cs_ _) in *. rewrite C3 in C4.
  destruct (put64_spec (n * 4096 - 8 * 5) en p4) as (O5 & C5 & V5); [done|lia|by apply Hin|done|].
  set (p5 := put64 _ en _) in *. rewrite C4 in C5.
  split_and!; [lia|done|]. intros k Hk.
  assert (∀ j, (n * 4096 - 8 * k =? n * 4096 - 8 * j) = (k =? j)) as Hj
      by (intros j; destruct (Z.eqb_spec k j); [apply Z.eqb_eq|apply Z.eqb_neq]; lia).
  rewrite V5, V4, V3, V2, V1, !Hj, cell_zero by (by apply Hin). done.
Qed.

(** A new stack makes the handler start the task at its entry, with interrupts
    enabled and all other registers zero. *)
Lemma write_stack_spec n base en sp_ cs_ ds :
  1 <= n < 2 ^ 40 → in_u64 en → in_u64 sp_ → in_u64 cs_ → in_u64 ds →
  let '(sp, p) := write_stack (zero_page n) en sp_ cs_ ds in
  sp = n * 4096 - 160 ∧ count p = n ∧
  restore (cells base p) (base + sp) = mkContext (replicate 15 0) en cs_ 0x202 sp_ ds.
Proof.
  intros Hn He Hs Hcs Hds. pose proof (write_stack_cells n en sp_ cs_ ds Hn He Hs Hcs Hds) as H.
  destruct (write_stack _ _ _ _ _) as [sp p5]. destruct H as (-> & C5 & Hcell). split_and!; [done..|].
  unfold restore. rewrite pops_spec, app_nil_r.
  assert (∀ a k, 1 <= k <= 20 → a = base + (n * 4096 - 8 * k) → cells base p5 a = cell p5 (n * 4096 - 8 * k)) as Hc.
  { intros a k _ ->. apply cells_cell. }
  f_equal; [|erewrite (Hc _ 5), Hcell by lia; done|erewrite (Hc _ 4), Hcell by lia; done
    |erewrite (Hc _ 3), Hcell by lia; done|erewrite (Hc _ 2), Hcell by lia; done|erewrite (Hc _ 1), Hcell by lia; done].
  rewrite (list_fmap_ext _ (λ _, 0)) with (l := seq 0 15).
  { reflexivity. }
  intros i x Hx. apply lookup_seq in Hx as [-> Hx]. erewrite (Hc _ (20 - Z.of_nat i)), Hcell by lia.
  repeat (destruct (_ =? _) eqn:?; zb; [lia|]). done.
Qed.

(** ** From a file to the first instruction *)

Section start.
Context {W ParseError : Type} {AD : Addresses} {MP : Mapper W} {MC : Machine W}.
Context {AL : AddressLaws} {ML : MapperLaws W} {MCL : MachineLaws W}.
Variables (hhdm user_code user_data : Z).
Hypothesis hhdm_ok : 0 <= hhdm <= 2 ^ 64 - 2 ^ 47.
Hypothesis selectors_ok : in_u16 user_code ∧ in_u16 user_data.

Definition user_stack : VirtualRegion := mkRegion (USER_STACK_TOP - 0x10000) 0x10000.
Definition user_stack_flags : Z := Z.lor (Z.lor WRITABLE NO_EXECUTE) USER_ACCESSIBLE.

(** The user stack of a new task: writable, not executable. *)
Definition stack_mapped (w : W) (f : Z) : Prop :=
  ∀ v, rstart user_stack / 4096 <= v < USER_STACK_TOP / 4096 →
    translation w v = Some (f + (v - rstart user_stack / 4096) * 4096, Z.lor user_stack_flags PRESENT).

(** A task whose next return to user space is its first: it starts at [en]. *)
Definition starts_at (t : Task) (p : PhysPage) (en : Z) : Prop :=
  restore (cells (Scheduler.stack t) p) (sp t) =
    mkContext (replicate 15 0) en user_code 0x202 USER_STACK_TOP user_data.

Lemma new_user_wp nid en (stack : Frame) l4 pid (w : W) :
  in_u64 en → page stack = zero_page 5 → 0 <= phys stack → phys stack + 5 * 4096 < 2 ^ 46 →
  wp (new_user hhdm user_code user_data nid en USER_STACK_TOP stack l4 pid)
    (λ r w', starts_at r.1 r.2 en ∧ state r.1 = Ready ∧ is_user r.1 = true ∧ (∀ v, leaf w' v = leaf w v))
    (λ _ _, True) w.
Proof.
  intros He Hp H0 H1. unfold new_user. rewrite Hp. destruct selectors_ok as [Hc Hd].
  pose proof (write_stack_spec 5 (address hhdm stack) en USER_STACK_TOP user_code user_data ltac:(lia) He
    ltac:(done) ltac:(unfold in_u16, in_u64 in *; lia) ltac:(unfold in_u16, in_u64 in *; lia)) as Hws.
  destruct (write_stack _ _ _ _ _) as [sp_ p]. destruct Hws as (-> & _ & Hr).
  assert (address hhdm stack = phys stack + hhdm) as Ea by (apply u64_small; unfold in_u64; lia).
  apply wp_bind. eapply wp_mono; [by apply phys_page_law| |done]. intros sys w1 (_ & _ & _ & _ & L1).
  apply wp_bind. eapply wp_mono; [by apply phys_page_law| |done]. intros priv w2 (_ & _ & _ & _ & L2).
  apply wp_ret. split_and!; [|done|done|]; [|intros v; cbn [fst snd] in *; by rewrite L2, L1].
  unfold starts_at. cbn [fst snd Scheduler.stack sp]. rewrite <- Hr. f_equal.
  rewrite Ea, u64_small by (unfold in_u64; lia). lia.
Qed.

Lemma from_binary_wp nid (bin : LoadedBinary) pid (w : W) :
  Inv (mkVMem w (ranges bin)) → in_u64 (Elf.entry bin) →
  wp (from_binary hhdm user_code user_data nid bin pid)
    (λ r w', starts_at r.1.1 r.1.2 (Elf.entry bin) ∧ state r.1.1 = Ready ∧ is_user r.1.1 = true ∧
      (∃ f, stack_mapped w' f) ∧
      (∀ v x, translation w v = Some x → translation w' v = Some x))
    (λ _ _, True) w.
Proof.
  intros Hinv He. unfold from_binary, stack_new.
  apply wp_bind. eapply wp_mono; [by apply phys_page_law| |done]. intros ks w1 (Hk & _ & Hk0 & Hk1 & L1).
  apply wp_bind. eapply wp_mono; [by apply phys_page_law| |done]. intros us w2 (_ & Hua & Hu0 & Hu1 & L2).
  change (USER_STACK_PAGES ⊠ PAGE_SIZE) with 0x10000. unfold USER_STACK_PAGES in Hu1.
  apply wp_bind. eapply wp_opt_panic; [apply virt_sub_ok; [lia|unfold canonical, USER_STACK_TOP; lia]|].
  apply wp_bind, wp_with_ranges. eapply wp_mono.
  - apply (map_fixed_wp (mkVMem w2 (ranges bin)) user_stack (phys us) user_stack_flags); [|unfold region_ok; cbn; unfold USER_STACK_TOP; lia|done|lia|cbn; lia].
    eapply (Inv_ext (mkVMem w (ranges bin))); [done| |done]. intros v. cbn [page_table]. by rewrite L2, L1.
  - intros ? [w3 al3] [Hm _]. cbn [page_table allocator]. apply wp_bind.
    eapply wp_mono; [apply new_user_wp; [done|done|lia|lia]| |done].
    intros [t p] w4 (Hst & Hrdy & Hus & L4). apply wp_ret. cbn [fst snd] in *.
    assert (∀ v, translation w4 v = translation w3 v) as T4 by (intros v; unfold translation; by rewrite L4).
    split_and!; [done..| |].
    + exists (phys us). intros v Hv. rewrite T4. destruct Hm as (_ & _ & _ & _ & G). specialize (G v).
      rewrite decide_True in G by exact Hv. apply G.
    + intros v x Hx. rewrite T4. refine (translation_stays (mkVMem w2 (ranges bin)) _ _ _ _ v x Hm _).
      cbn [page_table]. unfold translation in *. by rewrite L2, L1.
  - done.
Qed.

Variable minimal_parse : list Z → res ParseError ElfBytes.
Hypothesis parse_returns : ∀ data,
  match minimal_parse data with
  | Ok elf => Forall phdr_ok (default [] (segments elf))
  | Err _ => True
  | _ => False
  end.

(** What [kmain] does with the path of the first program. *)
Definition spawn (nid pid : Z) (path : Str) : M W LoadError (LoadedBinary * (Task * PhysPage)) :=
  bin ← load minimal_parse path;
  r ← map_errM EMemory (from_binary hhdm user_code user_data nid bin pid);
  mret (bin, r.1).

(** C10. A program started from a file, whatever the file holds.  When loading and
    task creation succeed, the first return of the timer handler into the new task
    enters its code segment at the entry point of the file, in user mode with
    interrupts enabled, zero registers and the stack pointer at the top of a mapped,
    writable, not executable stack, and all segments of the file are still mapped
    as loaded.  Otherwise there is an error, or a panic if a segment of the file
    ends at the very end of user space. *)
Theorem program_starts nid pid path (w : W) :
  match spawn nid pid path w with
  | (Ok (bin, (t, p)), w') =>
      (∃ data w0, file_data (ParseError := ParseError) path w = Some data ∧ loaded_ok minimal_parse data bin w0 ∧
        ∀ v x, translation w0 v = Some x → translation w' v = Some x) ∧
      starts_at t p (Elf.entry bin) ∧ state t = Ready ∧ is_user t = true ∧ ∃ f, stack_mapped w' f
  | (Err _, _) => True
  | (Panic, _) => ∃ data, file_data (ParseError := ParseError) path w = Some data ∧ reaches_top minimal_parse data
  | (Loop, _) => False
  end.
Proof.
  enough (wpp (spawn nid pid path)
    (λ r w', let '(bin, (t, p)) := r in
      (∃ data w0, file_data (ParseError := ParseError) path w = Some data ∧ loaded_ok minimal_parse data bin w0 ∧
        ∀ v x, translation w0 v = Some x → translation w' v = Some x) ∧
      starts_at t p (Elf.entry bin) ∧ state t = Ready ∧ is_user t = true ∧ ∃ f, stack_mapped w' f)
    (λ _ _, True) (∃ data, file_data (ParseError := ParseError) path w = Some data ∧ reaches_top minimal_parse data) w) as H.
  { unfold wpp in H. by destruct (spawn nid pid path w) as [[[? []]| | |] ?]. }
  unfold spawn. apply wpp_bind.
  eapply wpp_mono; [apply (load_binary_wpp minimal_parse parse_returns path w)| |done|done].
  intros bin w0 ((data & Hd & Hl) & Hinv & He). apply wpp_bind, wpp_map_errM, wp_wpp.
  eapply wp_mono; [by apply from_binary_wp| |done].
  intros [[t p] al] w' (Hs & Hr & Hu & Hm & Ht). apply wpp_ret. cbn [fst snd] in *.
  split; [by exists data, w0|done].
Qed.
End start.

End Context.
