(* ===== verification/SchedExamples.v ===== *)
(** * Tasks on two processors

    The hypotheses of the theorems on scheduling hold for a system of two
    processors with one user task, and for the machine of [VirtExamples]. *)

From S2P Require Import Prelude Errors RangeAllocator Pages Names Virt PageTables Elf VirtExamples Helpers Scheduler Context.
Import Errors Pages Names Virt PageTables Elf VirtExamples Helpers Scheduler Context.

Module SchedExamples.

Definition idle_of (n : Z) : Task := mkTask n TKernel Ready 0 [] 0 0.
Definition user_task (n : Z) : Task := mkTask n (TUser 0x5000 0x6000 0x7000 0) Ready 0 [] 0 0.

Definition cpu_of (n : Z) (rdy : list Task) : CPU :=
  mkCPU (mkSched (idle_of n) rdy [] []) (idle_of n) 0 0 0 [].

Definition sys0 : Sys := mkSys [cpu_of 0 [user_task 5; user_task 6]; cpu_of 1 []] [ITop; ITop].

Lemma sys0_ok : sys_ok sys0.
Proof.
  split; repeat constructor; try done; apply Exists_cons; by left.
Qed.

(** A tick of the first processor. *)
Definition clock0 (i : nat) : Z := 0.
Definition ticked : CPU := (sched_logic 0x1000 clock0 0x99 (cpu_of 0 [user_task 5; user_task 6])).2.

Lemma tasks_conserved_witness :
  ∃ s', steps 0x1000 sys0 [] s' ∧ id (curr (sched ticked)) = 5 ∧ sys_ok s' ∧ sys_ids s' ≡ₚ sys_ids sys0.
Proof.
  exists (mkSys [ticked; cpu_of 1 []] [ITop; ITop]).
  assert (steps 0x1000 sys0 [] (mkSys [ticked; cpu_of 1 []] [ITop; ITop])) as H.
  { apply (steps_cons 0x1000 sys0 [] (mkSys [ticked; cpu_of 1 []] [ITop; ITop]) []); [|apply steps_refl].
    apply (step_tick 0x1000 0 (cpu_of 0 [user_task 5; user_task 6]) clock0 0x99 0 ticked); reflexivity. }
  split; [exact H|]. split; [reflexivity|].
  exact (tasks_conserved 0x1000 sys0 [] _ sys0_ok H).
Defined.

Lemma ready_task_runs_witness :
  served 0x1000 (user_task 6) [OTick clock0 0x99; OExtend [user_task 7]; OTick clock0 0x98]
    (cpu_of 0 [user_task 5; user_task 6]).
Proof. apply (ready_task_runs 0x1000 1); [reflexivity|vm_compute; lia]. Defined.

Lemma context_roundtrip_witness :
  timer_handler (λ sp, sp) (mkContext (replicate 15 3) 1 2 3 4 5) (0x2004, λ _, 0) =
    mkContext (replicate 15 3) 1 2 3 4 5 ∧
  (save (mkContext (replicate 15 3) 1 2 3 4 5) (0x2004, λ _, 0)).1 = Z.land 0x2004 (-16) - 160.
Proof. apply (context_roundtrip (mkContext (replicate 15 3) 1 2 3 4 5) (0x2004, λ _, 0)). reflexivity. Defined.

Abbreviation spawned := (spawn (ParseError := unit) 0xFFFF800000000000 0x1B 0x23 parse 7 0 [] mach0).

Lemma spawn_returns : match spawned with (Ok (_, (t, _)), _) => id t =? 7 | _ => false end = true.
Proof. vm_compute. reflexivity. Qed.

Lemma program_starts_witness :
  ∃ bin t p w', spawned = (Ok (bin, (t, p)), w') ∧
    (∃ data w0, file_data (ParseError := unit) [] mach0 = Some data ∧ loaded_ok parse data bin w0 ∧
      ∀ v x, translation w0 v = Some x → translation w' v = Some x) ∧
    starts_at 0x1B 0x23 t p (Elf.entry bin) ∧ state t = Ready ∧ is_user t = true ∧ ∃ f, stack_mapped w' f.
Proof.
  assert (0 <= 0xFFFF800000000000 <= 2 ^ 64 - 2 ^ 47) as Hh by lia.
  assert (in_u16 0x1B ∧ in_u16 0x23) as Hsel by (split; unfold in_u16; lia).
  pose proof spawn_returns as Hr.
  pose proof (program_starts 0xFFFF800000000000 0x1B 0x23 Hh Hsel parse parse_returns 7 0 [] mach0) as H.
  destruct spawned as [[[bin [t p]]| | |] w']; try discriminate Hr.
  exists bin, t, p, w'. split; [reflexivity|exact H].
Defined.

End SchedExamples.
