(* ===== verification/Hardware.v ===== *)
(** * The machine below the drivers (src/kernel/src/memory/wrappers.rs,
    src/kernel/src/memory/mod.rs and src/kernel/src/acpi/hpet.rs)

    Devices are reached through volatile accesses and share the physical memory
    with the processor, so both are operations on one state [W].  On top of them
    stand the windows of [MMIORegion], the page runs of [PhysPage], here with
    their place in memory, and the clock that every timeout reads. *)

From S2P Require Import Prelude Errors Virt Helpers.
Import Errors Virt Helpers.

Module Hardware.

(** A run of pages: where the direct map shows it, its length in pages and its
    physical address. *)
Record PhysPage := mkPhysPage { start : Z; count : Z; phys : Z }.

(** The machine.  [mmio_read n a] and [mmio_write n a v] are volatile accesses of
    [n] bytes at virtual address [a]; [ram] is the memory by physical address;
    [alloc_pages] and [free_frames] are the page allocator. *)
Class Bus (W : Type) := {
  mmio_read : Z → Z → W → Z * W;
  mmio_write : Z → Z → Z → W → W;
  ram : W → Z → Z;
  ram_write : Z → list Z → W → W;
  alloc_pages : Z → M W Empty_set (option Z);
  free_frames : Z → Z → W → W
}.

Section hardware.
Context {W : Type} {AD : Addresses} {BU : Bus W}.
Variable HHDM_OFFSET : Z.

Definition read_volatile {E} (n a : Z) : M W E Z := λ w,
  let '(v, w') := mmio_read n a w in (Ok v, w').
Definition write_volatile {E} (n a v : Z) : M W E unit := modify (mmio_write n a v).

(** [n] bytes of memory at an address of the direct map. *)
Definition bytes_at (m : Z → Z) (a n : Z) : list Z := m <$> seqZ a n.
Definition peek {E} (v n : Z) : M W E (list Z) := gets (λ w, bytes_at (ram w) (v - HHDM_OFFSET) n).
Definition poke {E} (v : Z) (data : list Z) : M W E unit := modify (ram_write (v - HHDM_OFFSET) data).

Definition no_error {E A} (m : M W Empty_set A) : M W E A := map_errM (Empty_set_rect (λ _, E)) m.

Definition phys_to_virt {E} (p : Z) : M W E Z := opt_panic (virt_new (p ⊞ HHDM_OFFSET)).
Definition virt_to_phys {E} (v : Z) : M W E Z := opt_panic (phys_new (v ⊟ HHDM_OFFSET)).

(** ** [PhysPage] *)

Definition page_new (n : Z) : M W MemoryError PhysPage :=
  o ← no_error (alloc_pages n);
  match o with
  | None => fail OutOfMemory
  | Some start => p ← virt_to_phys start; mret (mkPhysPage start n p)
  end.

Definition read_data {E} (size align : Z) (p : PhysPage) (offset : Z) : M W E (option (list Z)) :=
  if count p ⊠ PAGE_SIZE <? offset ⊞ size then mret None
  else if negb (is_multiple_of offset align) then mret None
  else v ← opt_panic (virt_add (start p) offset); data ← peek v size; mret (Some data).

Definition write_data (align : Z) (p : PhysPage) (offset : Z) (data : list Z) : M W MemoryError unit :=
  if count p ⊠ PAGE_SIZE <? offset ⊞ Z.of_nat (length data) then fail OutOfBounds
  else
    v ← opt_panic (virt_add (start p) offset);
    if negb (is_multiple_of offset align) then fail OutOfBounds else poke v data.

Definition page_drop {E} (p : PhysPage) : M W E unit := modify (free_frames (phys p) (count p)).

(** ** [MMIORegion]: values of [n] bytes, aligned to [n] *)

Definition region_read {E} (n : Z) (r : VirtualRegion) (offset : Z) : M W E (option Z) :=
  if rsize r <? offset ⊞ n then mret None
  else if negb (is_multiple_of offset n) then mret None
  else p ← opt_panic (virt_add (rstart r) offset); v ← read_volatile n p; mret (Some v).

Definition region_write {E} (n : Z) (r : VirtualRegion) (offset v : Z) : M W E bool :=
  if rsize r <? offset ⊞ n then mret false
  else if negb (is_multiple_of offset n) then mret false
  else p ← opt_panic (virt_add (rstart r) offset); write_volatile n p v;; mret true.

(** [MMIORegister]: its address. *)
Definition register {E} (n : Z) (r : VirtualRegion) (offset : Z) : M W E (option Z) :=
  if negb (is_multiple_of offset n) then mret None
  else if rsize r <? offset ⊞ n then mret None
  else p ← opt_panic (virt_add (rstart r) offset); mret (Some p).

(** ** The clock *)

(** [HPET_REGS] and [HPET_PERIOD_FS], once set. *)
Record Hpet := mkHpet { regs : Z; period : Z }.

Definition nanos (raw period : Z) : Z := (raw ⊠ period) / 1000000.

Definition passed_nanos {E} (h : Hpet) : M W E Z :=
  a ← opt_panic (virt_add (regs h) 0xF0);
  raw ← read_volatile 8 a;
  mret (nanos raw (period h)).
End hardware.

(** ** What the memory and the clock promise *)

Class MemLaws (W : Type) `{BU : Bus W} := {
  ram_write_law a data w x :
    ram (ram_write a data w) x =
    if (a <=? x) && (x <? a + Z.of_nat (length data)) then data !!! Z.to_nat (x - a) else ram w x
}.

(** The counter of the HPET advances by at least [tick] and at most [burst] from
    one reading to the next; [counter] is its last reading, with the bits that
    the 64-bit register has lost. *)
Class ClockLaws (W : Type) `{BU : Bus W} (h : Hpet) := {
  counter : W → Z;
  tick : Z;
  burst : Z;
  period_pos : 0 < period h;
  tick_pos : 0 < tick;
  burst_ok : burst * period h < 2 ^ 63;
  hpet_mapped : canonical (regs h + 0xF0);
  counter_law w : ∃ c, (mmio_read 8 (regs h + 0xF0) w).1 = u64 c ∧
    counter w + tick <= c <= counter w + burst ∧ counter (mmio_read 8 (regs h + 0xF0) w).2 = c;
  counter_read n a w : a ≠ regs h + 0xF0 → counter (mmio_read n a w).2 = counter w
}.

(** ** Bytes in memory *)

Lemma length_bytes_at m a n : length (bytes_at m a n) = Z.to_nat n.
Proof. unfold bytes_at. by rewrite length_fmap, length_seqZ. Qed.

Lemma bytes_at_app m a n1 n2 :
  0 <= n1 → 0 <= n2 → bytes_at m a (n1 + n2) = bytes_at m a n1 ++ bytes_at m (a + n1) n2.
Proof. intros. unfold bytes_at. by rewrite seqZ_app, fmap_app. Qed.

Lemma bytes_at_ext m m' a n :
  (∀ x, a <= x < a + n → m x = m' x) → bytes_at m a n = bytes_at m' a n.
Proof.
  intros H. apply list_fmap_ext. intros i x Hi. apply lookup_seqZ in Hi as [-> Hi]. apply H. lia.
Qed.

(** Memory [m] has the bytes [l] at [a]. *)
Definition holds (m : Z → Z) (a : Z) (l : list Z) : Prop := bytes_at m a (Z.of_nat (length l)) = l.

Lemma holds_app m a l1 l2 :
  holds m a (l1 ++ l2) ↔ holds m a l1 ∧ holds m (a + Z.of_nat (length l1)) l2.
Proof.
  unfold holds. rewrite length_app, Nat2Z.inj_add, bytes_at_app by lia. split.
  - intros H. apply app_inj_1 in H; [done|]. rewrite length_bytes_at. lia.
  - intros [-> ->]. done.
Qed.

Lemma holds_cons m a b l : holds m a (b :: l) ↔ m a = b ∧ holds m (a + 1) l.
Proof.
  change (b :: l) with ([b] ++ l). rewrite holds_app. unfold holds at 1, bytes_at.
  change (Z.of_nat (length [b])) with 1. assert (seqZ a 1 = [a]) as -> by (by rewrite seqZ_cons).
  cbn [fmap list_fmap]. split; intros [H ?]; split; try done; [by injection H|by rewrite H].
Qed.

Lemma holds_ext m m' a l :
  (∀ x, a <= x < a + Z.of_nat (length l) → m' x = m x) → holds m a l → holds m' a l.
Proof. unfold holds. intros H <-. rewrite length_bytes_at, Nat2Z.id at 1. by apply bytes_at_ext. Qed.

Lemma holds_at m a l b : holds m a l → 0 <= b - a < Z.of_nat (length l) → m b = l !!! Z.to_nat (b - a).
Proof.
  unfold holds. intros H Hb. rewrite <- H. symmetry. apply list_lookup_total_correct.
  unfold bytes_at. rewrite list_lookup_fmap, (proj2 (lookup_seqZ _ _ _ (b))); [done|lia].
Qed.

Lemma ram_write_holds {W} `{MemLaws W} a data w : holds (ram (ram_write a data w)) a data.
Proof.
  unfold holds. apply list_eq_lookup_lt; rewrite length_bytes_at, Nat2Z.id; [done|]. intros i Hi.
  unfold bytes_at. rewrite list_lookup_fmap, (proj2 (lookup_seqZ _ _ _ (a + Z.of_nat i))) by lia.
  cbn [fmap option_fmap option_map]. rewrite ram_write_law.
  rewrite (proj2 (Z.leb_le _ _)), (proj2 (Z.ltb_lt _ _)) by lia. cbn [andb].
  replace (Z.to_nat (a + Z.of_nat i - a)) with i by lia. symmetry. by apply list_lookup_lookup_total_lt.
Qed.

Lemma ram_write_other {W} `{MemLaws W} a data w x :
  x < a ∨ a + Z.of_nat (length data) <= x → ram (ram_write a data w) x = ram w x.
Proof.
  intros Hx. rewrite ram_write_law. destruct (_ && _) eqn:E; [|done]. zb. lia.
Qed.

Lemma holds_other {W} `{MemLaws W} a data w b l :
  b + Z.of_nat (length l) <= a ∨ a + Z.of_nat (length data) <= b →
  holds (ram w) b l → holds (ram (ram_write a data w)) b l.
Proof. intros Hx. apply holds_ext. intros x ?. apply ram_write_other. lia. Qed.

(** ** Timeouts end *)

Lemma wp_read_volatile {W E} {BU : Bus W} n a (Q : Z → W → Prop) (R : E → W → Prop) w :
  Q (mmio_read n a w).1 (mmio_read n a w).2 → wp (read_volatile n a) Q R w.
Proof. unfold wp, read_volatile. by destruct (mmio_read n a w). Qed.

Lemma wp_write_volatile {W E} {BU : Bus W} n a v (Q : unit → W → Prop) (R : E → W → Prop) w :
  Q tt (mmio_write n a v w) → wp (write_volatile n a v) Q R w.
Proof. done. Qed.

Lemma nanos_u64 c p : nanos (u64 c) p = (c * p) mod 2 ^ 64 / 1000000.
Proof. unfold nanos, u64. f_equal. by rewrite Z.mul_mod_idemp_l by lia. Qed.

(** As long as the difference of two readings is within the limit, so is the
    time that has passed: the product has not wrapped around. *)
Lemma elapsed x0 c c' p T burst :
  0 < p → x0 <= c → c <= c' <= c + burst → burst * p < 2 ^ 63 → 0 <= T → (T + 2) * 1000000 < 2 ^ 63 →
  (c - x0) * p <= (T + 1) * 1000000 →
  nanos (u64 c') p ⊟ nanos (u64 x0) p <= T →
  (c' - x0) * p <= (T + 1) * 1000000.
Proof.
  intros Hp H0 Hc Hb HT0 HT Hle. rewrite !nanos_u64.
  assert (0 <= (c' - x0) * p <= (T + 1) * 1000000 + burst * p) as Hd by nia.
  replace (c' * p) with (x0 * p + (c' - x0) * p) by lia.
  set (d := (c' - x0) * p) in *. set (x := x0 * p). clearbody d x. clear - Hd Hb HT HT0.
  intros H. rewrite Z.add_mod in H by lia. rewrite (Z.mod_small d) in H by lia.
  pose proof (Z.mod_pos_bound x (2 ^ 64) ltac:(lia)). set (y := x mod 2 ^ 64) in *. clearbody y.
  destruct (decide (y + d < 2 ^ 64)).
  - rewrite Z.mod_small in H by lia. unfold u64 in H. uint_lia.
  - replace (y + d) with (y + d - 2 ^ 64 + 1 * 2 ^ 64) in H by lia.
    rewrite Z.mod_add, Z.mod_small in H by lia. unfold u64 in H. uint_lia.
Qed.

(** When the difference of two readings has reached the limit, so has the time that
    has passed, up to a nanosecond and unless the product has wrapped around. *)
Lemma elapsed_least c0 c1 p T :
  0 < p → c0 <= c1 → c0 * p / 2 ^ 64 = c1 * p / 2 ^ 64 →
  T <= nanos (u64 c1) p ⊟ nanos (u64 c0) p → (T - 1) * 1000000 < (c1 - c0) * p.
Proof.
  intros Hp Hc Hq. rewrite !nanos_u64. assert (c0 * p <= c1 * p) by nia.
  pose proof (Z.div_mod (c0 * p) (2 ^ 64) ltac:(lia)). pose proof (Z.div_mod (c1 * p) (2 ^ 64) ltac:(lia)).
  pose proof (Z.mod_pos_bound (c0 * p) (2 ^ 64) ltac:(lia)). pose proof (Z.mod_pos_bound (c1 * p) (2 ^ 64) ltac:(lia)).
  replace ((c1 - c0) * p) with ((c1 * p) mod 2 ^ 64 - (c0 * p) mod 2 ^ 64) by lia.
  assert ((c0 * p) mod 2 ^ 64 <= (c1 * p) mod 2 ^ 64) as Hle by lia. revert Hle.
  set (x := (c0 * p) mod 2 ^ 64) in *. set (y := (c1 * p) mod 2 ^ 64) in *. clearbody x y. uint_lia.
Qed.

Section waiting.
Context {W E : Type} {AD : Addresses} {BU : Bus W} {AL : AddressLaws} (h : Hpet) {CL : ClockLaws W h}.
Variables (I D : W → Prop) (R : E → W → Prop) (f : M W E bool).
Hypothesis keep : ∀ w, I w → I (mmio_read 8 (regs h + 0xF0) w).2.

Lemma passed_nanos_wp (Q : Z → W → Prop) w :
  (∀ c, counter w + tick <= c <= counter w + burst → counter (mmio_read 8 (regs h + 0xF0) w).2 = c →
    Q (nanos (u64 c) (period h)) (mmio_read 8 (regs h + 0xF0) w).2) →
  wp (passed_nanos h) Q R w.
Proof.
  intros H. unfold passed_nanos. apply wp_bind.
  eapply wp_opt_panic; [apply virt_add_ok; [lia|apply hpet_mapped]|].
  apply wp_bind, wp_read_volatile, wp_ret. destruct (counter_law w) as (c & -> & Hc & Hn). by apply H.
Qed.

(** The invariant of a wait, and a bound on the polls that remain. *)
Definition waiting (T x0 : Z) (w : W) : Prop :=
  I w ∧ x0 <= counter w ∧ (counter w - x0) * period h <= (T + 1) * 1000000.
Definition polls (T x0 : Z) (w : W) : Z :=
  ((T + 1) * 1000000 - (counter w - x0) * period h) / (tick * period h).

(** The last reading of a wait. *)
Definition over (T x0 : Z) (w : W) : Prop :=
  I w ∧ x0 <= counter w ∧ (counter w - x0) * period h <= (T + 1) * 1000000 + burst * period h ∧
  T < nanos (u64 (counter w)) (period h) ⊟ nanos (u64 x0) (period h).

Lemma waiting_tick T x0 w :
  0 <= T → (T + 2) * 1000000 < 2 ^ 63 → waiting T x0 w →
  wp (passed_nanos h) (λ now w', (T < now ⊟ nanos (u64 x0) (period h) → over T x0 w') ∧
    (now ⊟ nanos (u64 x0) (period h) <= T → waiting T x0 w' ∧ 0 <= polls T x0 w' < polls T x0 w)) R w.
Proof.
  intros HT0 HT (HI & H0 & Hle). apply passed_nanos_wp. intros c Hc Hn.
  pose proof period_pos. pose proof tick_pos. pose proof burst_ok. split.
  { intros Ho. split_and!; [by apply keep|lia|rewrite Hn; nia|by rewrite Hn]. }
  intros Hel. assert ((c - x0) * period h <= (T + 1) * 1000000)
    by (apply (elapsed x0 (counter w) c _ T burst); try lia; done).
  split; [split_and!; [by apply keep|lia|by rewrite Hn]|]. unfold polls. rewrite Hn.
  assert (0 < tick * period h) by nia. split; [apply Z.div_pos; lia|].
  set (n := (T + 1) * 1000000 - (counter w - x0) * period h).
  assert ((n + -1 * (tick * period h)) / (tick * period h) = n / (tick * period h) - 1) as Ed
    by (rewrite Z.div_add; lia).
  assert (((T + 1) * 1000000 - (c - x0) * period h) / (tick * period h) <= n / (tick * period h) - 1); [|lia].
  rewrite <- Ed. apply Z.div_le_mono; [lia|]. nia.
Qed.

Definition enough (fuel : nat) (t : Time) : Prop :=
  0 <= to_nanos t ∧ (to_nanos t + 2) * 1000000 < 2 ^ 63 ∧
  (to_nanos t + 1) * 1000000 < Z.of_nat fuel * (tick * period h).

Lemma wait_timeout_wp fuel t w :
  enough fuel t → I w →
  (∀ w, I w → wp f (λ c w', if c : bool then I w' ∧ counter w' = counter w else D w') R w) →
  wp (wait_timeout (passed_nanos h) f fuel t) (λ b w', if b : bool then D w' else I w') R w.
Proof.
  intros (HT0 & HT & Hf) HI Hpoll. unfold wait_timeout. apply wp_bind, passed_nanos_wp. intros x0 Hx Hn.
  pose proof period_pos. pose proof tick_pos. assert (0 < tick * period h) by nia.
  eapply (wp_mono _ (λ b w', if b : bool then D w' else over (to_nanos t) x0 w')); [|intros [] ? Ho; [done|apply Ho]|done].
  apply (timeout_loop_wp _ _ (waiting (to_nanos t) x0) D (over (to_nanos t) x0) R _ _ (polls (to_nanos t) x0)).
  - intros w1 (Hi1 & Hi2 & Hi3). eapply wp_mono; [by apply Hpoll| |done]. intros [] w2; [|done].
    intros [Hi Hc]. unfold waiting, polls. rewrite Hc. done.
  - intros w1 Hw1. by apply waiting_tick.
  - split_and!; [by apply keep|lia..].
  - unfold polls. rewrite Hn. replace (_ - _) with ((to_nanos t + 1) * 1000000) by lia.
    apply Z.div_lt_upper_bound; lia.
  - destruct fuel; lia.
Qed.

(** The time, in femtoseconds, between two states, and whether the product of the
    clock wrapped around in between. *)
Definition span (w w' : W) : Z := (counter w' - counter w) * period h.
Definition clock_wrapped (w w' : W) : Prop := counter w * period h / 2 ^ 64 ≠ counter w' * period h / 2 ^ 64.

Definition waited (t : Time) (w w' : W) : Prop :=
  span w w' <= to_nanos t * 1000000 + 2 * burst * period h ∧
  ((to_nanos t - 1) * 1000000 < span w w' ∨ clock_wrapped w w').

Lemma over_waited t x0 w w' :
  counter w + tick <= x0 <= counter w + burst → over (to_nanos t - 1) x0 w' → waited t w w'.
Proof.
  intros Hx (_ & H0 & Hle & Hlt). pose proof period_pos. pose proof tick_pos. unfold waited, span, clock_wrapped.
  split; [nia|]. destruct (decide (counter w * period h / 2 ^ 64 = counter w' * period h / 2 ^ 64)) as [He|]; [left|by right].
  assert (counter w * period h / 2 ^ 64 <= x0 * period h / 2 ^ 64) by (apply Z.div_le_mono; [lia|apply Z.mul_le_mono_nonneg_r; lia]).
  assert (x0 * period h / 2 ^ 64 <= counter w' * period h / 2 ^ 64) by (apply Z.div_le_mono; [lia|apply Z.mul_le_mono_nonneg_r; lia]).
  assert ((to_nanos t - 1) * 1000000 < (counter w' - x0) * period h) by (apply elapsed_least; lia). nia.
Qed.

Lemma wait_span fuel t w :
  0 < to_nanos t → enough fuel t → I w → wp (wait (passed_nanos h) fuel t) (λ _ w', I w' ∧ waited t w w') R w.
Proof.
  intros Hpos (HT0 & HT & Hf) HI. unfold wait. apply wp_bind, passed_nanos_wp. intros x0 Hx Hn.
  pose proof period_pos. pose proof tick_pos. assert (0 < tick * period h) by nia.
  eapply (wp_mono _ (λ _, over (to_nanos t - 1) x0)); [|intros ? w' Ho; split; [apply Ho|by eapply over_waited]|done].
  replace (to_nanos t) with (to_nanos t - 1 + 1) at 1 by lia.
  apply (wait_loop_wp _ (waiting (to_nanos t - 1) x0) (over (to_nanos t - 1) x0) R _ _ (polls (to_nanos t - 1) x0)).
  - intros w1 Hw1. apply waiting_tick; [lia..|done].
  - split_and!; [by apply keep|lia..].
  - unfold polls. rewrite Hn. replace (_ - _) with (to_nanos t * 1000000) by lia.
    apply Z.div_lt_upper_bound; lia.
  - destruct fuel; lia.
Qed.

Lemma wait_wp fuel t w :
  0 < to_nanos t → enough fuel t → I w → wp (wait (passed_nanos h) fuel t) (λ _, I) R w.
Proof. intros Hpos Hf HI. eapply wp_mono; [by apply wait_span|by intros ? ? []|done]. Qed.
End waiting.

(** ** The clock wraps around *)

(** C40. The clock multiplies the counter by its period in femtoseconds in 64
    bits, a product that wraps around every 2^64 fs (5.1 hours).  If it does so
    between the start of a wait and the first poll, the wait reports a timeout
    at that poll, whatever its limit and however little time has passed. *)
Theorem clock_wraps {W E} {AD : Addresses} {BU : Bus W} {AL : AddressLaws} h (f : M W E bool) fuel t
    raw0 raw1 w w0 w1 w2 :
  canonical (regs h + 0xF0) → 0 < period h → 0 <= raw0 < raw1 → raw1 < 2 ^ 64 →
  raw0 * period h < 2 ^ 64 <= raw1 * period h → (raw1 - raw0) * period h < 2 ^ 63 →
  0 <= to_nanos t < 2 ^ 63 →
  mmio_read 8 (regs h + 0xF0) w = (raw0, w0) → f w0 = (Ok true, w1) →
  mmio_read 8 (regs h + 0xF0) w1 = (raw1, w2) →
  wait_timeout (passed_nanos h) f (S fuel) t w = (Ok false, w2).
Proof.
  intros Ha Hp Hr H1 Hw Hd Ht E0 Ef E1. unfold wait_timeout.
  assert (∀ w r w', mmio_read 8 (regs h + 0xF0) w = (r, w') →
    passed_nanos (E := E) h w = (Ok (nanos r (period h)), w')) as Hn.
  { intros v r v' Er. unfold passed_nanos. rewrite virt_add_ok by (lia || done). cbn [opt_panic].
    rewrite mret_bind. erewrite bind_Ok; [|unfold read_volatile; by rewrite Er]. done. }
  mstep (Hn _ _ _ E0). cbn [timeout_loop]. mstep Ef. mstep (Hn _ _ _ E1).
  assert (to_nanos t < nanos raw1 (period h) ⊟ nanos raw0 (period h)) as Hlt; [|by rewrite (proj2 (Z.ltb_lt _ _) Hlt)].
  assert (0 <= raw0 * period h) by nia. rewrite Z.mul_sub_distr_r in Hd. unfold nanos, u64.
  set (x := raw0 * period h) in *. set (y := raw1 * period h) in *. clearbody x y.
  rewrite (Z.mod_small x) by lia. replace y with (y - 2 ^ 64 + 1 * 2 ^ 64) by lia.
  change 18446744073709551616 with (2 ^ 64). rewrite Z.mod_add, (Z.mod_small (y - 2 ^ 64)) by lia. uint_lia.
Qed.

End Hardware.
