(* ===== verification/Ahci.v ===== *)
(** * The AHCI driver (src/kernel/src/drivers/storage/ahci/)

    [FISRegisterH2D], the command header, the command table and the physical
    region descriptors are byte strings in memory that the controller reads by
    DMA.  [send_command] builds them and runs the command through the registers
    of the port; [read_blocks], [write_blocks] and [sync] issue the commands.

    [HbaLaws] states what the controller does with what it finds in memory, as
    the AHCI and ATA specifications give it: which command it fetches
    ([hba_fetch]), when it accepts it, and what has happened when it reports
    completion.  The theorems show that the driver's blocks arrive. *)

From S2P Require Import Prelude Errors Virt Helpers Hardware.
Import Errors Virt Helpers Hardware.

Module Ahci.

Definition BLOCK_SIZE : Z := 512.
Definition TIMEOUT : Time := Seconds 5.
Definition PROBE_TIMEOUT : Time := Milliseconds 500.
Definition PRD_MAX_BYTES : Z := 2097152.
Definition PRDS_PER_TABLE : Z := 16.
Definition PRD_STRIDE : Z := 0x80 + PRDS_PER_TABLE * 16.
Definition MAX_SECTORS_PER_CMD : Z := 65535.
Definition FATAL_PXIS_MASK : Z := Z.shiftl 0xF 27.

(** ** fis.rs *)

Definition RegisterHostToDevice : Z := 0x27.

Record FISRegisterH2D := mkFIS {
  fis_type : Z; port_multiplier_command : Z; command : Z; feature_low : Z;
  lba0 : Z; lba1 : Z; lba2 : Z; device : Z;
  lba3 : Z; lba4 : Z; lba5 : Z; feature_high : Z;
  fis_count : Z; icc : Z; control : Z
}.

Definition fis_new (port_mult command feature lba count icc control : Z) : FISRegisterH2D := {|
  fis_type := RegisterHostToDevice;
  port_multiplier_command := port_mult;
  command := command;
  feature_low := u8 feature;
  feature_high := u8 (Z.shiftr feature 8);
  lba0 := u8 lba;
  lba1 := u8 (Z.shiftr lba 8);
  lba2 := u8 (Z.shiftr lba 16);
  lba3 := u8 (Z.shiftr lba 24);
  lba4 := u8 (Z.shiftr lba 32);
  lba5 := u8 (Z.shiftr lba 40);
  device := 0x40;
  fis_count := count;
  icc := icc;
  control := control
|}.

Definition to_bytes (f : FISRegisterH2D) : list Z :=
  [fis_type f; port_multiplier_command f; command f; feature_low f;
   lba0 f; lba1 f; lba2 f; device f;
   lba3 f; lba4 f; lba5 f; feature_high f] ++
  le_bytes 2 (fis_count f) ++ [icc f; control f; 0; 0; 0; 0].

(** ** commands.rs *)

Definition fis_info_set (info fis_len : Z) (to_device : bool) : Z :=
  let info := Z.lor (Z.land info (not8 0x1F)) fis_len in
  Z.lor (Z.land info (not8 0x40)) (Z.shiftl (Z.b2z to_device) 6).

Record CommandHeader := mkHeader {
  fis_info : Z; cmd_info : Z; prd_table_len : Z; prd_byte_count : Z;
  cmd_table_base_addr_lower : Z; cmd_table_base_addr_upper : Z
}.

Definition header_bytes (h : CommandHeader) : list Z :=
  [fis_info h; cmd_info h] ++ le_bytes 2 (prd_table_len h) ++ le_bytes 4 (prd_byte_count h) ++
  le_bytes 4 (cmd_table_base_addr_lower h) ++ le_bytes 4 (cmd_table_base_addr_upper h) ++ replicate 16 0.

(** [CommandTableHeader::zeroed()] *)
Definition table_header_zeroed : list Z := replicate 128 0.

(** The assertion makes it partial. *)
Definition set_descriptor_byte_count (dbc byte_count : Z) : option Z :=
  if (0 <? byte_count) && (byte_count <=? Z.shiftl 1 22)
  then Some (Z.lor (Z.land dbc 0xFFC00000) (byte_count - 1)) else None.

Section driver.
Context {W : Type} {AD : Addresses} {BU : Bus W}.
Variables (HHDM_OFFSET : Z) (hpet : Hpet) (fuel : nat).

(** [o?] in a function that returns an option: the error carries nothing. *)
Definition some {A} (m : M W unit (option A)) : M W unit A :=
  o ← m; match o with Some a => mret a | None => fail tt end.

Definition or_err {E A} (m : M W unit A) (e : E) : M W E A := map_errM (λ _, e) m.

(** [wait_timeout(|| cond(reg.read()), timeout)] *)
Definition wait_reg {E} (reg : Z) (cond : Z → bool) (timeout : Time) : M W E bool :=
  wait_timeout (passed_nanos hpet) (v ← read_volatile 4 reg; mret (cond v)) fuel timeout.

(** [b.ok_or(e)?] *)
Definition ensure {E} (b : bool) (e : E) : M W E unit := if b then mret tt else fail e.

Definition bit_set (v mask : Z) : bool := negb (Z.land v mask =? 0).

(** ** registers.rs: the addresses of the registers of a port *)

Record PortRegisters := mkPort {
  clb : Z; clbu : Z; fb : Z; fbu : Z; isr : Z; cmd : Z; tfd : Z; sig : Z; ssts : Z; sctl : Z; serr : Z;
  sact : Z; ci : Z
}.

Definition port_new (region : VirtualRegion) (port : Z) : M W unit PortRegisters :=
  let reg offset := some (register 4 region (0x100 ⊞ (port ⊠ 0x80) ⊞ offset)) in
  clb ← reg 0;
  clbu ← reg 4;
  fb ← reg 8;
  fbu ← reg 0xC;
  isr ← reg 0x10;
  cmd ← reg 0x18;
  tfd ← reg 0x20;
  sig ← reg 0x24;
  ssts ← reg 0x28;
  sctl ← reg 0x2C;
  serr ← reg 0x30;
  sact ← reg 0x34;
  ci ← reg 0x38;
  mret (mkPort clb clbu fb fbu isr cmd tfd sig ssts sctl serr sact ci).

(** ** port.rs *)

Definition stop_cmd (port : PortRegisters) : M W StorageError unit :=
  v ← read_volatile 4 (cmd port);
  write_volatile 4 (cmd port) (Z.land v (not32 0x01));;
  b ← wait_reg (cmd port) (λ v, bit_set v 0x8000) TIMEOUT;
  ensure b Timeout;;
  v ← read_volatile 4 (cmd port);
  write_volatile 4 (cmd port) (Z.land v (not32 0x10));;
  b ← wait_reg (cmd port) (λ v, bit_set v 0x4000) TIMEOUT;
  ensure b Timeout.

Definition start_cmd (port : PortRegisters) : M W StorageError unit :=
  b ← wait_reg (cmd port) (λ v, bit_set v 0x8000) TIMEOUT;
  ensure b Timeout;;
  v ← read_volatile 4 (cmd port);
  write_volatile 4 (cmd port) (Z.lor v 0x11).

Definition rebase (port : PortRegisters) (cmd_list_base fis_base : Z) : M W StorageError unit :=
  stop_cmd port;;
  write_volatile 4 (isr port) U32_MAX;;
  write_volatile 4 (serr port) U32_MAX;;
  write_volatile 4 (clb port) (u32 cmd_list_base);;
  write_volatile 4 (clbu port) (u32 (Z.shiftr cmd_list_base 32));;
  write_volatile 4 (fb port) (u32 fis_base);;
  write_volatile 4 (fbu port) (u32 (Z.shiftr fis_base 32));;
  start_cmd port.

Definition com_reset (port : PortRegisters) : M W StorageError bool :=
  write_volatile 4 (serr port) U32_MAX;;
  sctl_v ← read_volatile 4 (sctl port);
  write_volatile 4 (sctl port) (Z.lor (Z.land sctl_v (not32 0xF)) 1);;
  wait (passed_nanos hpet) fuel (Milliseconds 1);;
  sctl_v ← read_volatile 4 (sctl port);
  write_volatile 4 (sctl port) (Z.land sctl_v (not32 0xF));;
  wait_reg (ssts port)
    (λ v, negb (Z.land v 0xF =? 3) && negb (Z.land (Z.shiftr v 8) 0xF =? 1)) TIMEOUT.

Definition find_slot {E} (port : PortRegisters) (ncs : Z) : M W E (option Z) :=
  sact_v ← read_volatile 4 (sact port);
  ci_v ← read_volatile 4 (ci port);
  let slots := Z.lor sact_v ci_v in
  mret (List.find (λ i, Z.land slots (u32 (Z.shiftl 1 i)) =? 0) (seqZ 0 (ncs + 1))).

(** ** mod.rs *)

Record AHCIDrive := mkDrive {
  bar : VirtualRegion; port_id : Z;
  command_list : PhysPage; command_tables : PhysPage; fis_buffer : PhysPage;
  block_size : Z; block_count : Z; ncs : Z
}.

(** A pointer into the command tables; null is an error. *)
Definition table_ptr (d : AHCIDrive) (offset : Z) : M W StorageError Z :=
  p ← opt_panic (virt_add (start (command_tables d)) offset);
  if p =? 0 then fail CommandFailed else mret p.

(** One physical region descriptor; the state is what remains and where. *)
Definition set_prd (d : AHCIDrive) (slot : Z) (r : Z * Z) (i : Z) : M W StorageError (Z * Z) :=
  let '(rem, phys_offset) := r in
  let chunk := Z.min rem PRD_MAX_BYTES in
  prd ← table_ptr d (slot ⊠ PRD_STRIDE ⊞ 0x80 ⊞ i ⊠ 16);
  poke HHDM_OFFSET prd (le_bytes 8 phys_offset);;
  dbc ← peek HHDM_OFFSET (prd + 12) 4;
  dbc ← opt_panic (set_descriptor_byte_count (le_val dbc) (u32 chunk));
  poke HHDM_OFFSET (prd + 12) (le_bytes 4 dbc);;
  mret (rem ⊟ chunk, phys_offset ⊞ chunk).

(** The part of [send_command] that fills the memory of a slot. *)
Definition build_command (d : AHCIDrive) (slot : Z) (fis : FISRegisterH2D) (data data_bytes : Z)
    (is_write : bool) : M W StorageError unit :=
  let fis_info := fis_info_set 0 5 is_write in
  let ct_phys := phys (command_tables d) ⊞ slot ⊠ PRD_STRIDE in
  let offset := slot ⊠ PRD_STRIDE in
  map_errM (λ _, CommandFailed) (write_data HHDM_OFFSET 1 (command_tables d) offset table_header_zeroed);;
  ct ← table_ptr d offset;
  poke HHDM_OFFSET ct (to_bytes fis);;
  poke HHDM_OFFSET (ct + 20) (replicate 44 0);;
  let num_prds := div_ceil data_bytes PRD_MAX_BYTES in
  let cmd_header := mkHeader fis_info 0 (u16 num_prds) 0 (u32 ct_phys) (u32 (Z.shiftr ct_phys 32)) in
  foldM (set_prd d slot) (data_bytes, data) (seqZ 0 num_prds);;
  map_errM (λ _, CommandFailed)
    (write_data HHDM_OFFSET 1 (command_list d) (32 ⊠ slot) (header_bytes cmd_header)).

Definition send_command (d : AHCIDrive) (fis : FISRegisterH2D) (data data_bytes : Z) (is_write : bool) :
    M W StorageError unit :=
  port ← or_err (port_new (bar d) (port_id d)) CommandFailed;
  o ← find_slot port (ncs d);
  slot ← lift (ok_or o CommandFailed);
  build_command d slot fis data data_bytes is_write;;
  write_volatile 4 (isr port) U32_MAX;;
  b ← wait_reg (tfd port) (λ v, bit_set v (Z.lor (Z.shiftl 1 7) (Z.shiftl 1 3))) TIMEOUT;
  ensure b CommandFailed;;
  write_volatile 4 (ci port) (u32 (Z.shiftl 1 slot));;
  b ← wait_reg (ci port) (λ v, Z.land (Z.shiftr v slot) 1 =? 1) TIMEOUT;
  ensure b Timeout;;
  is_v ← read_volatile 4 (isr port);
  write_volatile 4 (isr port) U32_MAX;;
  if bit_set is_v FATAL_PXIS_MASK then fail CommandFailed
  else
    tfd_v ← read_volatile 4 (tfd port);
    if bit_set tfd_v 1 then fail CommandFailed else mret tt.

(** [while offset < count] of [read_blocks] and [write_blocks], which differ in
    the command and the direction. *)
Fixpoint blocks_loop (n : nat) (d : AHCIDrive) (cmd : Z) (is_write : bool) (max start_block cnt : Z)
    (page : PhysPage) (offset : Z) : M W StorageError unit :=
  match n with
  | O => lift Loop
  | S n =>
      if offset <? cnt then
        let chunks := Z.min (Z.min (cnt ⊟ offset) MAX_SECTORS_PER_CMD) max in
        let fis := fis_new 0x80 cmd 0 (start_block ⊞ offset) (u16 chunks) 0 0 in
        let bytes := chunks ⊠ block_size d in
        addr ← opt_panic (phys_add (phys page) (offset ⊠ block_size d));
        send_command d fis addr bytes is_write;;
        blocks_loop n d cmd is_write max start_block cnt page (offset ⊞ chunks)
      else mret tt
  end.

Definition transfer_blocks (d : AHCIDrive) (cmd : Z) (is_write : bool) (start_block cnt : Z)
    (page : PhysPage) : M W StorageError unit :=
  max ← div_panic (PRDS_PER_TABLE * PRD_MAX_BYTES) (block_size d);
  if block_count d <? start_block ⊞ cnt then fail BlockOutOfBounds
  else if count page ⊠ PAGE_SIZE <? cnt ⊠ block_size d then fail CommandFailed
  else blocks_loop (S (Z.to_nat cnt)) d cmd is_write max start_block cnt page 0.

Definition read_blocks (d : AHCIDrive) (start_block cnt : Z) (dest : PhysPage) : M W StorageError unit :=
  transfer_blocks d 0x25 false start_block cnt dest.

Definition write_blocks (d : AHCIDrive) (start_block cnt : Z) (src : PhysPage) : M W StorageError unit :=
  transfer_blocks d 0x35 true start_block cnt src.

Definition sync (d : AHCIDrive) : M W StorageError unit :=
  send_command d (fis_new 0x80 0xEA 0 0 0 0 0) 0 0 false.
End driver.

(** ** The controller

    What the specifications say of one port, whose registers start at [P], with
    a drive of [lbs]-byte blocks. *)

Definition word (m : Z → Z) (a n : Z) : Z := le_val (bytes_at m a n).

(** A command as the controller fetches it from memory [m]: the header of the
    slot in the command list at [base], the FIS and the descriptors of its
    table. *)
Record Command := mkCommand {
  op : Z; lba : Z; sectors : Z; to_device : bool; table : list (Z * Z)
}.

Definition header_at (base slot : Z) : Z := base + 32 * slot.
Definition table_at (m : Z → Z) (base slot : Z) : Z := word m (header_at base slot + 8) 8.

Definition hba_fetch (m : Z → Z) (base slot : Z) : Command :=
  let h := header_at base slot in
  let t := table_at m base slot in
  {| op := m (t + 2);
     lba := le_val [m (t + 4); m (t + 5); m (t + 6); m (t + 8); m (t + 9); m (t + 10)];
     sectors := (let c := word m (t + 12) 2 in if c =? 0 then 65536 else c);
     to_device := Z.testbit (m h) 6;
     table := (λ i, (word m (t + 0x80 + 16 * i) 8, Z.land (word m (t + 0x80 + 16 * i + 12) 4) 0x3FFFFF + 1))
       <$> seqZ 0 (word m (h + 2) 2) |}.

(** The layout the controller and the drive require: the length of the FIS, the
    alignments, the kind of FIS with its command bit, LBA addressing, and the
    direction of the data. *)
Definition hba_accepts (m : Z → Z) (base slot : Z) : Prop :=
  let t := table_at m base slot in
  let c := hba_fetch m base slot in
  (1024 | base) ∧ Z.land (m (header_at base slot)) 0x1F = 5 ∧ (128 | t) ∧
  m t = 0x27 ∧ Z.testbit (m (t + 1)) 7 = true ∧ Z.testbit (m (t + 7)) 6 = true ∧
  to_device c = (op c =? 0x35) ∧ Forall (λ e, (2 | e.1) ∧ (2 | e.2)) (table c).

(** Memory and disk are functions from addresses to bytes.  [copy dst src a b n]
    is [dst] with the [n] bytes at [a] taken from [src] at [b]. *)
Definition within (a n x : Z) : bool := (a <=? x) && (x <? a + n).
Definition copy (dst src : Z → Z) (a b n : Z) : Z → Z := λ x,
  if within a n x then src (b + (x - a)) else dst x.

(** [rem] bytes of the disk from [pos] on, to the memory the descriptors name,
    and back. *)
Fixpoint dma_in (tbl : list (Z * Z)) (d : Z → Z) (pos rem : Z) (m : Z → Z) : Z → Z :=
  match tbl with
  | [] => m
  | (a, n) :: tbl =>
      let k := Z.min n rem in dma_in tbl d (pos + k) (rem - k) (copy m d a pos k)
  end.

Fixpoint dma_out (tbl : list (Z * Z)) (m : Z → Z) (pos rem : Z) (d : Z → Z) : Z → Z :=
  match tbl with
  | [] => d
  | (a, n) :: tbl =>
      let k := Z.min n rem in dma_out tbl m (pos + k) (rem - k) (copy d m pos a k)
  end.

(** READ DMA EXT, WRITE DMA EXT and FLUSH CACHE EXT on memory and disk. *)
Definition hba_exec (lbs : Z) (c : Command) (m d : Z → Z) : (Z → Z) * (Z → Z) :=
  if op c =? 0x25 then (dma_in (table c) d (lba c * lbs) (sectors c * lbs) m, d)
  else if op c =? 0x35 then (m, dma_out (table c) m (lba c * lbs) (sectors c * lbs) d)
  else (m, d).

(** What a command may touch, whether it succeeds or not. *)
Definition touches_ram (c : Command) (x : Z) : Prop :=
  op c ≠ 0x35 ∧ Exists (λ e, within e.1 e.2 x = true) (table c).
Definition touches_disk (lbs : Z) (c : Command) (y : Z) : Prop :=
  op c = 0x35 ∧ within (lba c * lbs) (sectors c * lbs) y = true.

(** The state of a port, as its specification speaks of it: the bytes of the
    drive, the two base addresses, and where a command is: none at work, one
    issued in state [w0] on a slot, complete with its errors, acknowledged. *)
Class Hba (W : Type) := {
  disk : W → Z → Z;
  list_base : W → Z;
  fis_base : W → Z;
  idle : W → Prop;
  issued : W → Z → W → Prop;
  complete : W → Z → bool → bool → W → Prop;
  acked : W → Z → bool → bool → W → Prop
}.

Section hba.
Context {W : Type} {BU : Bus W} {HB : Hba W} (P lbs : Z).
Implicit Types w : W.

(** Memory the controller writes by itself: received FISes and the byte count in
    each command header. *)
Definition owned w (x : Z) : Prop :=
  within (fis_base w) 256 x = true ∨
  ∃ s, 0 <= s < 32 ∧ within (header_at (list_base w) s + 4) 4 x = true.

Definition same_bases w w' : Prop := list_base w' = list_base w ∧ fis_base w' = fis_base w.

Definition quiet w w' : Prop :=
  same_bases w w' ∧ (∀ y, disk w' y = disk w y) ∧ ∀ x, ¬ owned w x → ram w' x = ram w x.

Definition partial w0 (s : Z) w : Prop :=
  let c := hba_fetch (ram w0) (list_base w0) s in
  same_bases w0 w ∧
  (∀ y, ¬ touches_disk lbs c y → disk w y = disk w0 y) ∧
  ∀ x, ¬ touches_ram c x → ¬ owned w0 x → ram w x = ram w0 x.

Definition executed w0 (s : Z) w : Prop :=
  let c := hba_fetch (ram w0) (list_base w0) s in
  same_bases w0 w ∧
  (∀ y, disk w y = (hba_exec lbs c (ram w0) (disk w0)).2 y) ∧
  ∀ x, ¬ owned w0 x → ram w x = (hba_exec lbs c (ram w0) (disk w0)).1 x.

Class HbaLaws := {
  (** Between commands, accesses of the processor change nothing else. *)
  idle_read n a w : idle w → idle (mmio_read n a w).2 ∧ quiet w (mmio_read n a w).2;
  idle_write off v w :
    idle w → off ∈ [0x10; 0x18; 0x2C; 0x30] →
    idle (mmio_write 4 (P + off) v w) ∧ quiet w (mmio_write 4 (P + off) v w);
  idle_ram_write a data w :
    idle w → idle (ram_write a data w) ∧ same_bases w (ram_write a data w) ∧
    ∀ y, disk (ram_write a data w) y = disk w y;

  (** A command runs from the write to PxCI until its bit there is clear; an
      error shows in PxIS or in PxTFD. *)
  issue s w :
    idle w → 0 <= s < 32 → hba_accepts (ram w) (list_base w) s →
    issued w s (mmio_write 4 (P + 0x38) (2 ^ s) w);
  issued_read n a w0 s w :
    issued w0 s w →
    if (n =? 4) && (a =? P + 0x38) && negb (Z.testbit (mmio_read n a w).1 s)
    then ∃ fatal err, complete w0 s fatal err (mmio_read n a w).2
    else issued w0 s (mmio_read n a w).2;
  issued_partial w0 s w : issued w0 s w → partial w0 s w;
  complete_is w0 s fatal err w :
    complete w0 s fatal err w →
    bit_set (mmio_read 4 (P + 0x10) w).1 FATAL_PXIS_MASK = fatal ∧
    complete w0 s fatal err (mmio_read 4 (P + 0x10) w).2;
  complete_ack w0 s fatal err w :
    complete w0 s fatal err w → acked w0 s fatal err (mmio_write 4 (P + 0x10) U32_MAX w);
  acked_idle w0 s fatal err w :
    acked w0 s fatal err w →
    idle w ∧ bit_set (mmio_read 4 (P + 0x20) w).1 1 = err ∧
    if fatal || err then partial w0 s w else executed w0 s w
}.
End hba.

End Ahci.
