(* ===== verification/AhciTransfer.v ===== *)
(** * What the AHCI driver transfers

    Against a controller that keeps [HbaLaws], a command that [send_command]
    reports as done has moved exactly the bytes its caller asked for, and
    [read_blocks] and [write_blocks] move whole ranges of blocks. *)

From S2P Require Import Prelude Errors Virt Helpers Hardware Ahci.
Import Errors Virt Helpers Hardware Ahci.

Module AhciTransfer.

(** ** Encodings *)

Lemma word_holds m a n x :
  holds m a (le_bytes n x) → 0 <= x < 256 ^ Z.of_nat n → word m a (Z.of_nat n) = x.
Proof.
  unfold holds, word. rewrite length_le_bytes. intros -> Hx. by apply le_val_bytes.
Qed.

Lemma lba_bytes x :
  [u8 x; u8 (Z.shiftr x 8); u8 (Z.shiftr x 16); u8 (Z.shiftr x 24); u8 (Z.shiftr x 32); u8 (Z.shiftr x 40)] =
  le_bytes 6 x.
Proof.
  cbn [le_bytes]. rewrite !Z.shiftr_div_pow2, !Z.div_div by lia. done.
Qed.

Lemma le_bytes_app n k x : le_bytes (n + k) x = le_bytes n x ++ le_bytes k (x / 256 ^ Z.of_nat n).
Proof.
  revert x. induction n as [|n IH]; intros x; [by rewrite Z.div_1_r|]. cbn [le_bytes Nat.add app].
  rewrite IH, Z.div_div by lia. do 3 f_equal. rewrite Nat2Z.inj_succ, Z.pow_succ_r by lia. done.
Qed.

Lemma le_bytes_mod n x : le_bytes n (x mod 256 ^ Z.of_nat n) = le_bytes n x.
Proof.
  revert x. induction n as [|n IH]; intros x; [done|]. cbn [le_bytes].
  rewrite Nat2Z.inj_succ, Z.pow_succ_r by lia. rewrite Z.rem_mul_r by lia.
  rewrite (Z.mul_comm 256 (_ mod _)), Z.mod_add, Z.mod_mod, Z.div_add by lia.
  rewrite (Z.div_small (x mod 256)), Z.add_0_l, IH by (apply Z.mod_pos_bound; lia). done.
Qed.

(** A 64-bit address in two registers. *)
Lemma halves x : le_bytes 4 (u32 x) ++ le_bytes 4 (u32 (Z.shiftr x 32)) = le_bytes 8 x.
Proof.
  rewrite Z.shiftr_div_pow2 by lia. rewrite (le_bytes_app 4 4).
  change (2 ^ 32) with (256 ^ Z.of_nat 4). unfold u32. change 4294967296 with (256 ^ Z.of_nat 4).
  by rewrite !le_bytes_mod.
Qed.

Lemma dbc_encode old chunk :
  0 < chunk <= 2 ^ 22 → ∃ dbc, set_descriptor_byte_count old chunk = Some dbc ∧
    0 <= dbc < 2 ^ 32 ∧ Z.land dbc 0x3FFFFF + 1 = chunk.
Proof.
  intros Hc. unfold set_descriptor_byte_count. change (Z.shiftl 1 22) with (2 ^ 22).
  rewrite (proj2 (Z.ltb_lt _ _)), (proj2 (Z.leb_le _ _)) by lia. eexists. split; [done|].
  assert (Z.land (chunk - 1) 0x3FFFFF = chunk - 1) as Hl.
  { change 0x3FFFFF with (Z.ones 22). rewrite Z.land_ones by lia. apply Z.mod_small. lia. }
  split.
  - assert (Z.lor (Z.land old 0xFFC00000) (chunk - 1) = Z.land (Z.lor (Z.land old 0xFFC00000) (chunk - 1)) (Z.ones 32)) as ->.
    { rewrite Z.land_lor_distr_l, <- Z.land_assoc. rewrite <- Hl at 2. rewrite <- Z.land_assoc.
      change (Z.land 0xFFC00000 (Z.ones 32)) with 0xFFC00000.
      change (Z.land 0x3FFFFF (Z.ones 32)) with 0x3FFFFF. by rewrite Hl. }
    rewrite Z.land_ones by lia. apply Z.mod_pos_bound. lia.
  - rewrite Z.land_lor_distr_l, <- Z.land_assoc. change (Z.land 0xFFC00000 0x3FFFFF) with 0.
    rewrite Z.land_0_r, Z.lor_0_l, Hl. lia.
Qed.

(** ** Scatter lists of a contiguous buffer *)

Definition prds (data bytes : Z) : list (Z * Z) :=
  (λ i, (data + i * PRD_MAX_BYTES, Z.min (bytes - i * PRD_MAX_BYTES) PRD_MAX_BYTES)) <$>
    seqZ 0 (div_ceil bytes PRD_MAX_BYTES).

Fixpoint tiles (a n : Z) (tbl : list (Z * Z)) : Prop :=
  match tbl with
  | [] => n = 0
  | (b, k) :: tbl => b = a ∧ 0 < k <= n ∧ tiles (a + k) (n - k) tbl
  end.

Lemma copy_split dst src a b n1 n2 x :
  0 <= n1 → 0 <= n2 →
  copy (copy dst src a b n1) src (a + n1) (b + n1) n2 x = copy dst src a b (n1 + n2) x.
Proof.
  intros H1 H2. unfold copy, within.
  destruct (a + n1 <=? x) eqn:E1, (x <? a + n1 + n2) eqn:E2, (a <=? x) eqn:E3, (x <? a + n1) eqn:E4,
    (x <? a + (n1 + n2)) eqn:E5; cbn [andb]; zb; try lia; try done; f_equal; lia.
Qed.

Lemma copy_ext dst dst' src src' a b n x :
  dst x = dst' x → (∀ y, within b n y = true → src y = src' y) → copy dst src a b n x = copy dst' src' a b n x.
Proof.
  intros Hd Hs. unfold copy. destruct (within a n x) eqn:E; [|done]. apply Hs. unfold within in *. zb.
  apply andb_true_intro. split; [apply Z.leb_le|apply Z.ltb_lt]; lia.
Qed.

Lemma copy_0 dst src a b x : copy dst src a b 0 x = dst x.
Proof. unfold copy, within. destruct (_ && _) eqn:E; [|done]. zb. lia. Qed.

Lemma dma_in_ext tbl d pos rem m m' x : (∀ x, m x = m' x) → dma_in tbl d pos rem m x = dma_in tbl d pos rem m' x.
Proof.
  revert pos rem m m'. induction tbl as [|[a n] tbl IH]; intros pos rem m m' H; [apply H|].
  cbn [dma_in]. apply IH. intros y. by apply copy_ext.
Qed.

Lemma dma_out_ext tbl m pos rem d d' x : (∀ x, d x = d' x) → dma_out tbl m pos rem d x = dma_out tbl m pos rem d' x.
Proof.
  revert pos rem d d'. induction tbl as [|[a n] tbl IH]; intros pos rem d d' H; [apply H|].
  cbn [dma_out]. apply IH. intros y. by apply copy_ext.
Qed.

Lemma dma_in_tiles tbl a n d pos m x : tiles a n tbl → dma_in tbl d pos n m x = copy m d a pos n x.
Proof.
  revert a n pos m. induction tbl as [|[b k] tbl IH]; intros a n pos m H; cbn [tiles dma_in] in *.
  - subst. by rewrite copy_0.
  - destruct H as (-> & Hk & Ht). rewrite Z.min_l by lia. rewrite (IH (a + k)) by done.
    rewrite copy_split by lia. f_equal. lia.
Qed.

Lemma dma_out_tiles tbl a n m pos d x : tiles a n tbl → dma_out tbl m pos n d x = copy d m pos a n x.
Proof.
  revert a n pos d. induction tbl as [|[b k] tbl IH]; intros a n pos d H; cbn [tiles dma_out] in *.
  - subst. by rewrite copy_0.
  - destruct H as (-> & Hk & Ht). rewrite Z.min_l by lia. rewrite (IH (a + k)) by done.
    rewrite copy_split by lia. f_equal. lia.
Qed.

Lemma tiles_within tbl a n x : tiles a n tbl → Exists (λ e, within e.1 e.2 x = true) tbl → within a n x = true.
Proof.
  revert a n. induction tbl as [|[b k] tbl IH]; intros a n H He; cbn [tiles] in *; inversion He as [? ? Hx|? ? Hx]; subst.
  - destruct H as (-> & Hk & _). unfold within in *. simpl in Hx. zb.
    apply andb_true_intro. split; [apply Z.leb_le|apply Z.ltb_lt]; lia.
  - destruct H as (-> & Hk & Ht). pose proof (IH _ _ Ht Hx). unfold within in *. zb.
    apply andb_true_intro. split; [apply Z.leb_le|apply Z.ltb_lt]; lia.
Qed.

Lemma prds_tiles data bytes : 0 <= bytes → tiles data bytes (prds data bytes).
Proof.
  intros Hb. unfold prds. set (M := PRD_MAX_BYTES). assert (0 < M) as HM by done. clearbody M.
  assert (∀ k i, 0 <= i → bytes <= (i + Z.of_nat k) * M → i * M <= bytes →
    (k ≠ 0%nat → (i + Z.of_nat k - 1) * M < bytes) →
    tiles (data + i * M) (bytes - i * M)
      ((λ i, (data + i * M, Z.min (bytes - i * M) M)) <$> seqZ i (Z.of_nat k))) as G.
  { induction k as [|k IH]; intros i Hi H1 H2 H3; [rewrite Z.add_0_r in H1; change (bytes - i * M = 0); lia|].
    specialize (H3 ltac:(done)). rewrite seqZ_cons, fmap_cons by lia. cbn [tiles].
    assert (i * M <= (i + Z.of_nat (S k) - 1) * M) by (apply Z.mul_le_mono_nonneg_r; lia). split; [done|]. split; [lia|].
    replace (Z.pred (Z.of_nat (S k))) with (Z.of_nat k) by lia.
    destruct (decide (k = 0%nat)) as [->|Hk].
    - change (i + Z.of_nat 1) with (i + 1) in H1. change (bytes - i * M - Z.min (bytes - i * M) M = 0). lia.
    - assert ((i + 1) * M <= (i + Z.of_nat (S k) - 1) * M) by (apply Z.mul_le_mono_nonneg_r; lia). rewrite Z.min_r by lia.
      replace (data + i * M + M) with (data + Z.succ i * M) by lia.
      replace (bytes - i * M - M) with (bytes - Z.succ i * M) by lia.
      apply IH; [lia| |lia|intros _]; replace (Z.succ i + Z.of_nat k) with (i + Z.of_nat (S k)) by lia; lia. }
  pose proof (div_ceil_bounds bytes M HM). pose proof (div_ceil_nonneg bytes M Hb HM).
  specialize (G (Z.to_nat (div_ceil bytes M)) 0). rewrite Z2Nat.id in G by lia.
  rewrite Z.mul_0_l, Z.add_0_r, Z.sub_0_r in G. apply G; [lia|lia|lia|]. intros _. lia.
Qed.

(** ** What the controller fetches *)

Definition header_of (t n : Z) (wr : bool) : CommandHeader :=
  mkHeader (fis_info_set 0 5 wr) 0 (u16 n) 0 (u32 t) (u32 (Z.shiftr t 32)).

(** The descriptors of the table at [t] cover [bytes] bytes from [data] on, up to
    number [k]. *)
Definition prds_at (m : Z → Z) (t data bytes k : Z) : Prop := ∀ i, 0 <= i < k →
  word m (t + 0x80 + 16 * i) 8 = data + i * PRD_MAX_BYTES ∧
  Z.land (word m (t + 0x80 + 16 * i + 12) 4) 0x3FFFFF + 1 = Z.min (bytes - i * PRD_MAX_BYTES) PRD_MAX_BYTES.

Lemma header_fields m h t n wr :
  holds m h (header_bytes (header_of t n wr)) → 0 <= t < 2 ^ 64 → 0 <= n < 65536 →
  m h = fis_info_set 0 5 wr ∧ word m (h + 2) 2 = n ∧ word m (h + 8) 8 = t.
Proof.
  intros H Ht Hn. unfold header_bytes, header_of in H. cbn [fis_info cmd_info prd_table_len prd_byte_count
    cmd_table_base_addr_lower cmd_table_base_addr_upper] in H.
  rewrite (app_assoc (le_bytes 4 (u32 t))), halves in H.
  rewrite !holds_app, !length_le_bytes, holds_cons in H. destruct H as ([H0 _] & H2 & _ & H8 & _).
  cbn [length] in *. split; [done|]. split.
  - rewrite u16_small in H2 by done. by apply (word_holds _ _ 2) in H2.
  - replace (h + Z.of_nat 2 + Z.of_nat 2 + Z.of_nat 4) with (h + 8) in H8 by lia.
    by apply (word_holds _ _ 8) in H8.
Qed.

Lemma fis_fields m t cmd lba cnt :
  holds m t (to_bytes (fis_new 0x80 cmd 0 lba cnt 0 0)) → 0 <= lba < 2 ^ 48 → 0 <= cnt < 65536 →
  m t = 0x27 ∧ m (t + 1) = 0x80 ∧ m (t + 2) = cmd ∧ m (t + 7) = 0x40 ∧
  le_val [m (t + 4); m (t + 5); m (t + 6); m (t + 8); m (t + 9); m (t + 10)] = lba ∧ word m (t + 12) 2 = cnt.
Proof.
  intros H Hl Hc. unfold to_bytes, fis_new in H. cbn [fis_type port_multiplier_command command feature_low
    lba0 lba1 lba2 device lba3 lba4 lba5 feature_high fis_count icc control] in H.
  rewrite holds_app in H. destruct H as [H H12]. rewrite holds_app in H12. destruct H12 as [H12 _].
  match type of H with holds _ _ ?l => assert (∀ k, 0 <= k < 12 → m (t + k) = l !!! Z.to_nat k) as G end.
  { intros k Hk. rewrite (holds_at _ _ _ (t + k) H) by (cbn [length]; lia). do 2 f_equal. lia. }
  split_and!; [by rewrite <- (Z.add_0_r t), G|by rewrite G..| |].
  - rewrite !G by lia. transitivity (le_val (le_bytes 6 lba)); [by rewrite <- lba_bytes|by apply le_val_bytes].
  - by apply (word_holds _ _ 2) in H12.
Qed.

Lemma fetch_loaded m base slot t cmd lba cnt wr data bytes :
  let n := div_ceil bytes PRD_MAX_BYTES in
  holds m (header_at base slot) (header_bytes (header_of t n wr)) →
  holds m t (to_bytes (fis_new 0x80 cmd 0 lba cnt 0 0)) →
  prds_at m t data bytes n →
  0 <= t < 2 ^ 64 → 0 <= n < 65536 → 0 <= lba < 2 ^ 48 → 0 <= cnt < 65536 →
  (1024 | base) → (128 | t) → (2 | data) → (2 | bytes) → wr = (cmd =? 0x35) →
  table_at m base slot = t ∧
  hba_fetch m base slot = mkCommand cmd lba (if cnt =? 0 then 65536 else cnt) wr (prds data bytes) ∧
  hba_accepts m base slot.
Proof.
  intros n Hh Hf Hp Ht Hn Hl Hc Hb H128 H2 H2' Hwr.
  destruct (header_fields _ _ _ _ _ Hh Ht Hn) as (E0 & E2 & E8).
  destruct (fis_fields _ _ _ _ _ Hf Hl Hc) as (F0 & F1 & F2 & F7 & FL & FC).
  assert (hba_fetch m base slot = mkCommand cmd lba (if cnt =? 0 then 65536 else cnt) wr (prds data bytes)) as HF.
  { unfold hba_fetch, table_at. rewrite E8, F2, FL, FC, E0, E2. f_equal; [by destruct wr|].
    unfold prds. fold n. apply list_fmap_ext. intros i x Hi. apply lookup_seqZ in Hi as [-> Hi].
    destruct (Hp (0 + Z.of_nat i)) as [-> ->]; [lia|]. done. }
  split; [done|]. split; [done|]. unfold hba_accepts. rewrite HF. unfold table_at. rewrite E8, E0, F0, F1, F7.
  cbn [to_device op table]. split_and!; [done|by destruct wr|done|done|done|done|done|].
  apply Forall_forall. intros e He. unfold prds in He. apply list_elem_of_fmap in He as (i & -> & Hi).
  cbn [fst snd]. assert ((2 | PRD_MAX_BYTES)) by (by exists 1048576). split.
  - apply Z.divide_add_r; [done|]. by apply Z.divide_mul_r.
  - destruct (Z.min_spec (bytes - i * PRD_MAX_BYTES) PRD_MAX_BYTES) as [[_ ->]|[_ ->]]; [|done].
    apply Z.divide_sub_r; [done|]. by apply Z.divide_mul_r.
Qed.

(** A command depends on its header, without the byte count, and on its table. *)
Lemma fetch_ext m m' base slot :
  let h := header_at base slot in
  let t := table_at m base slot in
  (∀ x, h <= x < h + 4 ∨ h + 8 <= x < h + 16 → m' x = m x) →
  (∀ x, t <= x < t + 0x80 + 16 * Z.of_nat (length (table (hba_fetch m base slot))) → m' x = m x) →
  table_at m' base slot = t ∧ hba_fetch m' base slot = hba_fetch m base slot ∧
  (hba_accepts m base slot → hba_accepts m' base slot).
Proof.
  intros h t Hh Ht. cbn [table hba_fetch] in Ht. rewrite length_fmap, length_seqZ in Ht. fold h in Ht.
  assert (table_at m' base slot = t) as Et.
  { unfold t, table_at, word. f_equal. apply bytes_at_ext. intros x Hx. apply Hh. lia. }
  assert (word m' (h + 2) 2 = word m (h + 2) 2) as En.
  { unfold word. f_equal. apply bytes_at_ext. intros x Hx. apply Hh. lia. }
  assert (hba_fetch m' base slot = hba_fetch m base slot) as Ef.
  { unfold hba_fetch. fold h. rewrite Et. fold t. rewrite En, (Hh h) by lia. rewrite !(Ht (t + _)) by lia.
    f_equal.
    - unfold word. by erewrite (bytes_at_ext m') by (intros; apply Ht; lia).
    - apply list_fmap_ext. intros i x Hi. apply lookup_seqZ in Hi as [-> Hi]. unfold word.
      assert (∀ a n, t <= a → a + n <= t + 0x80 + 16 * (Z.of_nat i + 1) → bytes_at m' a n = bytes_at m a n) as G
        by (intros; apply bytes_at_ext; intros; apply Ht; lia).
      by rewrite !G by lia. }
  split; [done|]. split; [done|]. unfold hba_accepts. rewrite Ef, Et. fold t h.
  rewrite (Hh h), (Ht t), (Ht (t + 1)), (Ht (t + 7)) by lia. done.
Qed.

(** ** A drive and its memory *)

(** The pages of a drive, which are apart from each other. *)
Definition own (d : AHCIDrive) (x : Z) : bool :=
  within (phys (command_list d)) 4096 x || within (phys (command_tables d)) 12288 x ||
  within (phys (fis_buffer d)) 4096 x.

Definition apart (a n b k : Z) : Prop := a + n <= b ∨ b + k <= a.

Lemma within_true a n x : within a n x = true ↔ a <= x < a + n.
Proof.
  unfold within. split; [intros; zb; lia|]. intros. apply andb_true_intro.
  split; [apply Z.leb_le|apply Z.ltb_lt]; lia.
Qed.

Lemma within_false a n x : within a n x = false ↔ x < a ∨ a + n <= x.
Proof. rewrite <- not_true_iff_false, within_true. lia. Qed.

Lemma own_true d x :
  own d x = true ↔ within (phys (command_list d)) 4096 x = true ∨
    within (phys (command_tables d)) 12288 x = true ∨ within (phys (fis_buffer d)) 4096 x = true.
Proof. unfold own. rewrite !orb_true_iff. tauto. Qed.

Lemma own_false d x :
  own d x = false ↔ within (phys (command_list d)) 4096 x = false ∧
    within (phys (command_tables d)) 12288 x = false ∧ within (phys (fis_buffer d)) 4096 x = false.
Proof. unfold own. rewrite !orb_false_iff. tauto. Qed.

Section transfer.
Context {W : Type} {AD : Addresses} {BU : Bus W} {HB : Hba W} {AL : AddressLaws} {ML : MemLaws W}.
Variables (HHDM_OFFSET : Z) (hpet : Hpet) (fuel : nat) (P lbs : Z).
Context {CL : ClockLaws W hpet} {HL : HbaLaws P lbs}.
Hypothesis hhdm_ok : 2 ^ 64 - 2 ^ 47 <= HHDM_OFFSET <= 2 ^ 64 - 2 ^ 46.
Implicit Types (w : W) (d : AHCIDrive).

(** A run of [n] pages in the direct map. *)
Definition page_ok (n : Z) (p : PhysPage) : Prop :=
  count p = n ∧ start p = phys p + HHDM_OFFSET ∧ 0 <= phys p ∧ (4096 | phys p) ∧
  phys p + n * 4096 < 2 ^ 46.

Definition drive_ok d : Prop :=
  0 <= port_id d < 32 ∧ P = rstart (bar d) + 0x100 + port_id d * 0x80 ∧
  0x100 + port_id d * 0x80 + 0x80 <= rsize (bar d) ∧
  2 ^ 64 - 2 ^ 47 <= rstart (bar d) ∧ P + 0x80 <= 2 ^ 64 ∧
  0 <= ncs d < 32 ∧
  page_ok 1 (command_list d) ∧ page_ok 3 (command_tables d) ∧ page_ok 1 (fis_buffer d) ∧
  apart (phys (command_list d)) 4096 (phys (command_tables d)) 12288 ∧
  apart (phys (command_list d)) 4096 (phys (fis_buffer d)) 4096 ∧
  apart (phys (command_tables d)) 12288 (phys (fis_buffer d)) 4096.

(** The port is at rest and knows the pages of the drive. *)
Definition at_rest d w : Prop :=
  idle w ∧ list_base w = phys (command_list d) ∧ fis_base w = phys (fis_buffer d).

(** From [w0] to [w] nothing has changed but the pages of the drive. *)
Definition frame d w0 w : Prop :=
  (∀ y, disk w y = disk w0 y) ∧ ∀ x, own d x = false → ram w x = ram w0 x.

Lemma frame_refl d w : frame d w w.
Proof. done. Qed.

Lemma frame_trans d w0 w1 w2 : frame d w0 w1 → frame d w1 w2 → frame d w0 w2.
Proof. intros [A1 B1] [A2 B2]. split; intros; [rewrite A2; apply A1|rewrite B2 by done; by apply B1]. Qed.

(** Memory the controller owns belongs to the drive. *)
Lemma owned_own d w x : at_rest d w → drive_ok d → own d x = false → ¬ owned w x.
Proof.
  intros (_ & Hl & Hf) _ Hx. apply own_false in Hx as (H1 & H2 & H3). unfold owned. rewrite Hl, Hf.
  apply within_false in H1, H3. unfold header_at. intros [H|(k & Hk & H)]; apply within_true in H; lia.
Qed.

Lemma quiet_frame d w w' :
  drive_ok d → at_rest d w → idle w' → quiet w w' → at_rest d w' ∧ frame d w w'.
Proof.
  intros Hd Hr Hi ([Hl Hf] & Hdk & Hm). split; [|split; [done|]].
  - destruct Hr as (_ & ? & ?). split_and!; [done|congruence..].
  - intros x Hx. apply Hm. by apply (owned_own d).
Qed.

Lemma rest_ram_write d w a data :
  drive_ok d → at_rest d w → (∀ x, a <= x < a + Z.of_nat (length data) → own d x = true) →
  at_rest d (ram_write a data w) ∧ frame d w (ram_write a data w).
Proof.
  intros Hd (Hi & Hl & Hf) Ho. destruct (idle_ram_write P lbs a data w Hi) as (Hi' & [Hl' Hf'] & Hdk).
  split; [split_and!; [done|congruence..]|]. split; [done|]. intros x Hx. apply ram_write_other.
  destruct (decide (a <= x < a + Z.of_nat (length data))) as [H|]; [|lia].
  specialize (Ho x H). congruence.
Qed.

Lemma wp_poke {E} v data (Q : unit → W → Prop) (R : E → W → Prop) w :
  Q tt (ram_write (v - HHDM_OFFSET) data w) → wp (poke HHDM_OFFSET v data) Q R w.
Proof. done. Qed.

Lemma table_ptr_wp d off (Q : Z → W → Prop) (R : StorageError → W → Prop) w :
  drive_ok d → 0 <= off < 12288 → Q (start (command_tables d) + off) w → wp (table_ptr d off) Q R w.
Proof.
  intros (_ & _ & _ & _ & _ & _ & _ & (_ & Hs & Hp & _ & Hb) & _) Ho HQ. unfold table_ptr. apply wp_bind.
  eapply wp_opt_panic; [apply virt_add_ok; [lia|unfold canonical; lia]|].
  destruct (_ =? 0) eqn:E; zb; [lia|by apply wp_ret].
Qed.

Lemma page_write_wp n p off data (Q : unit → W → Prop) (R : StorageError → W → Prop) w :
  page_ok n p → 0 <= off → off + Z.of_nat (length data) <= n * 4096 →
  Q tt (ram_write (phys p + off) data w) →
  wp (map_errM (λ _, CommandFailed) (write_data HHDM_OFFSET 1 p off data)) Q R w.
Proof.
  intros (Hc & Hs & Hp & _ & Hb) Ho Hl HQ. apply wp_map_errM. unfold write_data. rewrite Hc.
  rewrite !u64_small by (unfold in_u64, PAGE_SIZE; lia).
  destruct (_ <? _) eqn:E; zb; [unfold PAGE_SIZE in E; lia|]. apply wp_bind.
  eapply wp_opt_panic; [apply virt_add_ok; [lia|unfold canonical; lia]|].
  assert (is_multiple_of off 1 = true) as -> by (apply is_multiple_of_spec; [done|apply Z.divide_1_l]).
  apply wp_poke. rewrite Hs. by replace (phys p + HHDM_OFFSET + off - HHDM_OFFSET) with (phys p + off) by lia.
Qed.

(** ** Building a command *)

Definition slot_table d (slot : Z) : Z := phys (command_tables d) + slot * 384.

Lemma table_own d slot x :
  0 <= slot < 32 → slot_table d slot <= x < slot_table d slot + 384 → own d x = true.
Proof.
  intros Hs Hx. unfold own, slot_table in *. rewrite (proj2 (within_true (phys (command_tables d)) 12288 x)) by lia.
  by rewrite orb_true_r.
Qed.

(** After [k] descriptors. *)
Definition building d (slot : Z) (fis : list Z) (data bytes : Z) w0 (k : nat) (r : Z * Z) w : Prop :=
  at_rest d w ∧ frame d w0 w ∧ holds (ram w) (slot_table d slot) fis ∧
  prds_at (ram w) (slot_table d slot) data bytes (Z.of_nat k) ∧
  r = (bytes - Z.min bytes (Z.of_nat k * PRD_MAX_BYTES), data + Z.min bytes (Z.of_nat k * PRD_MAX_BYTES)).

Lemma prds_at_other m m' t data bytes k :
  (∀ x, t + 0x80 <= x < t + 0x80 + 16 * k → m' x = m x) →
  prds_at m t data bytes k → prds_at m' t data bytes k.
Proof.
  intros Hm Hp i Hi. unfold word. erewrite !(bytes_at_ext m' m) by (intros; apply Hm; lia). by apply Hp.
Qed.

Lemma set_prd_wp d slot fis data bytes w0 k r w R :
  drive_ok d → 0 <= slot < 32 → (length fis <= 128)%nat → 0 <= data → 0 < bytes → data + bytes < 2 ^ 52 →
  (k < 16)%nat → Z.of_nat k * PRD_MAX_BYTES < bytes →
  building d slot fis data bytes w0 k r w →
  wp (set_prd HHDM_OFFSET d slot r (Z.of_nat k)) (building d slot fis data bytes w0 (S k)) R w.
Proof.
  intros Hd Hs Hlf Hda Hb Hdb Hk Hkb (Hr & Hfr & Hf & Hp & ->). unfold set_prd. rewrite Z.min_r by lia.
  pose proof Hd as (_ & _ & _ & _ & _ & _ & _ & (_ & Hst & Hph & _ & _) & _).
  set (chunk := Z.min _ PRD_MAX_BYTES). unfold PRD_MAX_BYTES in *.
  assert (slot ⊠ PRD_STRIDE ⊞ 0x80 ⊞ Z.of_nat k ⊠ 16 = slot * 384 + 0x80 + Z.of_nat k * 16) as ->.
  { change PRD_STRIDE with 384. rewrite (u64_small (slot * 384)), (u64_small (Z.of_nat k * 16)) by (unfold in_u64; lia).
    rewrite (u64_small (slot * 384 + 0x80)) by (unfold in_u64; lia). apply u64_small. unfold in_u64. lia. }
  apply wp_bind, table_ptr_wp; [done|lia|].
  set (e := slot_table d slot + 0x80 + 16 * Z.of_nat k).
  replace (start (command_tables d) + (slot * 384 + 0x80 + Z.of_nat k * 16)) with (e + HHDM_OFFSET)
    by (unfold e, slot_table; lia).
  apply wp_bind, wp_poke. rewrite Z.add_simpl_r. set (w1 := ram_write e _ w).
  assert (∀ x, e <= x < e + 16 → own d x = true) as He by (intros; apply (table_own d slot); unfold e in *; lia).
  destruct (rest_ram_write d w e (le_bytes 8 (data + Z.of_nat k * 2097152)) Hd Hr
    ltac:(intros; apply He; rewrite length_le_bytes in *; lia)) as [Hr1 Hf1]. fold w1 in Hr1, Hf1.
  apply wp_bind, wp_gets.
  destruct (dbc_encode (le_val (bytes_at (ram w1) (e + HHDM_OFFSET + 12 - HHDM_OFFSET) 4)) (u32 chunk)) as (dbc & -> & Hdr & Hdbc).
  { unfold chunk. rewrite u32_small by (unfold in_u32; lia). lia. }
  apply wp_bind, wp_ret, wp_bind, wp_poke.
  replace (e + HHDM_OFFSET + 12 - HHDM_OFFSET) with (e + 12) by lia.
  destruct (rest_ram_write d w1 (e + 12) (le_bytes 4 dbc) Hd Hr1
    ltac:(intros; apply He; rewrite length_le_bytes in *; lia)) as [Hr2 Hf2].
  set (w2 := ram_write (e + 12) _ w1) in *.
  assert (∀ x, x < e ∨ e + 16 <= x → ram w2 x = ram w x) as Hother.
  { intros x Hx. unfold w2, w1. rewrite !ram_write_other; rewrite ?length_le_bytes; [done|lia..]. }
  apply wp_ret. split_and!; [done|by do 2 (eapply frame_trans; [done|])| | |].
  - apply (holds_ext (ram w)); [|done]. intros x Hx. apply Hother. unfold e. lia.
  - intros i Hi. destruct (decide (i = Z.of_nat k)) as [->|Hne].
    + fold e. unfold PRD_MAX_BYTES. split.
      * apply (word_holds _ _ 8); [|change (256 ^ Z.of_nat 8) with (2 ^ 64); lia]. unfold w2. apply holds_other; [rewrite !length_le_bytes; lia|].
        apply ram_write_holds.
      * rewrite (word_holds _ _ 4 dbc); [|apply ram_write_holds|by change (256 ^ Z.of_nat 4) with (2 ^ 32)]. rewrite Hdbc.
        unfold chunk. apply u32_small. unfold in_u32. lia.
    + apply (prds_at_other (ram w) _ _ _ _ (Z.of_nat k)); [|done|lia].
      intros x Hx. apply Hother. unfold e. lia.
  - subst chunk. unfold PRD_MAX_BYTES. clear -Hda Hb Hdb Hkb. f_equal; rewrite u64_small; unfold in_u64; lia.
Qed.

(** The command [c] is in memory on [slot]. *)
Definition loaded d (slot : Z) (c : Command) w : Prop :=
  at_rest d w ∧ table_at (ram w) (list_base w) slot = slot_table d slot ∧
  hba_fetch (ram w) (list_base w) slot = c ∧ hba_accepts (ram w) (list_base w) slot.

Lemma length_to_bytes f : length (to_bytes f) = 20%nat.
Proof. done. Qed.

Lemma length_header h : length (header_bytes h) = 32%nat.
Proof. done. Qed.

(** The FIS is in place before the descriptors are written. *)
Lemma begin_command d slot fis data bytes w :
  drive_ok d → at_rest d w → 0 <= slot < 32 → 0 <= bytes →
  let t := slot_table d slot in
  building d slot (to_bytes fis) data bytes w 0 (bytes, data)
    (ram_write (t + 20) (replicate 44 0) (ram_write t (to_bytes fis) (ram_write t table_header_zeroed w))).
Proof.
  intros Hd Hr Hs Hb t. pose proof (table_own d slot) as Ho. fold t in Ho.
  destruct (rest_ram_write d w t table_header_zeroed Hd Hr) as [Hr1 Hf1].
  { intros x Hx. apply (Ho x Hs). change (Z.of_nat (length _)) with 128 in Hx. lia. }
  destruct (rest_ram_write d _ t (to_bytes fis) Hd Hr1) as [Hr2 Hf2].
  { intros x Hx. apply (Ho x Hs). rewrite length_to_bytes in Hx. lia. }
  destruct (rest_ram_write d _ (t + 20) (replicate 44 0) Hd Hr2) as [Hr3 Hf3].
  { intros x Hx. apply (Ho x Hs). change (Z.of_nat (length _)) with 44 in Hx. lia. }
  split_and!; [done|by do 2 (eapply frame_trans; [done|])| | |].
  - apply holds_other; [rewrite length_to_bytes; lia|]. apply ram_write_holds.
  - intros i Hi. lia.
  - f_equal; lia.
Qed.

Lemma build_command_wp d slot cmd lba cnt data bytes wr w R :
  drive_ok d → at_rest d w → 0 <= slot < 32 → 0 <= data → 0 <= bytes <= PRDS_PER_TABLE * PRD_MAX_BYTES →
  data + bytes < 2 ^ 52 → 0 <= lba < 2 ^ 48 → 0 <= cnt < 65536 → (2 | data) → (2 | bytes) →
  wr = (cmd =? 0x35) →
  wp (build_command HHDM_OFFSET d slot (fis_new 0x80 cmd 0 lba cnt 0 0) data bytes wr)
    (λ _ w', frame d w w' ∧
      loaded d slot (mkCommand cmd lba (if cnt =? 0 then 65536 else cnt) wr (prds data bytes)) w') R w.
Proof.
  intros Hd Hr Hs Hda Hb Hdb Hl Hc H2 H2' Hwr. pose proof Hd as (_ & _ & _ & _ & _ & _ & Hcl & Hct & _ & Hap & _).
  pose proof Hct as (_ & Hst & Hph & Hal & Hle). pose proof Hcl as (_ & _ & Hph' & Hal' & Hle').
  set (fis := fis_new _ _ _ _ _ _ _). set (t := slot_table d slot). unfold build_command.
  assert (slot ⊠ PRD_STRIDE = slot * 384) as -> by (apply u64_small; unfold in_u64, PRD_STRIDE, PRDS_PER_TABLE; lia).
  rewrite (u64_small (phys (command_tables d) + slot * 384)) by (unfold in_u64; lia). fold (slot_table d slot) t.
  apply wp_bind, (page_write_wp 3); [done|lia|change (Z.of_nat (length _)) with 128; lia|].
  apply wp_bind, table_ptr_wp; [done|lia|]. apply wp_bind, wp_poke, wp_bind, wp_poke.
  replace (start (command_tables d) + slot * 384 - HHDM_OFFSET) with t by (unfold t, slot_table; lia).
  replace (start (command_tables d) + slot * 384 + 20 - HHDM_OFFSET) with (t + 20) by (unfold t, slot_table; lia).
  pose proof (begin_command d slot fis data bytes w Hd Hr Hs ltac:(lia)) as Hb0.
  pose proof (div_ceil_bounds bytes PRD_MAX_BYTES ltac:(done)) as Hn.
  pose proof (div_ceil_nonneg bytes PRD_MAX_BYTES ltac:(lia) ltac:(done)) as Hn0.
  set (n := div_ceil bytes PRD_MAX_BYTES) in *. assert (n <= 16) by (unfold PRD_MAX_BYTES, PRDS_PER_TABLE in *; lia).
  apply wp_bind. eapply wp_mono; [apply (wp_foldM (building d slot (to_bytes fis) data bytes w))|..]; [done| | |].
  - intros k i r w1 Hk HI. apply lookup_seqZ in Hk as [-> Hk]. rewrite Z.add_0_l.
    apply set_prd_wp; [done|done|rewrite length_to_bytes; lia|done|unfold PRD_MAX_BYTES in *; lia|done|lia| |done].
    unfold PRD_MAX_BYTES in *. lia.
  - intros r w1 (Hr1 & Hf1 & Hh1 & Hp1 & _). rewrite length_seqZ, Z2Nat.id in Hp1 by lia.
    assert (32 ⊠ slot = 32 * slot) as -> by (apply u64_small; unfold in_u64; lia).
    apply (page_write_wp 1); [done|lia|rewrite length_header; lia|].
    set (hdr := mkHeader _ _ _ _ _ _). set (h := phys (command_list d) + 32 * slot).
    destruct (rest_ram_write d w1 h (header_bytes hdr) Hd Hr1) as [Hr2 Hf2].
    { intros x Hx. rewrite length_header in Hx. unfold own.
      by rewrite (proj2 (within_true (phys (command_list d)) 4096 x)) by (unfold h in *; lia). }
    split; [by eapply frame_trans|]. split; [done|].
    pose proof Hr2 as (_ & -> & _). change hdr with (header_of t n wr).
    assert (∀ x, t <= x < t + 384 → ram (ram_write h (header_bytes (header_of t n wr)) w1) x = ram w1 x) as Ho.
    { intros x Hx. apply ram_write_other. rewrite length_header. unfold apart, h, t, slot_table in *. lia. }
    apply (fetch_loaded _ _ _ t); [apply ram_write_holds| | |..];
      try done; try (unfold t, slot_table; lia); try lia.
    + apply (holds_ext (ram w1)); [|done]. rewrite length_to_bytes. intros x Hx. apply Ho. lia.
    + apply (prds_at_other (ram w1)); [|done]. intros x Hx. apply Ho. lia.
    + by apply (Z.divide_trans _ 4096); [exists 4|].
    + unfold t, slot_table. apply Z.divide_add_r; [by apply (Z.divide_trans _ 4096); [exists 32|]|].
      apply Z.divide_mul_r. by exists 3.
  - done.
Qed.

(** ** Running a command *)

Lemma prds_length data bytes :
  0 <= bytes <= PRDS_PER_TABLE * PRD_MAX_BYTES → (length (prds data bytes) <= 16)%nat.
Proof.
  intros Hb. unfold prds. rewrite length_fmap, length_seqZ.
  pose proof (div_ceil_bounds bytes PRD_MAX_BYTES ltac:(done)). unfold PRDS_PER_TABLE, PRD_MAX_BYTES in *. lia.
Qed.

Lemma quiet_trans w0 w1 w2 : quiet w0 w1 → quiet w1 w2 → quiet w0 w2.
Proof.
  intros ([L1 F1] & D1 & R1) ([L2 F2] & D2 & R2). split; [split; congruence|]. split.
  - intros y. by rewrite D2.
  - intros x Hx. rewrite R2; [by apply R1|]. unfold owned. by rewrite L1, F1.
Qed.

Lemma loaded_quiet d slot c w w' :
  drive_ok d → 0 <= slot < 32 → (length (table c) <= 16)%nat → loaded d slot c w → idle w' → quiet w w' →
  loaded d slot c w'.
Proof.
  intros Hd Hs Hlen (Hr & Ht & Hc & Ha) Hi Hq.
  destruct (quiet_frame d w w' Hd Hr Hi Hq) as [Hr' _]. split; [done|].
  pose proof Hr as (_ & El & Ef). pose proof Hr' as (_ & El' & _). rewrite El' in *. rewrite El in *.
  destruct Hq as (_ & _ & Hm).
  pose proof Hd as (_ & _ & _ & _ & _ & _ & _ & _ & _ & H1 & H2 & H3). unfold apart in *.
  destruct (fetch_ext (ram w) (ram w') (phys (command_list d)) slot) as (E1 & E2 & E3).
  - intros x Hx. apply Hm. unfold owned, header_at in *. rewrite El, Ef.
    intros [H|(k & Hk & H)]; apply within_true in H; lia.
  - intros x Hx. apply Hm. rewrite Hc, Ht in Hx. unfold owned, header_at, slot_table in *. rewrite El, Ef.
    intros [H|(k & Hk & H)]; apply within_true in H; lia.
  - rewrite E1, E2. split_and!; [done|done|by apply E3].
Qed.

Definition port_at : PortRegisters :=
  mkPort P (P + 4) (P + 8) (P + 0xC) (P + 0x10) (P + 0x18) (P + 0x20) (P + 0x24) (P + 0x28) (P + 0x2C)
    (P + 0x30) (P + 0x34) (P + 0x38).

(** The registers of a port lie in the window. *)
Definition port_fits (r : VirtualRegion) (port : Z) : Prop :=
  0 <= port < 32 ∧ P = rstart r + 0x100 + port * 0x80 ∧ 0x100 + port * 0x80 + 0x80 <= rsize r ∧
  2 ^ 64 - 2 ^ 47 <= rstart r ∧ P + 0x80 <= 2 ^ 64.

Lemma reg_eq r port off w :
  port_fits r port → 0 <= off < 0x80 → (4 | off) →
  some (register 4 r (0x100 ⊞ (port ⊠ 0x80) ⊞ off)) w = (Ok (P + off), w).
Proof.
  intros (Hp & HP & Hs & Hst & HPe) Ho H4.
  assert (0x100 ⊞ (port ⊠ 0x80) ⊞ off = 0x100 + port * 0x80 + off) as ->.
  { rewrite (u64_small (port * 0x80)), (u64_small (_ + port * _)), u64_small by (unfold in_u64; lia). done. }
  unfold some, register. rewrite (proj2 (is_multiple_of_spec _ 4 ltac:(lia))).
  2:{ apply Z.divide_add_r; [|done]. apply Z.divide_add_r; [by exists 64|apply Z.divide_mul_r; by exists 32]. }
  cbn [negb]. rewrite u64_small by (unfold in_u64; destruct H4; lia).
  assert ((rsize r <? 0x100 + port * 0x80 + off + 4) = false) as -> by (apply Z.ltb_ge; destruct H4; lia).
  rewrite virt_add_ok by (unfold canonical; lia). cbn. by rewrite HP, !Z.add_assoc.
Qed.

Lemma port_new_eq r port w : port_fits r port → port_new r port w = (Ok port_at, w).
Proof.
  intros Hd. unfold port_new, port_at.
  do 13 (erewrite bind_Ok; [|apply reg_eq; [done|lia|by apply Z.mod_divide]]). by rewrite Z.add_0_r.
Qed.

Lemma drive_fits d : drive_ok d → port_fits (bar d) (port_id d).
Proof. intros (? & ? & ? & ? & ? & _). unfold port_fits. tauto. Qed.

Lemma land_bit v i : 0 <= i → (Z.land (Z.shiftr v i) 1 =? 1) = Z.testbit v i.
Proof.
  intros Hi. rewrite <- (Z.add_0_l i) at 2. rewrite <- Z.shiftr_spec by lia.
  change 1 with (Z.ones 1) at 1. rewrite Z.land_ones, <- Z.bit0_mod by lia. change (2 ^ 1) with 2.
  by destruct (Z.testbit _ _).
Qed.

(** Waiting on a register between commands. *)
Hypothesis hpet_apart : regs hpet + 0xF0 < P ∨ P + 0x80 <= regs hpet + 0xF0.
Hypothesis enough_fuel : enough hpet fuel TIMEOUT.

Lemma wait_idle {E} off cond (R : E → W → Prop) (Q : bool → W → Prop) w :
  0 <= off < 0x80 → idle w → (∀ b w', idle w' → quiet w w' → Q b w') →
  wp (wait_reg hpet fuel (P + off) cond TIMEOUT) Q R w.
Proof.
  intros Ho Hi HQ. set (I := λ w', idle w' ∧ quiet w w').
  assert (∀ n a w', I w' → I (mmio_read n a w').2) as Hk.
  { intros n a w' [Hi' Hq]. destruct (idle_read P lbs n a w' Hi') as [H1 H2]. split; [done|]. by eapply quiet_trans. }
  eapply wp_mono; [apply (wait_timeout_wp hpet I I)|..].
  - intros w'. apply Hk.
  - exact enough_fuel.
  - split; [done|]. by split_and!.
  - intros w' Hw. apply wp_bind, wp_read_volatile, wp_ret. destruct (cond _); [|by apply Hk].
    split; [by apply Hk|]. apply (counter_read (h := hpet)). lia.
  - intros b w' H. apply HQ; by destruct b, H.
  - done.
Qed.

(** Waiting for a command to complete. *)
Lemma wait_complete {E} w0 s (R : E → W → Prop) (Q : bool → W → Prop) w :
  0 <= s → issued w0 s w → (∀ fatal err w', complete w0 s fatal err w' → Q true w') →
  (∀ w', issued w0 s w' → Q false w') →
  wp (wait_reg hpet fuel (P + 0x38) (λ v, Z.land (Z.shiftr v s) 1 =? 1) TIMEOUT) Q R w.
Proof.
  intros Hs Hi HT HF.
  eapply wp_mono; [apply (wait_timeout_wp hpet (issued w0 s) (λ w', ∃ f e, complete w0 s f e w'))|..].
  - intros w' Hw. pose proof (issued_read P lbs 8 (regs hpet + 0xF0) w0 s w' Hw) as H. done.
  - exact enough_fuel.
  - done.
  - intros w' Hw. apply wp_bind, wp_read_volatile, wp_ret. rewrite land_bit by done.
    pose proof (issued_read P lbs 4 (P + 0x38) w0 s w' Hw) as H. rewrite !Z.eqb_refl in H. cbn [andb] in H.
    destruct (Z.testbit _ _); cbn [negb] in H; [|done]. split; [done|]. apply (counter_read (h := hpet)). lia.
  - intros [] w' H; [by destruct H as (f & e & ?); eapply HT|by apply HF].
  - done.
Qed.

(** A command that was carried out, and one that may have failed halfway. *)
Definition moved d (cmd lba data bytes : Z) w w' : Prop :=
  (∀ y, disk w' y = if cmd =? 0x35 then copy (disk w) (ram w) (lba * lbs) data bytes y else disk w y) ∧
  (∀ x, own d x = false →
    ram w' x = if cmd =? 0x25 then copy (ram w) (disk w) data (lba * lbs) bytes x else ram w x).

Definition bounded d (cmd lba data bytes : Z) w w' : Prop :=
  (∀ y, (cmd ≠ 0x35 ∨ within (lba * lbs) bytes y = false) → disk w' y = disk w y) ∧
  (∀ x, own d x = false → (cmd ≠ 0x25 ∨ within data bytes x = false) → ram w' x = ram w x).

Lemma frame_bounded d cmd lba data bytes w w' : frame d w w' → bounded d cmd lba data bytes w w'.
Proof. intros [Hd Hm]. split; auto. Qed.

(** The commands the driver sends, with the bytes they move. *)
Definition valid (cmd lba cnt data bytes : Z) : Prop :=
  0 <= lba < 2 ^ 48 ∧ 0 <= cnt < 65536 ∧ 0 <= data ∧ 0 <= bytes <= PRDS_PER_TABLE * PRD_MAX_BYTES ∧
  data + bytes < 2 ^ 52 ∧ (2 | data) ∧ (2 | bytes) ∧
  ((cmd = 0x25 ∨ cmd = 0x35) ∧ 0 < cnt ∧ bytes = cnt * lbs ∨ cmd = 0xEA ∧ bytes = 0).

Definition cmd_of (cmd lba cnt data bytes : Z) : Command :=
  mkCommand cmd lba (if cnt =? 0 then 65536 else cnt) (cmd =? 0x35) (prds data bytes).

Lemma partial_bounded d slot cmd lba cnt data bytes w w1 w' :
  drive_ok d → valid cmd lba cnt data bytes → frame d w w1 → loaded d slot (cmd_of cmd lba cnt data bytes) w1 →
  partial lbs w1 slot w' → bounded d cmd lba data bytes w w'.
Proof.
  intros Hd (_ & _ & _ & Hb & _ & _ & _ & Hv) [Fd Fm] (Hr & _ & Hc & _) (_ & Pd & Pm). rewrite Hc in Pd, Pm. split.
  - intros y Hy. rewrite Pd; [apply Fd|]. intros [Ho Hw]. cbn [op Ahci.lba sectors cmd_of] in Ho, Hw.
    destruct Hv as [(_ & Hcnt & ->)|[-> _]]; [|lia]. rewrite (proj2 (Z.eqb_neq cnt 0)) in Hw by lia.
    destruct Hy; congruence.
  - intros x Hx Hy. rewrite Pm; [by apply Fm| |by apply (owned_own d)]. intros [Ho He].
    cbn [op table cmd_of] in Ho, He. pose proof (tiles_within _ _ _ _ (prds_tiles data bytes ltac:(lia)) He) as Hw.
    destruct Hv as [([-> | ->] & _)|[-> ->]]; [destruct Hy; congruence|lia|]. apply within_true in Hw. lia.
Qed.

Lemma executed_moved d slot cmd lba cnt data bytes w w1 w' :
  drive_ok d → valid cmd lba cnt data bytes → (∀ x, within data bytes x = true → own d x = false) →
  frame d w w1 → loaded d slot (cmd_of cmd lba cnt data bytes) w1 →
  executed lbs w1 slot w' → moved d cmd lba data bytes w w'.
Proof.
  intros Hd (_ & _ & _ & Hb & _ & _ & _ & Hv) Hda [Fd Fm] (Hr & _ & Hc & _) (_ & Ed & Em). rewrite Hc in Ed, Em.
  pose proof (prds_tiles data bytes ltac:(lia)) as Ht.
  unfold hba_exec in Ed, Em. cbn [op Ahci.lba sectors table cmd_of] in Ed, Em.
  destruct Hv as [(Hop & Hcnt & ->)|[-> ->]].
  - rewrite (proj2 (Z.eqb_neq cnt 0)) in Ed, Em by lia. destruct Hop as [-> | ->]; cbn [Z.eqb Pos.eqb fst snd] in *; split.
    + intros y. rewrite Ed. apply Fd.
    + intros x Hx. rewrite Em by (by apply (owned_own d)). cbn [Z.eqb Pos.eqb]. rewrite (dma_in_tiles _ data) by done.
      apply copy_ext; [by apply Fm|]. intros. apply Fd.
    + intros y. rewrite Ed. cbn [Z.eqb Pos.eqb]. rewrite (dma_out_tiles _ data) by done.
      apply copy_ext; [apply Fd|]. intros x Hx. by apply Fm, Hda.
    + intros x Hx. rewrite Em by (by apply (owned_own d)). by apply Fm.
  - split; [intros y; rewrite Ed; apply Fd|]. intros x Hx. rewrite Em by (by apply (owned_own d)). by apply Fm.
Qed.

Lemma find_slot_wp {E} d (Q : option Z → W → Prop) (R : E → W → Prop) w :
  drive_ok d → idle w →
  (∀ w', idle w' → quiet w w' → Q None w' ∧ ∀ s, 0 <= s < 32 → Q (Some s) w') →
  wp (find_slot port_at (ncs d)) Q R w.
Proof.
  intros (_ & _ & _ & _ & _ & Hn & _) Hi HQ. unfold find_slot.
  apply wp_bind, wp_read_volatile, wp_bind, wp_read_volatile, wp_ret.
  destruct (idle_read P lbs 4 (sact port_at) w Hi) as [Hi1 Hq1].
  destruct (idle_read P lbs 4 (ci port_at) _ Hi1) as [Hi2 Hq2].
  destruct (HQ _ Hi2 (quiet_trans _ _ _ Hq1 Hq2)) as [HN HS].
  destruct (List.find _ _) as [s|] eqn:E1; [|done]. apply HS. apply List.find_some in E1 as [E1 _].
  apply list_elem_of_In, elem_of_seqZ in E1. lia.
Qed.

(** The second half: the command is in memory and goes to the controller. *)
Lemma run_command_wp d slot cmd lba cnt data bytes w w1 :
  drive_ok d → 0 <= slot < 32 → valid cmd lba cnt data bytes →
  (∀ x, within data bytes x = true → own d x = false) →
  frame d w w1 → loaded d slot (cmd_of cmd lba cnt data bytes) w1 →
  wp (write_volatile 4 (P + 0x38) (u32 (Z.shiftl 1 slot));;
      b ← wait_reg hpet fuel (P + 0x38) (λ v, Z.land (Z.shiftr v slot) 1 =? 1) TIMEOUT;
      ensure b Timeout;;
      is_v ← read_volatile 4 (P + 0x10);
      write_volatile 4 (P + 0x10) U32_MAX;;
      if bit_set is_v FATAL_PXIS_MASK then fail CommandFailed
      else
        tfd_v ← read_volatile 4 (P + 0x20);
        if bit_set tfd_v 1 then fail CommandFailed else mret tt)
    (λ _ w', at_rest d w' ∧ moved d cmd lba data bytes w w')
    (λ _ w', bounded d cmd lba data bytes w w') w1.
Proof.
  intros Hd Hs Hv Hda Hf Hl. pose proof Hl as ((Hi & Ell & Elf) & _ & _ & Ha).
  apply wp_bind, wp_write_volatile. rewrite u32_small, Z.shiftl_1_l.
  2:{ rewrite Z.shiftl_1_l. unfold in_u32. change 4294967296 with (2 ^ 32).
      split; [apply Z.pow_nonneg; lia|apply Z.pow_lt_mono_r; lia]. }
  apply wp_bind, (wait_complete w1 slot); [lia|by apply (issue P lbs)| |].
  2:{ intros w' Hw. apply (issued_partial P lbs) in Hw. by eapply partial_bounded. }
  intros fatal err w2 Hc. apply wp_bind, wp_ret, wp_bind, wp_read_volatile, wp_bind, wp_write_volatile.
  destruct (complete_is P lbs _ _ _ _ _ Hc) as [Efat Hc1].
  destruct (acked_idle P lbs _ _ _ _ _ (complete_ack P lbs _ _ _ _ _ Hc1)) as (Hi2 & Eerr & Hout).
  set (w3 := mmio_write _ _ _ _) in *. rewrite Efat. destruct fatal; [by eapply partial_bounded|].
  apply wp_bind, wp_read_volatile. rewrite Eerr. cbn [orb] in Hout.
  destruct (idle_read P lbs 4 (P + 0x20) w3 Hi2) as [Hi3 Hq].
  assert (at_rest d w3) as Hr3.
  { split; [done|]. destruct err; destruct Hout as [[-> ->] _]; done. }
  destruct (quiet_frame d _ _ Hd Hr3 Hi3 Hq) as [Hr4 [Fd Fm]]. destruct err.
  - eapply partial_bounded in Hout; [|done..]. destruct Hout as [Bd Bm].
    split; intros; [rewrite Fd; by apply Bd|rewrite Fm by done; by apply Bm].
  - apply wp_ret. split; [done|]. eapply executed_moved in Hout; [|done..]. destruct Hout as [Bd Bm].
    split; intros; [rewrite Fd; by apply Bd|rewrite Fm by done; by apply Bm].
Qed.

Lemma send_command_wp d cmd lba cnt data bytes w :
  drive_ok d → at_rest d w → valid cmd lba cnt data bytes →
  (∀ x, within data bytes x = true → own d x = false) →
  wp (send_command HHDM_OFFSET hpet fuel d (fis_new 0x80 cmd 0 lba cnt 0 0) data bytes (cmd =? 0x35))
    (λ _ w', at_rest d w' ∧ moved d cmd lba data bytes w w')
    (λ _ w', bounded d cmd lba data bytes w w') w.
Proof.
  intros Hd Hr Hv Hda. pose proof Hr as (Hi & _). pose proof Hv as (Hl & Hc & Hda0 & Hb & Hdb & H2 & H2' & _).
  unfold send_command. eapply wp_step; [unfold or_err, map_errM; rewrite port_new_eq; [done|by apply drive_fits]|].
  apply wp_bind, (find_slot_wp d); [done..|]. intros w1 Hi1 Hq1.
  destruct (quiet_frame d w w1 Hd Hr Hi1 Hq1) as [Hr1 Hf1].
  split; [by apply frame_bounded|]. intros slot Hs. apply wp_bind, wp_ret, wp_bind.
  eapply wp_mono; [apply (build_command_wp d slot cmd lba cnt data bytes (cmd =? 0x35) w1 (λ _ _, False)); done| |by intros ? ? []]. intros [] w2 [Hf2 Hl2].
  apply wp_bind, wp_write_volatile. pose proof Hl2 as ((Hi2 & _) & _).
  destruct (idle_write P lbs 0x10 U32_MAX w2 Hi2) as [Hi3 Hq3]; [set_solver|].
  assert (length (table (cmd_of cmd lba cnt data bytes)) <= 16)%nat as Hlen by (by apply prds_length).
  apply wp_bind, (wait_idle 0x20); [lia|done|]. intros b w4 Hi4 Hq4.
  pose proof (quiet_trans _ _ _ Hq3 Hq4) as Hq.
  pose proof (loaded_quiet d slot _ w2 w4 Hd Hs Hlen Hl2 Hi4 Hq) as Hl4.
  assert (frame d w w4) as Hf4.
  { eapply frame_trans; [exact Hf1|]. eapply frame_trans; [exact Hf2|].
    pose proof Hl2 as (Hr2 & _). by apply (quiet_frame d w2 w4 Hd Hr2 Hi4 Hq). }
  destruct b; cbn [ensure]; [|by apply frame_bounded].
  apply wp_bind, wp_ret. by apply (run_command_wp d slot cmd lba cnt).
Qed.

(** ** Ranges of blocks *)

Lemma moved_moved d cmd s k data n w0 w1 w2 :
  cmd = 0x25 ∨ cmd = 0x35 → 0 <= k * lbs → 0 <= n →
  (∀ x, within data (k * lbs + n) x = true → own d x = false) →
  moved d cmd s data (k * lbs) w0 w1 → moved d cmd (s + k) (data + k * lbs) n w1 w2 →
  moved d cmd s data (k * lbs + n) w0 w2.
Proof.
  intros Hc Hk Hn Ho [D1 M1] [D2 M2]. rewrite Z.mul_add_distr_r in *.
  destruct Hc as [-> | ->]; cbn [Z.eqb Pos.eqb] in *; split.
  - intros y. by rewrite D2.
  - intros x Hx. rewrite M2 by done. rewrite <- copy_split by lia. apply copy_ext; [by apply M1|]. intros. apply D1.
  - intros y. rewrite D2. rewrite <- copy_split by lia. apply copy_ext; [apply D1|]. intros x Hx. apply M1, Ho.
    apply within_true in Hx. apply within_true. lia.
  - intros x Hx. rewrite M2 by done. by apply M1.
Qed.

Lemma moved_bounded d cmd s k data n w0 w1 w2 :
  cmd = 0x25 ∨ cmd = 0x35 → 0 <= k * lbs → 0 <= n →
  moved d cmd s data (k * lbs) w0 w1 → bounded d cmd (s + k) (data + k * lbs) n w1 w2 →
  bounded d cmd s data (k * lbs + n) w0 w2.
Proof.
  intros Hc Hk Hn [D1 M1] [D2 M2]. rewrite Z.mul_add_distr_r in *.
  destruct Hc as [-> | ->]; cbn [Z.eqb Pos.eqb] in *; split.
  - intros y Hy. rewrite D2; [apply D1|by left].
  - intros x Hx [?|Hy]; [done|]. apply within_false in Hy.
    rewrite M2 by (try done; right; apply within_false; lia). rewrite M1 by done. unfold copy.
    by rewrite (proj2 (within_false _ _ _)) by lia.
  - intros y [?|Hy]; [done|]. apply within_false in Hy.
    rewrite D2 by (right; apply within_false; lia). rewrite D1. unfold copy.
    by rewrite (proj2 (within_false _ _ _)) by lia.
  - intros x Hx Hy. rewrite M2; [by apply M1|done|by left].
Qed.

Lemma bounded_mono d cmd s data n n' w w' :
  n <= n' → bounded d cmd s data n w w' → bounded d cmd s data n' w w'.
Proof.
  intros Hn [D1 M1]. split.
  - intros y [?|Hy]; apply D1; [by left|right]. apply within_false in Hy. apply within_false. lia.
  - intros x Hx [?|Hy]; apply M1; try done; [by left|right]. apply within_false in Hy. apply within_false. lia.
Qed.

(** The geometry [init] leaves room for one block in a command. *)
Definition geometry_ok d : Prop :=
  block_size d = lbs ∧ 0 < lbs <= PRDS_PER_TABLE * PRD_MAX_BYTES ∧ (2 | lbs) ∧ 0 <= block_count d <= 2 ^ 48.

(** A buffer of the caller for [n] blocks. *)
Definition buffer_ok d (n : Z) (p : PhysPage) : Prop :=
  page_ok (count p) p ∧ n * lbs <= count p * 4096 ∧
  ∀ x, within (phys p) (count p * 4096) x = true → own d x = false.

Lemma blocks_loop_wp d cmd s cnt p w0 fuel' o w :
  cmd = 0x25 ∨ cmd = 0x35 → drive_ok d → geometry_ok d → buffer_ok d cnt p →
  0 <= s → 0 <= o <= cnt → s + cnt <= block_count d → cnt - o < Z.of_nat fuel' →
  at_rest d w → moved d cmd s (phys p) (o * lbs) w0 w →
  wp (blocks_loop HHDM_OFFSET hpet fuel fuel' d cmd (cmd =? 0x35) (PRDS_PER_TABLE * PRD_MAX_BYTES / lbs) s cnt p o)
    (λ _ w', at_rest d w' ∧ moved d cmd s (phys p) (cnt * lbs) w0 w')
    (λ _ w', bounded d cmd s (phys p) (cnt * lbs) w0 w') w.
Proof.
  intros Hcmd Hd (Hbs & Hlbs & H2 & Hbc) Hbuf Hs. pose proof Hbuf as ((_ & _ & Hp & Hpa & Hpe) & Hfit & Hown).
  revert o w. induction fuel' as [|fuel' IH]; intros o w Ho Hsc Hfu Hr Hm; [lia|]. cbn [blocks_loop].
  destruct (o <? cnt) eqn:E; zb; [|replace cnt with o by lia; by apply wp_ret].
  set (max := PRDS_PER_TABLE * PRD_MAX_BYTES / lbs).
  assert (1 <= max) as Hm1 by (apply Z.div_le_lower_bound; lia).
  assert (max * lbs <= PRDS_PER_TABLE * PRD_MAX_BYTES) as Hm2 by (rewrite Z.mul_comm; apply Z.mul_div_le; lia).
  rewrite (u64_small (cnt - o)) by (unfold in_u64; lia).
  set (k := Z.min (Z.min (cnt - o) MAX_SECTORS_PER_CMD) max).
  assert (1 <= k <= cnt - o ∧ k <= 65535 ∧ k <= max) as (Hk & Hk1 & Hk2) by (unfold k, MAX_SECTORS_PER_CMD; lia).
  assert (0 <= o * lbs ∧ 0 < k * lbs ∧ (o + k) * lbs <= cnt * lbs ∧ k * lbs <= max * lbs) as (H0 & H1 & H3 & H4)
    by (split_and!; nia).
  rewrite Hbs, (u64_small (s + o)), (u16_small k), (u64_small (k * lbs)), (u64_small (o * lbs)), (u64_small (o + k))
    by (unfold in_u64, in_u16; unfold PRDS_PER_TABLE, PRD_MAX_BYTES in *; lia).
  apply wp_bind. eapply wp_opt_panic; [apply phys_add_ok; lia|]. apply wp_bind.
  assert (∀ x, within (phys p + o * lbs) (k * lbs) x = true → own d x = false) as Hox.
  { intros x Hx. apply Hown. apply within_true in Hx. apply within_true. lia. }
  eapply wp_mono; [apply (send_command_wp d cmd (s + o) k (phys p + o * lbs) (k * lbs) w); [done|done| |done]|..].
  - split_and!; [lia|lia|lia|lia|lia|lia|lia|lia| | |left; split_and!; [done|lia|done]].
    + apply Z.divide_add_r; [by apply (Z.divide_trans _ 4096); [exists 2048|]|by apply Z.divide_mul_r].
    + by apply Z.divide_mul_r.
  - intros [] w' [Hr' Hm']. apply IH; [lia|lia|lia|done|]. rewrite Z.mul_add_distr_r.
    apply (moved_moved d cmd s o _ _ w0 w); [done|lia|lia| |done|done].
    intros x Hx. apply Hown. apply within_true in Hx. apply within_true. lia.
  - intros e w' He. apply (bounded_mono d cmd s _ (o * lbs + k * lbs)); [lia|].
    apply (moved_bounded d cmd s o _ _ w0 w); [done|lia|lia|done|done].
Qed.

Lemma transfer_blocks_wp d cmd s n p w :
  cmd = 0x25 ∨ cmd = 0x35 → drive_ok d → geometry_ok d → buffer_ok d n p →
  0 <= s → 0 <= n → s + n <= block_count d → at_rest d w →
  wp (transfer_blocks HHDM_OFFSET hpet fuel d cmd (cmd =? 0x35) s n p)
    (λ _ w', at_rest d w' ∧ moved d cmd s (phys p) (n * lbs) w w')
    (λ _ w', bounded d cmd s (phys p) (n * lbs) w w') w.
Proof.
  intros Hcmd Hd Hg Hbuf Hs Hn Hsn Hr. pose proof Hg as (Hbs & Hlbs & _ & Hbc).
  pose proof Hbuf as ((_ & _ & Hp & _ & Hpe) & Hfit & _). unfold transfer_blocks, div_panic. rewrite Hbs.
  rewrite (proj2 (Z.eqb_neq lbs 0)) by lia. apply wp_bind, wp_ret.
  assert (0 <= n * lbs) by nia.
  rewrite !u64_small by (unfold in_u64, PAGE_SIZE; lia).
  rewrite (proj2 (Z.ltb_ge _ _)) by lia. rewrite (proj2 (Z.ltb_ge _ _)) by (unfold PAGE_SIZE; lia).
  apply blocks_loop_wp; try done; try lia.
  split; intros; destruct Hcmd as [-> | ->]; cbn [Z.eqb Pos.eqb]; by rewrite ?copy_0.
Qed.

(** C5. On a controller that keeps the AHCI and ATA specifications, with a range of
    blocks on the drive and a buffer that holds it: [read_blocks] and
    [write_blocks] return; on success every byte of the range has been copied
    between the buffer and the drive, whatever number of commands and
    descriptors that takes, and nothing else has changed but the driver's own
    pages; on failure nothing has changed outside the buffer, or outside the
    range. *)
Theorem ahci_moves_blocks d s n p w :
  drive_ok d → geometry_ok d → buffer_ok d n p → 0 <= s → 0 <= n → s + n <= block_count d → at_rest d w →
  wp (read_blocks HHDM_OFFSET hpet fuel d s n p)
    (λ _ w', at_rest d w' ∧ (∀ y, disk w' y = disk w y) ∧
      (∀ i, 0 <= i < n * lbs → ram w' (phys p + i) = disk w (s * lbs + i)) ∧
      ∀ x, own d x = false → within (phys p) (n * lbs) x = false → ram w' x = ram w x)
    (λ _ w', (∀ y, disk w' y = disk w y) ∧
      ∀ x, own d x = false → within (phys p) (n * lbs) x = false → ram w' x = ram w x) w ∧
  wp (write_blocks HHDM_OFFSET hpet fuel d s n p)
    (λ _ w', at_rest d w' ∧ (∀ i, 0 <= i < n * lbs → disk w' (s * lbs + i) = ram w (phys p + i)) ∧
      (∀ y, within (s * lbs) (n * lbs) y = false → disk w' y = disk w y) ∧
      ∀ x, own d x = false → ram w' x = ram w x)
    (λ _ w', (∀ y, within (s * lbs) (n * lbs) y = false → disk w' y = disk w y) ∧
      ∀ x, own d x = false → ram w' x = ram w x) w.
Proof.
  intros Hd Hg Hb Hs Hn Hsn Hr. pose proof Hb as ((_ & _ & _ & _ & _) & Hfit & Hown). split.
  - eapply wp_mono; [by apply (transfer_blocks_wp d 0x25 s n p w); [left|..]|..].
    + intros [] w' [Hr' [Hdk Hm]]. split_and!; [done|done| |]; cbn [Z.eqb Pos.eqb] in Hm; unfold copy in Hm.
      * intros i Hi. rewrite Hm by (apply Hown, within_true; lia).
        rewrite (proj2 (within_true _ _ _)) by lia. f_equal. lia.
      * intros x Hx Hw. rewrite Hm by done. by rewrite Hw.
    + intros e w' [Hdk Hm]. split; [intros y; apply Hdk; by left|]. intros x Hx Hw. apply Hm; [done|by right].
  - eapply wp_mono; [by apply (transfer_blocks_wp d 0x35 s n p w); [right|..]|..].
    + intros [] w' [Hr' [Hdk Hm]]. split_and!; [done| | |done]; cbn [Z.eqb Pos.eqb] in Hdk; unfold copy in Hdk.
      * intros i Hi. rewrite Hdk, (proj2 (within_true _ _ _)) by lia. f_equal. lia.
      * intros y Hw. by rewrite Hdk, Hw.
    + intros e w' [Hdk Hm]. split; [intros y Hy; apply Hdk; by right|]. intros x Hx. apply Hm; [done|by left].
Qed.

(** [sync] changes no byte. *)
Lemma sync_wp d w :
  drive_ok d → at_rest d w →
  wp (sync HHDM_OFFSET hpet fuel d)
    (λ _ w', at_rest d w' ∧ frame d w w') (λ _ w', frame d w w') w.
Proof.
  intros Hd Hr. unfold sync. eapply wp_mono; [apply (send_command_wp d 0xEA 0 0 0 0 w Hd Hr)|..].
  - split_and!; try done; [by exists 0..|by right].
  - intros x Hx. apply within_true in Hx. lia.
  - intros [] w' [Hr' Hm]. done.
  - intros e w' [Hdk Hm]. split; intros; [apply Hdk; by left|apply Hm; [done|by left]].
Qed.
End transfer.

End AhciTransfer.
