(* ===== verification/AhciExamples.v ===== *)
(** * A controller in software

    A port that carries out a command when it is issued, with the proof that it
    keeps [HbaLaws], and the driver at work on it. *)

From S2P Require Import Prelude Errors Virt Helpers Hardware Ahci AhciTransfer VirtExamples.
Import Errors Virt Helpers Hardware Ahci AhciTransfer VirtExamples.

Module AhciExamples.

(** ** Commands stay within what they may touch *)

Lemma dma_in_bounded tbl d pos rem m x :
  ¬ Exists (λ e, within e.1 e.2 x = true) tbl → dma_in tbl d pos rem m x = m x.
Proof.
  revert pos rem m. induction tbl as [|[a n] tbl IH]; intros pos rem m H; [done|]. cbn [dma_in].
  rewrite IH by (intros ?; apply H; by right). unfold copy. destruct (within a (Z.min n rem) x) eqn:E; [|done].
  exfalso. apply H. left. apply within_true in E. apply within_true. simpl. lia.
Qed.

Lemma dma_out_bounded tbl m pos rem d y :
  Forall (λ e, 0 <= e.2) tbl → within pos rem y = false → dma_out tbl m pos rem d y = d y.
Proof.
  revert pos rem d. induction tbl as [|[a n] tbl IH]; intros pos rem d Hn H; [done|]. cbn [dma_out].
  inversion Hn as [|? ? H1 H2]; subst. simpl in H1. apply within_false in H.
  rewrite IH by (done || apply within_false; lia). unfold copy. by rewrite (proj2 (within_false _ _ _)) by lia.
Qed.

Lemma executed_partial {W} {BU : Bus W} {HB : Hba W} lbs w0 s (w : W) :
  executed lbs w0 s w → partial lbs w0 s w.
Proof.
  intros (Hs & Hd & Hm). split; [done|]. set (c := hba_fetch _ _ _) in *. unfold hba_exec in *. split.
  - intros y Hy. rewrite Hd. destruct (op c =? 0x25); [done|]. destruct (op c =? 0x35) eqn:E; [|done]. zb.
    cbn [snd]. apply dma_out_bounded.
    + apply Forall_forall. intros e He. unfold c, hba_fetch in He. cbn [table] in He.
      apply list_elem_of_fmap in He as (i & -> & _). cbn [snd].
      pose proof (Z.land_nonneg (word (ram w0) (table_at (ram w0) (list_base w0) s + 128 + 16 * i + 12) 4) 0x3FFFFF). lia.
    + destruct (within _ _ y) eqn:Ew; [|done]. exfalso. by apply Hy.
  - intros x Hx Ho. rewrite Hm by done. destruct (op c =? 0x25) eqn:E; [|by destruct (op c =? 0x35)]. zb.
    cbn [fst]. apply dma_in_bounded. intros He. apply Hx. split; [lia|done].
Qed.

(** ** The machine *)

Definition PORT : Z := 2 ^ 64 - 2 ^ 40 + 0x100.
Definition LBS : Z := 512.
Definition clock : Hpet := mkHpet (2 ^ 64 - 2 ^ 41) 10000000.
Definition HHDM : Z := 2 ^ 64 - 2 ^ 47.

Record Sim := mkSim { s_ram : Z → Z; s_disk : Z → Z; s_list : Z; s_fis : Z; s_ticks : Z }.

Definition sim_exec (s : Z) (w : Sim) : Sim :=
  let r := hba_exec LBS (hba_fetch (s_ram w) (s_list w) s) (s_ram w) (s_disk w) in
  mkSim r.1 r.2 (s_list w) (s_fis w) (s_ticks w).

#[export] Instance sim_bus : Bus Sim := {|
  mmio_read n a w :=
    if (n =? 8) && (a =? regs clock + 0xF0)
    then (u64 (s_ticks w + 1000000000), mkSim (s_ram w) (s_disk w) (s_list w) (s_fis w) (s_ticks w + 1000000000))
    else (0, w);
  mmio_write n a v w := if a =? PORT + 0x38 then sim_exec (Z.log2 v) w else w;
  ram := s_ram;
  ram_write a data w :=
    mkSim (λ x, if (a <=? x) && (x <? a + Z.of_nat (length data)) then data !!! Z.to_nat (x - a) else s_ram w x)
      (s_disk w) (s_list w) (s_fis w) (s_ticks w);
  alloc_pages _ := mret None;
  free_frames _ _ w := w
|}.

#[export] Instance sim_hba : Hba Sim :=
  let done_ w0 s w := executed (HB := Build_Hba Sim s_disk s_list s_fis (λ _, True) (λ _ _ _, True)
    (λ _ _ _ _ _, True) (λ _ _ _ _ _, True)) LBS w0 s w in
  {| disk := s_disk; list_base := s_list; fis_base := s_fis; idle _ := True;
     issued := done_;
     complete w0 s fatal err w := fatal = false ∧ err = false ∧ done_ w0 s w;
     acked w0 s fatal err w := fatal = false ∧ err = false ∧ done_ w0 s w |}.

#[export] Instance sim_mem : MemLaws Sim.
Proof. split. done. Qed.

#[export, refine] Instance sim_clock : ClockLaws Sim clock := {|
  counter := s_ticks; tick := 1000000000; burst := 1000000000
|}.
Proof.
  all: try done.
  - unfold canonical. vm_compute. right. split; congruence.
  - intros w. exists (s_ticks w + 1000000000). cbn [mmio_read sim_bus]. rewrite !Z.eqb_refl. cbn [andb fst snd s_ticks].
    split_and!; [done|lia|lia|done].
  - intros n a w Ha. cbn [mmio_read sim_bus]. rewrite (proj2 (Z.eqb_neq _ _) Ha), andb_false_r. done.
Defined.

Lemma sim_read_same n a w :
  s_ram (mmio_read n a w).2 = s_ram w ∧ s_disk (mmio_read n a w).2 = s_disk w ∧
  s_list (mmio_read n a w).2 = s_list w ∧ s_fis (mmio_read n a w).2 = s_fis w.
Proof. simpl. by destruct (_ && _). Qed.

Lemma executed_read n a w0 s (w : Sim) : executed LBS w0 s w → executed LBS w0 s (mmio_read n a w).2.
Proof.
  destruct (sim_read_same n a w) as (E1 & E2 & E3 & E4). unfold executed, same_bases.
  change (@ram Sim sim_bus) with s_ram. change (@disk Sim sim_hba) with s_disk.
  change (@list_base Sim sim_hba) with s_list. change (@fis_base Sim sim_hba) with s_fis. by rewrite E1, E2, E3, E4.
Qed.

#[export] Instance sim_laws : HbaLaws PORT LBS.
Proof.
  split.
  - intros n a w _. destruct (sim_read_same n a w) as (E1 & E2 & E3 & E4). split; [done|].
    split; [done|]. split; intros; [exact (f_equal (λ f, f y) E2)|exact (f_equal (λ f, f x) E1)].
  - intros off v w _ Ho. simpl. assert ((PORT + off =? PORT + 0x38) = false) as ->; [|done].
    apply Z.eqb_neq. set_unfold in Ho. lia.
  - done.
  - intros s w _ Hs _. simpl. rewrite Z.log2_pow2 by lia. done.
  - intros n a w0 s w H. apply (executed_read n a) in H. destruct (_ && _) eqn:E; [|done]. by exists false, false.
  - intros w0 s w H. by apply executed_partial.
  - intros w0 s fatal err w (-> & -> & H). split; [done|]. split; [done|]. split; [done|]. done.
  - intros w0 s fatal err w H. done.
  - intros w0 s fatal err w (-> & -> & H). split; [done|]. split; [done|]. done.
Qed.

(** ** The driver on it *)

Definition sim_page (a n : Z) : PhysPage := mkPhysPage (a + HHDM) n a.
Definition sim_drive : AHCIDrive :=
  mkDrive (mkRegion (2 ^ 64 - 2 ^ 40) 0x1000) 0 (sim_page 0x1000 1) (sim_page 0x2000 3) (sim_page 0x5000 1) 512 8 31.
Definition sim_buffer : PhysPage := sim_page 0x10000 1.
Definition sim0 : Sim := mkSim (λ x, x mod 7) (λ y, y mod 251) 0x1000 0x5000 0.

Lemma sim_enough : enough clock 2 TIMEOUT.
Proof. unfold enough. split_and!; vm_compute; congruence. Qed.

Lemma sim_page_ok a n : (0 <=? a) && (a mod 4096 =? 0) && (a + n * 4096 <? 2 ^ 46) = true →
  page_ok HHDM n (sim_page a n).
Proof.
  intros H. zb. split_and!; [done|done|done| |done]. by apply Z.mod_divide.
Qed.

Lemma sim_drive_ok : drive_ok HHDM PORT sim_drive.
Proof.
  unfold drive_ok, apart. cbn [sim_drive bar port_id command_list command_tables fis_buffer ncs sim_page phys rstart rsize].
  split_and!; try (by apply sim_page_ok); try done; left; done.
Qed.

Lemma sim_buffer_ok n : n * 512 <= 4096 → buffer_ok HHDM LBS sim_drive n sim_buffer.
Proof.
  intros Hn. split; [by apply sim_page_ok|]. split; [done|]. intros x Hx. apply within_true in Hx.
  apply own_false. rewrite !within_false.
  cbn [sim_drive command_list command_tables fis_buffer sim_page phys sim_buffer count] in *. lia.
Qed.

Lemma sim_geometry : geometry_ok LBS sim_drive.
Proof. split_and!; [done..| |done|done]. by exists 256. Qed.

(** A read of two blocks and a write of three. *)
Abbreviation sim_read := (read_blocks HHDM clock 2 sim_drive 3 2 sim_buffer sim0).
Abbreviation sim_write := (write_blocks HHDM clock 2 sim_drive 4 3 sim_buffer sim0).

Lemma sim_read_returns : (if sim_read is (Ok _, _) then true else false) = true.
Proof. vm_compute. reflexivity. Qed.

Lemma sim_write_returns : (if sim_write is (Ok _, _) then true else false) = true.
Proof. vm_compute. reflexivity. Qed.

Lemma ahci_moves_blocks_witness :
  ∃ w1 w2, sim_read = (Ok tt, w1) ∧ s_ram w1 (0x10000 + 700) = (3 * 512 + 700) mod 251 ∧
    sim_write = (Ok tt, w2) ∧ s_disk w2 (4 * 512 + 5) = (0x10000 + 5) mod 7 ∧ s_disk w2 100 = 100.
Proof.
  pose proof (sim_buffer_ok 2 ltac:(done)) as Hb2. pose proof (sim_buffer_ok 3 ltac:(done)) as Hb3.
  assert (0 <= 3 ∧ 0 <= 4 ∧ 0 <= 2 ∧ 0 <= 3 ∧ 3 + 2 <= 8 ∧ 4 + 3 <= 8) as (? & ? & ? & ? & ? & ?) by done.
  assert (2 ^ 64 - 2 ^ 47 <= HHDM <= 2 ^ 64 - 2 ^ 46) as Hh by (unfold HHDM; lia).
  assert (regs clock + 0xF0 < PORT ∨ PORT + 0x80 <= regs clock + 0xF0) as Hp by (left; done).
  assert (at_rest sim_drive sim0) as Hr by done.
  assert (0 <= 700 < 2 * LBS ∧ 0 <= 5 < 3 * LBS ∧ within (4 * LBS) (3 * LBS) 100 = false) as (B1 & B2 & B3) by done.
  pose proof sim_read_returns as Q1. pose proof sim_write_returns as Q2.
  destruct sim_read as [[[]| | |] w1] eqn:E1; try discriminate Q1.
  destruct sim_write as [[[]| | |] w2] eqn:E2; try discriminate Q2. exists w1, w2.
  pose proof (proj1 (ahci_moves_blocks HHDM clock 2 PORT LBS Hh Hp sim_enough sim_drive 3 2 sim_buffer sim0
    sim_drive_ok sim_geometry Hb2 ltac:(assumption) ltac:(assumption) ltac:(assumption) Hr)) as L1.
  apply (wp_use _ _ _ _ _ _ L1) in E1 as (_ & _ & R1 & _). clear L1. specialize (R1 700 B1).
  pose proof (proj2 (ahci_moves_blocks HHDM clock 2 PORT LBS Hh Hp sim_enough sim_drive 4 3 sim_buffer sim0
    sim_drive_ok sim_geometry Hb3 ltac:(assumption) ltac:(assumption) ltac:(assumption) Hr)) as L2.
  apply (wp_use _ _ _ _ _ _ L2) in E2 as (_ & R2 & R3 & _). clear L2. specialize (R2 5 B2). specialize (R3 100 B3).
  split; [reflexivity|]. split; [exact R1|]. split; [reflexivity|]. split; [exact R2|exact R3].
Defined.

(** After 5.1 hours the clock of this machine wraps around between two readings
    ten seconds apart, and a wait of a day times out. *)
Definition late : Sim := mkSim (λ _, 0) (λ _, 0) 0 0 1843000000000.

Lemma clock_wraps_witness :
  (wait_timeout (E := StorageError) (passed_nanos clock) (mret true) 1 (Days 1) late).1 = Ok false.
Proof.
  erewrite (clock_wraps clock (mret true) 0 (Days 1) 1844000000000 1845000000000 late); [reflexivity|..|reflexivity|reflexivity|reflexivity];
    try (vm_compute; reflexivity); try (split; vm_compute; congruence).
  apply canonicalb_spec. reflexivity.
Defined.

End AhciExamples.
