(* ===== verification/Pci.v ===== *)
(** * PCI (src/kernel/src/drivers/pci/)

    Configuration space behind the ECAM windows of the segments, the probing of
    a function (identity, base address registers, capabilities), the scan of all
    buses, the list of devices that drivers claim from, and the programming of
    MSI and MSI-X.

    A function that returns an option in the code runs in the error monad with
    the error [tt].  [SEGMENTS] is an argument. *)

From S2P Require Import Prelude Errors Virt Helpers Hardware.
Import Errors Virt Helpers Hardware.

Module Pci.

Record PciID := mkID { id_device : Z; id_bus : Z; id_function : Z }.

#[export] Instance PciID_eq_dec : EqDecision PciID.
Proof. solve_decision. Defined.

Inductive DeviceType := Nvme | Ahci | Eth | Wifi | Vga | GPU3D | Hda | UnknownDevice.

#[export] Instance DeviceType_eq_dec : EqDecision DeviceType.
Proof. solve_decision. Defined.

Record BarInfo := mkBar { address : Z; size : Z; is_mmio : bool; is_64_bit : bool }.

#[export] Instance BarInfo_eq_dec : EqDecision BarInfo.
Proof. solve_decision. Defined.

Definition bar_empty : BarInfo := mkBar 0 0 false false.

Record CapHeader := mkCap { cap_id : Z; cap_offset : Z }.

Record PCIFunction := mkFunction {
  bus : Z; device : Z; function : Z; vendor_id : Z; device_id : Z; revision : Z; class : Z; subclass : Z;
  prog_if : Z; bars : list BarInfo; caps : list CapHeader
}.

Definition id (f : PCIFunction) : PciID := mkID (device f) (bus f) (function f).

(** ** config.rs *)

Record MCFGEntry := mkMCFG { base_address : Z; segment_group : Z; start_bus : Z; end_bus : Z }.

Record Segment := mkSegment {
  seg_base : Z; seg_start : Z; seg_end : Z; region : option VirtualRegion
}.

#[export] Instance VirtualRegion_eq_dec : EqDecision VirtualRegion.
Proof. solve_decision. Defined.
#[export] Instance Segment_eq_dec : EqDecision Segment.
Proof. solve_decision. Defined.

Definition from_mcfg_entry (e : MCFGEntry) : Segment :=
  mkSegment (base_address e) (start_bus e) (end_bus e) None.

Section init.
Context {W : Type} {AD : Addresses} {MP : Mapper W}.

(** The loop of [init_segments] on the kernel's allocator, where
    [MMIORegion::new] takes and maps a region. *)
Definition init_segment (s : Segment) : M (VMemAllocator (W := W)) PCIError Segment :=
  if seg_end s <? seg_start s then fail InvalidMCFGEntry
  else
    let bytes := Z.shiftl (seg_end s - seg_start s + 1) 20 in
    let pages := div_ceil bytes PAGE_SIZE in
    a ← opt_panic (phys_new (seg_base s));
    r ← map_errM (Empty_set_rect (λ _, PCIError)) (mmio_new a pages);
    mret (mkSegment (seg_base s) (seg_start s) (seg_end s) r).

Fixpoint init_segments (segments : list Segment) : M (VMemAllocator (W := W)) PCIError (list Segment) :=
  match segments with
  | [] => mret []
  | s :: segments => s ← init_segment s; segments ← init_segments segments; mret (s :: segments)
  end.
End init.

Definition in_segment (b : Z) (s : Segment) : bool := (seg_start s <=? b) && (b <=? seg_end s).

Definition ecam_offset (entry : Segment) (bus device function offset : Z) : option Z :=
  if (bus <? seg_start entry) || (seg_end entry <? bus) then None
  else
    let bus_offset := Z.shiftl (bus - seg_start entry) 20 in
    let dev_offset := Z.shiftl device 15 in
    let func_offset := Z.shiftl function 12 in
    let reg_offset := Z.land offset 0xFC in
    Some (Z.lor (Z.lor (Z.lor bus_offset dev_offset) func_offset) reg_offset).

Section pci.
Context {W : Type} {AD : Addresses} {BU : Bus W}.
Abbreviation Opt A := (M W unit A).

(** [o?] and [m.unwrap_or(a)] *)
Definition get {A} (o : option A) : Opt A := match o with Some a => mret a | None => fail tt end.
Definition unwrap_or {E A} (m : Opt A) (a : A) : M W E A := λ w,
  match m w with
  | (Ok a', w') => (Ok a', w')
  | (Err _, w') => (Ok a, w')
  | (Panic, w') => (Panic, w')
  | (Loop, w') => (Loop, w')
  end.

Definition read32 (entry : Segment) (bus device function offset : Z) : Opt Z :=
  offset ← get (ecam_offset entry bus device function offset);
  r ← get (region entry);
  v ← region_read 4 r offset;
  get v.

Definition write32 (entry : Segment) (bus device function offset val : Z) : Opt unit :=
  offset ← get (ecam_offset entry bus device function offset);
  r ← get (region entry);
  b ← region_write 4 r offset val;
  if b : bool then mret tt else fail tt.

Definition read16 (entry : Segment) (bus device function offset : Z) : Opt Z :=
  let aligned := Z.land offset 0xFFFE in
  let shift := Z.land offset 2 * 8 in
  dword ← read32 entry bus device function aligned;
  mret (u16 (Z.shiftr dword shift)).

Definition write16 (entry : Segment) (bus device function offset val : Z) : Opt unit :=
  let aligned := Z.land offset 0xFFFE in
  let shift := Z.land offset 2 * 8 in
  old ← read32 entry bus device function aligned;
  let mask := u32 (Z.shiftl 0xFFFF shift) in
  write32 entry bus device function aligned (Z.lor (Z.land old (not32 mask)) (u32 (Z.shiftl val shift))).

Definition read8 (entry : Segment) (bus device function offset : Z) : Opt Z :=
  let aligned := Z.land offset 0xFFFC in
  let shift := Z.land offset 3 * 8 in
  dword ← read32 entry bus device function aligned;
  mret (u8 (Z.shiftr dword shift)).

Definition write8 (entry : Segment) (bus device function offset val : Z) : Opt unit :=
  let aligned := Z.land offset 0xFFFC in
  let shift := Z.land offset 3 * 8 in
  old ← read32 entry bus device function aligned;
  let mask := u32 (Z.shiftl 0xFF shift) in
  write32 entry bus device function aligned (Z.lor (Z.land old (not32 mask)) (u32 (Z.shiftl val shift))).

Variable segments : list Segment.

Definition bus_in_entry (bus : Z) : bool := existsb (in_segment bus) segments.
Definition find_entry (bus : Z) : option Segment := List.find (in_segment bus) segments.

(** ** device.rs *)

(** One round of [while let Some(bar) = iter.next()]: register [i]; [None] leaves
    it empty, the flag tells that the next register belongs to this one. *)
Definition parse_bar (segment : Segment) (bus device function i : Z) : Opt (BarInfo * bool) :=
  let read := read32 segment bus device function in
  let write := write32 segment bus device function in
  let offset := u16 (0x10 + i * 4) in
  original ← read offset;
  if original =? 0 then mret (bar_empty, false)
  else
    let is_mmio := Z.land original 1 =? 0 in
    let bar_type := Z.land (Z.shiftr original 1) 3 in
    if is_mmio then
      if bar_type =? 0 then
        write offset U32_MAX;;
        mask ← read offset;
        write offset original;;
        let x := 0xFFFFFFF0 in
        mret (mkBar (Z.land original x) (u32 (not32 (Z.land mask x) + 1)) is_mmio false, false)
      else if bar_type =? 2 then
        if 5 <=? i then mret (bar_empty, false)
        else
          original_high ← read (offset + 4);
          write offset U32_MAX;;
          write (offset + 4) U32_MAX;;
          mask_high ← read (offset + 4);
          mask_low ← read offset;
          write (offset + 4) original_high;;
          write offset original;;
          let mask := Z.lor (Z.shiftl mask_high 32) mask_low in
          let addr := Z.lor (Z.shiftl original_high 32) original in
          let size := u64 (not64 (Z.land mask (not64 0xF)) + 1) in
          mret (mkBar (Z.land addr (not64 0xF)) size is_mmio true, true)
      else mret (bar_empty, false)
    else
      write offset U32_MAX;;
      mask ← read offset;
      write offset original;;
      mret (mkBar (Z.land original 0xFFFC) (u32 (not32 (Z.land mask 0xFFFC) + 1)) is_mmio false, false).

(** [n] registers from [i] on. *)
Fixpoint bars_from (segment : Segment) (bus device function : Z) (n : nat) (i : Z) : Opt (list BarInfo) :=
  match n with
  | O => mret []
  | S n =>
      r ← parse_bar segment bus device function i;
      let '(bar, wide) := r in
      match wide, n with
      | true, S n =>
          rest ← bars_from segment bus device function n (i + 2);
          mret (bar :: bar_empty :: rest)
      | _, _ => rest ← bars_from segment bus device function n (i + 1); mret (bar :: rest)
      end
  end.

Definition parse_bars (segment : Segment) (bus device function : Z) : Opt (list BarInfo) :=
  bars_from segment bus device function 6 0.

(** [n] rounds of the loop of [parse_caps]. *)
Fixpoint caps_from (segment : Segment) (bus device function : Z) (n : nat) (offset : Z) : Opt (list CapHeader) :=
  match n with
  | O => mret []
  | S n =>
      id ← read8 segment bus device function offset;
      next ← read8 segment bus device function (offset + 1);
      if (next =? 0) || ((next <? 0x40) || (next =? offset)) then mret [mkCap id offset]
      else rest ← caps_from segment bus device function n next; mret (mkCap id offset :: rest)
  end.

Definition parse_caps (segment : Segment) (bus device function : Z) : Opt (list CapHeader) :=
  caps_ptr ← read8 segment bus device function 0x34;
  if caps_ptr =? 0 then fail tt else caps_from segment bus device function 48 caps_ptr.

Definition function_new (bus device function : Z) : Opt PCIFunction :=
  segment ← get (find_entry bus);
  vendor_data ← read32 segment bus device function 0;
  let vendor_id := u16 vendor_data in
  if vendor_id =? 0xFFFF then fail tt
  else
    let device_id := u16 (Z.shiftr vendor_data 16) in
    class_data ← read32 segment bus device function 8;
    let revision := u8 (Z.land class_data 0xFF) in
    let prog_if := u8 (Z.land (Z.shiftr class_data 8) 0xFF) in
    let subclass := u8 (Z.land (Z.shiftr class_data 16) 0xFF) in
    let class := u8 (Z.land (Z.shiftr class_data 24) 0xFF) in
    bars ← parse_bars segment bus device function;
    caps ← unwrap_or (parse_caps segment bus device function) [];
    mret (mkFunction bus device function vendor_id device_id revision class subclass prog_if bars caps).

(** The accessors of a function. *)
Definition on_entry {A} (f : PCIFunction) (g : Segment → Z → Z → Z → Opt A) : Opt A :=
  entry ← get (find_entry (bus f)); g entry (bus f) (device f) (function f).

Definition read_u32 (f : PCIFunction) (offset : Z) : Opt Z := on_entry f (λ e b d n, read32 e b d n offset).
Definition write_u32 (f : PCIFunction) (offset val : Z) : Opt unit :=
  on_entry f (λ e b d n, write32 e b d n offset val).
Definition read_u16 (f : PCIFunction) (offset : Z) : Opt Z := on_entry f (λ e b d n, read16 e b d n offset).
Definition write_u16 (f : PCIFunction) (offset val : Z) : Opt unit :=
  on_entry f (λ e b d n, write16 e b d n offset val).
Definition read_u8 (f : PCIFunction) (offset : Z) : Opt Z := on_entry f (λ e b d n, read8 e b d n offset).
Definition write_u8 (f : PCIFunction) (offset val : Z) : Opt unit :=
  on_entry f (λ e b d n, write8 e b d n offset val).

Definition enable_mmio (f : PCIFunction) : Opt unit :=
  cmd ← read_u32 f 4; write_u32 f 4 (Z.lor cmd 2).
Definition enable_bus_master (f : PCIFunction) : Opt unit :=
  cmd ← read_u32 f 4; write_u32 f 4 (Z.lor cmd 4).

Definition bar (f : PCIFunction) (index : nat) : option BarInfo :=
  match (bars f !! index : option BarInfo) with
  | Some b => if decide (b = bar_empty) then None else Some b
  | None => None
  end.

Definition find_capability (f : PCIFunction) (id : Z) : option Z :=
  cap_offset <$> List.find (λ c, cap_id c =? id) (caps f).

Definition device_type (f : PCIFunction) : DeviceType :=
  if class f =? 0x01 then
    if subclass f =? 0x06 then Ahci else if subclass f =? 0x08 then Nvme else UnknownDevice
  else if class f =? 0x02 then
    if subclass f =? 0x00 then Eth else if subclass f =? 0x80 then Wifi else UnknownDevice
  else if class f =? 0x03 then
    if subclass f =? 0x00 then Vga else if subclass f =? 0x02 then GPU3D else UnknownDevice
  else if class f =? 0x04 then
    if subclass f =? 0x03 then Hda else UnknownDevice
  else UnknownDevice.

(** ** mod.rs: the scan *)

(** The devices found, the buses to scan (the next one first) and the buses that
    were marked. *)
Record Scan := mkScan {
  devices : list PCIFunction; to_scan : list (Segment * Z); scanned : list (Z * Z)
}.

Definition bus_scanned (scanned : list (Z * Z)) (segment : Segment) (bus : Z) : bool :=
  existsb (λ p, (p.1 =? seg_base segment) && (p.2 =? bus)) scanned.

(** [if !bus_scanned { mark_scanned; to_scan.push }] *)
Definition push_bus (segment : Segment) (s : Scan) (bus : Z) : Scan :=
  if bus_scanned (scanned s) segment bus then s
  else mkScan (devices s) ((segment, bus) :: to_scan s) (scanned s ++ [(seg_base segment, bus)]).

Definition push_range (segment : Segment) (s : Scan) (first last : Z) : Scan :=
  fold_left (push_bus segment) (seqZ first (last - first + 1)) s.

Definition visit_function {E} (segment : Segment) (b device function : Z) (s : Scan) : M W E Scan :=
  o ← unwrap_or (f ← function_new b device function; mret (Some f)) None;
  match o with
  | None => mret s
  | Some func =>
      let s := mkScan (devices s ++ [func]) (to_scan s) (scanned s) in
      header ← unwrap_or (read32 segment b device function 0xC) 0;
      if Z.land (Z.shiftr header 16) 0x7F =? 1 then
        reg ← unwrap_or (read32 segment b device function 0x18) 0;
        let sec_bus := u8 (Z.land (Z.shiftr reg 8) 0xFF) in
        let sub_bus := u8 (Z.land (Z.shiftr reg 16) 0xFF) in
        if sec_bus <=? sub_bus then mret (push_range segment s sec_bus sub_bus) else mret s
      else mret s
  end.

Definition scan_functions {E} (segment : Segment) (b device : Z) (s : Scan) : M W E Scan :=
  foldM (λ s function,
    v ← unwrap_or (read16 segment b device function 0) 0xFFFF;
    if v =? 0xFFFF then mret s else visit_function segment b device function s) s (seqZ 1 7).

Definition scan_device {E} (segment : Segment) (b : Z) (s : Scan) (device : Z) : M W E Scan :=
  v ← unwrap_or (read16 segment b device 0 0) 0xFFFF;
  if v =? 0xFFFF then mret s
  else
    header ← unwrap_or (read32 segment b device 0 0xC) 0;
    let header_type := Z.land (Z.shiftr header 16) 0xFF in
    s ← visit_function segment b device 0 s;
    if negb (Z.land header_type 0x80 =? 0) then scan_functions segment b device s else mret s.

Fixpoint scan_loop {E} (fuel : nat) (s : Scan) : M W E Scan :=
  match fuel with
  | O => lift Loop
  | S fuel =>
      match to_scan s with
      | [] => mret s
      | (segment, b) :: rest =>
          s ← foldM (scan_device segment b) (mkScan (devices s) rest (scanned s)) (seqZ 0 32);
          scan_loop fuel s
      end
  end.

(** Every bus of every segment is a start. *)
Definition scan_seed : Scan :=
  fold_left (λ s segment, push_range segment s (seg_start segment) (seg_end segment)) segments (mkScan [] [] []).

(** A bus is marked before it is pushed, so at most 256 of a segment are popped. *)
Definition scan_fuel : nat := S (256 * length segments).

Definition scan {E} : M W E (list PCIFunction) := s ← scan_loop scan_fuel scan_seed; mret (devices s).

(** ** msi.rs and msix.rs *)

Definition msi_program (lapic_id : Opt Z) (dev : PCIFunction) (vector : Z) : Opt unit :=
  cap ← get (find_capability dev 0x05);
  msg_ctrl ← read_u16 dev (cap + 2);
  let is_64bit := Z.land (Z.shiftr msg_ctrl 7) 1 =? 1 in
  let per_vector_masking := Z.land (Z.shiftr msg_ctrl 8) 1 =? 1 in
  lapic_id ← lapic_id;
  let msg_addr := Z.lor 0xFEE00000 (u64 (Z.shiftl lapic_id 12)) in
  let msg_data := u16 vector in
  unwrap_or (write_u32 dev (cap + 4) (u32 msg_addr)) tt;;
  (if is_64bit then
     unwrap_or (write_u32 dev (cap + 8) 0) tt;;
     unwrap_or (write_u16 dev (cap + 12) msg_data) tt
   else unwrap_or (write_u16 dev (cap + 8) msg_data) tt);;
  (if per_vector_masking then
     let mask_off := if is_64bit then cap + 16 else cap + 12 in
     unwrap_or (write_u32 dev mask_off 0) tt
   else mret tt);;
  ctrl ← read_u16 dev (cap + 2);
  let ctrl := Z.land (Z.lor ctrl 1) (not16 (Z.shiftl 0x7 4)) in
  unwrap_or (write_u16 dev (cap + 2) ctrl) tt;;
  cmd ← read_u32 dev 0x04;
  unwrap_or (write_u32 dev 0x04 (Z.lor cmd (Z.shiftl 1 10))) tt.

Definition msix_write (n : Z) (r : VirtualRegion) (offset v : Z) : Opt unit :=
  b ← region_write n r offset v; if b : bool then mret tt else fail tt.

Definition msix_program (lapic_id : Opt Z) (dev : PCIFunction) (r : VirtualRegion) (entry_index vector : Z) : Opt unit :=
  cap ← get (find_capability dev 0x11);
  msg_ctrl ← read_u16 dev (cap + 2);
  let table_size := Z.land msg_ctrl 0x7FF + 1 in
  if table_size <=? entry_index then fail tt
  else
    table_reg ← read_u32 dev (cap + 4);
    let table_offset := Z.land table_reg (not32 0x7) in
    lapic_id ← lapic_id;
    let msg_addr := Z.lor 0xFEE00000 (u64 (Z.shiftl lapic_id 12)) in
    let msg_data := u32 vector in
    ctrl ← read_u16 dev (cap + 2);
    let ctrl := Z.lor ctrl (Z.shiftl 1 14) in
    write_u16 dev (cap + 2) ctrl;;
    let offset := table_offset + entry_index * 16 in
    msix_write 8 r offset msg_addr;;
    msix_write 4 r (offset + 8) msg_data;;
    msix_write 4 r (offset + 12) 1;;
    let ctrl := Z.land (Z.lor ctrl (Z.shiftl 1 15)) (not16 (Z.shiftl 1 14)) in
    unwrap_or (write_u16 dev (cap + 2) ctrl) tt;;
    msix_write 4 r (offset + 12) 0;;
    cmd ← read_u32 dev 0x04;
    unwrap_or (write_u32 dev 0x04 (Z.lor cmd (Z.shiftl 1 10))) tt.
End pci.

(** ** [DEVICES] *)

Definition find_devices (f : PCIFunction → bool) (l : list PCIFunction) : list PciID :=
  id <$> List.filter f l.

Definition claim_device {E} (i : PciID) : M (list PCIFunction) E (option PCIFunction) := λ l,
  match list_find (λ d, id d = i) l with
  | None => (Ok None, l)
  | Some (pos, d) => (Ok (Some d), delete pos l)
  end.

(** Dropping a function gives it back. *)
Definition function_drop {E} (f : PCIFunction) : M (list PCIFunction) E unit := modify (λ l, l ++ [f]).

End Pci.
