(* ===== verification/PciScan.v ===== *)
(** * What the PCI scan finds

    Against configuration space that keeps [ConfigLaws], the scan returns, finds
    every function that answers exactly once, and the probing of the base address
    registers reports their address and size and leaves them as they were. *)

From S2P Require Import Prelude Errors Virt Helpers Hardware Pci.
Import Errors Virt Helpers Hardware Pci.

Module PciScan.

(** ** Configuration space *)

(** The registers by virtual address, the bits of each that can be written and
    those that are fixed. *)
Class Config (W : Type) := { cfg : W → Z → Z; rw : Z → Z; ro : Z → Z }.

Definition seg_ok (s : Segment) : Prop :=
  ∃ r, region s = Some r ∧ 0 <= seg_start s <= seg_end s ∧ seg_end s < 256 ∧
    rsize r = (seg_end s - seg_start s + 1) * 2 ^ 20 ∧
    2 ^ 64 - 2 ^ 47 <= rstart r ∧ rstart r + rsize r <= 2 ^ 64.

Definition window (s : Segment) : Z := match region s with Some r => rstart r | None => 0 end.

(** The address of a register of a function. *)
Definition reg (s : Segment) (b d f o : Z) : Z :=
  window s + ((b - seg_start s) * 2 ^ 20 + d * 2 ^ 15 + f * 2 ^ 12 + o).

Definition fn_ok (s : Segment) (b d f : Z) : Prop :=
  seg_start s <= b <= seg_end s ∧ 0 <= d < 32 ∧ 0 <= f < 8.

Section laws.
Context {W : Type} {BU : Bus W} {CF : Config W} (segs : list Segment).

(** Reading configuration space has no side effect; writing a base address
    register sets its writable bits. *)
Class ConfigLaws := {
  cfg_read s b d f o w :
    s ∈ segs → fn_ok s b d f → 0 <= o < 256 → (4 | o) →
    mmio_read 4 (reg s b d f o) w = (cfg w (reg s b d f o), w);
  cfg_write s b d f i v w a :
    s ∈ segs → fn_ok s b d f → 0 <= i < 6 →
    cfg (mmio_write 4 (reg s b d f (0x10 + i * 4)) v w) a =
    if a =? reg s b d f (0x10 + i * 4)
    then Z.lor (Z.land v (rw (reg s b d f (0x10 + i * 4)))) (ro (reg s b d f (0x10 + i * 4))) else cfg w a
}.
End laws.

(** ** Offsets *)

Lemma ecam_offset_eq s b d f o :
  fn_ok s b d f → 0 <= o < 256 → (4 | o) →
  ecam_offset s b d f o = Some ((b - seg_start s) * 2 ^ 20 + d * 2 ^ 15 + f * 2 ^ 12 + o).
Proof.
  intros (Hb & Hd & Hf) Ho [q ->]. unfold ecam_offset.
  rewrite (proj2 (Z.ltb_ge _ _)), (proj2 (Z.ltb_ge _ _)) by lia. cbn [orb].
  assert (Z.land (q * 4) 0xFC = q * 4) as ->.
  { change 0xFC with (2 ^ 8 - 2 ^ 2). rewrite land_high by lia. change (2 ^ 2) with 4. rewrite Z.mod_mul by lia. lia. }
  rewrite !Z.shiftl_mul_pow2 by lia. f_equal.
  rewrite (lor_add _ (d * 2 ^ 15) 20), (lor_add _ (f * 2 ^ 12) 15), (lor_add _ (q * 4) 12); try lia; try done.
  - apply Z.divide_add_r; [apply Z.divide_add_r|]; [exists ((b - seg_start s) * 256)|exists (d * 8)|exists f]; lia.
  - apply Z.divide_add_r; [exists ((b - seg_start s) * 32)|exists d]; lia.
  - exists (b - seg_start s). lia.
Qed.

Lemma ecam_offset_out s b d f o : ¬ (seg_start s <= b <= seg_end s) → ecam_offset s b d f o = None.
Proof.
  intros Hb. unfold ecam_offset. destruct (_ || _) eqn:E; [done|]. zb. lia.
Qed.

Lemma land_mid v n k : 0 <= k <= n → Z.land v (2 ^ n - 2 ^ k) = v mod 2 ^ n - v mod 2 ^ k.
Proof.
  intros Hk. pose proof (Z.pow_pos_nonneg 2 k ltac:(lia) ltac:(lia)).
  pose proof (Z.pow_le_mono_r 2 k n ltac:(lia) ltac:(lia)).
  assert (Z.land v (2 ^ n - 2 ^ k) = Z.land (v mod 2 ^ n) (2 ^ n - 2 ^ k)) as ->.
  { rewrite <- (Z.land_ones v n), <- Z.land_assoc by lia. f_equal.
    rewrite Z.land_comm, Z.land_ones, Z.mod_small by lia. done. }
  rewrite land_high by (try apply Z.mod_pos_bound; lia). f_equal.
  replace (2 ^ n) with (2 ^ k * 2 ^ (n - k)) by (rewrite <- Z.pow_add_r by lia; f_equal; lia).
  rewrite Z.rem_mul_r by (try apply Z.pow_nonzero; try apply Z.pow_pos_nonneg; lia). rewrite (Z.mul_comm (2 ^ k)), Z.mod_add, Z.mod_mod by lia. done.
Qed.

(** A register whose bits from [k] on can be written, with [t] below. *)
Lemma settled n k a t :
  0 <= k <= n → (2 ^ k | a) → 0 <= a < 2 ^ n → 0 <= t < 2 ^ k →
  Z.lor (Z.land (a + t) (2 ^ n - 2 ^ k)) t = a + t.
Proof.
  intros Hk [c ->] Ha Ht. rewrite land_mid by done.
  assert ((c * 2 ^ k + t) mod 2 ^ k = t) as -> by (rewrite Z.add_comm, Z.mod_add, Z.mod_small by lia; done).
  assert (c * 2 ^ k + t < 2 ^ n) as Hlt.
  { replace (2 ^ n) with (2 ^ (n - k) * 2 ^ k) in * by (rewrite <- Z.pow_add_r by lia; f_equal; lia).
    assert (c < 2 ^ (n - k)) by (apply (Z.mul_lt_mono_pos_r (2 ^ k)); lia). nia. }
  rewrite Z.mod_small by lia. rewrite (lor_add _ _ k); [lia|lia|lia|]. exists c. lia.
Qed.

(** What reads back after a write of all ones. *)
Lemma sized n k t :
  0 <= k <= n → n <= 32 → 0 <= t < 2 ^ k →
  Z.lor (Z.land U32_MAX (2 ^ n - 2 ^ k)) t = 2 ^ n - 2 ^ k + t.
Proof.
  intros Hk Hn Ht. assert (Z.land U32_MAX (2 ^ n - 2 ^ k) = 2 ^ n - 2 ^ k) as ->.
  { rewrite Z.land_comm. change U32_MAX with (2 ^ 32 - 2 ^ 0). rewrite land_mid by lia.
    rewrite Z.mod_1_r, Z.mod_small; [lia|]. pose proof (Z.pow_le_mono_r 2 k n ltac:(lia) ltac:(lia)).
    pose proof (Z.pow_le_mono_r 2 n 32 ltac:(lia) ltac:(lia)). lia. }
  apply (lor_add _ _ k); [lia|lia|]. apply Z.divide_sub_r; [|done].
  exists (2 ^ (n - k)). rewrite <- Z.pow_add_r by lia. f_equal. lia.
Qed.

Section config.
Context {W : Type} {AD : Addresses} {BU : Bus W} {CF : Config W} {AL : AddressLaws}.
Context (segs : list Segment) {CL : ConfigLaws segs}.
Hypothesis segs_ok : Forall seg_ok segs.
Implicit Types (w : W) (s : Segment).

Lemma seg_region s b d f o :
  s ∈ segs → fn_ok s b d f → 0 <= o < 256 → (4 | o) →
  let e := (b - seg_start s) * 2 ^ 20 + d * 2 ^ 15 + f * 2 ^ 12 + o in
  ∃ r, region s = Some r ∧ (rsize r <? e ⊞ 4) = false ∧ is_multiple_of e 4 = true ∧
    virt_add (rstart r) e = Some (reg s b d f o).
Proof.
  intros Hs (Hb & Hd & Hf) Ho H4 e. destruct (proj1 (Forall_forall _ _) segs_ok s Hs) as (r & Er & H0 & H1 & H2 & H3 & H5).
  assert (0 <= e ∧ e + 4 <= rsize r) as [He0 He1] by (unfold e; destruct H4; lia).
  exists r. split_and!; [done| | |].
  - apply Z.ltb_ge. rewrite u64_small by (unfold in_u64; lia). lia.
  - apply is_multiple_of_spec; [done|]. unfold e. destruct H4 as [q ->].
    exists ((b - seg_start s) * 2 ^ 18 + d * 2 ^ 13 + f * 2 ^ 10 + q). lia.
  - unfold reg, window. rewrite Er. fold e. apply virt_add_ok; [done|]. unfold canonical. lia.
Qed.

Lemma read32_eq s b d f o w :
  s ∈ segs → fn_ok s b d f → 0 <= o < 256 → (4 | o) →
  read32 s b d f o w = (Ok (cfg w (reg s b d f o)), w).
Proof.
  intros Hs Hf Ho H4. destruct (seg_region s b d f o Hs Hf Ho H4) as (r & Er & E1 & E2 & E3).
  unfold read32. rewrite ecam_offset_eq by done. cbn [get]. rewrite mret_bind, Er. cbn [get]. rewrite mret_bind.
  unfold region_read. rewrite E1, E2. cbn [negb]. rewrite E3. cbn [opt_panic].
  unfold mbind, M_bind, read_volatile, mret, M_ret. rewrite (cfg_read segs) by done. done.
Qed.

Lemma read32_out s b d f o w : ¬ (seg_start s <= b <= seg_end s) → read32 s b d f o w = (Err tt, w).
Proof. intros Hb. unfold read32. by rewrite ecam_offset_out. Qed.

Lemma write32_eq s b d f o v w :
  s ∈ segs → fn_ok s b d f → 0 <= o < 256 → (4 | o) →
  write32 s b d f o v w = (Ok tt, mmio_write 4 (reg s b d f o) v w).
Proof.
  intros Hs Hf Ho H4. destruct (seg_region s b d f o Hs Hf Ho H4) as (r & Er & E1 & E2 & E3).
  unfold write32. rewrite ecam_offset_eq by done. cbn [get]. rewrite mret_bind, Er. cbn [get]. rewrite mret_bind.
  unfold region_write. rewrite E1, E2. cbn [negb]. by rewrite E3.
Qed.

(** Registers that are no base address registers. *)
Definition plain s b d f (a : Z) : Prop := ∀ i, 0 <= i < 6 → a ≠ reg s b d f (0x10 + i * 4).

(** A read and a write of base address register [i]. *)
Lemma bar_read s b d f i w :
  s ∈ segs → fn_ok s b d f → 0 <= i < 6 →
  read32 s b d f (0x10 + i * 4) w = (Ok (cfg w (reg s b d f (0x10 + i * 4))), w).
Proof. intros. apply read32_eq; [done|done|lia|]. exists (4 + i). lia. Qed.

Lemma bar_write s b d f i v w :
  s ∈ segs → fn_ok s b d f → 0 <= i < 6 →
  write32 s b d f (0x10 + i * 4) v w = (Ok tt, mmio_write 4 (reg s b d f (0x10 + i * 4)) v w).
Proof. intros. apply write32_eq; [done|done|lia|]. exists (4 + i). lia. Qed.

Lemma cfg_write_same s b d f i v w :
  s ∈ segs → fn_ok s b d f → 0 <= i < 6 → let a := reg s b d f (0x10 + i * 4) in
  cfg (mmio_write 4 a v w) a = Z.lor (Z.land v (rw a)) (ro a).
Proof. intros Hs Hf Hi a. unfold a. rewrite (cfg_write segs) by done. by rewrite Z.eqb_refl. Qed.

Lemma cfg_write_other s b d f i v w a :
  s ∈ segs → fn_ok s b d f → 0 <= i < 6 → a ≠ reg s b d f (0x10 + i * 4) →
  cfg (mmio_write 4 (reg s b d f (0x10 + i * 4)) v w) a = cfg w a.
Proof. intros Hs Hf Hi Ha. rewrite (cfg_write segs) by done. by rewrite (proj2 (Z.eqb_neq _ _) Ha). Qed.

(** ** Probing never disturbs the other registers *)

Lemma wp_bar_read {A} s b d f i (g : Z → M W unit A) Q R w :
  s ∈ segs → fn_ok s b d f → 0 <= i < 6 →
  wp (g (cfg w (reg s b d f (0x10 + i * 4)))) Q R w →
  wp (read32 s b d f (0x10 + i * 4) ≫= g) Q R w.
Proof. intros. eapply wp_step; [by apply bar_read|done]. Qed.

Lemma wp_bar_write {A} s b d f i v (g : unit → M W unit A) Q R w :
  s ∈ segs → fn_ok s b d f → 0 <= i < 6 →
  wp (g tt) Q R (mmio_write 4 (reg s b d f (0x10 + i * 4)) v w) →
  wp (write32 s b d f (0x10 + i * 4) v ≫= g) Q R w.
Proof. intros. eapply wp_step; [by apply bar_write|done]. Qed.

Ltac bar_step := first [apply wp_bar_read; [done|done|lia|]|apply wp_bar_write; [done|done|lia|]].

Lemma parse_bar_frame s b d f i w :
  s ∈ segs → fn_ok s b d f → 0 <= i < 6 →
  wp (parse_bar s b d f i) (λ _ w', ∀ a, plain s b d f a → cfg w' a = cfg w a) (λ _ _, False) w.
Proof.
  intros Hs Hf Hi. unfold parse_bar. rewrite u16_small by (unfold in_u16; lia).
  assert (0x10 + i * 4 + 4 = 0x10 + (i + 1) * 4) as -> by lia.
  bar_step. case_if as E0; [by apply wp_ret|]. case_if as E1.
  - case_if as E2; [|case_if as E3; [case_if as E4; [by apply wp_ret|]|by apply wp_ret]].
    + do 3 bar_step. apply wp_ret. intros a Ha. rewrite !cfg_write_other by (try done; apply Ha; lia). done.
    + zb. do 7 bar_step. apply wp_ret. intros a Ha.
      rewrite !cfg_write_other by (try done; try lia; apply Ha; lia). done.
  - do 3 bar_step. apply wp_ret. intros a Ha. rewrite !cfg_write_other by (try done; apply Ha; lia). done.
Qed.

Lemma bars_from_frame s b d f n i w :
  s ∈ segs → fn_ok s b d f → 0 <= i → i + Z.of_nat n <= 6 →
  wp (bars_from s b d f n i) (λ _ w', ∀ a, plain s b d f a → cfg w' a = cfg w a) (λ _ _, False) w.
Proof.
  intros Hs Hf. revert i w. induction n as [n IH] using lt_wf_ind. intros i w Hi Hn. destruct n as [|n]; [done|].
  cbn [bars_from]. apply wp_bind. eapply wp_mono; [apply parse_bar_frame; [done|done|lia]| |done].
  intros [bar wide] w1 H1. assert (∀ k j, (k < S n)%nat → 0 <= j → j + Z.of_nat k <= 6 →
    ∀ g : list BarInfo → list BarInfo, wp (rest ← bars_from s b d f k j; mret (g rest))
      (λ _ w', ∀ a, plain s b d f a → cfg w' a = cfg w a) (λ _ _, False) w1) as G.
  { intros k j Hk Hj Hkj g. apply wp_bind. eapply wp_mono; [apply IH; lia| |done].
    intros l w2 H2 a Ha. rewrite H2 by done. by apply H1. }
  destruct wide; [destruct n as [|n]|]; apply G; lia.
Qed.

(** ** Base address registers *)

(** What the registers of a function can be: absent, memory with 32 or 64
    address bits, or I/O ports; of size [2 ^ k] at address [a], with the type
    bits [t]. *)
Inductive Bar := Absent | Mem32 (k a t : Z) | Mem64 (k a t : Z) | Io (k a : Z).

(** Register [i] of a function holds this base address, and so does the next one
    for 64 bits.  An I/O register decodes 16 or 32 bits. *)
Definition describes w (at_ : Z → Z) (i : Z) (bar : Bar) : Prop :=
  match bar with
  | Absent => cfg w (at_ i) = 0
  | Mem32 k a t =>
      4 <= k <= 31 ∧ (2 ^ k | a) ∧ 0 < a < 2 ^ 32 ∧ (t = 0 ∨ t = 8) ∧
      cfg w (at_ i) = a + t ∧ rw (at_ i) = 2 ^ 32 - 2 ^ k ∧ ro (at_ i) = t
  | Mem64 k a t =>
      4 <= k <= 63 ∧ (2 ^ k | a) ∧ 0 <= a < 2 ^ 64 ∧ (t = 4 ∨ t = 12) ∧
      cfg w (at_ i) = a mod 2 ^ 32 + t ∧ rw (at_ i) = 2 ^ 32 - 2 ^ (Z.min k 32) ∧ ro (at_ i) = t ∧
      cfg w (at_ (i + 1)) = a / 2 ^ 32 ∧ rw (at_ (i + 1)) = 2 ^ 32 - 2 ^ (Z.max (k - 32) 0) ∧
      ro (at_ (i + 1)) = 0
  | Io k a =>
      2 <= k <= 15 ∧ (2 ^ k | a) ∧ 0 <= a < 2 ^ 16 ∧
      cfg w (at_ i) = a + 1 ∧ (rw (at_ i) = 2 ^ 32 - 2 ^ k ∨ rw (at_ i) = 2 ^ 16 - 2 ^ k) ∧ ro (at_ i) = 1
  end.

(** What [parse_bars] reports; for I/O ports the size comes out wrong. *)
Definition info (bar : Bar) : BarInfo :=
  match bar with
  | Absent => bar_empty
  | Mem32 k a _ => mkBar a (2 ^ k) true false
  | Mem64 k a _ => mkBar a (2 ^ k) true true
  | Io k a => mkBar a (2 ^ 32 - 2 ^ 16 + 2 ^ k) false false
  end.

Definition wide (bar : Bar) : bool := match bar with Mem64 _ _ _ => true | _ => false end.

Definition bar_at s b d f (i : Z) : Z := reg s b d f (0x10 + i * 4).

Lemma div16 k a : 4 <= k → (2 ^ k | a) → ∃ q, a = 16 * q.
Proof.
  intros Hk [c ->]. exists (c * 2 ^ (k - 4)).
  replace (2 ^ k) with (2 ^ (k - 4) * 16); [lia|]. change 16 with (2 ^ 4). rewrite <- Z.pow_add_r by lia. f_equal. lia.
Qed.

(** The kind of a register from its low bits. *)
Lemma kind_bits q t :
  0 <= q → 0 <= t < 16 →
  Z.land (16 * q + t) 1 = t mod 2 ∧ Z.land (Z.shiftr (16 * q + t) 1) 3 = t / 2 mod 4.
Proof.
  intros Hq Ht. change 1 with (Z.ones 1) at 1. change 3 with (Z.ones 2). rewrite !Z.land_ones, Z.shiftr_div_pow2 by lia.
  change (2 ^ 1) with 2. change (2 ^ 2) with 4. split; uint_lia.
Qed.

Lemma writes_restore s b d f i v w a :
  s ∈ segs → fn_ok s b d f → 0 <= i < 6 → let r := bar_at s b d f i in
  Z.lor (Z.land v (rw r)) (ro r) = v → cfg w r = v →
  cfg (mmio_write 4 r v (mmio_write 4 r U32_MAX w)) a = cfg w a.
Proof.
  intros Hs Hf Hi r Hset Hv. unfold r, bar_at in *. destruct (decide (a = reg s b d f (0x10 + i * 4))) as [->|Hne].
  - rewrite cfg_write_same by done. by rewrite Hset, Hv.
  - by rewrite !cfg_write_other by done.
Qed.

Lemma size_mask k t :
  4 <= k <= 31 → 0 <= t < 16 →
  u32 (not32 (Z.land (2 ^ 32 - 2 ^ k + t) 0xFFFFFFF0) + 1) = 2 ^ k.
Proof.
  intros Hk Ht. change 0xFFFFFFF0 with (2 ^ 32 - 2 ^ 4). rewrite land_mid by lia.
  destruct (div16 k (2 ^ k) ltac:(lia) ltac:(by exists 1; lia)) as [q Hq].
  assert (16 <= 2 ^ k < 2 ^ 32) by (split; [apply (Z.pow_le_mono_r 2 4 k)|apply Z.pow_lt_mono_r]; lia).
  rewrite (Z.mod_small _ (2 ^ 32)) by lia.
  assert ((2 ^ 32 - 2 ^ k + t) mod 2 ^ 4 = t) as ->.
  { rewrite Hq. change (2 ^ 32) with (2 ^ 28 * 2 ^ 4). change (2 ^ 4) with 16.
    replace (2 ^ 28 * 16 - 16 * q + t) with (t + (2 ^ 28 - q) * 16) by lia. rewrite Z.mod_add, Z.mod_small by lia. done. }
  rewrite not32_spec, u32_small by (unfold in_u32; lia). lia.
Qed.

Lemma parse_mem32 s b d f i k a t w :
  s ∈ segs → fn_ok s b d f → 0 <= i < 6 → describes w (bar_at s b d f) i (Mem32 k a t) →
  wp (parse_bar s b d f i) (λ r w', r = (info (Mem32 k a t), false) ∧ ∀ x, cfg w' x = cfg w x) (λ _ _, False) w.
Proof.
  intros Hs Hf Hi (Hk & Hdiv & Ha & Ht & Ec & Erw & Ero). unfold parse_bar. rewrite u16_small by (unfold in_u16; lia).
  bar_step. fold (bar_at s b d f i). rewrite Ec. rewrite (proj2 (Z.eqb_neq _ _)) by lia.
  destruct (div16 k a ltac:(lia) Hdiv) as [q Hq].
  assert (2 ^ 4 <= 2 ^ k) by (apply Z.pow_le_mono_r; lia).
  destruct (kind_bits q t ltac:(lia) ltac:(lia)) as [K1 K2]. rewrite <- Hq in K1, K2. rewrite K1, K2.
  assert ((t mod 2 =? 0) = true ∧ (t / 2 mod 4 =? 0) = true) as [-> ->] by (destruct Ht as [-> | ->]; done).
  do 3 bar_step. fold (bar_at s b d f i). apply wp_ret. split.
  - rewrite (cfg_write_same s b d f i) by done. fold (bar_at s b d f i). rewrite Erw, Ero, sized, size_mask by lia.
    f_equal. f_equal. change 0xFFFFFFF0 with (2 ^ 32 - 2 ^ 4). rewrite land_mid by lia.
    rewrite Hq in *. cbn [info]. f_equal. clear -Ha Ht. uint_lia.
  - intros x. apply writes_restore; [done..| |done]. rewrite Erw, Ero. apply settled; [lia|done|lia|lia].
Qed.

Lemma parse_io s b d f i k a w :
  s ∈ segs → fn_ok s b d f → 0 <= i < 6 → describes w (bar_at s b d f) i (Io k a) →
  wp (parse_bar s b d f i) (λ r w', r = (info (Io k a), false) ∧ ∀ x, cfg w' x = cfg w x) (λ _ _, False) w.
Proof.
  intros Hs Hf Hi (Hk & Hdiv & Ha & Ec & Erw & Ero). unfold parse_bar. rewrite u16_small by (unfold in_u16; lia).
  bar_step. fold (bar_at s b d f i). rewrite Ec. rewrite (proj2 (Z.eqb_neq _ _)) by lia.
  assert (2 ^ 2 <= 2 ^ k < 2 ^ 16) by (split; [apply Z.pow_le_mono_r|apply Z.pow_lt_mono_r]; lia).
  assert (∃ q, a = 4 * q) as [q Hq].
  { destruct Hdiv as [c ->]. exists (c * 2 ^ (k - 2)). replace (2 ^ k) with (2 ^ (k - 2) * 2 ^ 2); [lia|].
    rewrite <- Z.pow_add_r by lia. f_equal. lia. }
  assert (∃ p, 2 ^ k = 4 * p) as [p Hp].
  { exists (2 ^ (k - 2)). replace (2 ^ k) with (2 ^ (k - 2) * 2 ^ 2); [lia|]. rewrite <- Z.pow_add_r by lia. f_equal. lia. }
  assert (Z.land (a + 1) 1 = 1) as ->.
  { change 1 with (Z.ones 1) at 2. rewrite Z.land_ones by lia. change (2 ^ 1) with 2. uint_lia. }
  cbn [Z.eqb]. do 3 bar_step. fold (bar_at s b d f i). apply wp_ret. split.
  - rewrite (cfg_write_same s b d f i) by done. fold (bar_at s b d f i). rewrite Ero.
    change 0xFFFC with (2 ^ 16 - 2 ^ 2). rewrite !land_mid by lia.
    assert ((a + 1) mod 2 ^ 16 - (a + 1) mod 2 ^ 2 = a) as -> by uint_lia.
    assert (Z.lor (Z.land U32_MAX (rw (bar_at s b d f i))) 1 mod 2 ^ 16 -
      Z.lor (Z.land U32_MAX (rw (bar_at s b d f i))) 1 mod 2 ^ 2 = 2 ^ 16 - 2 ^ k) as ->.
    { destruct Erw as [-> | ->]; rewrite sized by lia; rewrite Hp in *; clear -H; uint_lia. }
    rewrite not32_spec by (unfold in_u32; lia). rewrite u32_small by (unfold in_u32; lia).
    cbn [info]. do 2 f_equal. lia.
  - intros x. apply writes_restore; [done..| |done]. rewrite Ero.
    destruct Erw as [-> | ->]; apply settled; try done; lia.
Qed.

(** The two halves of a 64-bit register. *)
Lemma wide_mask k t :
  4 <= k <= 63 → 0 <= t < 16 →
  Z.lor (Z.shiftl (2 ^ 32 - 2 ^ (Z.max (k - 32) 0)) 32) (2 ^ 32 - 2 ^ (Z.min k 32) + t) = 2 ^ 64 - 2 ^ k + t.
Proof.
  intros Hk Ht. assert (2 ^ 4 <= 2 ^ (Z.min k 32) <= 2 ^ 32) by (split; apply Z.pow_le_mono_r; lia).
  rewrite Z.shiftl_mul_pow2 by lia. rewrite (lor_add _ _ 32); [|lia|lia|by eexists].
  rewrite Z.mul_sub_distr_r, <- !Z.pow_add_r by lia. change (2 ^ (32 + 32)) with (2 ^ 64).
  destruct (decide (k <= 32)).
  - rewrite Z.min_l, Z.max_r by lia. change (2 ^ (0 + 32)) with (2 ^ 32). lia.
  - rewrite Z.min_r, Z.max_l by lia. replace (k - 32 + 32) with k by lia. lia.
Qed.

Lemma wide_size k t :
  4 <= k <= 63 → 0 <= t < 16 →
  u64 (not64 (Z.land (2 ^ 64 - 2 ^ k + t) (not64 0xF)) + 1) = 2 ^ k.
Proof.
  intros Hk Ht. change (not64 0xF) with (2 ^ 64 - 2 ^ 4). rewrite land_mid by lia.
  destruct (div16 k (2 ^ k) ltac:(lia) ltac:(by exists 1; lia)) as [q Hq].
  assert (16 <= 2 ^ k < 2 ^ 64) by (split; [apply (Z.pow_le_mono_r 2 4 k)|apply Z.pow_lt_mono_r]; lia).
  assert ((2 ^ 64 - 2 ^ k + t) mod 2 ^ 64 - (2 ^ 64 - 2 ^ k + t) mod 2 ^ 4 = 2 ^ 64 - 2 ^ k) as ->
    by (rewrite Hq in *; clear -Ht H; uint_lia).
  rewrite not64_spec, u64_small by (unfold in_u64; lia). lia.
Qed.

Lemma wide_settled k a t :
  4 <= k <= 63 → (2 ^ k | a) → 0 <= a < 2 ^ 64 → 0 <= t < 16 →
  Z.lor (Z.land (a mod 2 ^ 32 + t) (2 ^ 32 - 2 ^ Z.min k 32)) t = a mod 2 ^ 32 + t ∧
  Z.lor (Z.land (a / 2 ^ 32) (2 ^ 32 - 2 ^ Z.max (k - 32) 0)) 0 = a / 2 ^ 32.
Proof.
  intros Hk [c Hc] Ha Ht. assert (2 ^ 4 <= 2 ^ (Z.min k 32)) by (apply Z.pow_le_mono_r; lia).
  assert (2 ^ 0 <= 2 ^ (Z.max (k - 32) 0)) by (apply Z.pow_le_mono_r; lia). split.
  - apply settled; [lia| |apply Z.mod_pos_bound; lia|lia]. rewrite Hc. destruct (decide (k <= 32)).
    + rewrite Z.min_l by lia. replace (2 ^ 32) with (2 ^ (32 - k) * 2 ^ k) by (rewrite <- Z.pow_add_r by lia; f_equal; lia).
      rewrite Z.mul_mod_distr_r by (apply Z.pow_nonzero; lia). by eexists.
    + replace (2 ^ k) with (2 ^ (k - 32) * 2 ^ 32) by (rewrite <- Z.pow_add_r by lia; f_equal; lia).
      rewrite Z.mul_assoc, Z.mod_mul by lia. apply Z.divide_0_r.
  - rewrite <- (Z.add_0_r (a / 2 ^ 32)).
    apply settled; [lia| |split; [apply Z.div_pos|apply Z.div_lt_upper_bound]; lia|lia].
    destruct (decide (k <= 32)); [rewrite Z.max_r by lia; apply Z.divide_1_l|]. rewrite Z.max_l, Hc by lia.
    replace (2 ^ k) with (2 ^ (k - 32) * 2 ^ 32) by (rewrite <- Z.pow_add_r by lia; f_equal; lia).
    rewrite Z.mul_assoc, Z.div_mul by lia. by eexists.
Qed.

Lemma parse_mem64 s b d f i k a t w :
  s ∈ segs → fn_ok s b d f → 0 <= i < 5 → describes w (bar_at s b d f) i (Mem64 k a t) →
  wp (parse_bar s b d f i) (λ r w', r = (info (Mem64 k a t), true) ∧ ∀ x, cfg w' x = cfg w x) (λ _ _, False) w.
Proof.
  intros Hs Hf Hi (Hk & Hdiv & Ha & Ht & Ec & Erw & Ero & Ec' & Erw' & Ero').
  unfold parse_bar. rewrite u16_small by (unfold in_u16; lia).
  assert (0x10 + i * 4 + 4 = 0x10 + (i + 1) * 4) as -> by lia.
  bar_step. fold (bar_at s b d f i). rewrite Ec.
  destruct (div16 k a ltac:(lia) Hdiv) as [q Hq]. assert (a mod 2 ^ 32 = 16 * (q mod 2 ^ 28)) as Hlow.
  { rewrite Hq. change (2 ^ 32) with (16 * 2 ^ 28). by rewrite Z.mul_mod_distr_l. }
  pose proof (Z.mod_pos_bound q (2 ^ 28) ltac:(lia)) as Hqr.
  rewrite (proj2 (Z.eqb_neq _ _)) by lia.
  destruct (kind_bits (q mod 2 ^ 28) t ltac:(lia) ltac:(lia)) as [K1 K2]. rewrite <- Hlow in K1, K2. rewrite K1, K2.
  assert ((t mod 2 =? 0) = true ∧ (t / 2 mod 4 =? 0) = false ∧ (t / 2 mod 4 =? 2) = true) as (-> & -> & ->)
    by (destruct Ht as [-> | ->]; done).
  rewrite (proj2 (Z.leb_gt 5 i)) by lia.
  assert (reg s b d f (0x10 + (i + 1) * 4) ≠ reg s b d f (0x10 + i * 4)) as Hne by (unfold reg; lia).
  assert (2 ^ 4 <= 2 ^ (Z.min k 32) <= 2 ^ 32) by (split; apply Z.pow_le_mono_r; lia).
  assert (2 ^ 0 <= 2 ^ (Z.max (k - 32) 0)) by (apply Z.pow_le_mono_r; lia).
  do 7 bar_step. rewrite (cfg_write_same s b d f (i + 1)) by (done || lia).
  rewrite (cfg_write_other s b d f (i + 1)) by (done || lia). rewrite (cfg_write_same s b d f i) by (done || lia).
  fold (bar_at s b d f i) (bar_at s b d f (i + 1)). rewrite Ec', Erw, Ero, Erw', Ero'.
  rewrite (sized 32 (Z.max (k - 32) 0) 0), (sized 32 (Z.min k 32) t), Z.add_0_r by lia.
  apply wp_ret. split.
  - rewrite wide_mask, wide_size by lia. cbn [info]. f_equal. f_equal.
    rewrite Z.shiftl_mul_pow2, (lor_add _ _ 32); [|lia|lia|by eexists|lia].
    replace (a / 2 ^ 32 * 2 ^ 32 + (a mod 2 ^ 32 + t)) with (a + t) by (pose proof (Z.div_mod a (2 ^ 32)); lia).
    change (not64 0xF) with (2 ^ 64 - 2 ^ 4). rewrite land_mid by lia. rewrite Hq in *. clear -Ha Ht. uint_lia.
  - destruct (wide_settled k a t Hk Hdiv Ha ltac:(lia)) as [S1 S2].
    intros x. unfold bar_at in *.
    destruct (decide (x = reg s b d f (0x10 + i * 4))) as [->|H1].
    { rewrite (cfg_write_same s b d f i) by (done || lia). by rewrite Erw, Ero, S1. }
    rewrite (cfg_write_other s b d f i) by (done || lia).
    destruct (decide (x = reg s b d f (0x10 + (i + 1) * 4))) as [->|H2].
    { rewrite (cfg_write_same s b d f (i + 1)) by (done || lia). by rewrite Erw', Ero', S2. }
    by rewrite !cfg_write_other by (done || lia).
Qed.

(** The registers from [i] on hold these base addresses. *)
Fixpoint layout w (at_ : Z → Z) (i : Z) (l : list Bar) : Prop :=
  match l with
  | [] => i = 6
  | bar :: l => describes w at_ i bar ∧ layout w at_ (i + if wide bar then 2 else 1) l
  end.

Definition infos (l : list Bar) : list BarInfo :=
  l ≫= λ bar, if wide bar then [info bar; bar_empty] else [info bar].

Lemma layout_end w at_ i l : layout w at_ i l → i <= 6.
Proof.
  revert i. induction l as [|bar l IH]; intros i; cbn [layout]; [lia|]. intros [_ H]. apply IH in H. destruct (wide bar); lia.
Qed.

Lemma layout_same w w' at_ i l : (∀ a, cfg w' a = cfg w a) → layout w at_ i l → layout w' at_ i l.
Proof.
  intros Hw. revert i. induction l as [|bar l IH]; intros i; cbn [layout]; [done|]. intros [H1 H2]. split; [|by apply IH].
  destruct bar; cbn [describes] in *; by rewrite !Hw.
Qed.

Lemma parse_bar_spec s b d f i bar w :
  s ∈ segs → fn_ok s b d f → 0 <= i → i + (if wide bar then 2 else 1) <= 6 →
  describes w (bar_at s b d f) i bar →
  wp (parse_bar s b d f i) (λ r w', r = (info bar, wide bar) ∧ ∀ x, cfg w' x = cfg w x) (λ _ _, False) w.
Proof.
  intros Hs Hf H0 Hi H. destruct bar as [|k a t|k a t|k a]; cbn [wide] in *.
  - unfold parse_bar. rewrite u16_small by (unfold in_u16; lia). bar_step. fold (bar_at s b d f i).
    cbn [describes] in H. by rewrite H.
  - apply parse_mem32; [done|done|lia|done].
  - apply parse_mem64; [done|done|lia|done].
  - apply parse_io; [done|done|lia|done].
Qed.

Lemma bars_from_spec s b d f l n i w :
  s ∈ segs → fn_ok s b d f → 0 <= i → i + Z.of_nat n = 6 → layout w (bar_at s b d f) i l →
  wp (bars_from s b d f n i) (λ r w', r = infos l ∧ ∀ x, cfg w' x = cfg w x) (λ _ _, False) w.
Proof.
  intros Hs Hf. revert n i w. induction l as [|bar l IH]; intros n i w Hi Hn Hl; cbn [layout] in Hl.
  { destruct n; [done|lia]. }
  destruct Hl as [Hb Hl]. pose proof (layout_end _ _ _ _ Hl) as He.
  assert (i + (if wide bar then 2 else 1) <= 6) as Hi6 by (destruct (wide bar); lia).
  destruct n as [|n]; [destruct (wide bar); lia|]. cbn [bars_from]. apply wp_bind.
  eapply wp_mono; [by apply (parse_bar_spec s b d f i bar)| |done]. intros r w1 [-> Hw1].
  apply (layout_same w w1) in Hl; [|done]. unfold infos. rewrite bind_cons. destruct (wide bar).
  - destruct n as [|n]; [lia|]. apply wp_bind. eapply wp_mono; [apply IH; [lia|lia|done]| |done].
    intros r w2 [-> Hw2]. apply wp_ret. split; [done|]. intros x. by rewrite Hw2.
  - apply wp_bind. eapply wp_mono; [apply IH; [lia|lia|done]| |done].
    intros r w2 [-> Hw2]. apply wp_ret. split; [done|]. intros x. by rewrite Hw2.
Qed.

(** C32. Probing the base address registers of a function: [parse_bars] returns,
    leaves every configuration register as it was, although it overwrites each
    of them with ones, and reports absent registers and memory of 32 and of 64
    address bits with their address and size.  For I/O ports the address is
    right, but the size is too large by 2^32 - 2^16: the complement is taken on
    32 bits of a 16-bit mask. *)
Theorem bars_probed s b d f l w :
  s ∈ segs → fn_ok s b d f → layout w (bar_at s b d f) 0 l →
  wp (parse_bars s b d f) (λ r w', r = infos l ∧ ∀ x, cfg w' x = cfg w x) (λ _ _, False) w.
Proof. intros Hs Hf Hl. apply bars_from_spec; done. Qed.

(** ** The scan *)

Definition present w s b d f : bool := negb (u16 (cfg w (reg s b d f 0)) =? 0xFFFF).
Definition multi w s b d : bool :=
  negb (Z.land (Z.land (Z.shiftr (cfg w (reg s b d 0 0xC)) 16) 0xFF) 0x80 =? 0).

(** The functions of a device and of a bus that answer, in the order of their
    numbers. *)
Definition dev_ids w s b (d : Z) : list PciID :=
  if in_segment b s && present w s b d 0 then
    mkID d b 0 :: if multi w s b d then (mkID d b) <$> List.filter (present w s b d) (seqZ 1 7) else []
  else [].
Definition bus_ids w (p : Segment * Z) : list PciID := seqZ 0 32 ≫= dev_ids w p.1 p.2.

(** The buses of the segments, in order. *)
Definition buses_of (l : list Segment) : list (Segment * Z) :=
  l ≫= λ g, (pair g) <$> seqZ (seg_start g) (seg_end g - seg_start g + 1).
Definition all_buses : list (Segment * Z) := buses_of segs.

Hypothesis bases_apart : NoDup (seg_base <$> segs).
Hypothesis buses_apart : ∀ s s' b, s ∈ segs → s' ∈ segs → in_segment b s → in_segment b s' → s = s'.
Hypothesis windows_apart : ∀ s s', s ∈ segs → s' ∈ segs → s ≠ s' →
  window s + (seg_end s - seg_start s + 1) * 2 ^ 20 <= window s' ∨
  window s' + (seg_end s' - seg_start s' + 1) * 2 ^ 20 <= window s.

(** Identity and header type are what they were. *)
Definition stable w0 w : Prop := ∀ s b d f o,
  s ∈ segs → fn_ok s b d f → o = 0 ∨ o = 0xC → cfg w (reg s b d f o) = cfg w0 (reg s b d f o).

Lemma stable_plain w0 w w' s b d f :
  s ∈ segs → fn_ok s b d f → (∀ a, plain s b d f a → cfg w' a = cfg w a) → stable w0 w → stable w0 w'.
Proof.
  intros Hs Hf Hp Hst s' b' d' f' o Hs' Hf' Ho. rewrite Hp; [by apply Hst|]. intros i Hi E.
  destruct (decide (s' = s)) as [->|Hne]; [unfold reg in E; lia|].
  destruct Hf as (? & ? & ?), Hf' as (? & ? & ?). unfold reg in E.
  destruct (windows_apart s' s Hs' Hs Hne); lia.
Qed.

Lemma find_entry_owner s b : s ∈ segs → in_segment b s → find_entry segs b = Some s.
Proof.
  intros Hs Hb. unfold find_entry. destruct (List.find _ _) as [s'|] eqn:E.
  - apply List.find_some in E as [Hi Hb']. f_equal. apply (buses_apart s' s b); [by apply list_elem_of_In|done|by rewrite Hb'|done].
  - apply list_elem_of_In in Hs. pose proof (List.find_none _ _ E s Hs) as Hn. by rewrite Hn in Hb.
Qed.

(** Any offset: the window shows 256 bytes of registers. *)
Lemma read32_any s b d f o w :
  s ∈ segs → fn_ok s b d f → ∃ v, read32 s b d f o w = (Ok v, w).
Proof.
  intros Hs Hf. assert (∃ o', 0 <= o' < 256 ∧ (4 | o') ∧ Z.land o 0xFC = o') as (o' & Ho & H4 & El).
  { eexists. split; [|split; [|done]]; change 0xFC with (2 ^ 8 - 2 ^ 2); rewrite land_mid by lia; [uint_lia|].
    apply Z.mod_divide; [lia|]. uint_lia. }
  eexists. etransitivity; [|by apply (read32_eq s b d f o')]. unfold read32. do 2 f_equal. unfold ecam_offset.
  assert (Z.land o' 0xFC = o') as ->; [|by rewrite El].
  rewrite <- El, <- Z.land_assoc. done.
Qed.

Lemma read8_any s b d f o w : s ∈ segs → fn_ok s b d f → ∃ v, read8 s b d f o w = (Ok v, w).
Proof.
  intros Hs Hf. unfold read8. destruct (read32_any s b d f (Z.land o 0xFFFC) w Hs Hf) as [v E].
  eexists. erewrite bind_Ok by exact E. done.
Qed.

Lemma caps_from_reads s b d f n o w : s ∈ segs → fn_ok s b d f → ∃ l, caps_from s b d f n o w = (Ok l, w).
Proof.
  intros Hs Hf. revert o. induction n as [|n IH]; intros o; [by eexists|]. cbn [caps_from].
  destruct (read8_any s b d f o w Hs Hf) as [i E1]. mstep E1.
  destruct (read8_any s b d f (o + 1) w Hs Hf) as [nx E2]. mstep E2.
  destruct (_ || _); [by eexists|]. destruct (IH nx) as [l E3]. mstep E3. by eexists.
Qed.

Lemma parse_caps_reads s b d f w :
  s ∈ segs → fn_ok s b d f → ∃ l, unwrap_or (E := unit) (parse_caps s b d f) [] w = (Ok l, w).
Proof.
  intros Hs Hf. unfold parse_caps, unwrap_or. destruct (read8_any s b d f 0x34 w Hs Hf) as [p E1].
  rewrite (bind_Ok _ _ _ _ _ E1). destruct (p =? 0); [by eexists|].
  destruct (caps_from_reads s b d f 48 p w Hs Hf) as [l ->]. by eexists.
Qed.

Lemma in_segment_range b s : in_segment b s ↔ seg_start s <= b <= seg_end s.
Proof. unfold in_segment. rewrite Is_true_true, andb_true_iff, !Z.leb_le. done. Qed.

Lemma function_new_wp s b d f w0 w :
  s ∈ segs → fn_ok s b d f → stable w0 w → present w0 s b d f = true →
  wp (function_new segs b d f) (λ fn w', id fn = mkID d b f ∧ stable w0 w') (λ _ _, False) w.
Proof.
  intros Hs Hf Hst Hp. unfold function_new. rewrite (find_entry_owner s); [|done|apply in_segment_range; by destruct Hf].
  apply wp_bind, wp_ret.
  eapply wp_step; [apply (read32_eq s b d f 0); [done|done|lia|by exists 0]|]. cbv beta zeta.
  rewrite (Hst s b d f 0 Hs Hf) by (by left). unfold present in Hp. zb. rewrite (proj2 (Z.eqb_neq _ _) Hp).
  eapply wp_step; [apply (read32_eq s b d f 8); [done|done|lia|by exists 2]|].
  apply wp_bind. eapply wp_mono; [by apply (bars_from_frame s b d f 6 0)| |done]. intros bs w1 Hw1.
  destruct (parse_caps_reads s b d f w1 Hs Hf) as [cs Ec]. eapply wp_step; [exact Ec|]. apply wp_ret.
  split; [done|]. by apply (stable_plain w0 w w1 s b d f).
Qed.

(** *** Buses that are pushed *)

(** Every bus of a segment is marked; marks are buses of segments, once each. *)
Definition scan_inv (s : Scan) : Prop :=
  (∀ g b, g ∈ segs → seg_start g <= b <= seg_end g → (seg_base g, b) ∈ scanned s) ∧
  NoDup (scanned s) ∧
  Forall (λ p, p ∈ list_prod (seg_base <$> segs) (seqZ 0 256)) (scanned s) ∧
  Forall (λ p, p.1 ∈ segs) (to_scan s).

(** Buses to pop now and later. *)
Definition pops (s : Scan) : nat := (length (to_scan s) + (256 * length segs - length (scanned s)))%nat.

(** [s'] has seen more buses than [s], none of which has devices. *)
Definition grown w0 (s s' : Scan) : Prop :=
  scan_inv s' ∧ pops s' = pops s ∧ to_scan s' ≫= bus_ids w0 = to_scan s ≫= bus_ids w0 ∧ devices s' = devices s.

Lemma marks_bound (s : Scan) : scan_inv s → (length (scanned s) <= 256 * length segs)%nat.
Proof.
  intros (_ & Hn & Hm & _).
  transitivity (length (list_prod (seg_base <$> segs) (seqZ 0 256))).
  - apply submseteq_length, NoDup_submseteq; [done|]. intros p Hp. by apply (proj1 (Forall_forall _ _) Hm).
  - rewrite List.length_prod, length_fmap, length_seqZ. lia.
Qed.

Lemma bus_scanned_spec l g b : bus_scanned l g b = true ↔ (seg_base g, b) ∈ l.
Proof.
  unfold bus_scanned. rewrite existsb_exists. split.
  - intros ([x y] & Hi & H). simpl in H. zb. subst. by apply list_elem_of_In.
  - intros H. exists (seg_base g, b). split; [by apply list_elem_of_In|]. simpl. by rewrite !Z.eqb_refl.
Qed.

Lemma bus_ids_out w g b : ¬ (seg_start g <= b <= seg_end g) → bus_ids w (g, b) = [].
Proof.
  intros Hb. unfold bus_ids. cbn [fst snd]. generalize (seqZ 0 32). intros l. induction l as [|d l IH]; [done|].
  rewrite bind_cons, IH. unfold dev_ids. destruct (in_segment b g) eqn:E; [|done].
  exfalso. apply Hb, in_segment_range. by rewrite E.
Qed.

Lemma push_bus_grown w0 g (s : Scan) b : scan_inv s → g ∈ segs → 0 <= b < 256 → grown w0 s (push_bus g s b).
Proof.
  intros Hi Hg Hb. unfold push_bus. destruct (bus_scanned (scanned s) g b) eqn:E; [by split_and!|].
  assert ((seg_base g, b) ∉ scanned s) as Hn by (rewrite <- bus_scanned_spec; congruence).
  pose proof Hi as (H1 & H2 & H3 & H4).
  assert (scan_inv (mkScan (devices s) ((g, b) :: to_scan s) (scanned s ++ [(seg_base g, b)]))) as Hi'.
  { split_and!; simpl.
    - intros g' b' Hg' Hb'. apply elem_of_app. left. by apply H1.
    - apply NoDup_app. split_and!; [done| |apply NoDup_singleton]. intros p Hp ->%list_elem_of_singleton. done.
    - apply Forall_app. split; [done|]. apply Forall_singleton. apply list_elem_of_In, List.in_prod.
      + apply list_elem_of_In. by apply list_elem_of_fmap_2.
      + apply list_elem_of_In, elem_of_seqZ. lia.
    - by constructor. }
  split_and!; [done| |simpl; rewrite bus_ids_out; [done|]|done].
  - apply marks_bound in Hi'. unfold pops. simpl in *. rewrite length_app in *. simpl in *. lia.
  - intros Hr. by apply Hn, H1.
Qed.

Lemma push_range_grown w0 g (s : Scan) a z :
  scan_inv s → g ∈ segs → 0 <= a → z < 256 → grown w0 s (push_range g s a z).
Proof.
  intros Hi Hg Ha Hz. unfold push_range. assert (Forall (λ b, 0 <= b < 256) (seqZ a (z - a + 1))) as Hl.
  { apply Forall_forall. intros b Hb. apply elem_of_seqZ in Hb. lia. }
  revert s Hi. induction Hl as [|b l Hb _ IH]; intros s Hi; [done|]. cbn [fold_left].
  destruct (push_bus_grown w0 g s b Hi Hg Hb) as (I1 & P1 & B1 & D1).
  destruct (IH _ I1) as (I2 & P2 & B2 & D2). split_and!; [done|congruence..].
Qed.

(** *** One bus *)

(** [s'] extends [s] by the functions [l]. *)
Definition found w0 (s : Scan) (l : list PciID) (s' : Scan) : Prop :=
  scan_inv s' ∧ pops s' = pops s ∧ to_scan s' ≫= bus_ids w0 = to_scan s ≫= bus_ids w0 ∧
  id <$> devices s' = (id <$> devices s) ++ l.

Lemma found_nil w0 (s : Scan) : scan_inv s → found w0 s [] s.
Proof. intros. split_and!; [done..|]. by rewrite app_nil_r. Qed.

Lemma found_app w0 (s s1 s2 : Scan) l1 l2 : found w0 s l1 s1 → found w0 s1 l2 s2 → found w0 s (l1 ++ l2) s2.
Proof.
  intros (I1 & P1 & B1 & D1) (I2 & P2 & B2 & D2). split_and!; [done|congruence|congruence|].
  by rewrite D2, D1, app_assoc.
Qed.

Lemma wp_unwrap_or {E A} (m : M W unit A) a (Q : A → W → Prop) (R : E → W → Prop) w :
  wp m Q (λ _, Q a) w → wp (unwrap_or m a) Q R w.
Proof. unfold wp, unwrap_or. by destruct (m w) as [[] ?]. Qed.

Lemma visit_function_wp {E} g b d f (s : Scan) w0 w :
  g ∈ segs → fn_ok g b d f → stable w0 w → present w0 g b d f = true → scan_inv s →
  wp (visit_function (E := E) segs g b d f s)
    (λ (s' : Scan) w', stable w0 w' ∧ found w0 s [mkID d b f] s') (λ _ _, False) w.
Proof.
  intros Hg Hf Hst Hp Hi. unfold visit_function. apply wp_bind, wp_unwrap_or, wp_bind.
  eapply wp_mono; [by apply (function_new_wp g b d f w0 w)| |done]. intros fn w1 [Hid Hst1]. apply wp_ret.
  set (s1 := mkScan (devices s ++ [fn]) (to_scan s) (scanned s)).
  assert (found w0 s [mkID d b f] s1) as Hs1.
  { split_and!; [done..|]. simpl. by rewrite fmap_app, <- Hid. }
  apply wp_bind, wp_unwrap_or.
  destruct (read32_any g b d f 0xC w1 Hg Hf) as [h Eh]. unfold wp at 1. rewrite Eh.
  case_if as E1; [|by apply wp_ret]. apply wp_bind, wp_unwrap_or.
  destruct (read32_any g b d f 0x18 w1 Hg Hf) as [r Er]. unfold wp at 1. rewrite Er.
  case_if as E2; [|by apply wp_ret]. apply wp_ret. split; [done|].
  rewrite <- (app_nil_r [mkID d b f]). apply (found_app w0 s s1); [done|].
  destruct (push_range_grown w0 g s1 (u8 (Z.land (Z.shiftr r 8) 0xFF)) (u8 (Z.land (Z.shiftr r 16) 0xFF)))
    as (I1 & P1 & B1 & D1); [apply Hs1|done|apply u8_range|apply u8_range|].
  split_and!; [done..|]. by rewrite D1, app_nil_r.
Qed.

(** A probe of the vendor of a function. *)
Lemma vendor_wp {E} g b d f (Q : Z → W → Prop) (R : E → W → Prop) w0 w :
  g ∈ segs → 0 <= d < 32 → 0 <= f < 8 → stable w0 w →
  (∀ v, (v =? 0xFFFF) = negb (in_segment b g && present w0 g b d f) → Q v w) →
  wp (unwrap_or (read16 g b d f 0) 0xFFFF) Q R w.
Proof.
  intros Hg Hd Hf Hst HQ. apply wp_unwrap_or. unfold read16. change (Z.land 0 0xFFFE) with 0.
  change (Z.land 0 2 * 8) with 0.
  destruct (in_segment b g) eqn:Eb.
  - assert (fn_ok g b d f) as Hfn by (split; [apply in_segment_range; by rewrite Eb|done]).
    eapply wp_step; [apply (read32_eq g b d f 0); [done|done|lia|by exists 0]|]. apply wp_ret.
    rewrite (Hst g b d f 0) by (done || by left). apply HQ. cbn [andb]. unfold present. by rewrite Z.shiftr_0_r, negb_involutive.
  - unfold wp, mbind, M_bind. rewrite read32_out; [by apply HQ|]. rewrite <- in_segment_range. rewrite Eb. by intros [].
Qed.

Lemma scan_functions_wp {E} g b d (s : Scan) w0 w :
  g ∈ segs → seg_start g <= b <= seg_end g → 0 <= d < 32 → stable w0 w → scan_inv s →
  wp (scan_functions (E := E) segs g b d s)
    (λ (s' : Scan) w', stable w0 w' ∧ found w0 s (mkID d b <$> List.filter (present w0 g b d) (seqZ 1 7)) s')
    (λ _ _, False) w.
Proof.
  intros Hg Hb Hd Hst Hi. unfold scan_functions. assert (Forall (λ f, 0 <= f < 8) (seqZ 1 7)) as Hl.
  { apply Forall_forall. intros f Hf%elem_of_seqZ. lia. }
  revert s w Hi Hst. induction Hl as [|f l Hf _ IH]; intros s w Hi Hst; cbn [foldM List.filter].
  { apply wp_ret. split; [done|]. by apply found_nil. }
  apply wp_bind, wp_bind, (vendor_wp g b d f _ _ w0); [done..|]. intros v ->.
  assert (in_segment b g = true) as -> by (apply Is_true_true; by apply in_segment_range).
  cbn [andb]. destruct (present w0 g b d f) eqn:Ep; cbn [negb]; [|by apply wp_ret, IH].
  eapply wp_mono; [by apply (visit_function_wp g b d f s w0)| |done]. intros s1 w1 [Hst1 Hf1].
  eapply wp_mono; [apply IH; [apply Hf1|done]| |done]. intros s2 w2 [Hst2 Hf2]. split; [done|].
  rewrite fmap_cons. by apply (found_app w0 s s1 s2 [mkID d b f]).
Qed.

Lemma scan_device_wp {E} g b d (s : Scan) w0 w :
  g ∈ segs → 0 <= d < 32 → stable w0 w → scan_inv s →
  wp (scan_device (E := E) segs g b s d) (λ (s' : Scan) w', stable w0 w' ∧ found w0 s (dev_ids w0 g b d) s')
    (λ _ _, False) w.
Proof.
  intros Hg Hd Hst Hi. unfold scan_device, dev_ids. apply wp_bind, (vendor_wp g b d 0 _ _ w0); [done|done|lia|done|].
  intros v ->. destruct (in_segment b g && present w0 g b d 0) eqn:E1; cbn [negb].
  2:{ apply wp_ret. split; [done|]. by apply found_nil. }
  zb. match goal with H : in_segment b g = true |- _ => rename H into Eb end.
  assert (seg_start g <= b <= seg_end g) as Hb by (apply in_segment_range; by rewrite Eb).
  assert (fn_ok g b d 0) as Hf by (split_and!; lia).
  apply wp_bind, wp_unwrap_or.
  unfold wp at 1. rewrite (read32_eq g b d 0 0xC) by (done || lia || by exists 3).
  rewrite (Hst g b d 0 0xC) by (done || by right). fold (multi w0 g b d).
  apply wp_bind. eapply wp_mono; [by apply (visit_function_wp g b d 0 s w0)| |done]. intros s1 w1 [Hst1 Hf1].
  destruct (multi w0 g b d); [|by apply wp_ret].
  eapply wp_mono; [apply (scan_functions_wp g b d s1 w0); try done; apply Hf1| |done].
  intros s2 w2 [Hst2 Hf2]. split; [done|]. by apply (found_app w0 s s1 s2 [mkID d b 0]).
Qed.

Lemma scan_bus_wp {E} g b (s : Scan) w0 w :
  g ∈ segs → stable w0 w → scan_inv s →
  wp (foldM (scan_device (E := E) segs g b) s (seqZ 0 32))
    (λ (s' : Scan) w', stable w0 w' ∧ found w0 s (bus_ids w0 (g, b)) s') (λ _ _, False) w.
Proof.
  intros Hg Hst Hi. unfold bus_ids. cbn [fst snd]. assert (Forall (λ d, 0 <= d < 32) (seqZ 0 32)) as Hl.
  { apply Forall_forall. intros d Hd%elem_of_seqZ. lia. }
  revert s w Hi Hst. induction Hl as [|d l Hd _ IH]; intros s w Hi Hst.
  { apply wp_ret. split; [done|]. by apply found_nil. }
  cbn [foldM]. apply wp_bind. eapply wp_mono; [by apply (scan_device_wp g b d s w0)| |done].
  intros s1 w1 [Hst1 Hf1]. eapply wp_mono; [apply IH; [apply Hf1|done]| |done].
  intros s2 w2 [Hst2 Hf2]. split; [done|]. rewrite bind_cons. by apply (found_app w0 s s1).
Qed.

(** *** All buses *)

Lemma scan_loop_wp {E} fuel (s : Scan) w0 w :
  stable w0 w → scan_inv s → (pops s < fuel)%nat →
  wp (scan_loop (E := E) segs fuel s)
    (λ (s' : Scan) w', stable w0 w' ∧ id <$> devices s' = (id <$> devices s) ++ (to_scan s ≫= bus_ids w0))
    (λ _ _, False) w.
Proof.
  revert s w. induction fuel as [|fuel IH]; intros s w Hst Hi Hf; [lia|]. cbn [scan_loop].
  destruct (to_scan s) as [|[g b] rest] eqn:Et.
  { apply wp_ret. split; [done|]. by rewrite app_nil_r. }
  pose proof Hi as (H1 & H2 & H3 & H4). rewrite Et in H4. inversion H4 as [|? ? Hg H5]; subst.
  set (s0 := mkScan (devices s) rest (scanned s)). assert (scan_inv s0) as Hi0 by done.
  assert (S (pops s0) = pops s) as Hp by (unfold pops; rewrite Et; simpl; lia).
  apply wp_bind. eapply wp_mono; [by apply (scan_bus_wp g b s0 w0)| |done].
  intros s1 w1 [Hst1 (I1 & P1 & B1 & D1)]. eapply wp_mono; [apply IH; [done|done|lia]| |done].
  intros s2 w2 [Hst2 D2]. split; [done|]. rewrite D2, D1, B1, bind_cons. simpl. by rewrite app_assoc.
Qed.

Lemma push_seed g (s : Scan) l :
  Forall (λ b, (seg_base g, b) ∉ scanned s) l → NoDup l →
  fold_left (push_bus g) l s =
  mkScan (devices s) (rev ((pair g) <$> l) ++ to_scan s) (scanned s ++ (pair (seg_base g) <$> l)).
Proof.
  revert s. induction l as [|b l IH]; intros s Hl Hn; cbn [fold_left].
  { destruct s. simpl. by rewrite app_nil_r. }
  inversion Hl as [|? ? Hb Hl']; subst. apply NoDup_cons in Hn as [Hb' Hn]. unfold push_bus at 2.
  destruct (bus_scanned (scanned s) g b) eqn:E; [by apply bus_scanned_spec in E|]. rewrite IH; [|simpl|done].
  - simpl. by rewrite <- !app_assoc.
  - eapply Forall_impl; [apply Forall_and; split; [exact Hl'|]|].
    { apply Forall_forall. intros x Hx. instantiate (1 := λ x, x ≠ b). simpl. congruence. }
    simpl. intros x [Hx Hne]. rewrite elem_of_app, list_elem_of_singleton. intros [?|[=]]; done.
Qed.

Definition seed_marks (l : list Segment) : list (Z * Z) :=
  l ≫= λ g, (pair (seg_base g)) <$> seqZ (seg_start g) (seg_end g - seg_start g + 1).

Lemma scan_seed_eq l (s : Scan) :
  NoDup (seg_base <$> l) → (∀ p, p ∈ scanned s → p.1 ∉ seg_base <$> l) →
  fold_left (λ (s : Scan) g, push_range g s (seg_start g) (seg_end g)) l s =
  mkScan (devices s) (rev (buses_of l) ++ to_scan s) (scanned s ++ seed_marks l).
Proof.
  revert s. induction l as [|g l IH]; intros s Hn Hs; cbn [fold_left].
  { destruct s. simpl. by rewrite app_nil_r. }
  rewrite fmap_cons in Hn, Hs. apply NoDup_cons in Hn as [Hg Hn].
  unfold push_range at 2. rewrite push_seed; [|apply Forall_forall|apply NoDup_seqZ].
  2:{ intros b _ Hb. apply Hs in Hb. set_solver. }
  rewrite IH; [|done|].
  - cbn [devices to_scan scanned]. unfold buses_of, seed_marks. rewrite !bind_cons, rev_app_distr, <- !app_assoc. done.
  - simpl. intros p Hp. apply elem_of_app in Hp as [Hp|Hp]; [apply Hs in Hp; set_solver|].
    apply list_elem_of_fmap in Hp as (b & -> & _). done.
Qed.

Lemma seed_inv : scan_inv (mkScan [] (rev all_buses) (seed_marks segs)) ∧
  pops (mkScan [] (rev all_buses) (seed_marks segs)) = (256 * length segs)%nat.
Proof.
  assert (scan_inv (mkScan [] (rev all_buses) (seed_marks segs))) as Hi.
  { split_and!; cbn [scanned to_scan].
    - intros g b Hg Hb. unfold seed_marks. apply list_elem_of_bind. exists g. split; [|done].
      apply list_elem_of_fmap_2, elem_of_seqZ. lia.
    - apply NoDup_bind.
      + intros g1 g2 p H1 H2 (b1 & -> & _)%list_elem_of_fmap (b2 & E & _)%list_elem_of_fmap.
        injection E as E _. apply list_elem_of_lookup in H1 as [i1 H1], H2 as [i2 H2].
        assert (i1 = i2) as ->; [|congruence].
        apply (NoDup_lookup _ _ _ (seg_base g1) bases_apart); rewrite list_lookup_fmap; [by rewrite H1|by rewrite H2, E].
      + intros g _. apply (NoDup_fmap_2 _), NoDup_seqZ.
      + by apply NoDup_fmap_1 in bases_apart.
    - apply Forall_forall. intros p Hp. apply list_elem_of_bind in Hp as (g & Hp & Hg).
      apply list_elem_of_fmap in Hp as (b & -> & Hb%elem_of_seqZ).
      apply list_elem_of_In, List.in_prod; apply list_elem_of_In; [by apply (list_elem_of_fmap_2 seg_base)|].
      apply elem_of_seqZ. destruct (proj1 (Forall_forall _ _) segs_ok g Hg) as (r & _ & ? & ? & _). lia.
    - apply Forall_forall. intros p Hp. apply list_elem_of_In, in_rev, list_elem_of_In in Hp.
      apply list_elem_of_bind in Hp as (g & Hp & Hg). by apply list_elem_of_fmap in Hp as (b & -> & _). }
  split; [done|]. pose proof (marks_bound _ Hi) as Hb. unfold pops. cbn [to_scan scanned] in *. rewrite length_rev.
  assert (length all_buses = length (seed_marks segs)) as ->; [|lia].
  clear. unfold all_buses, buses_of, seed_marks. induction segs as [|g l IH]; [done|].
  rewrite !bind_cons, !length_app, !length_fmap, IH. done.
Qed.

(** C18. The scan returns, and the functions it reports are exactly those that
    answer: on each bus of each segment, for each device with a function 0, that
    function and, if the device has several, the others that are there.  No
    function is missed or reported twice, whatever buses the bridges name, and
    no identity or header register has changed. *)
Theorem scan_exact {E} w :
  wp (scan (E := E) segs)
    (λ l w', id <$> l = rev all_buses ≫= bus_ids w ∧ stable w w') (λ _ _, False) w.
Proof.
  unfold scan. apply wp_bind. destruct seed_inv as [Hi Hp].
  assert (scan_seed segs = mkScan [] (rev all_buses) (seed_marks segs)) as ->.
  { unfold scan_seed. rewrite scan_seed_eq; [|done|]; simpl; [by rewrite app_nil_r|]. intros p Hp'. by apply not_elem_of_nil in Hp'. }
  eapply wp_mono; [apply (scan_loop_wp _ _ w w); [done|exact Hi|unfold scan_fuel; lia]| |done].
  intros s w' [Hst Hd]. apply wp_ret. done.
Qed.
End config.

End PciScan.
