(* ===== verification/PciExamples.v ===== *)
(** * Configuration space in a finite map

    A machine with a few PCI functions that keeps [ConfigLaws], the scan at work
    on it, and what happens with two segments that share bus numbers. *)

From S2P Require Import Prelude Errors Virt Helpers Hardware Pci PciScan VirtExamples.
Import Errors Virt Helpers Hardware Pci PciScan VirtExamples.

Module PciExamples.

(** Registers by address; those that are missing read as ones. *)
Abbreviation Regs := (gmap Z Z).

Definition WIN : Z := 2 ^ 64 - 2 ^ 45.
Definition seg0 : Segment := mkSegment 0xB0000000 0 1 (Some (mkRegion WIN (2 * 2 ^ 20))).

(** A controller on bus 1 with base addresses of all kinds. *)
Definition ctrl_bar (i : Z) : Z := reg seg0 1 0 0 (0x10 + i * 4).

Definition masks : list (Z * (Z * Z)) :=
  [(ctrl_bar 0, (2 ^ 32 - 2 ^ 12, 8)); (ctrl_bar 1, (2 ^ 16 - 2 ^ 8, 1));
   (ctrl_bar 2, (2 ^ 32 - 2 ^ 14, 4)); (ctrl_bar 3, (2 ^ 32 - 2 ^ 0, 0))].
Definition mask_of (a : Z) : Z * Z :=
  match List.find (λ p, p.1 =? a) masks with Some p => p.2 | None => (2 ^ 32 - 1, 0) end.

#[export] Instance regs_config : Config Regs := {|
  cfg w a := default 0xFFFFFFFF (w !! a);
  rw a := (mask_of a).1;
  ro a := (mask_of a).2
|}.

#[export] Instance regs_bus : Bus Regs := {|
  mmio_read n a w := (default 0xFFFFFFFF (w !! a), w);
  mmio_write n a v w := <[a := Z.lor (Z.land v (mask_of a).1) (mask_of a).2]> w;
  ram _ _ := 0;
  ram_write _ _ w := w;
  alloc_pages _ := mret None;
  free_frames _ _ w := w
|}.

#[export] Instance regs_laws segs : ConfigLaws segs.
Proof.
  split; [done|]. intros s b d f i v w a Hs Hf Hi. cbn [cfg rw ro mmio_write regs_config regs_bus]. destruct (a =? _) eqn:E; zb.
  - subst. by rewrite lookup_insert_eq.
  - by rewrite lookup_insert_ne.
Qed.

(** Bus 0: a host bridge and a bridge to buses 1 to 5.  Bus 1: the controller,
    with a second function. *)
Definition machine : Regs := list_to_map [
  (reg seg0 0 0 0 0, 0x12348086); (reg seg0 0 0 0 0xC, 0); (reg seg0 0 0 0 0x34, 0);
  (reg seg0 0 1 0 0, 0x22228086); (reg seg0 0 1 0 0xC, 0x00010000); (reg seg0 0 1 0 0x18, 0x00050100);
  (reg seg0 0 1 0 0x34, 0);
  (reg seg0 1 0 0 0, 0x33338086); (reg seg0 1 0 0 0xC, 0x00800000); (reg seg0 1 0 0 0x34, 0);
  (ctrl_bar 0, 0xFEB00008); (ctrl_bar 1, 0xC001); (ctrl_bar 2, 0x4004); (ctrl_bar 3, 8);
  (ctrl_bar 4, 0); (ctrl_bar 5, 0);
  (reg seg0 1 0 3 0, 0x44448086); (reg seg0 1 0 3 0xC, 0); (reg seg0 1 0 3 0x34, 0)].

Lemma seg0_ok : Forall seg_ok [seg0].
Proof. repeat constructor. eexists. split; [done|]. by split_and!. Qed.

Lemma bars_probed_witness :
  (parse_bars seg0 1 0 0 machine).1 =
  Ok [mkBar 0xFEB00000 4096 true false; mkBar 0xC000 (2 ^ 32 - 2 ^ 16 + 256) false false;
      mkBar 0x800004000 16384 true true; bar_empty; bar_empty; bar_empty].
Proof.
  assert (layout machine (bar_at seg0 1 0 0) 0
    [Mem32 12 0xFEB00000 8; Io 8 0xC000; Mem64 14 0x800004000 4; Absent; Absent]) as Hl.
  { cbn [layout wide describes]. split_and!; try (vm_compute; congruence); try (vm_compute; reflexivity).
    all: try (apply Z.mod_divide; [done|]; vm_compute; reflexivity). all: first [left; vm_compute; reflexivity|right; vm_compute; reflexivity]. }
  pose proof (bars_probed [seg0] seg0_ok seg0 1 0 0 _ machine ltac:(by left) ltac:(by split_and!) Hl) as H.
  unfold wp in H. destruct (parse_bars seg0 1 0 0 machine) as [[r| | |] w'] eqn:E; [|destruct H..].
  destruct H as [-> _]. reflexivity.
Defined.

Lemma scan_exact_witness :
  ∃ l w', scan (E := PCIError) [seg0] machine = (Ok l, w') ∧
    id <$> l = [mkID 0 1 0; mkID 0 1 3; mkID 0 0 0; mkID 1 0 0].
Proof.
  pose proof (scan_exact (E := PCIError) [seg0] seg0_ok ltac:(apply NoDup_singleton)
    ltac:(by intros s s' b ->%list_elem_of_singleton ->%list_elem_of_singleton)
    ltac:(by intros s s' ->%list_elem_of_singleton ->%list_elem_of_singleton) machine) as H.
  apply wp_Ok in H as (l & w' & E & Hl & _). exists l, w'. split; [exact E|]. rewrite Hl. vm_compute. reflexivity.
Defined.

(** Two segments with the same bus numbers and a function on the second one
    only: the scan sees its vendor, but probes it through the first segment. *)
Definition seg1 : Segment := mkSegment 0xC0000000 0 1 (Some (mkRegion (2 ^ 64 - 2 ^ 44) (2 * 2 ^ 20))).

Lemma second_segment_lost :
  (if (scan (E := PCIError) [seg1] {[reg seg1 0 4 0 0 := 0x12348086]}).1 is Ok l then id <$> l else []) = [mkID 4 0 0] ∧
  (scan (E := PCIError) [seg0; seg1] {[reg seg1 0 4 0 0 := 0x12348086]}).1 = Ok [].
Proof. split; vm_compute; reflexivity. Qed.

End PciExamples.
