(* ===== verification/AhciInit.v ===== *)
(** * Bringing up AHCI controllers and drives ([init] of
    src/kernel/src/drivers/storage/ahci/mod.rs)

    From a PCI function to its drives: the registers are mapped, the controller
    is reset, and every port with a SATA drive gets its pages and an IDENTIFY
    command.  Pages that an early exit drops go back to the page allocator.

    [AllocLaws] states what the page allocator promises; the drives that come out
    are then well-formed, as the transfer theorems require. *)

From S2P Require Import Prelude Errors Virt Helpers Hardware Ahci AhciTransfer Pci.
Import Errors Virt Helpers Hardware Ahci AhciTransfer.

Module AhciInit.

Section init.
Context {W : Type} {AD : Addresses} {BU : Bus W} {MP : Mapper W}.
Variables (HHDM_OFFSET : Z) (hpet : Hpet) (fuel : nat).

Record GlobalRegisters := mkGlobal { cap : Z; cap2 : Z; ghc : Z; pi : Z; bohc : Z }.

Definition global_new (region : VirtualRegion) : M W unit GlobalRegisters :=
  cap ← some (register 4 region 0);
  cap2 ← some (register 4 region 0x24);
  ghc ← some (register 4 region 4);
  pi ← some (register 4 region 0xC);
  bohc ← some (register 4 region 0x28);
  mret (mkGlobal cap cap2 ghc pi bohc).

(** An error drops a page that is in scope. *)
Definition scoped {E A} (p : PhysPage) (m : M W E A) : M W E A := λ w,
  match m w with
  | (Err e, w') => (Err e, free_frames (phys p) (count p) w')
  | r => r
  end.

(** [PhysPage::new(n).map_err(|_| InitFailed)?] *)
Definition init_page (n : Z) : M W StorageError PhysPage :=
  map_errM (λ _, InitFailed) (page_new HHDM_OFFSET n).

(** [id_buf.read_data::<uN>(offset).ok_or(InitFailed)?] *)
Definition identify_word (n : Z) (id_buf : PhysPage) (offset : Z) : M W StorageError Z :=
  o ← read_data HHDM_OFFSET n n id_buf offset;
  bytes ← lift (ok_or o InitFailed);
  mret (le_val bytes).

(** IDENTIFY: the number and the size of the blocks. *)
Definition identify (drive : AHCIDrive) (id_buf : PhysPage) : M W StorageError (Z * Z) :=
  let fis := fis_new 0x80 0xEC 0 0 0 0 0 in
  map_errM (λ _, InitFailed) (send_command HHDM_OFFSET hpet fuel drive fis (phys id_buf) 512 false);;
  block_count ← identify_word 8 id_buf 200;
  word106 ← identify_word 2 id_buf 212;
  if Z.land (Z.shiftr word106 12) 1 =? 1 then
    word117 ← identify_word 2 id_buf 234;
    word118 ← identify_word 2 id_buf 236;
    let half := Z.lor (Z.shiftl word118 16) word117 in
    mret (block_count, Z.max (u32 (half * 2)) BLOCK_SIZE)
  else mret (block_count, BLOCK_SIZE).

(** The drive behind a port that has been started: its buffers in place, the
    signature checked, the drive identified.  [None] is a [continue]. *)
Definition attach (bar : VirtualRegion) (ncs port_id : Z) (port : PortRegisters)
    (command_list fis_buffer command_tables : PhysPage) : M W StorageError (option AHCIDrive) :=
  let drop_pages := page_drop command_tables;; page_drop fis_buffer;; page_drop command_list in
  b ← scoped command_list (scoped fis_buffer (scoped command_tables (
    rebase hpet fuel port (phys command_list) (phys fis_buffer);;
    wait_reg hpet fuel (cmd port) (λ v, Z.land v 0x4000 =? 0) TIMEOUT)));
  if negb b then drop_pages;; mret None
  else
    sig_v ← read_volatile 4 (sig port);
    if negb (sig_v =? 0x101) then drop_pages;; mret None
    else
      let drive := mkDrive bar port_id command_list command_tables fis_buffer 0 0 ncs in
      scoped fis_buffer (scoped command_tables (scoped command_list (
        id_buf ← init_page 1;
        r ← scoped id_buf (identify drive id_buf);
        let '(block_count, block_size) := r in
        page_drop id_buf;;
        mret (Some (mkDrive bar port_id command_list command_tables fis_buffer block_size block_count ncs))))).

(** One round of the probe. *)
Definition probe_port (bar : VirtualRegion) (ncs pi port_id : Z) : M W StorageError (option AHCIDrive) :=
  if Z.land (Z.shiftr pi port_id) 1 =? 0 then mret None
  else λ w,
    match port_new bar port_id w with
    | (Err _, w) => (Ok None, w)
    | (Panic, w) => (Panic, w)
    | (Loop, w) => (Loop, w)
    | (Ok port, w) => (
        ssts_v ← read_volatile 4 (ssts port);
        let det := Z.land ssts_v 0xF in
        if negb (det =? 1) && negb (det =? 3) then mret None
        else
          cmd_v ← read_volatile 4 (cmd port);
          write_volatile 4 (cmd port) (Z.lor cmd_v 6);;
          b ← wait_reg hpet fuel (ssts port) (λ v, negb (Z.land v 0xF =? 3)) PROBE_TIMEOUT;
          if negb b then mret None
          else
            ssts_v ← read_volatile 4 (ssts port);
            let ipm := Z.land (Z.shiftr ssts_v 8) 0xF in
            if ipm =? 0 then mret None
            else
              b ← (if negb (ipm =? 1) then com_reset hpet fuel port else mret true);
              if negb b then mret None
              else
                write_volatile 4 (serr port) U32_MAX;;
                command_list ← init_page 1;
                fis_buffer ← scoped command_list (init_page 1);
                command_tables ← scoped command_list (scoped fis_buffer (init_page 3));
                attach bar ncs port_id port command_list fis_buffer command_tables) w
    end.

Definition drop_drive {E} (d : AHCIDrive) : M W E unit :=
  page_drop (command_list d);; page_drop (command_tables d);; page_drop (fis_buffer d).

(** The probe loop; an error drops the drives found before. *)
Definition probe_ports (bar : VirtualRegion) (ncs pi ports_count : Z) : M W StorageError (list AHCIDrive) :=
  foldM (λ drives port_id, λ w,
    match probe_port bar ncs pi port_id w with
    | (Err e, w') => (forM drives drop_drive;; fail e) w'
    | (Ok (Some d), w') => (Ok (drives ++ [d]), w')
    | (Ok None, w') => (Ok drives, w')
    | (Panic, w') => (Panic, w')
    | (Loop, w') => (Loop, w')
    end) [] (seqZ 0 ports_count).

(** [init] from the mapped window on. *)
Definition init_controller (bar : VirtualRegion) : M W StorageError (list AHCIDrive) :=
  g ← or_err (global_new bar) InitFailed;
  cap_v ← read_volatile 4 (cap g);
  let ports_count := Z.land cap_v 0x1F + 1 in
  let ncs := Z.land (Z.shiftr cap_v 8) 0x1F in
  if negb (Z.land (Z.shiftr cap_v 31) 1 =? 1) then fail InitFailed
  else
    cap2_v ← read_volatile 4 (cap2 g);
    (if Z.land cap2_v 2 =? 2 then
       bohc_v ← read_volatile 4 (bohc g);
       write_volatile 4 (bohc g) (Z.lor bohc_v 2);;
       b ← wait_reg hpet fuel (bohc g) (λ v, negb (is_multiple_of v 2)) TIMEOUT;
       ensure b Timeout
     else mret tt);;
    ghc_v ← read_volatile 4 (ghc g);
    write_volatile 4 (ghc g) (Z.lor ghc_v (Z.shiftl 1 31));;
    ghc_v ← read_volatile 4 (ghc g);
    write_volatile 4 (ghc g) (Z.lor ghc_v 1);;
    b ← wait_reg hpet fuel (ghc g) (λ v, Z.land v 1 =? 1) TIMEOUT;
    ensure b Timeout;;
    ghc_v ← read_volatile 4 (ghc g);
    write_volatile 4 (ghc g) (Z.lor ghc_v (Z.shiftl 1 31));;
    pi_v ← read_volatile 4 (pi g);
    probe_ports bar ncs pi_v ports_count.

(** [init] on the kernel's address space. *)
Definition ahci_init (segments : list Pci.Segment) (device : Pci.PCIFunction) :
    M (VMemAllocator (W := W)) StorageError (list AHCIDrive) :=
  on_table (or_err (Pci.enable_bus_master segments device) PCIeError);;
  on_table (or_err (Pci.enable_mmio segments device) PCIeError);;
  abar ← lift (ok_or (Pci.bar device 5) PCIeError);
  address ← opt_panic (phys_new (Pci.address abar));
  let page_count := div_ceil (Pci.size abar) PAGE_SIZE in
  o ← map_errM (Empty_set_rect (λ _, StorageError)) (mmio_new address page_count);
  bar ← lift (ok_or o InitFailed);
  on_table (init_controller bar).
End init.

(** ** What the page allocator promises *)

(** [used] are the physical addresses that are handed out. *)
Class AllocLaws (W : Type) `{BU : Bus W} (HHDM_OFFSET : Z) := {
  used : W → Z → Prop;
  used_read n a w x : used (mmio_read n a w).2 x ↔ used w x;
  used_write n a v w x : used (mmio_write n a v w) x ↔ used w x;
  used_ram a data w x : used (ram_write a data w) x ↔ used w x;
  alloc_law n w :
    0 < n →
    wp (alloc_pages n) (λ o w',
      match o with
      | None => ∀ x, used w' x ↔ used w x
      | Some v => ∃ p, v = p + HHDM_OFFSET ∧ 0 <= p ∧ (4096 | p) ∧ p + n * 4096 < 2 ^ 46 ∧
          (∀ x, within p (n * 4096) x = true → ¬ used w x) ∧
          ∀ x, used w' x ↔ used w x ∨ within p (n * 4096) x = true
      end) (λ _ _, False) w;
  free_law p n w x : used (free_frames p n w) x ↔ used w x ∧ within p (n * 4096) x = false
}.

Section proofs.
Context {W : Type} {AD : Addresses} {BU : Bus W} {AL : AddressLaws}.
Variables (HHDM_OFFSET : Z) (hpet : Hpet) (fuel : nat).
Context {CL : ClockLaws W hpet} {UL : AllocLaws W HHDM_OFFSET}.
Hypothesis hhdm_ok : 2 ^ 64 - 2 ^ 47 <= HHDM_OFFSET <= 2 ^ 64 - 2 ^ 46.
Hypothesis enough_fuel : ∀ t, t = TIMEOUT ∨ t = PROBE_TIMEOUT ∨ t = Milliseconds 1 → enough hpet fuel t.
Implicit Types (w : W) (d : AHCIDrive).

(** ** Code that allocates nothing *)

Definition same_used w w' : Prop := ∀ x, used w' x ↔ used w x.

Definition silent {E A} (m : M W E A) : Prop :=
  ∀ w, wp m (λ _ w', same_used w w') (λ _ w', same_used w w') w.

Lemma same_used_trans w0 w1 w2 : same_used w0 w1 → same_used w1 w2 → same_used w0 w2.
Proof. intros H1 H2 x. by rewrite (H2 x). Qed.

Lemma silent_bind {E A B} (m : M W E A) (f : A → M W E B) :
  silent m → (∀ a, silent (f a)) → silent (m ≫= f).
Proof.
  intros Hm Hf w. apply wp_bind. eapply wp_mono; [apply Hm| |done]. intros a w1 H1.
  eapply wp_mono; [apply Hf|..]; intros ? w2 H2; exact (same_used_trans _ _ _ H1 H2).
Qed.

Lemma silent_ret {E A} (a : A) : silent (E := E) (mret a).
Proof. intros w x. done. Qed.

Lemma silent_fail {E A} (e : E) : silent (A := A) (fail e).
Proof. intros w x. done. Qed.

Lemma silent_ok_or {E A} (o : option A) (e : E) : silent (lift (ok_or o e)).
Proof. intros w. destruct o; intros x; done. Qed.

Lemma silent_map_err {E F A} (g : E → F) (m : M W E A) : silent m → silent (map_errM g m).
Proof. intros Hm w. apply wp_map_errM, Hm. Qed.

Lemma silent_read {E} n a : silent (E := E) (read_volatile n a).
Proof. intros w. apply wp_read_volatile. intros x. apply used_read. Qed.

Lemma silent_write {E} n a v : silent (E := E) (write_volatile n a v).
Proof. intros w. apply wp_write_volatile. intros x. apply used_write. Qed.

Lemma silent_ensure {E} b (e : E) : silent (ensure b e).
Proof. destruct b; [apply silent_ret|apply silent_fail]. Qed.

Lemma silent_poke {E} v data : silent (E := E) (poke HHDM_OFFSET v data).
Proof. intros w. apply wp_poke. intros x. apply used_ram. Qed.

Lemma silent_peek {E} v n : silent (E := E) (peek HHDM_OFFSET v n).
Proof. intros w x. done. Qed.

Lemma silent_foldM {E A B} (f : B → A → M W E B) (P : A → Prop) b l :
  Forall P l → (∀ b a, P a → silent (f b a)) → silent (foldM f b l).
Proof.
  intros Hl Hf. revert b. induction Hl as [|a l Ha _ IH]; intros b; [apply silent_ret|]. cbn [foldM].
  apply silent_bind; [by apply Hf|exact IH].
Qed.

(** A register of a device other than the clock. *)
Definition foreign (a : Z) : Prop := a ≠ regs hpet + 0xF0.

Lemma silent_wait_reg {E} reg cond t :
  foreign reg → t = TIMEOUT ∨ t = PROBE_TIMEOUT ∨ t = Milliseconds 1 →
  silent (E := E) (wait_reg hpet fuel reg cond t).
Proof.
  intros Hr Ht w. eapply wp_mono; [apply (wait_timeout_wp hpet (same_used w) (same_used w) (λ _, same_used w))|..].
  - intros w' Hw x. rewrite used_read. apply Hw.
  - by apply enough_fuel.
  - done.
  - intros w' Hw. apply wp_bind, wp_read_volatile, wp_ret.
    assert (same_used w (mmio_read 4 reg w').2) as H by (intros x; rewrite used_read; apply Hw).
    destruct (cond _); [|done]. split; [done|]. by apply (counter_read (h := hpet)).
  - intros [] w' Hw; done.
  - done.
Qed.

Lemma silent_wait {E} : silent (E := E) (wait (passed_nanos hpet) fuel (Milliseconds 1)).
Proof.
  intros w. eapply wp_mono; [apply (wait_wp hpet (same_used w) (λ _, same_used w))|..].
  - intros w' Hw x. rewrite used_read. apply Hw.
  - done.
  - apply enough_fuel. tauto.
  - done.
  - done.
  - done.
Qed.

Ltac silent_step :=
  first
    [ apply silent_wait_reg; [|tauto] | apply silent_wait | apply silent_bind; [|intros ?]
    | apply silent_ret | apply silent_fail | apply silent_ok_or | apply silent_map_err | apply silent_read
    | apply silent_write | apply silent_ensure | apply silent_poke | apply silent_peek
    | case_bool ].

(** The registers of the port at [P]. *)
Definition port_foreign (P : Z) : Prop := ∀ off, 0 <= off < 0x80 → foreign (P + off).

Lemma silent_rebase P l f : port_foreign P → silent (rebase hpet fuel (port_at P) l f).
Proof.
  intros HP. unfold rebase, stop_cmd, start_cmd. repeat silent_step; cbn [cmd port_at]; apply HP; lia.
Qed.

Lemma silent_com_reset P : port_foreign P → silent (com_reset hpet fuel (port_at P)).
Proof. intros HP. unfold com_reset. repeat silent_step; cbn [ssts port_at]; apply HP; lia. Qed.

(** ** Sending a command *)

Lemma set_prd_safe P d slot data bytes w0 k r w R :
  drive_ok HHDM_OFFSET P d → 0 <= slot < 32 → 0 <= data → 0 < bytes → data + bytes < 2 ^ 52 →
  (k < 16)%nat → Z.of_nat k * PRD_MAX_BYTES < bytes → same_used w0 w →
  r = (bytes - Z.min bytes (Z.of_nat k * PRD_MAX_BYTES), data + Z.min bytes (Z.of_nat k * PRD_MAX_BYTES)) →
  wp (set_prd HHDM_OFFSET d slot r (Z.of_nat k))
    (λ r' w', r' = (bytes - Z.min bytes (Z.of_nat (S k) * PRD_MAX_BYTES),
                    data + Z.min bytes (Z.of_nat (S k) * PRD_MAX_BYTES)) ∧ same_used w0 w') R w.
Proof.
  intros Hd Hs Hda Hb Hdb Hk Hkb Hw ->. unfold set_prd. rewrite Z.min_r by lia.
  set (chunk := Z.min _ PRD_MAX_BYTES). unfold PRD_MAX_BYTES in *.
  assert (slot ⊠ PRD_STRIDE ⊞ 0x80 ⊞ Z.of_nat k ⊠ 16 = slot * 384 + 0x80 + Z.of_nat k * 16) as ->.
  { change PRD_STRIDE with 384. rewrite (u64_small (slot * 384)), (u64_small (Z.of_nat k * 16)) by (unfold in_u64; lia).
    rewrite (u64_small (slot * 384 + 0x80)) by (unfold in_u64; lia). apply u64_small. unfold in_u64. lia. }
  apply wp_bind, (table_ptr_wp HHDM_OFFSET P hhdm_ok); [done|lia|]. apply wp_bind, wp_poke, wp_bind, wp_gets.
  match goal with |- context [le_val ?l] => destruct (dbc_encode (le_val l) (u32 chunk)) as (dbc & -> & _) end.
  { subst chunk. rewrite u32_small by (unfold in_u32; lia). lia. }
  apply wp_bind, wp_ret, wp_bind, wp_poke, wp_ret. split.
  - subst chunk. clear -Hda Hb Hdb Hkb. f_equal; rewrite u64_small; unfold in_u64; lia.
  - intros x. rewrite !used_ram. apply Hw.
Qed.

Lemma silent_build P d slot fis data bytes wr :
  drive_ok HHDM_OFFSET P d → 0 <= slot < 32 → 0 <= data → 0 <= bytes <= PRDS_PER_TABLE * PRD_MAX_BYTES →
  data + bytes < 2 ^ 52 → silent (build_command HHDM_OFFSET d slot fis data bytes wr).
Proof.
  intros Hd Hs Hda Hb Hdb w. pose proof Hd as (_ & _ & _ & _ & _ & _ & Hcl & Hct & _). unfold build_command.
  assert (slot ⊠ PRD_STRIDE = slot * 384) as -> by (apply u64_small; unfold in_u64, PRD_STRIDE, PRDS_PER_TABLE; lia).
  apply wp_bind, (page_write_wp HHDM_OFFSET hhdm_ok 3); [done|lia|change (Z.of_nat (length _)) with 128; lia|].
  apply wp_bind, (table_ptr_wp HHDM_OFFSET P hhdm_ok); [done|lia|]. apply wp_bind, wp_poke, wp_bind, wp_poke.
  pose proof (div_ceil_bounds bytes PRD_MAX_BYTES ltac:(done)) as Hn.
  pose proof (div_ceil_nonneg bytes PRD_MAX_BYTES ltac:(lia) ltac:(done)) as Hn0.
  set (n := div_ceil bytes PRD_MAX_BYTES) in *. assert (n <= 16) by (unfold PRD_MAX_BYTES, PRDS_PER_TABLE in *; lia).
  apply wp_bind. eapply wp_mono; [apply (wp_foldM (λ k r w', r = (bytes - Z.min bytes (Z.of_nat k * PRD_MAX_BYTES),
      data + Z.min bytes (Z.of_nat k * PRD_MAX_BYTES)) ∧ same_used w w') _ (λ _ _, False))|..].
  - split; [f_equal; unfold PRD_MAX_BYTES; lia|]. intros x. by rewrite !used_ram.
  - intros k i r w1 Hk [-> Hw1]. apply lookup_seqZ in Hk as [-> Hk]. rewrite Z.add_0_l.
    apply (set_prd_safe P); try done; unfold PRD_MAX_BYTES in *; lia.
  - intros r w1 [_ Hw1]. assert (32 ⊠ slot = 32 * slot) as -> by (apply u64_small; unfold in_u64; lia).
    apply (page_write_wp HHDM_OFFSET hhdm_ok 1); [done|lia|rewrite length_header; lia|].
    intros x. rewrite used_ram. apply Hw1.
  - done.
Qed.

Lemma silent_send P d fis data bytes wr :
  drive_ok HHDM_OFFSET P d → port_foreign P → 0 <= data → 0 <= bytes <= PRDS_PER_TABLE * PRD_MAX_BYTES →
  data + bytes < 2 ^ 52 → silent (send_command HHDM_OFFSET hpet fuel d fis data bytes wr).
Proof.
  intros Hd HP Hda Hb Hdb w. unfold send_command.
  eapply wp_step; [unfold or_err, map_errM; rewrite (port_new_eq P); [done|by apply (drive_fits HHDM_OFFSET)]|].
  unfold find_slot. apply wp_bind, wp_bind, wp_read_volatile, wp_bind, wp_read_volatile, wp_ret.
  set (w1 := (mmio_read 4 (ci _) _).2). assert (same_used w w1) as H1 by (intros x; unfold w1; by rewrite !used_read).
  destruct (List.find _ _) as [slot|] eqn:Es; [|exact H1]. apply wp_bind, wp_ret.
  assert (0 <= slot < 32) as Hs.
  { apply List.find_some in Es as [Es _]. apply list_elem_of_In, elem_of_seqZ in Es.
    destruct Hd as (_ & _ & _ & _ & _ & Hn & _). lia. }
  match goal with |- wp ?m _ _ _ => assert (silent m) as Hm end.
  { apply silent_bind; [by apply (silent_build P)|intros _]. repeat silent_step; cbn [tfd ci port_at]; apply HP; lia. }
  eapply wp_mono; [apply Hm|..]; intros ? w2 H2; exact (same_used_trans _ _ _ H1 H2).
Qed.

Lemma silent_identify P d p :
  drive_ok HHDM_OFFSET P d → port_foreign P → page_ok HHDM_OFFSET 1 p →
  ∀ w, wp (identify HHDM_OFFSET hpet fuel d p)
    (λ r w', same_used w w' ∧ 512 <= r.2 < 2 ^ 32 ∧ (2 | r.2)) (λ _ w', same_used w w') w.
Proof.
  intros Hd HP Hp w. pose proof Hp as (Hc & Hst & H0 & Hal & Hle). unfold identify. apply wp_bind, wp_map_errM.
  eapply wp_mono; [apply (silent_send P); try done; unfold PRDS_PER_TABLE, PRD_MAX_BYTES; lia| |done]. intros [] w1 H1.
  assert (∀ n o, 0 <= o → 0 < n → o + n <= 4096 → (n | o) → ∃ v, ∀ w', identify_word HHDM_OFFSET n p o w' = (Ok (v w'), w')) as Hw.
  { intros n o Ho Hn Hon Hdiv. exists (λ w', le_val (bytes_at (ram w') (start p + o - HHDM_OFFSET) n)). intros w'.
    unfold identify_word, read_data. rewrite Hc, !u64_small by (unfold in_u64, PAGE_SIZE; lia).
    rewrite (proj2 (Z.ltb_ge _ _)) by (unfold PAGE_SIZE; lia).
    rewrite (proj2 (is_multiple_of_spec o n Hn) Hdiv). cbn [negb].
    rewrite virt_add_ok by (try lia; unfold canonical; lia). done. }
  destruct (Hw 8 200) as [v1 E1]; [lia..|by exists 25|]. eapply wp_step; [apply E1|].
  destruct (Hw 2 212) as [v2 E2]; [lia..|by exists 106|]. eapply wp_step; [apply E2|].
  case_if as E3; [|apply wp_ret; split; [done|split; [done|by exists 256]]].
  destruct (Hw 2 234) as [v3 E4]; [lia..|by exists 117|]. eapply wp_step; [apply E4|].
  destruct (Hw 2 236) as [v4 E5]; [lia..|by exists 118|]. eapply wp_step; [apply E5|].
  apply wp_ret. split; [done|]. cbn [snd]. set (x := _ * 2). pose proof (u32_range x) as Hx. unfold in_u32, BLOCK_SIZE in *.
  split; [lia|]. destruct (Z.max_spec (u32 x) 512) as [[_ ->]|[_ ->]]; [by exists 256|].
  unfold u32. apply Z.mod_divide; [lia|]. unfold x. set (y := Z.lor _ _). clearbody y. uint_lia.
Qed.

(** ** Pages taken and given back *)

Lemma wp_scoped {E A} p (m : M W E A) Q (R : E → W → Prop) w :
  wp m Q (λ e w', R e (free_frames (phys p) (count p) w')) w → wp (scoped p m) Q R w.
Proof. unfold wp, scoped. by destruct (m w) as [[] ?]. Qed.

Lemma init_page_wp n w :
  0 < n →
  wp (init_page HHDM_OFFSET n)
    (λ p w', page_ok HHDM_OFFSET n p ∧ (∀ x, within (phys p) (n * 4096) x = true → ¬ used w x) ∧
      ∀ x, used w' x ↔ used w x ∨ within (phys p) (n * 4096) x = true)
    (λ _ w', same_used w w') w.
Proof.
  intros Hn. unfold init_page, page_new. apply wp_map_errM, wp_bind, wp_map_errM.
  eapply wp_mono; [by apply alloc_law| |by intros []]. intros [v|] w' H; [|exact H].
  destruct H as (p & -> & H0 & Hal & Hle & Hfr & Hu). apply wp_bind. unfold virt_to_phys.
  rewrite Z.add_simpl_r, u64_small by (unfold in_u64; lia).
  eapply wp_opt_panic; [apply phys_new_ok; lia|]. apply wp_ret. done.
Qed.

(** The pages of [d] were taken since [wb]. *)
Definition took wb d w : Prop :=
  (∀ x, own d x = true → ¬ used wb x) ∧ ∀ x, used w x ↔ used wb x ∨ own d x = true.

Lemma took_same wb d w w' : took wb d w → same_used w w' → took wb d w'.
Proof. intros [H1 H2] H. split; [done|]. intros x. by rewrite (H x). Qed.

Definition free_page (p : PhysPage) w : W := free_frames (phys p) (count p) w.

(** Whatever the order, freeing the three runs of pages undoes [took]. *)
Lemma untake P wb d w p1 p2 p3 :
  drive_ok HHDM_OFFSET P d → took wb d w →
  [p1; p2; p3] ≡ₚ [command_list d; command_tables d; fis_buffer d] →
  same_used wb (free_page p3 (free_page p2 (free_page p1 w))).
Proof.
  intros (_ & _ & _ & _ & _ & _ & (C1 & _) & (C2 & _) & (C3 & _) & _) [Hfr Hu] Hp x.
  unfold free_page. rewrite !free_law, Hu.
  assert (Forall (λ p, within (phys p) (count p * 4096) x = false) [p1; p2; p3] ↔ own d x = false) as Ho.
  { rewrite Hp, own_false, !Forall_cons, C1, C2, C3. change (1 * 4096) with 4096. change (3 * 4096) with 12288.
    rewrite Forall_nil. tauto. }
  rewrite !Forall_cons, Forall_nil in Ho. pose proof (Hfr x).
  destruct (own d x); split; intros; try tauto; intuition congruence.
Qed.

Definition drive_good (bar : VirtualRegion) (ncs port_id : Z) d : Prop :=
  Ahci.bar d = bar ∧ Ahci.port_id d = port_id ∧ Ahci.ncs d = ncs ∧
  drive_ok HHDM_OFFSET (rstart bar + 0x100 + port_id * 0x80) d ∧
  512 <= block_size d < 2 ^ 32 ∧ (2 | block_size d).

Lemma attach_wp bar nc port_id cl fb ct wb w :
  let P := rstart bar + 0x100 + port_id * 0x80 in
  let d := mkDrive bar port_id cl ct fb 0 0 nc in
  port_foreign P → drive_ok HHDM_OFFSET P d → took wb d w →
  wp (attach HHDM_OFFSET hpet fuel bar nc port_id (port_at P) cl fb ct)
    (λ o w', match o with
             | None => same_used wb w'
             | Some d' => drive_good bar nc port_id d' ∧ took wb d' w'
             end) (λ _ w', same_used wb w') w.
Proof.
  intros P d HP Hd Ht. unfold attach. apply wp_bind.
  assert ([ct; fb; cl] ≡ₚ [command_list d; command_tables d; fis_buffer d]) as Hp1
    by (apply (Permutation_app_comm [ct; fb] [cl])).
  assert (∀ w', took wb d w' → same_used wb (free_page cl (free_page fb (free_page ct w')))) as Hdrop
    by (intros w' Hw'; by apply (untake P wb d w' ct fb cl)).
  assert (silent (rebase hpet fuel (port_at P) (phys cl) (phys fb);;
    wait_reg hpet fuel (cmd (port_at P)) (λ v, Z.land v 0x4000 =? 0) TIMEOUT)) as Hs.
  { apply silent_bind; [by apply silent_rebase|intros _]. repeat silent_step. cbn [cmd port_at]. apply HP. lia. }
  apply wp_scoped, wp_scoped, wp_scoped. eapply wp_mono; [apply Hs|..].
  2:{ intros e w1 H1. apply Hdrop. by apply (took_same wb d w). }
  intros b w1 H1. apply (took_same _ _ _ _ Ht) in H1. destruct b; cbn [negb]; [|by apply Hdrop].
  apply wp_bind, wp_read_volatile. set (w2 := (mmio_read _ _ w1).2).
  assert (took wb d w2) as H2 by (apply (took_same wb d w1); [done|]; intros x; apply used_read).
  case_if as Es; [by apply Hdrop|].
  assert (∀ w', took wb d w' → same_used wb (free_page fb (free_page ct (free_page cl w')))) as Hdrop2
    by (intros w' Hw'; by apply (untake P wb d w' cl ct fb)).
  apply wp_scoped, wp_scoped, wp_scoped, wp_bind.
  eapply wp_mono; [apply (init_page_wp 1 w2); lia| |intros e w3 H3; apply Hdrop2; by apply (took_same wb d w2)].
  intros ib w3 (Hib & Hfr & Hu). apply wp_bind, wp_scoped.
  assert (∀ w', same_used w3 w' → same_used w2 (free_page ib w')) as Hfree.
  { intros w' Hw' x. unfold free_page. rewrite free_law, (Hw' x), Hu. destruct Hib as (-> & _).
    change (1 * 4096) with 4096 in *. pose proof (Hfr x). destruct (within _ _ x); intuition congruence. }
  eapply wp_mono; [apply (silent_identify P d ib Hd HP Hib w3)|..].
  - intros [bc bs] w4 (H4 & Hbs & Heven). apply wp_bind. apply Hfree in H4.
    apply wp_ret. split; [done|]. by apply (took_same wb d w2).
  - intros e w4 H4. apply Hdrop2. apply (took_same wb d w2); [done|]. by apply Hfree.
Qed.

(** ** The probe *)

(** A mapped window in kernel space, away from the clock. *)
Definition bar_ok (bar : VirtualRegion) : Prop :=
  2 ^ 64 - 2 ^ 47 <= rstart bar ∧ rstart bar + rsize bar <= 2 ^ 64 ∧ 0 <= rsize bar ∧ (4096 | rsize bar) ∧
  ∀ a, rstart bar <= a < rstart bar + rsize bar → foreign a.

Definition port_addr (bar : VirtualRegion) (port : Z) : Z := rstart bar + 0x100 + port * 0x80.

Lemma port_new_cases bar port w :
  bar_ok bar → 0 <= port < 32 →
  (port_fits (port_addr bar port) bar port ∧ port_foreign (port_addr bar port) ∧
   port_new bar port w = (Ok (port_at (port_addr bar port)), w)) ∨ port_new bar port w = (Err tt, w).
Proof.
  intros (H1 & H2 & H3 & [q H4] & H5) Hp. destruct (decide (0x100 + port * 0x80 + 0x80 <= rsize bar)).
  - left. assert (port_fits (port_addr bar port) bar port) as Hf
      by (unfold port_fits, port_addr; split_and!; lia).
    split; [done|]. split; [|by apply port_new_eq]. intros off Ho. apply H5. unfold port_addr. lia.
  - right. unfold port_new. unfold mbind at 1, M_bind, some at 1, mbind at 1, M_bind, register.
    assert (0x100 ⊞ (port ⊠ 0x80) ⊞ 0 = 0x100 + port * 0x80) as ->.
    { rewrite (u64_small (port * 0x80)), (u64_small (_ + port * _)), u64_small by (unfold in_u64; lia). lia. }
    case_if as E1; [done|]. rewrite u64_small by (unfold in_u64; lia). by rewrite (proj2 (Z.ltb_lt _ _)) by lia.
Qed.

(** What the first three pages of a port add up to. *)
Lemma took_pages bar nc port cl fb ct w0 w1 w2 w3 :
  port_fits (port_addr bar port) bar port → 0 <= nc < 32 →
  page_ok HHDM_OFFSET 1 cl → page_ok HHDM_OFFSET 1 fb → page_ok HHDM_OFFSET 3 ct →
  (∀ x, within (phys cl) 4096 x = true → ¬ used w0 x) → (∀ x, used w1 x ↔ used w0 x ∨ within (phys cl) 4096 x = true) →
  (∀ x, within (phys fb) 4096 x = true → ¬ used w1 x) → (∀ x, used w2 x ↔ used w1 x ∨ within (phys fb) 4096 x = true) →
  (∀ x, within (phys ct) 12288 x = true → ¬ used w2 x) → (∀ x, used w3 x ↔ used w2 x ∨ within (phys ct) 12288 x = true) →
  let d := mkDrive bar port cl ct fb 0 0 nc in
  drive_ok HHDM_OFFSET (port_addr bar port) d ∧ took w0 d w3.
Proof.
  intros (F1 & F2 & F3 & F4 & F5) Hn Hcl Hfb Hct A1 U1 A2 U2 A3 U3 d.
  assert (∀ x, within (phys cl) 4096 x = true → within (phys fb) 4096 x = true → False) as D1.
  { intros x H1 H2. apply (A2 x H2), U1. by right. }
  assert (∀ x, within (phys cl) 4096 x = true → within (phys ct) 12288 x = true → False) as D2.
  { intros x H1 H2. apply (A3 x H2), U2. left. apply U1. by right. }
  assert (∀ x, within (phys ct) 12288 x = true → within (phys fb) 4096 x = true → False) as D3.
  { intros x H1 H2. apply (A3 x H1), U2. by right. }
  assert (∀ a n b k, 0 < n → 0 < k → (∀ x, within a n x = true → within b k x = true → False) → apart a n b k) as Hap.
  { intros a n b k Hna Hk H. unfold apart. destruct (decide (a + n <= b ∨ b + k <= a)) as [|Hno]; [done|].
    exfalso. apply (H (Z.max a b)); apply within_true; lia. }
  split.
  - unfold drive_ok. cbn [Ahci.bar Ahci.port_id command_list command_tables fis_buffer Ahci.ncs d].
    split_and!; try done; try lia; apply Hap; try lia; done.
  - split; intros x; rewrite own_true; cbn [command_list command_tables fis_buffer d].
    + intros [H|[H|H]] Hu; [by apply (A1 x)|apply (A3 x H), U2; left; apply U1; by left|apply (A2 x H), U1; by left].
    + rewrite U3, U2, U1. tauto.
Qed.

Definition probed bar nc port w0 (o : option AHCIDrive) w : Prop :=
  match o with
  | None => same_used w0 w
  | Some d => drive_good bar nc port d ∧ took w0 d w
  end.

Lemma took_base w0 w1 d w : same_used w0 w1 → took w1 d w → took w0 d w.
Proof. intros H [H1 H2]. split; intros x; [rewrite <- (H x); apply H1|rewrite H2; by rewrite (H x)]. Qed.

Lemma probed_base bar nc port w0 w1 o w : same_used w0 w1 → probed bar nc port w1 o w → probed bar nc port w0 o w.
Proof.
  intros H. destruct o as [d|]; cbn; [intros [? ?]; split; [done|by eapply took_base]|].
  intros H'. exact (same_used_trans _ _ _ H H').
Qed.

(** The pages of a port, from allocation on. *)
Lemma attach_pages_wp bar nc port w :
  bar_ok bar → port_fits (port_addr bar port) bar port → port_foreign (port_addr bar port) → 0 <= nc < 32 →
  wp (command_list ← init_page HHDM_OFFSET 1;
      fis_buffer ← scoped command_list (init_page HHDM_OFFSET 1);
      command_tables ← scoped command_list (scoped fis_buffer (init_page HHDM_OFFSET 3));
      attach HHDM_OFFSET hpet fuel bar nc port (port_at (port_addr bar port)) command_list fis_buffer command_tables)
    (probed bar nc port w) (λ _ w', same_used w w') w.
Proof.
  intros Hb Hf HP Hn. apply wp_bind. eapply wp_mono; [apply (init_page_wp 1 w); lia| |done].
  intros cl w1 (Hcl & A1 & U1). change (1 * 4096) with 4096 in *. apply wp_bind, wp_scoped.
  assert (∀ w', same_used w1 w' → same_used w (free_page cl w')) as Free1.
  { intros w' H' x. unfold free_page. rewrite free_law, (H' x), U1. destruct Hcl as (-> & _). change (1 * 4096) with 4096.
    pose proof (A1 x). destruct (within (phys cl) 4096 x); intuition congruence. }
  eapply wp_mono; [apply (init_page_wp 1 w1); lia| |intros e w' H'; by apply Free1].
  intros fb w2 (Hfb & A2 & U2). change (1 * 4096) with 4096 in *. apply wp_bind, wp_scoped, wp_scoped.
  assert (∀ w', same_used w2 w' → same_used w1 (free_page fb w')) as Free2.
  { intros w' H' x. unfold free_page. rewrite free_law, (H' x), U2. destruct Hfb as (-> & _). change (1 * 4096) with 4096.
    pose proof (A2 x). destruct (within (phys fb) 4096 x); intuition congruence. }
  eapply wp_mono; [apply (init_page_wp 3 w2); lia| |intros e w' H'; by apply Free1, Free2].
  intros ct w3 (Hct & A3 & U3). change (3 * 4096) with 12288 in *.
  destruct (took_pages bar nc port cl fb ct w w1 w2 w3) as [Hd Ht]; [done..|].
  by apply (attach_wp bar nc port cl fb ct w w3).
Qed.

Lemma wp_silent {E A} (m : M W E A) (Q : A → W → Prop) (R : E → W → Prop) w :
  silent m → (∀ a w', same_used w w' → Q a w') → (∀ e w', same_used w w' → R e w') → wp m Q R w.
Proof. intros Hm HQ HR. eapply wp_mono; [apply Hm|apply HQ|apply HR]. Qed.

Lemma probe_port_wp bar nc pi port w :
  bar_ok bar → 0 <= nc < 32 → 0 <= port < 32 →
  wp (probe_port HHDM_OFFSET hpet fuel bar nc pi port) (probed bar nc port w) (λ _ w', same_used w w') w.
Proof.
  intros Hb Hn Hp. unfold probe_port. case_if as E0; [by apply wp_ret|].
  destruct (port_new_cases bar port w Hb Hp) as [(Hf & HP & E1)|E1]; unfold wp at 1; rewrite E1; [|done].
  set (P := port_addr bar port) in *. match goal with |- match ?m w with _ => _ end => change (wp m (probed bar nc port w) (λ _ w', same_used w w') w) end.
  assert (∀ {A} (m : M W StorageError A) (k : A → M W StorageError (option AHCIDrive)) w1, silent m → same_used w w1 →
    (∀ a w2, same_used w w2 → wp (k a) (probed bar nc port w) (λ _ w', same_used w w') w2) →
    wp (m ≫= k) (probed bar nc port w) (λ _ w', same_used w w') w1) as Step.
  { intros A m k w1 Hm H1 Hk. apply wp_bind, wp_silent; [done|intros; apply Hk|intros e w']; intros; exact (same_used_trans _ _ _ H1 ltac:(eassumption)). }
  apply Step; [apply silent_read|done|]. intros v1 w1 H1. case_if as E2; [by apply wp_ret|].
  apply Step; [apply silent_read|done|]. intros v2 w2 H2. apply Step; [apply silent_write|done|]. intros _ w3 H3.
  apply Step; [apply silent_wait_reg; [cbn [ssts port_at]; apply HP; lia|tauto]|done|]. intros b w4 H4.
  case_if as E3; [by apply wp_ret|]. apply Step; [apply silent_read|done|]. intros v5 w5 H5.
  case_if as E4; [by apply wp_ret|]. apply Step; [case_bool; [by apply silent_com_reset|apply silent_ret]|done|]. intros b6 w6 H6.
  case_if as E5; [by apply wp_ret|]. apply Step; [apply silent_write|done|]. intros _ w7 H7.
  eapply wp_mono; [by apply attach_pages_wp|..].
  - intros o w8 H8. by apply (probed_base bar nc port w w7).
  - intros e w8 H8. exact (same_used_trans _ _ _ H7 H8).
Qed.

(** ** The drives of a controller *)

Definition in_drives (ds : list AHCIDrive) (x : Z) : Prop := Exists (λ d, own d x = true) ds.

(** The drives found since [w0]: well-formed, on different ports below [k], with
    pages of their own that were free before and are all that is used since. *)
Definition brought_up bar nc w0 (k : Z) (ds : list AHCIDrive) w : Prop :=
  Forall (λ d, drive_good bar nc (Ahci.port_id d) d) ds ∧
  StronglySorted Z.lt (Ahci.port_id <$> ds) ∧ Forall (λ d, 0 <= Ahci.port_id d < k) ds ∧
  ForallOrdPairs (λ d1 d2, ∀ x, own d1 x = true → own d2 x = false) ds ∧
  (∀ x, in_drives ds x → ¬ used w0 x) ∧ ∀ x, used w x ↔ used w0 x ∨ in_drives ds x.

Lemma wp_page_drop {E} p (Q : unit → W → Prop) (R : E → W → Prop) w :
  Q tt (free_page p w) → wp (page_drop p) Q R w.
Proof. done. Qed.

Lemma drop_drive_wp {E} P d (R : E → W → Prop) w :
  drive_ok HHDM_OFFSET P d → wp (drop_drive d) (λ _ w', ∀ x, used w' x ↔ used w x ∧ own d x = false) R w.
Proof.
  intros (_ & _ & _ & _ & _ & _ & (C1 & _) & (C2 & _) & (C3 & _) & _).
  apply wp_bind, wp_page_drop, wp_bind, wp_page_drop, wp_page_drop. intros x. unfold free_page.
  rewrite !free_law, C1, C2, C3, own_false. change (1 * 4096) with 4096. change (3 * 4096) with 12288. tauto.
Qed.

Lemma drop_drives_wp bar nc ds (R : StorageError → W → Prop) w :
  Forall (λ d, drive_good bar nc (Ahci.port_id d) d) ds →
  wp (forM ds drop_drive) (λ _ w', ∀ x, used w' x ↔ used w x ∧ ¬ in_drives ds x) R w.
Proof.
  intros H. revert w. induction H as [|d ds (_ & _ & _ & Hd & _) _ IH]; intros w.
  { apply wp_ret. intros x. unfold in_drives. rewrite Exists_nil. tauto. }
  cbn [forM]. apply wp_bind. eapply wp_mono; [exact (drop_drive_wp _ d R w Hd)| |done]. intros [] w1 H1.
  eapply wp_mono; [apply IH| |done]. intros [] w2 H2 x. rewrite H2, H1. unfold in_drives. rewrite Exists_cons.
  rewrite <- not_true_iff_false. tauto.
Qed.

Lemma brought_up_more bar nc w0 k ds d w w' :
  brought_up bar nc w0 k ds w → 0 <= k → drive_good bar nc k d → took w d w' →
  brought_up bar nc w0 (k + 1) (ds ++ [d]) w'.
Proof.
  intros (H1 & H2 & H3 & H4 & H5 & H6) Hk Hd [Hfr Hu]. pose proof Hd as (_ & Ep & _).
  assert (∀ x, in_drives (ds ++ [d]) x ↔ in_drives ds x ∨ own d x = true) as Hin.
  { intros x. unfold in_drives. rewrite Exists_app, Exists_cons, Exists_nil. tauto. }
  split_and!.
  - apply Forall_app. split; [done|]. apply Forall_singleton. by rewrite Ep.
  - rewrite fmap_app. apply StronglySorted_app_iff. split_and!; [done|repeat constructor|].
    intros p q Hp Hq. apply list_elem_of_fmap in Hp as (d1 & -> & Hd1). apply list_elem_of_singleton in Hq as ->.
    apply (proj1 (Forall_forall _ _) H3) in Hd1. lia.
  - apply Forall_app. split; [eapply Forall_impl; [exact H3|]; simpl; lia|]. apply Forall_singleton. lia.
  - assert (∀ x, in_drives ds x → own d x = false) as Hdis.
    { intros x Hx. apply not_true_iff_false. intros Ho. apply (Hfr x Ho), H6. by right. }
    clear -H4 Hdis. induction H4 as [|d1 ds Hd1 _ IH]; [repeat constructor|]. cbn [app]. constructor.
    + apply Forall_app. split; [done|]. apply Forall_singleton. intros x Hx. apply Hdis. by left.
    + apply IH. intros x Hx. apply Hdis. by right.
  - intros x [Hx|Hx]%Hin; [by apply H5|]. intros Hu0. apply (Hfr x Hx), H6. by left.
  - intros x. rewrite Hu, H6, Hin. tauto.
Qed.

Lemma brought_up_none bar nc w0 k ds w w' :
  brought_up bar nc w0 k ds w → same_used w w' → brought_up bar nc w0 (k + 1) ds w'.
Proof.
  intros (H1 & H2 & H3 & H4 & H5 & H6) H. split_and!; [done|done| |done|done|intros x; by rewrite (H x)].
  eapply Forall_impl; [exact H3|]. simpl. lia.
Qed.

Lemma probe_ports_wp bar nc pi n w :
  bar_ok bar → 0 <= nc < 32 → 0 <= n <= 32 →
  wp (probe_ports HHDM_OFFSET hpet fuel bar nc pi n) (brought_up bar nc w n) (λ _ w', same_used w w') w.
Proof.
  intros Hb Hn Hports. unfold probe_ports.
  eapply wp_mono; [apply (wp_foldM (λ k ds w', brought_up bar nc w (Z.of_nat k) ds w') _ (λ _ w', same_used w w'))|..].
  - split_and!; try constructor; unfold in_drives; [intros x; by rewrite Exists_nil|by left|intros [?|H]; [done|by apply Exists_nil in H]].
  - intros k p ds w1 Hk HI. apply lookup_seqZ in Hk as [-> Hk]. rewrite Z.add_0_l.
    pose proof (probe_port_wp bar nc pi (Z.of_nat k) w1 Hb Hn ltac:(lia)) as Hp. unfold wp in Hp |- *.
    destruct (probe_port _ _ _ _ _ _ _ w1) as [[[d|]|e| |] w2]; try done.
    + destruct Hp as [Hd Ht]. replace (Z.of_nat (S k)) with (Z.of_nat k + 1) by lia.
      apply (brought_up_more bar nc w (Z.of_nat k) ds d w1 w2); [done|lia|done|done].
    + replace (Z.of_nat (S k)) with (Z.of_nat k + 1) by lia. by apply (brought_up_none bar nc w _ ds w1 w2).
    + fold (wp (S := W) (E := StorageError) (A := list AHCIDrive)).
      change (wp (forM ds drop_drive;; fail e) (λ b s', brought_up bar nc w (Z.of_nat (S k)) b s') (λ _ w', same_used w w') w2).
      destruct HI as (Hg & _ & _ & _ & Hf & Hu). apply wp_bind.
      eapply wp_mono; [by apply (drop_drives_wp bar nc ds (λ _ _, False))| |by intros ? ? []].
      intros [] w3 H3 x. rewrite H3, (Hp x), Hu. pose proof (Hf x). tauto.
  - intros ds w1 H. rewrite length_seqZ, Z2Nat.id in H by lia. done.
  - done.
Qed.

Lemma global_new_cases bar w :
  bar_ok bar →
  (∃ g, global_new bar w = (Ok g, w) ∧ foreign (cap g) ∧ foreign (cap2 g) ∧ foreign (ghc g) ∧ foreign (pi g) ∧
    foreign (bohc g)) ∨ global_new bar w = (Err tt, w).
Proof.
  intros (H1 & H2 & H3 & [q H4] & H5). destruct (decide (rsize bar = 0)) as [E0|Hne].
  { right. unfold global_new, mbind at 1, M_bind, some at 1, mbind at 1, M_bind, register. rewrite E0. done. }
  left. assert (∀ off, 0 <= off < 0x80 → (4 | off) → some (register 4 bar off) w = (Ok (rstart bar + off), w)) as Hr.
  { intros off Ho H4'. unfold some, register. rewrite (proj2 (is_multiple_of_spec off 4 ltac:(lia)) H4'). cbn [negb].
    rewrite u64_small by (unfold in_u64; lia). rewrite (proj2 (Z.ltb_ge _ _)) by lia.
    rewrite virt_add_ok by (try lia; unfold canonical; lia). done. }
  eexists. split.
  { unfold global_new. do 5 (erewrite bind_Ok; [|apply Hr; [lia|by apply Z.mod_divide]]). done. }
  cbn [cap cap2 ghc pi bohc]. split_and!; apply H5; lia.
Qed.

(** C31. Bringing up a controller, with whatever its registers read: the code
    returns; on success every drive is well-formed (its registers lie in the
    window, it has a command list, command tables for all slots and a receive
    buffer in pages of its own, at least 512 bytes per block), the drives are on
    different ports, their pages do not overlap, and exactly these pages have
    been taken from the allocator; on failure every page has been given back. *)
Theorem controller_brought_up bar w :
  bar_ok bar →
  wp (init_controller HHDM_OFFSET hpet fuel bar)
    (λ ds w', ∃ nc, 0 <= nc < 32 ∧ brought_up bar nc w 32 ds w') (λ _ w', same_used w w') w.
Proof.
  intros Hb. unfold init_controller, or_err. destruct (global_new_cases bar w Hb) as [(g & E & F1 & F2 & F3 & F4 & F5)|E].
  2:{ apply wp_bind, wp_map_errM. unfold wp. by rewrite E. }
  eapply wp_step; [unfold map_errM; by rewrite E|].
  set (Q := λ ds w', ∃ nc, 0 <= nc < 32 ∧ brought_up bar nc w 32 ds w'). set (R := λ (_ : StorageError) w', same_used w w').
  assert (∀ {A} (m : M W StorageError A) (k : A → M W StorageError (list AHCIDrive)) w1, silent m → same_used w w1 →
    (∀ a w2, same_used w w2 → wp (k a) Q R w2) → wp (m ≫= k) Q R w1) as Step.
  { intros A m k w1 Hm H1 Hk. apply wp_bind, wp_silent; [done|intros; apply Hk|intros e w'];
      intros; exact (same_used_trans _ _ _ H1 ltac:(eassumption)). }
  apply Step; [apply silent_read|done|]. intros v w1 H1. case_if as E1; [done|].
  apply Step; [apply silent_read|done|]. intros v2 w2 H2. apply Step; [repeat silent_step; done|done|]. intros _ w3 H3.
  do 4 (apply Step; [repeat silent_step|done|]; intros ? ? ?).
  do 2 (apply Step; [repeat silent_step; done|done|]; intros ? ? ?).
  do 3 (apply Step; [repeat silent_step|done|]; intros ? ? ?).
  match goal with H : same_used w ?u |- wp (probe_ports _ _ _ _ ?n _ ?k) _ _ ?u => rename H into Hu end.
  assert (∀ x, 0 <= Z.land x 0x1F < 32) as Hl
    by (intros x; change 0x1F with (Z.ones 5); rewrite Z.land_ones by lia; by apply Z.mod_pos_bound).
  eapply wp_mono; [apply probe_ports_wp; [done|apply Hl|pose proof (Hl v); lia]|..].
  - intros ds w' (P1 & P2 & P3 & P4 & P5 & P6). eexists. split; [apply (Hl (Z.shiftr v 8))|].
    split_and!; [done|done| |done|intros x; rewrite <- (Hu x); apply P5|intros x; rewrite P6; by rewrite (Hu x)].
    eapply Forall_impl; [exact P3|]. simpl. pose proof (Hl v). lia.
  - intros e w' He. exact (same_used_trans _ _ _ Hu He).
Qed.
End proofs.

End AhciInit.
