(* ===== verification/AhciInitExamples.v ===== *)
(** * A controller to bring up

    A machine with one SATA drive and a page allocator that keeps [AllocLaws]. *)

From S2P Require Import Prelude Errors Virt Helpers Hardware Ahci AhciTransfer AhciInit VirtExamples.
Import Errors Virt Helpers Hardware Ahci AhciTransfer AhciInit VirtExamples.

Module AhciInitExamples.

Definition timer : Hpet := mkHpet (2 ^ 64 - 2 ^ 41) 10000000.
Definition DMAP : Z := 2 ^ 64 - 2 ^ 47.
Definition ABAR : VirtualRegion := mkRegion (2 ^ 64 - 2 ^ 40) 0x1000.

(** The runs of memory in use, and where the next one goes. *)
Record Box := mkBox { b_runs : list (Z * Z); b_top : Z; b_ticks : Z; b_cmd : Z }.

Definition b_used (w : Box) (x : Z) : bool := existsb (λ r, within r.1 r.2 x) (b_runs w).

(** A run without the bytes from [p] to [q]. *)
Definition cut (p q : Z) (r : Z * Z) : list (Z * Z) :=
  let '(a, k) := r in
  [(a, Z.min (a + k) p - a); (Z.max a q, a + k - Z.max a q)].

Lemma cut_spec p q r x : existsb (λ r, within r.1 r.2 x) (cut p q r) = within r.1 r.2 x && negb (within p (q - p) x).
Proof.
  destruct r as [a k]. cbn [cut existsb fst snd]. rewrite orb_false_r. unfold within.
  apply eq_bool_prop_intro. rewrite !Is_true_true.
  rewrite ?orb_true_iff, ?andb_true_iff, ?negb_true_iff, ?andb_false_iff, ?Z.leb_le, ?Z.ltb_lt, ?Z.leb_gt, ?Z.ltb_ge. lia.
Qed.

(** The engines of the port follow their start bits at once. *)
Definition engines (v : Z) : Z :=
  Z.lor (Z.land v 0x11) (Z.lor (if Z.testbit v 0 then 0x8000 else 0) (if Z.testbit v 4 then 0x4000 else 0)).

Definition box_reg (w : Box) (off : Z) : Z :=
  if off =? 0 then 0x80000000
  else if off =? 0xC then 1
  else if off =? 0x118 then b_cmd w
  else if off =? 0x124 then 0x101
  else if off =? 0x128 then 0x113
  else 0.

#[export] Instance box_bus : Bus Box := {|
  mmio_read n a w :=
    if (n =? 8) && (a =? regs timer + 0xF0)
    then (u64 (b_ticks w + 1000000000), mkBox (b_runs w) (b_top w) (b_ticks w + 1000000000) (b_cmd w))
    else (box_reg w (a - rstart ABAR), w);
  mmio_write n a v w :=
    if a =? rstart ABAR + 0x118 then mkBox (b_runs w) (b_top w) (b_ticks w) (engines v) else w;
  ram _ _ := 0;
  ram_write _ _ w := w;
  alloc_pages n := λ w,
    if (0 <=? b_top w) && (b_top w mod 4096 =? 0) && (b_top w + n * 4096 <? 2 ^ 46) &&
       forallb (λ r, r.1 + r.2 <=? b_top w) (b_runs w)
    then (Ok (Some (b_top w + DMAP)),
          mkBox ((b_top w, n * 4096) :: b_runs w) (b_top w + n * 4096) (b_ticks w) (b_cmd w))
    else (Ok None, w);
  free_frames p n w :=
    mkBox (b_runs w ≫= cut p (p + n * 4096)) (b_top w) (b_ticks w) (b_cmd w)
|}.

#[export, refine] Instance box_clock : ClockLaws Box timer := {|
  counter := b_ticks; tick := 1000000000; burst := 1000000000
|}.
Proof.
  all: try done.
  - apply canonicalb_spec. reflexivity.
  - intros w. exists (b_ticks w + 1000000000). cbn [mmio_read box_bus]. rewrite !Z.eqb_refl. cbn [andb fst snd b_ticks].
    split_and!; [done|lia|lia|done].
  - intros n a w Ha. cbn [mmio_read box_bus]. by rewrite (proj2 (Z.eqb_neq _ _) Ha), andb_false_r.
Defined.

#[export, refine] Instance box_alloc : AllocLaws Box DMAP := {| used w x := b_used w x = true |}.
Proof.
  - intros n a w x. cbn [mmio_read box_bus]. by destruct (_ && _).
  - intros n a v w x. cbn [mmio_write box_bus]. by destruct (_ =? _).
  - done.
  - intros n w Hn. unfold wp. cbn [alloc_pages box_bus]. destruct (_ && _) eqn:E; [|done]. zb.
    exists (b_top w). split_and!; [done|done|by apply Z.mod_divide|done|..].
    + intros x Hx Hu. apply within_true in Hx. unfold b_used in Hu. apply existsb_exists in Hu as (r & Hr & Hw).
      match goal with H : forallb _ _ = true |- _ => rewrite forallb_forall in H; specialize (H r Hr); apply Z.leb_le in H end.
      apply within_true in Hw. lia.
    + intros x. unfold b_used. cbn [b_runs existsb fst snd]. rewrite orb_true_iff. tauto.
  - intros p n w x. unfold b_used. cbn [free_frames box_bus b_runs]. generalize (b_runs w). intros l.
    induction l as [|r l IH]; [cbn; intuition congruence|]. rewrite bind_cons, existsb_app. cbn [existsb].
    rewrite orb_true_iff, IH, cut_spec, Z.add_simpl_l, orb_true_iff, andb_true_iff, negb_true_iff. tauto.
Defined.

Definition box0 : Box := mkBox [(0, 0x100000)] 0x100000 0 0.

Lemma box_enough t : t = TIMEOUT ∨ t = PROBE_TIMEOUT ∨ t = Milliseconds 1 → enough timer 2 t.
Proof. intros [-> | [-> | ->]]; unfold enough; split_and!; vm_compute; congruence. Qed.

Lemma abar_ok : bar_ok timer ABAR.
Proof.
  unfold bar_ok. split_and!; [vm_compute; congruence..|by exists 1|]. unfold foreign. cbn [rstart rsize ABAR regs timer]. lia.
Qed.

Abbreviation box_run := (init_controller DMAP timer 2 ABAR box0).

Lemma box_runs : (if box_run is (Ok [_], _) then true else false) = true.
Proof. vm_compute. reflexivity. Qed.

Lemma controller_brought_up_witness :
  ∃ d w', box_run = (Ok [d], w') ∧ drive_ok DMAP (rstart ABAR + 0x100 + port_id d * 0x80) d ∧
    b_used w' (phys (command_list d)) = true ∧ b_used box0 (phys (command_list d)) = false.
Proof.
  assert (2 ^ 64 - 2 ^ 47 <= DMAP <= 2 ^ 64 - 2 ^ 46) as Hh by (unfold DMAP; lia).
  pose proof (controller_brought_up DMAP timer 2 Hh box_enough ABAR box0 abar_ok) as L.
  pose proof box_runs as Q. destruct box_run as [[[|d [|]]| | |] w'] eqn:E; try discriminate Q. exists d, w'.
  apply (wp_use _ _ _ _ _ _ L) in E as (nc & _ & Hg & _ & Hp & _ & Hf & Hu). clear L Q.
  apply Forall_singleton in Hg as (_ & _ & _ & Hd & _).
  assert (in_drives [d] (phys (command_list d))) as Hi.
  { left. apply own_true. left. apply within_true. lia. }
  split; [reflexivity|]. split; [exact Hd|]. split; [apply Hu; by right|apply not_true_iff_false; by apply Hf].
Defined.

End AhciInitExamples.
