(* ===== verification/Acpi.v ===== *)
(** * ACPI tables and interrupt controllers (src/kernel/src/acpi/)

    The walk over the tables from the RSDP on, the MADT and MCFG parsers, the
    I/O APICs with their redirection entries, and the local APIC.  The statics
    that the parsers fill are [LateInit] cells in a record beside the machine. *)

From S2P Require Import Prelude Errors Virt Helpers Hardware Pci.
Import Errors Virt Helpers Hardware.

Module Acpi.

Record IOApic := mkIOApic { apic_id : Z; io_address : Z; gsi_base : Z }.
Record InterruptOverride := mkOverride { source : Z; gsi : Z; flags : Z }.

(** The statics of the modules. *)
Record Statics := mkStatics {
  IOAPICS_ : LateInit (list IOApic);
  OVERRIDES_ : LateInit (list InterruptOverride);
  IOAPIC_REGIONS_ : LateInit (list Z);
  MCFG_ENTRIES_ : LateInit (list Pci.MCFGEntry);
  HPET_REGS_ : LateInit Z;
  HPET_PERIOD_FS_ : LateInit Z;
  LAPIC_TIMER_VECTOR_ : LateInit Z;
  LAPIC_TIMER_TICKS_ : LateInit Z
}.

Definition no_statics : Statics :=
  mkStatics late_new late_new late_new late_new late_new late_new late_new late_new.

(** One of them: how to read and how to replace it. *)
Record Static (A : Type) := mkStatic { view : Statics → LateInit A; put : LateInit A → Statics → Statics }.
Arguments mkStatic {A}.
Arguments view {A}.
Arguments put {A}.

Definition IOAPICS : Static (list IOApic) := mkStatic IOAPICS_
  (λ x '(mkStatics _ b c d e f g h), mkStatics x b c d e f g h).
Definition OVERRIDES : Static (list InterruptOverride) := mkStatic OVERRIDES_
  (λ x '(mkStatics a _ c d e f g h), mkStatics a x c d e f g h).
Definition IOAPIC_REGIONS : Static (list Z) := mkStatic IOAPIC_REGIONS_
  (λ x '(mkStatics a b _ d e f g h), mkStatics a b x d e f g h).
Definition MCFG_ENTRIES : Static (list Pci.MCFGEntry) := mkStatic MCFG_ENTRIES_
  (λ x '(mkStatics a b c _ e f g h), mkStatics a b c x e f g h).
Definition HPET_REGS : Static Z := mkStatic HPET_REGS_
  (λ x '(mkStatics a b c d _ f g h), mkStatics a b c d x f g h).
Definition HPET_PERIOD_FS : Static Z := mkStatic HPET_PERIOD_FS_
  (λ x '(mkStatics a b c d e _ g h), mkStatics a b c d e x g h).
Definition LAPIC_TIMER_VECTOR : Static Z := mkStatic LAPIC_TIMER_VECTOR_
  (λ x '(mkStatics a b c d e f _ h), mkStatics a b c d e f x h).
Definition LAPIC_TIMER_TICKS : Static Z := mkStatic LAPIC_TIMER_TICKS_
  (λ x '(mkStatics a b c d e f g _), mkStatics a b c d e f g x).

(** Model-specific registers, and what [cpuid] leaf 1 leaves in [ecx].
    [apic_base] is [ApicBase::read]: frame and flags. *)
Class Msr (W : Type) := {
  rdmsr : Z → W → Z;
  wrmsr : Z → Z → W → W;
  cpuid1_ecx : W → Z;
  apic_base : W → Z * Z;
  set_apic_base : Z → Z → W → W
}.

(** ** The local APIC (lapic.rs) *)

Definition X2APIC_SVR : Z := 0x80F.
Definition X2APIC_ERROR_STATUS : Z := 0x808.
Definition X2APIC_EOI : Z := 0x80B.
Definition X2APIC_APICID : Z := 0x802.
Definition X2APIC_TIMER_LVT : Z := 0x832.
Definition X2APIC_TIMER_ICR : Z := 0x838.
Definition X2APIC_TIMER_CCR : Z := 0x839.
Definition X2APIC_TIMER_DCR : Z := 0x83E.
Definition X2APIC_SELF_IPI : Z := 0x83F.
Definition LAPIC_ENABLE : Z := Z.shiftl 1 11.
Definition X2APIC_ENABLE : Z := Z.shiftl 1 10.

Section acpi.
Context {W : Type} {AD : Addresses} {BU : Bus W} {MS : Msr W}.
Variables (HHDM_OFFSET : Z) (fuel : nat).

(** The machine and the statics. *)
Record AcpiState := mkAcpi { hw : W; statics : Statics }.

Definition on_hw {E A} (m : M W E A) : M AcpiState E A := λ s,
  let '(r, w) := m (hw s) in (r, mkAcpi w (statics s)).

Definition on_static {E A B} (st : Static A) (m : M (LateInit A) E B) : M AcpiState E B := λ s,
  let '(r, l) := m (view st (statics s)) in (r, mkAcpi (hw s) (put st l (statics s))).

(** [init], [get] and [try_get] of a static. *)
Definition set {E A} (st : Static A) (val : A) : M AcpiState E unit :=
  on_static st (late_init val);; mret tt.
Definition get {E A} (st : Static A) : M AcpiState E A := on_static st late_get.
Definition try_get {E A} (st : Static A) : M AcpiState E (option A) := on_static st late_try_get.
Definition try_get_or {E A} (st : Static A) (e : E) : M AcpiState E A :=
  o ← try_get st; lift (ok_or o e).

(** The clock that [passed_nanos] reads. *)
Definition acpi_nanos {E} : M AcpiState E Z :=
  regs ← get HPET_REGS; period ← get HPET_PERIOD_FS; on_hw (passed_nanos (mkHpet regs period)).

Definition lapic_enable {E} : M W E unit :=
  fr ← gets apic_base;
  modify (set_apic_base fr.1 (Z.lor (Z.lor fr.2 LAPIC_ENABLE) X2APIC_ENABLE));;
  modify (wrmsr X2APIC_SVR (Z.lor 0xFF (Z.shiftl 1 8)));;
  modify (wrmsr X2APIC_ERROR_STATUS 0).

Definition lapic_init : M W ACPIError unit :=
  ecx ← gets cpuid1_ecx;
  if negb (Z.land (Z.shiftr ecx 21) 1 =? 1) then fail NoX2APIC else lapic_enable.

(** [init_ap] does the same without the check. *)
Definition init_ap {E} : M W E unit := lapic_enable.

Definition eoi {E} : M W E unit := modify (wrmsr X2APIC_EOI 0).
Definition lapic_id {E} : M W E Z := gets (rdmsr X2APIC_APICID).
Definition send_self_ipi {E} (vector : Z) : M W E unit := modify (wrmsr X2APIC_SELF_IPI vector).

(** The timer is calibrated against the clock. *)
Definition init_timer {E} (vector : Z) (interval : Time) : M AcpiState E unit :=
  on_hw (modify (wrmsr X2APIC_TIMER_LVT (Z.shiftl 1 16)));;
  on_hw (modify (wrmsr X2APIC_TIMER_DCR 3));;
  on_hw (modify (wrmsr X2APIC_TIMER_ICR U32_MAX));;
  start ← acpi_nanos;
  wait_while (now ← acpi_nanos; mret (now ⊟ start <? to_nanos interval)) fuel;;
  ccr ← on_hw (gets (rdmsr X2APIC_TIMER_CCR));
  let elapsed := u32 (U32_MAX - u32 ccr) in
  on_hw (modify (wrmsr X2APIC_TIMER_LVT (Z.lor vector (Z.shiftl 1 17))));;
  on_hw (modify (wrmsr X2APIC_TIMER_ICR elapsed));;
  set LAPIC_TIMER_VECTOR vector;;
  set LAPIC_TIMER_TICKS elapsed.

Definition init_timer_ap {E} : M AcpiState E unit :=
  vector ← get LAPIC_TIMER_VECTOR;
  ticks ← get LAPIC_TIMER_TICKS;
  on_hw (modify (wrmsr X2APIC_TIMER_DCR 3));;
  on_hw (modify (wrmsr X2APIC_TIMER_LVT (Z.lor vector (Z.shiftl 1 17))));;
  on_hw (modify (wrmsr X2APIC_TIMER_ICR ticks)).

(** ** The I/O APICs (ioapic.rs) *)

Definition RTE_BASE : Z := 0x10.

(** The index of the I/O APIC that owns a global system interrupt. *)
Fixpoint ioapic_from (i : nat) (ioapics : list IOApic) (gsi : Z) : res ACPIError nat :=
  match ioapics with
  | [] => Err GSIUnderflow
  | a :: rest =>
      let next_base := match rest with b :: _ => gsi_base b | [] => U32_MAX end in
      if (gsi_base a <=? gsi) && (gsi <? next_base) then Ok i else ioapic_from (S i) rest gsi
  end.

Definition ioapic_index (gsi : Z) : M AcpiState ACPIError nat :=
  ioapics ← try_get_or IOAPICS IOAPICNotInitialized;
  lift (ioapic_from 0 ioapics gsi).

(** Indexing a vector panics out of range. *)
Definition gsi_to_entry (gsi : Z) : M AcpiState ACPIError Z :=
  index ← ioapic_index gsi;
  ioapics ← try_get_or IOAPICS IOAPICNotInitialized;
  a ← opt_panic (ioapics !! index);
  e ← lift (ok_or (checked_sub gsi (gsi_base a)) GSIUnderflow);
  mret (u8 e).

Definition ioapic_read (index : nat) (reg : Z) : M AcpiState ACPIError Z :=
  regions ← try_get_or IOAPIC_REGIONS IOAPICNotInitialized;
  ptr ← opt_panic (regions !! index);
  on_hw (write_volatile 4 ptr reg);;
  on_hw (read_volatile 4 (ptr + 4 * 4)).

Definition ioapic_write (index : nat) (reg val : Z) : M AcpiState ACPIError unit :=
  regions ← try_get_or IOAPIC_REGIONS IOAPICNotInitialized;
  ptr ← opt_panic (regions !! index);
  on_hw (write_volatile 4 ptr reg);;
  on_hw (write_volatile 4 (ptr + 4 * 4) val).

Definition redirect (gsi vector cpu flags : Z) : M AcpiState ACPIError unit :=
  index ← ioapic_index gsi;
  entry ← gsi_to_entry gsi;
  let polarity := Z.land (Z.shiftr flags 1) 1 in
  let trigger := Z.land (Z.shiftr flags 3) 1 in
  let reg_low := u8 (RTE_BASE + u8 (2 * entry)) in
  let reg_high := u8 (u8 (RTE_BASE + u8 (2 * entry)) + 1) in
  old_low ← ioapic_read index reg_low;
  let new_low :=
    Z.lor (Z.lor (Z.lor (Z.land old_low (not32 (Z.lor 0xFF (Z.shiftl 0x15 11)))) vector)
      (Z.shiftl polarity 13)) (Z.shiftl trigger 15) in
  ioapic_write index reg_low new_low;;
  ioapic_write index reg_high (u32 (Z.shiftl cpu 24)).

(** [unmask] and [mask] *)
Definition unmask (gsi : Z) : M AcpiState ACPIError unit :=
  index ← ioapic_index gsi;
  entry ← gsi_to_entry gsi;
  let reg_low := u8 (RTE_BASE + u8 (2 * entry)) in
  val ← ioapic_read index reg_low;
  ioapic_write index reg_low (Z.land val (not32 (Z.shiftl 1 16))).

Definition mask (gsi : Z) : M AcpiState ACPIError unit :=
  index ← ioapic_index gsi;
  entry ← gsi_to_entry gsi;
  let reg_low := u8 (RTE_BASE + u8 (2 * entry)) in
  val ← ioapic_read index reg_low;
  ioapic_write index reg_low (Z.lor val (Z.shiftl 1 16)).

(** ** The tables *)

(** Bytes of a table, little endian. *)
Definition peek_val {E} (v n : Z) : M W E Z := b ← peek HHDM_OFFSET v n; mret (le_val b).

Definition sum_bytes (l : list Z) : Z := fold_left (λ acc b, u8 (acc + b)) l 0.

Definition verify_checksum {E} (table : Z) : M W E bool :=
  length ← peek_val (table + 4) 4;
  bytes ← peek HHDM_OFFSET table length;
  mret (sum_bytes bytes =? 0).

(** The MADT: one round per entry, from [offset] on. *)
Fixpoint madt_loop (n : nat) (apic_header length offset : Z) (ios : list IOApic) (ovs : list InterruptOverride) :
    M W ACPIError (list IOApic * list InterruptOverride) :=
  match n with
  | O => lift Loop
  | S n =>
      if offset <? length then
        addr ← opt_panic (virt_add apic_header offset);
        entry_type ← peek_val addr 1;
        a1 ← opt_panic (virt_add addr 1);
        entry_length ← peek_val a1 1;
        if entry_length =? 0 then fail MADTEntryLengthZero
        else if entry_type =? 0x01 then
          a2 ← opt_panic (virt_add addr 2);
          apic_id ← peek_val a2 1;
          a4 ← opt_panic (virt_add addr 4);
          address ← peek_val a4 4;
          a8 ← opt_panic (virt_add addr 8);
          gsi_base ← peek_val a8 4;
          madt_loop n apic_header length (offset ⊞ entry_length) (ios ++ [mkIOApic apic_id address gsi_base]) ovs
        else if entry_type =? 0x02 then
          a3 ← opt_panic (virt_add addr 3);
          source ← peek_val a3 1;
          a4 ← opt_panic (virt_add addr 4);
          gsi ← peek_val a4 4;
          a8 ← opt_panic (virt_add addr 8);
          flags ← peek_val a8 2;
          madt_loop n apic_header length (offset ⊞ entry_length) ios (ovs ++ [mkOverride source gsi flags])
        else madt_loop n apic_header length (offset ⊞ entry_length) ios ovs
      else mret (ios, ovs)
  end.

(** [init_apic]; an entry has at least one byte, so there are at most [length]
    rounds. *)
Definition parse_madt (apic_header : Z) : M W ACPIError (list IOApic * list InterruptOverride) :=
  a4 ← opt_panic (virt_add apic_header 4);
  length ← peek_val a4 4;
  madt_loop (S (Z.to_nat length)) apic_header length (36 + 8) [] [].

Definition init_apic (apic_header : Z) : M AcpiState ACPIError unit :=
  r ← on_hw (parse_madt apic_header);
  set IOAPICS r.1;;
  set OVERRIDES r.2.

(** [ioapic::init] *)
Definition ioapic_init : M AcpiState ACPIError unit :=
  ioapics ← try_get_or IOAPICS IOAPICNotInitialized;
  if bool_decide (length ioapics = 0%nat) then fail MADTNoIoApicFound
  else
    regions ← on_hw (foldM (λ regions a,
      p ← opt_panic (phys_new (io_address a));
      region ← phys_to_virt HHDM_OFFSET p;
      mret (regions ++ [region])) [] ioapics);
    set IOAPIC_REGIONS regions.

(** [apic::init] *)
Definition apic_init (apic_header : Z) : M AcpiState ACPIError unit :=
  init_apic apic_header;; ioapic_init;; on_hw lapic_init.

(** [hpet::init] *)
Definition hpet_init (hpet_entry : Z) : M AcpiState ACPIError unit :=
  e ← opt_panic (virt_add hpet_entry 44);
  address ← on_hw (peek_val e 8);
  a ← opt_panic (phys_new address);
  regs ← on_hw (phys_to_virt HHDM_OFFSET a);
  gcap ← on_hw (read_volatile 8 regs);
  let period := Z.shiftr gcap 32 in
  if period =? 0 then fail HPETPeriodZero
  else
    set HPET_REGS regs;;
    set HPET_PERIOD_FS period;;
    c ← opt_panic (virt_add regs 0x10);
    conf ← on_hw (read_volatile 8 c);
    on_hw (write_volatile 8 (regs + 2 * 8) (Z.lor conf 1)).

(** MCFG *)
Definition mcfg_entry {E} (entries i : Z) : M W E Pci.MCFGEntry :=
  let e := entries + 16 * i in
  base_address ← peek_val e 8;
  segment_group ← peek_val (e + 8) 2;
  start_bus ← peek_val (e + 10) 1;
  end_bus ← peek_val (e + 11) 1;
  mret (Pci.mkMCFG base_address segment_group start_bus end_bus).

Definition mcfg_init {E} (mcfg_header : Z) : M AcpiState E unit :=
  length ← on_hw (peek_val (mcfg_header + 1 * 4) 4);
  if length <? 44 then set MCFG_ENTRIES []
  else
    let entry_count := (length - 44) / 16 in
    entries ← opt_panic (virt_add mcfg_header 44);
    vec ← on_hw (foldM (λ vec i, entry ← mcfg_entry entries i; mret (vec ++ [entry])) [] (seqZ 0 entry_count));
    set MCFG_ENTRIES vec.

Definition mcfg_entries {E} : M AcpiState E (list Pci.MCFGEntry) :=
  o ← try_get MCFG_ENTRIES; mret (default [] o).

(** ** [init] *)

Inductive XSDTSignature := SigHpet | SigApic | SigMcfg | SigFadt | SigUnknown.

(** The signatures as little-endian numbers: "HPET", "APIC", "MCFG", "FACP". *)
Definition HPET_SIG : Z := 0x54455048.
Definition APIC_SIG : Z := 0x43495041.
Definition MCFG_SIG : Z := 0x4746434D.
Definition FADT_SIG : Z := 0x50434146.

Definition signature_from (val : Z) : XSDTSignature :=
  if val =? HPET_SIG then SigHpet
  else if val =? APIC_SIG then SigApic
  else if val =? MCFG_SIG then SigMcfg
  else if val =? FADT_SIG then SigFadt
  else SigUnknown.

(** The headers, packed in memory, and their methods. *)
Record RSDPHeader := mkRSDP {
  rsdp_signature : Z; rsdp_checksum : Z; rsdp_oem_id : list Z; rsdp_revision : Z; rsdt_address : Z; rsdp_length : Z;
  xsdt_address_ : Z; ext_checksum : Z; rsdp_reserved : list Z
}.
Definition decode_rsdp (l : list Z) : RSDPHeader :=
  mkRSDP (le_val (slice 0 8 l)) (le_val (slice 8 1 l)) (slice 9 6 l) (le_val (slice 15 1 l)) (le_val (slice 16 4 l))
    (le_val (slice 20 4 l)) (le_val (slice 24 8 l)) (le_val (slice 32 1 l)) (slice 33 3 l).

(** The sum of the bytes of the header. *)
Definition verify_integrity (bytes : list Z) : bool := sum_bytes bytes =? 0.
Definition xsdt_address (rsdp : RSDPHeader) : M AcpiState KernelError Z :=
  p ← opt_panic (phys_new (xsdt_address_ rsdp)); on_hw (phys_to_virt HHDM_OFFSET p).

Record SDTHeader := mkSDT {
  sdt_signature : list Z; sdt_length : Z; sdt_revision : Z; sdt_checksum : Z; sdt_oem_id : list Z;
  oem_table_id : list Z; oem_revision : Z; creator_id : Z; creator_revision : Z
}.
Definition decode_sdt (l : list Z) : SDTHeader :=
  mkSDT (slice 0 4 l) (le_val (slice 4 4 l)) (le_val (slice 8 1 l)) (le_val (slice 9 1 l)) (slice 10 6 l) (slice 16 8 l)
    (le_val (slice 24 4 l)) (le_val (slice 28 4 l)) (le_val (slice 32 4 l)).
Definition signature (h : SDTHeader) : XSDTSignature := signature_from (le_val (sdt_signature h)).

(** The body of the loop over the tables. *)
Definition init_table (info_phys : Z) : M AcpiState KernelError unit :=
  p ← opt_panic (phys_new info_phys);
  info_virt ← on_hw (phys_to_virt HHDM_OFFSET p);
  valid ← on_hw (verify_checksum info_virt);
  if negb valid then mret tt
  else
    header ← on_hw (peek HHDM_OFFSET info_virt 36);
    match signature (decode_sdt header) with
    | SigApic => map_errM KACPI (apic_init info_virt)
    | SigHpet => map_errM KACPI (hpet_init info_virt)
    | SigMcfg => mcfg_init info_virt
    | SigUnknown | SigFadt => mret tt
    end.

Definition acpi_init (rsdp_ptr : Z) : M AcpiState KernelError unit :=
  bytes ← on_hw (peek HHDM_OFFSET rsdp_ptr 36);
  let rsdp := decode_rsdp bytes in
  if negb (verify_integrity bytes) then fail (KACPI RSDPIntegrityFailed)
  else if negb (rsdp_revision rsdp =? 2) then fail (KACPI RSDPUnsupportedRevision)
  else
    xsdt_addr ← xsdt_address rsdp;
    valid ← on_hw (verify_checksum xsdt_addr);
    if negb valid then fail (KACPI XSDTChecksumFailed)
    else
      header ← on_hw (peek HHDM_OFFSET xsdt_addr 36);
      let xsdt := decode_sdt header in
      let entry_count := (sdt_length xsdt ⊟ 36) / 8 in
      entry_start ← opt_panic (virt_add xsdt_addr 36);
      forM (seqZ 0 entry_count) (λ i,
        info_phys ← on_hw (peek_val (entry_start + 8 * i) 8);
        init_table info_phys).

(** [trigger_interrupt] *)
Definition trigger_interrupt {E} (int : Z) : M W E unit := send_self_ipi int.
End acpi.

End Acpi.
