(* ===== verification/AcpiTables.v ===== *)
(** * What the ACPI code reads and programs

    The MADT round trip and the termination of its parser, and the redirection
    entries that [redirect] and [unmask] leave in the I/O APICs. *)

From S2P Require Import Prelude Errors Virt Helpers Hardware Pci Acpi.
Import Errors Virt Helpers Hardware Acpi.

Module AcpiTables.

(** ** Statics *)

Section statics.
Context {W : Type}.
Implicit Types s : AcpiState (W := W).

(** A static that holds a value. *)
Definition filled {A} (st : Static A) (a : A) s : Prop :=
  view st (statics s) = mkLateInit true (Some a) ∧ put st (view st (statics s)) (statics s) = statics s.

Lemma try_get_or_filled {E A} (st : Static A) a (e : E) s :
  filled st a s → try_get_or st e s = (Ok a, s).
Proof.
  destruct s as [w t]. intros [Hv Hp]. cbn [statics] in *. rewrite Hv in Hp.
  unfold try_get_or, try_get, on_static, mbind, M_bind. cbn [statics hw]. rewrite Hv.
  change (late_try_get (mkLateInit true (Some a))) with (Ok (E := E) (Some a), mkLateInit true (Some a)).
  cbn. by rewrite Hp.
Qed.

(** A static that holds nothing yet can be set. *)
Lemma set_fresh {E A} (st : Static A) a s :
  view st (statics s) = late_new →
  set (E := E) st a s = (Ok tt, mkAcpi (hw s) (put st (mkLateInit true (Some a)) (statics s))).
Proof. intros Hv. unfold set, on_static, mbind, M_bind. by rewrite Hv. Qed.

Lemma filled_hw {A} (st : Static A) a s w : filled st a s → filled st a (mkAcpi w (statics s)).
Proof. done. Qed.
End statics.

(** ** Reading memory *)

Lemma bytes_slice m a l off n :
  holds m a l → (off + n <= length l)%nat → bytes_at m (a + Z.of_nat off) (Z.of_nat n) = slice off n l.
Proof.
  intros H Hn. rewrite <- (take_drop off l) in H. apply holds_app in H as [_ H].
  rewrite length_take_le in H by lia. rewrite <- (take_drop n (drop off l)) in H.
  apply holds_app in H as [H _]. unfold holds in H. rewrite length_take_le in H; [done|].
  rewrite length_drop. lia.
Qed.

(** ** The MADT *)

Inductive MadtEntry :=
| MadtIOApic (a : IOApic)
| MadtOverride (o : InterruptOverride)
| MadtOther (type : Z) (body : list Z).

Definition madt_bytes (e : MadtEntry) : list Z :=
  match e with
  | MadtIOApic a => [1; 12; apic_id a; 0] ++ le_bytes 4 (io_address a) ++ le_bytes 4 (gsi_base a)
  | MadtOverride o => [2; 10; 0; source o] ++ le_bytes 4 (gsi o) ++ le_bytes 2 (flags o)
  | MadtOther t body => t :: Z.of_nat (2 + length body) :: body
  end.

Definition entry_ok (e : MadtEntry) : Prop :=
  match e with
  | MadtIOApic a => 0 <= apic_id a < 256 ∧ 0 <= io_address a < 2 ^ 32 ∧ 0 <= gsi_base a < 2 ^ 32
  | MadtOverride o => 0 <= source o < 256 ∧ 0 <= gsi o < 2 ^ 32 ∧ 0 <= flags o < 2 ^ 16
  | MadtOther t body => t ≠ 1 ∧ t ≠ 2 ∧ (length body <= 253)%nat
  end.

Definition ioapics_of (l : list MadtEntry) : list IOApic :=
  l ≫= λ e, match e with MadtIOApic a => [a] | _ => [] end.
Definition overrides_of (l : list MadtEntry) : list InterruptOverride :=
  l ≫= λ e, match e with MadtOverride o => [o] | _ => [] end.

Section madt.
Context {W : Type} {AD : Addresses} {BU : Bus W} {AL : AddressLaws}.
Variables (HHDM_OFFSET header : Z).

Lemma peek_val_at {E} v n w : peek_val (E := E) HHDM_OFFSET v n w = (Ok (le_val (bytes_at (ram w) (v - HHDM_OFFSET) n)), w).
Proof. done. Qed.

(** All addresses of the table, and the fields an entry may be read to have. *)
Definition table_mapped (len : Z) : Prop := ∀ i, 0 <= i < len + 12 → canonical (header + i).

(** The [n] bytes at [i] of the table, as a number. *)
Definition field (w : W) (i n : Z) : Z := le_val (bytes_at (ram w) (header + i - HHDM_OFFSET) n).

Lemma madt_step n len off ios ovs w :
  table_mapped len → 0 <= off < len →
  madt_loop HHDM_OFFSET (S n) header len off ios ovs w =
  if field w (off + 1) 1 =? 0 then (Err MADTEntryLengthZero, w)
  else madt_loop HHDM_OFFSET n header len (off ⊞ field w (off + 1) 1)
    (ios ++ if field w off 1 =? 1 then [mkIOApic (field w (off + 2) 1) (field w (off + 4) 4) (field w (off + 8) 4)] else [])
    (ovs ++ if field w off 1 =? 2 then [mkOverride (field w (off + 3) 1) (field w (off + 4) 4) (field w (off + 8) 2)] else []) w.
Proof.
  intros Hm Ho. cbn [madt_loop]. rewrite (proj2 (Z.ltb_lt off len)) by lia.
  assert (∀ i, 0 <= i <= 8 → virt_add (header + off) i = Some (header + (off + i))) as Hv.
  { intros i ?. rewrite virt_add_ok by (try lia; rewrite <- Z.add_assoc; apply Hm; lia). by rewrite Z.add_assoc. }
  assert (∀ A (f : Z → M W ACPIError A) i, 0 <= i <= 8 →
    (opt_panic (virt_add (header + off) i) ≫= f) w = f (header + (off + i)) w) as Hb
    by (intros A f i ?; by rewrite Hv).
  assert (∀ A (f : Z → M W ACPIError A) i k, (peek_val HHDM_OFFSET (header + i) k ≫= f) w = f (field w i k) w) as Hp
    by done.
  rewrite (virt_add_ok header) by (lia || (apply Hm; lia)).
  change (mbind ?f (opt_panic (Some ?a)) w) with (f a w). cbv beta.
  rewrite Hp, Hb, Hp by lia. destruct (field w (off + 1) 1 =? 0); [done|].
  destruct (field w off 1 =? 1) eqn:E1; zb.
  { rewrite E1, Hb, Hp, Hb, Hp, Hb, Hp by lia. cbn [Z.eqb Pos.eqb]. by rewrite app_nil_r. }
  destruct (field w off 1 =? 2) eqn:E2; rewrite ?app_nil_r; [|done].
  by rewrite Hb, Hp, Hb, Hp, Hb, Hp by lia.
Qed.

Lemma field_slice w i l off n :
  holds (ram w) (header + i - HHDM_OFFSET) l → 0 <= off → 0 <= n → off + n <= Z.of_nat (length l) →
  field w (i + off) n = le_val (slice (Z.to_nat off) (Z.to_nat n) l).
Proof.
  intros H Ho Hn Hl. unfold field. rewrite <- (bytes_slice _ _ _ _ _ H) by lia. rewrite !Z2Nat.id by lia.
  do 2 f_equal. lia.
Qed.

Lemma le_val1 x : 0 <= x < 256 → le_val [x] = x.
Proof. cbn. lia. Qed.

Lemma madt_entry n len off e ios ovs w :
  entry_ok e → table_mapped len → 0 <= off → off + Z.of_nat (length (madt_bytes e)) <= len → len < 2 ^ 32 →
  holds (ram w) (header + off - HHDM_OFFSET) (madt_bytes e) →
  madt_loop HHDM_OFFSET (S n) header len off ios ovs w =
  madt_loop HHDM_OFFSET n header len (off + Z.of_nat (length (madt_bytes e)))
    (ios ++ ioapics_of [e]) (ovs ++ overrides_of [e]) w.
Proof.
  intros He Hm Ho Hlen H32 Hh.
  assert (2 <= Z.of_nat (length (madt_bytes e)) < 256) by (destruct e; cbn in *; lia).
  rewrite madt_step by (done || lia).
  pose proof (λ o k, field_slice w off _ o k Hh) as F.
  assert (field w (off + 1) 1 = Z.of_nat (length (madt_bytes e))) as ->.
  { rewrite F by lia. change (Z.to_nat 1) with 1%nat. unfold slice.
    destruct e; cbn [madt_bytes app drop take le_val length]; [done|done|]. change (take 0 body) with (@nil Z). cbn [le_val]. lia. }
  rewrite (proj2 (Z.eqb_neq _ 0)) by lia. rewrite u64_small by (unfold in_u64; lia).
  pose proof (F 0 1 ltac:(lia) ltac:(lia) ltac:(lia)) as F0. rewrite Z.add_0_r in F0.
  destruct e as [a|o|t body]; cbn [entry_ok] in He; rewrite F0.
  - rewrite (F 2 1), (F 4 4), (F 8 4) by (cbn; lia).
    change (slice (Z.to_nat 4) (Z.to_nat 4) _) with (le_bytes 4 (io_address a)). change (slice (Z.to_nat 8) (Z.to_nat 4) _) with (le_bytes 4 (gsi_base a)).
    rewrite !le_val_bytes by (cbn; lia). change (slice (Z.to_nat 2) (Z.to_nat 1) _) with [apic_id a]. rewrite le_val1 by lia.
    change (le_val (slice (Z.to_nat 0) (Z.to_nat 1) _)) with 1. by destruct a.
  - rewrite (F 3 1), (F 4 4), (F 8 2) by (cbn; lia).
    change (slice (Z.to_nat 4) (Z.to_nat 4) _) with (le_bytes 4 (gsi o)). change (slice (Z.to_nat 8) (Z.to_nat 2) _) with (le_bytes 2 (flags o)).
    rewrite !le_val_bytes by (cbn; lia). change (slice (Z.to_nat 3) (Z.to_nat 1) _) with [source o]. rewrite le_val1 by lia.
    change (le_val (slice (Z.to_nat 0) (Z.to_nat 1) _)) with 2. by destruct o.
  - change (slice (Z.to_nat 0) (Z.to_nat 1) _) with [t]. destruct He as (? & ? & _). cbn [le_val].
    replace (t + 256 * 0) with t by lia. by rewrite !(proj2 (Z.eqb_neq _ _)).
Qed.

Lemma madt_entries l : ∀ n len off ios ovs w,
  Forall entry_ok l → table_mapped len → 0 <= off → len = off + Z.of_nat (length (l ≫= madt_bytes)) → len < 2 ^ 32 →
  holds (ram w) (header + off - HHDM_OFFSET) (l ≫= madt_bytes) → (length l < n)%nat →
  madt_loop HHDM_OFFSET n header len off ios ovs w = (Ok (ios ++ ioapics_of l, ovs ++ overrides_of l), w).
Proof.
  induction l as [|e l IH]; intros [|n] len off ios ovs w Hl Hm Ho Hlen H32 Hh Hn; try (cbn in Hn; lia).
  { cbn in Hlen. cbn [madt_loop]. rewrite (proj2 (Z.ltb_ge _ _)) by lia.
    cbn. by rewrite !app_nil_r. }
  apply Forall_cons in Hl as [He Hl]. rewrite bind_cons in Hh, Hlen. rewrite length_app in Hlen.
  apply holds_app in Hh as [Hh Hr].
  rewrite (madt_entry n len off e) by (done || lia). rewrite IH; [|done|done|lia|lia|lia| |cbn in Hn; lia].
  - unfold ioapics_of, overrides_of. rewrite !bind_cons, !app_nil_r, <- !app_assoc. done.
  - by replace (header + (off + Z.of_nat (length (madt_bytes e))) - HHDM_OFFSET)
      with (header + off - HHDM_OFFSET + Z.of_nat (length (madt_bytes e))) by lia.
Qed.

Lemma entries_length l : Forall entry_ok l → (length l <= length (l ≫= madt_bytes))%nat.
Proof.
  induction 1 as [|e l He _ IH]; [done|]. rewrite bind_cons, length_app. cbn [length].
  destruct e; cbn; lia.
Qed.

(** The parser ends, whatever the memory holds. *)
Lemma madt_loop_ends n : ∀ len off ios ovs w,
  (∀ a, 0 <= ram w a < 256) → table_mapped len → 0 <= off → len < 2 ^ 32 → Z.max 0 (len - off) < Z.of_nat n →
  wp (madt_loop HHDM_OFFSET n header len off ios ovs) (λ _ w', w' = w) (λ e w', e = MADTEntryLengthZero ∧ w' = w) w.
Proof.
  induction n as [|n IH]; intros len off ios ovs w Hb Hm Ho H32 Hn.
  { lia. }
  destruct (decide (off < len)).
  - unfold wp. rewrite madt_step by (done || lia).
    assert (0 <= field w (off + 1) 1 < 256) as Hf.
    { unfold field, bytes_at. set (a := header + (off + 1) - HHDM_OFFSET).
      assert (seqZ a 1 = [a]) as -> by (by rewrite seqZ_cons).
      change (0 <= le_val [ram w a] < 256). rewrite le_val1 by apply Hb. apply Hb. }
    destruct (_ =? 0) eqn:E0; [done|]. zb. rewrite u64_small by (unfold in_u64; lia). apply IH; (done || lia).
  - cbn [madt_loop]. rewrite (proj2 (Z.ltb_ge _ _)) by lia. by apply wp_ret.
Qed.

Lemma parse_madt_entries l w :
  let len := 44 + Z.of_nat (length (l ≫= madt_bytes)) in
  Forall entry_ok l → len < 2 ^ 32 → table_mapped len →
  holds (ram w) (header + 4 - HHDM_OFFSET) (le_bytes 4 len) →
  holds (ram w) (header + 44 - HHDM_OFFSET) (l ≫= madt_bytes) →
  parse_madt HHDM_OFFSET header w = (Ok (ioapics_of l, overrides_of l), w).
Proof.
  intros len Hl H32 Hm Hlen Hh. unfold parse_madt.
  rewrite virt_add_ok by (lia || (apply Hm; lia)). change (mbind ?f (opt_panic (Some ?a)) w) with (f a w). cbv beta.
  assert (peek_val (E := ACPIError) HHDM_OFFSET (header + 4) 4 w = (Ok len, w)) as Hp.
  { rewrite peek_val_at. unfold holds in Hlen. rewrite length_le_bytes in Hlen. change (Z.of_nat 4) with 4 in Hlen.
    by rewrite Hlen, le_val_bytes by (cbn; lia). }
  mstep Hp. pose proof (entries_length l Hl). by apply (madt_entries l); (done || lia).
Qed.

(** Reading back a MADT: from a table that encodes a list of entries,
    [init_apic] returns, leaves the machine alone, and fills [IOAPICS] and
    [OVERRIDES] with the I/O APICs and the interrupt overrides of the list, in its
    order, skipping entries of any other type by their length. *)
Theorem madt_roundtrip l (s : AcpiState (W := W)) :
  let len := 44 + Z.of_nat (length (l ≫= madt_bytes)) in
  Forall entry_ok l → len < 2 ^ 32 → table_mapped len →
  holds (ram (hw s)) (header + 4 - HHDM_OFFSET) (le_bytes 4 len) →
  holds (ram (hw s)) (header + 44 - HHDM_OFFSET) (l ≫= madt_bytes) →
  view IOAPICS (statics s) = late_new → view OVERRIDES (statics s) = late_new →
  ∃ s', init_apic HHDM_OFFSET header s = (Ok tt, s') ∧ hw s' = hw s ∧
    filled IOAPICS (ioapics_of l) s' ∧ filled OVERRIDES (overrides_of l) s'.
Proof.
  intros len Hl H32 Hm Hlen Hh Hi Ho. destruct s as [w [t1 t2 t3 t4 t5 t6 t7 t8]]. cbn in *. subst t1 t2.
  eexists. split; [unfold init_apic, on_hw at 1, mbind, M_bind; cbn [hw statics];
    by rewrite (parse_madt_entries l)|]. by repeat split.
Qed.

(** The MADT parser ends on any memory, a table of garbage included: it
    changes nothing and its only error is the entry of length zero. *)
Theorem madt_terminates w :
  (∀ a, 0 <= ram w a < 256) → table_mapped (field w 4 4) →
  wp (parse_madt HHDM_OFFSET header) (λ _ w', w' = w) (λ e w', e = MADTEntryLengthZero ∧ w' = w) w.
Proof.
  intros Hb Hm.
  assert (0 <= field w 4 4 < 2 ^ 32) as Hf.
  { assert (bytes_ok (bytes_at (ram w) (header + 4 - HHDM_OFFSET) 4)) as Hok
      by (apply Forall_fmap, Forall_true; intros; apply Hb).
    pose proof (le_val_range _ Hok) as Hr. rewrite length_bytes_at in Hr. exact Hr. }
  unfold parse_madt. apply wp_bind. eapply wp_opt_panic; [apply virt_add_ok; [lia|apply Hm; lia]|].
  eapply wp_step; [apply peek_val_at|]. fold (field w 4 4). apply madt_loop_ends; (done || lia).
Qed.
End madt.

(** ** Redirection entries *)

(** The registers of the I/O APICs, which are reached through a select register
    and a window: I/O APIC [i] shows register [ioregsel w i] of its [ioreg].  Of
    the low half of an entry software can write the vector, the modes, the
    polarity, the trigger mode and the mask; of the high half the destination. *)
Definition writable (r k : Z) : bool :=
  if Z.even r then (k <=? 11) || (k =? 13) || (k =? 15) || (k =? 16) else (24 <=? k) && (k <=? 31).

Class IoApicLaws (W : Type) `{BU : Bus W} (regions : list Z) := {
  ioregsel : W → nat → Z;
  ioreg : W → nat → Z → Z;
  select_law i p r w : regions !! i = Some p → 0 <= r < 256 →
    ioregsel (mmio_write 4 p r w) i = r ∧ ∀ j q, ioreg (mmio_write 4 p r w) j q = ioreg w j q;
  window_read i p w : regions !! i = Some p →
    (mmio_read 4 (p + 16) w).1 = ioreg w i (ioregsel w i) ∧
    ∀ j q, ioreg (mmio_read 4 (p + 16) w).2 j q = ioreg w j q;
  window_write i p v w : regions !! i = Some p → 16 <= ioregsel w i →
    (∀ k, 0 <= k < 32 → Z.testbit (ioreg (mmio_write 4 (p + 16) v w) i (ioregsel w i)) k =
      if writable (ioregsel w i) k then Z.testbit v k else Z.testbit (ioreg w i (ioregsel w i)) k) ∧
    ∀ j q, (j, q) ≠ (i, ioregsel w i) → ioreg (mmio_write 4 (p + 16) v w) j q = ioreg w j q
}.

(** The bits that [redirect] computes for the low half. *)
Definition low_half (old vector flags : Z) : Z :=
  Z.lor (Z.lor (Z.lor (Z.land old (not32 (Z.lor 0xFF (Z.shiftl 0x15 11)))) vector)
    (Z.shiftl (Z.land (Z.shiftr flags 1) 1) 13)) (Z.shiftl (Z.land (Z.shiftr flags 3) 1) 15).

Definition low_bit (old vector flags k : Z) : bool :=
  if k <? 8 then Z.testbit vector k
  else if k =? 11 then false
  else if k =? 13 then Z.testbit flags 1
  else if k =? 15 then Z.testbit flags 3
  else Z.testbit old k.

Lemma range_cases n (P : Z → Prop) : Forall P (seqZ 0 n) → ∀ k, 0 <= k < n → P k.
Proof. rewrite Forall_forall. intros H k Hk. apply H, elem_of_seqZ. lia. Qed.

Lemma testbit_byte v k : 0 <= v < 256 → 8 <= k → Z.testbit v k = false.
Proof. intros. rewrite Z.testbit_false by lia. rewrite Z.div_small; [done|]. split; [lia|].
  apply Z.lt_le_trans with (2 ^ 8); [lia|]. apply Z.pow_le_mono_r; lia. Qed.

Lemma low_half_bit old vector flags k :
  0 <= vector < 256 → 0 <= k < 32 → Z.testbit (low_half old vector flags) k = low_bit old vector flags k.
Proof.
  intros Hv. revert k. apply range_cases.
  assert (∀ i n k, 0 <= i → 0 <= n → 0 <= k →
    Z.testbit (Z.shiftl (Z.land (Z.shiftr flags i) 1) n) k = (k =? n) && Z.testbit flags i) as Hs.
  { intros i n k Hi Hn Hk. rewrite Z.shiftl_spec by lia. destruct (Z.eqb_spec k n) as [->|Hne].
    - rewrite Z.sub_diag, Z.land_spec, Z.shiftr_spec, Z.add_0_l, andb_true_r by lia. done.
    - destruct (decide (k < n)); [by rewrite Z.testbit_neg_r by lia|].
      rewrite Z.land_spec. replace (Z.testbit 1 (k - n)) with false; [by rewrite andb_false_r|].
      symmetry. apply (Z.bits_above_log2 1); cbn; lia. }
  let l := eval vm_compute in (seqZ 0 32) in change (seqZ 0 32) with l.
  repeat (apply Forall_cons; split); [..|by apply Forall_nil]; cbv beta; unfold low_half, low_bit;
    rewrite !Z.lor_spec, !Z.land_spec, !Hs by lia;
    match goal with |- context [Z.testbit (not32 ?m) ?k] =>
      let b := eval vm_compute in (Z.testbit (not32 m) k) in change (Z.testbit (not32 m) k) with b
    end; cbn [Z.eqb Z.ltb Z.compare Pos.eqb Pos.compare Pos.compare_cont andb];
    rewrite ?andb_true_r, ?andb_false_r, ?orb_false_l, ?orb_false_r; try done;
    by rewrite (testbit_byte vector), ?orb_false_r by lia.
Qed.

(** Which I/O APIC owns an interrupt. *)
Lemma ioapic_from_owner l : ∀ k i a gsi,
  l !! i = Some a → gsi_base a <= gsi →
  (∀ j b c, (j < i)%nat → l !! j = Some b → l !! S j = Some c → gsi_base c <= gsi) →
  gsi < match l !! S i with Some b => gsi_base b | None => U32_MAX end →
  ioapic_from k l gsi = Ok (k + i)%nat.
Proof.
  induction l as [|b l IH]; intros k i a gsi Hi Ha Hbelow Hg; [done|].
  destruct i as [|i]; cbn [lookup list_lookup] in Hi.
  { injection Hi as ->. cbn [ioapic_from]. rewrite (proj2 (Z.leb_le _ _)) by done.
    replace (gsi <? _) with true; [by rewrite Nat.add_0_r|]. symmetry. apply Z.ltb_lt. by destruct l. }
  destruct l as [|c l]; [done|].
  change (ioapic_from k (b :: c :: l) gsi) with
    (if (gsi_base b <=? gsi) && (gsi <? gsi_base c) then Ok k else ioapic_from (S k) (c :: l) gsi).
  rewrite (proj2 (Z.ltb_ge gsi (gsi_base c))), andb_false_r by (apply (Hbelow 0%nat b c); [lia|done|done]).
  rewrite (IH (S k) i a); [f_equal; lia|done|done| |done].
  intros j b' c' Hj Hb' Hc'. apply (Hbelow (S j) b' c'); [lia|done|done].
Qed.

(** I/O APIC [i], the descriptor [a], owns [gsi]: the descriptors ascend and the
    interrupt is one of its first 120, the most that the 8-bit register numbers
    reach. *)
Definition owns (l : list IOApic) (i : nat) (a : IOApic) (gsi : Z) : Prop :=
  l !! i = Some a ∧
  (∀ j k b c, (j < k)%nat → l !! j = Some b → l !! k = Some c → gsi_base b < gsi_base c) ∧
  0 <= gsi_base a <= gsi ∧ gsi < gsi_base a + 120 ∧
  gsi < match l !! S i with Some b => gsi_base b | None => U32_MAX end.

Section redirection.
Context {W : Type} {BU : Bus W} (regions : list Z) {IL : IoApicLaws W regions}.
Context (ioapics : list IOApic) (i : nat) (a : IOApic) (gsi p : Z).
Hypothesis own : owns ioapics i a gsi.
Hypothesis region : regions !! i = Some p.
Implicit Types s : AcpiState (W := W).

Definition ready s : Prop := filled IOAPICS ioapics s ∧ filled IOAPIC_REGIONS regions s.

Lemma ready_hw w s : ready s → ready (mkAcpi w (statics s)).
Proof. done. Qed.

Lemma ioapic_index_own s : ready s → ioapic_index gsi s = (Ok i, s).
Proof.
  intros [Hi _]. unfold ioapic_index. mstep (try_get_or_filled IOAPICS ioapics IOAPICNotInitialized s Hi).
  destruct own as (Ha & Hasc & ? & _ & Hn). unfold lift. rewrite (ioapic_from_owner _ 0 i a); [done|done|lia| |done].
  intros j b c Hj Hb Hc. destruct (decide (S j = i)) as [<-|].
  - rewrite Ha in Hc. injection Hc as <-. lia.
  - pose proof (Hasc (S j) i c a ltac:(lia) Hc Ha). lia.
Qed.

Lemma gsi_to_entry_own s : ready s → gsi_to_entry gsi s = (Ok (gsi - gsi_base a), s).
Proof.
  intros Hr. unfold gsi_to_entry. mstep (ioapic_index_own s Hr).
  mstep (try_get_or_filled IOAPICS ioapics IOAPICNotInitialized s (proj1 Hr)).
  destruct own as (Ha & _ & ? & ? & _). rewrite Ha. change (mbind ?f (opt_panic (Some ?x)) s) with (f x s). cbv beta.
  unfold checked_sub. rewrite (proj2 (Z.leb_le _ _)) by lia. 
  change ((Ok (E := ACPIError) (u8 (gsi - gsi_base a)), s) = (Ok (gsi - gsi_base a), s)).
  by rewrite u8_small by (unfold in_u8; lia).
Qed.

Lemma ioapic_read_own r s :
  ready s → 0 <= r < 256 →
  ∃ w', ioapic_read i r s = (Ok (ioreg (hw s) i r), mkAcpi w' (statics s)) ∧
    ∀ j q, ioreg w' j q = ioreg (hw s) j q.
Proof.
  intros Hr H. unfold ioapic_read.
  mstep (try_get_or_filled IOAPIC_REGIONS regions IOAPICNotInitialized s (proj2 Hr)).
  rewrite region. change (mbind ?f (opt_panic (Some ?x)) s) with (f x s). cbv beta.
  destruct (select_law i p r (hw s) region H) as [Hs Hq].
  destruct (window_read i p (mmio_write 4 p r (hw s)) region) as [Hv Hq'].
  exists (mmio_read 4 (p + 4 * 4) (mmio_write 4 p r (hw s))).2. split.
  - unfold on_hw, read_volatile, mbind, M_bind. cbn -[Z.add Z.mul]. change (4 * 4) with 16.
    rewrite Hs, Hq in Hv. rewrite <- Hv. by destruct (mmio_read 4 (p + 16) _).
  - intros. change (4 * 4) with 16. by rewrite Hq', Hq.
Qed.

Lemma ioapic_write_own r v s :
  ready s → 16 <= r < 256 →
  ∃ w', ioapic_write i r v s = (Ok tt, mkAcpi w' (statics s)) ∧
    (∀ k, 0 <= k < 32 → Z.testbit (ioreg w' i r) k =
      if writable r k then Z.testbit v k else Z.testbit (ioreg (hw s) i r) k) ∧
    ∀ j q, (j, q) ≠ (i, r) → ioreg w' j q = ioreg (hw s) j q.
Proof.
  intros Hr H. unfold ioapic_write.
  mstep (try_get_or_filled IOAPIC_REGIONS regions IOAPICNotInitialized s (proj2 Hr)).
  rewrite region. change (mbind ?f (opt_panic (Some ?x)) s) with (f x s). cbv beta.
  destruct (select_law i p r (hw s) region ltac:(lia)) as [Hs Hq].
  destruct (window_write i p v (mmio_write 4 p r (hw s)) region ltac:(rewrite Hs; lia)) as [Hb Hq']. rewrite Hs in Hb, Hq'.
  exists (mmio_write 4 (p + 16) v (mmio_write 4 p r (hw s))). split; [done|]. split.
  - intros k Hk. by rewrite Hb, Hq.
  - intros j q Hne. by rewrite Hq', Hq.
Qed.

(** The registers of the entry. *)
Abbreviation low := (16 + 2 * (gsi - gsi_base a)).

Lemma low_reg : u8 (RTE_BASE + u8 (2 * (gsi - gsi_base a))) = low ∧ u8 (u8 (RTE_BASE + u8 (2 * (gsi - gsi_base a))) + 1) = low + 1.
Proof.
  destruct own as (_ & _ & ? & ? & _). rewrite (u8_small (2 * _)) by (unfold in_u8; lia). unfold RTE_BASE.
  rewrite (u8_small (0x10 + _)) by (unfold in_u8; lia). split; [lia|]. apply u8_small. unfold in_u8. lia.
Qed.

Lemma low_writable k : writable low k = (k <=? 11) || (k =? 13) || (k =? 15) || (k =? 16).
Proof. unfold writable. by replace low with (2 * (8 + (gsi - gsi_base a))) by lia; rewrite Z.even_mul. Qed.

Lemma high_writable k : writable (low + 1) k = (24 <=? k) && (k <=? 31).
Proof.
  unfold writable. replace (low + 1) with (1 + 2 * (8 + (gsi - gsi_base a))) by lia.
  by rewrite Z.even_add, Z.even_mul.
Qed.

Lemma redirect_own vector cpu flags s :
  ready s → 0 <= vector < 256 → 0 <= cpu < 256 →
  ∃ w', redirect gsi vector cpu flags s = (Ok tt, mkAcpi w' (statics s)) ∧
    (∀ k, 0 <= k < 32 → writable low k = true →
      Z.testbit (ioreg w' i low) k = low_bit (ioreg (hw s) i low) vector flags k) ∧
    (∀ k, 24 <= k < 32 → Z.testbit (ioreg w' i (low + 1)) k = Z.testbit cpu (k - 24)) ∧
    ∀ j q, j ≠ i ∨ q ≠ low ∧ q ≠ low + 1 → ioreg w' j q = ioreg (hw s) j q.
Proof.
  intros Hr Hv Hc. unfold redirect. mstep (ioapic_index_own s Hr). mstep (gsi_to_entry_own s Hr).
  destruct low_reg as [-> ->]. assert (16 <= low < 255) as Hl by (destruct own as (_ & _ & ? & ? & _); lia).
  destruct (ioapic_read_own low s Hr ltac:(lia)) as (w1 & E1 & R1). mstep E1.
  fold (low_half (ioreg (hw s) i low) vector flags).
  destruct (ioapic_write_own low (low_half (ioreg (hw s) i low) vector flags) (mkAcpi w1 (statics s)))
    as (w2 & E2 & B2 & R2); [done|lia|]. mstep E2.
  destruct (ioapic_write_own (low + 1) (u32 (Z.shiftl cpu 24)) (mkAcpi w2 (statics s)))
    as (w3 & E3 & B3 & R3); [done|lia|].
  exists w3. split_and!; [exact E3|..].
  - intros k Hk Hw. rewrite R3 by (intros [=]; lia). rewrite B2, Hw by done. by apply low_half_bit.
  - intros k Hk. rewrite B3, high_writable by lia. rewrite (proj2 (Z.leb_le _ _)), (proj2 (Z.leb_le k _)) by lia.
    cbn [andb]. unfold u32. change 4294967296 with (2 ^ 32). rewrite Z.mod_pow2_bits_low by lia. by rewrite Z.shiftl_spec by lia.
  - intros j q Hj. rewrite R3, R2 by (intros [=]; lia). apply R1.
Qed.

Lemma unmask_own s :
  ready s →
  ∃ w', unmask gsi s = (Ok tt, mkAcpi w' (statics s)) ∧ Z.testbit (ioreg w' i low) 16 = false ∧
    (∀ k, 0 <= k < 32 → k ≠ 16 → Z.testbit (ioreg w' i low) k = Z.testbit (ioreg (hw s) i low) k) ∧
    ∀ j q, (j, q) ≠ (i, low) → ioreg w' j q = ioreg (hw s) j q.
Proof.
  intros Hr. unfold unmask. mstep (ioapic_index_own s Hr). mstep (gsi_to_entry_own s Hr).
  destruct low_reg as [-> _]. assert (16 <= low < 255) as Hl by (destruct own as (_ & _ & ? & ? & _); lia).
  destruct (ioapic_read_own low s Hr ltac:(lia)) as (w1 & E1 & R1). mstep E1.
  destruct (ioapic_write_own low (Z.land (ioreg (hw s) i low) (not32 (Z.shiftl 1 16))) (mkAcpi w1 (statics s)))
    as (w2 & E2 & B2 & R2); [done|lia|].
  assert (∀ k, 0 <= k < 32 → Z.testbit (not32 (Z.shiftl 1 16)) k = negb (k =? 16)) as Hn by
    (apply range_cases; by vm_compute; repeat constructor).
  exists w2. split_and!; [exact E2|..].
  - rewrite B2, low_writable, Z.land_spec, Hn by lia. apply andb_false_r.
  - intros k Hk Hne. rewrite B2, Z.land_spec, Hn by lia. rewrite (proj2 (Z.eqb_neq _ _)) by done. rewrite andb_true_r.
    cbn [hw]. rewrite R1. by destruct (writable _ _).
  - intros j q Hj. by rewrite R2.
Qed.

(** C33. An interrupt that is redirected and unmasked is routed as asked.  If the
    I/O APICs are listed in ascending order and one of them owns the interrupt,
    its redirection entry then has the vector, the destination, the polarity and
    the trigger mode that the flags of the MADT say, physical destination mode
    and a clear mask; the delivery mode is kept, and so is every other register
    of every I/O APIC. *)
Theorem redirect_routes vector cpu flags s :
  ready s → 0 <= vector < 256 → 0 <= cpu < 256 →
  ∃ s', (redirect gsi vector cpu flags;; unmask gsi) s = (Ok tt, s') ∧ statics s' = statics s ∧
    (∀ k, 0 <= k < 8 → Z.testbit (ioreg (hw s') i low) k = Z.testbit vector k) ∧
    (∀ k, 8 <= k <= 10 → Z.testbit (ioreg (hw s') i low) k = Z.testbit (ioreg (hw s) i low) k) ∧
    Z.testbit (ioreg (hw s') i low) 11 = false ∧
    Z.testbit (ioreg (hw s') i low) 13 = Z.testbit flags 1 ∧
    Z.testbit (ioreg (hw s') i low) 15 = Z.testbit flags 3 ∧
    Z.testbit (ioreg (hw s') i low) 16 = false ∧
    (∀ k, 24 <= k < 32 → Z.testbit (ioreg (hw s') i (low + 1)) k = Z.testbit cpu (k - 24)) ∧
    ∀ j q, j ≠ i ∨ q ≠ low ∧ q ≠ low + 1 → ioreg (hw s') j q = ioreg (hw s) j q.
Proof.
  intros Hr Hv Hc. destruct (redirect_own vector cpu flags s Hr Hv Hc) as (w1 & E1 & B1 & H1 & R1).
  destruct (unmask_own (mkAcpi w1 (statics s)) Hr) as (w2 & E2 & B2 & U2 & R2).
  assert (∀ k, 0 <= k < 32 → k ≠ 16 → writable low k = true →
    Z.testbit (ioreg w2 i low) k = low_bit (ioreg (hw s) i low) vector flags k) as HL.
  { intros k Hk Hne Hw. rewrite U2 by done. by apply B1. }
  exists (mkAcpi w2 (statics s)). split; [by mstep E1|]. cbn [hw statics]. split_and!; [done|..|done| |].
  - intros k Hk. rewrite HL by (rewrite ?low_writable; lia). unfold low_bit. by rewrite (proj2 (Z.ltb_lt _ _)) by lia.
  - intros k Hk. rewrite HL by (rewrite ?low_writable; lia). unfold low_bit.
    by rewrite (proj2 (Z.ltb_ge _ _)), !(proj2 (Z.eqb_neq _ _)) by lia.
  - by rewrite HL by (rewrite ?low_writable; lia).
  - by rewrite HL by (rewrite ?low_writable; lia).
  - by rewrite HL by (rewrite ?low_writable; lia).
  - intros k Hk. rewrite R2 by (intros [=]; lia). by apply H1.
  - intros j q Hj. rewrite R2 by (intros [=]; lia). by apply R1.
Qed.
End redirection.
End AcpiTables.
