(* ===== verification/AcpiExamples.v ===== *)
(** * A machine with two I/O APICs and a MADT

    It keeps [IoApicLaws]; the theorems on the tables and on the redirection
    entries apply to it, and it shows what [redirect] does outside their
    hypotheses. *)

From S2P Require Import Prelude Errors Virt Helpers Hardware Pci Acpi AcpiTables VirtExamples.
Import Errors Virt Helpers Hardware Acpi AcpiTables VirtExamples.

Module AcpiExamples.

(** The memory from address 0 on, the selected registers and the registers. *)
Record Board := mkBoard { mem : list Z; sel : list Z; rtes : nat → Z → Z }.

Definition WIN0 : Z := 0xFEC00000.
Definition WIN1 : Z := 0xFEC01000.
Definition windows : list Z := [WIN0; WIN1].

Definition wmask (r : Z) : Z := if Z.even r then 0x1AFFF else 0xFF000000.

Definition merge (r old v : Z) : Z := Z.lor (Z.land old (not32 (wmask r))) (Z.land v (wmask r)).

Definition selected (b : Board) (i : nat) : Z := default 0 (sel b !! i).

Definition write_reg (b : Board) (i : nat) (v : Z) : Board :=
  mkBoard (mem b) (sel b) (λ j q,
    if bool_decide (j = i) && (q =? selected b i) then merge q (rtes b j q) v else rtes b j q).

#[export] Instance board_bus : Bus Board := {|
  mmio_read _ a b :=
    (if a =? WIN0 + 16 then rtes b 0%nat (selected b 0)
     else if a =? WIN1 + 16 then rtes b 1%nat (selected b 1) else 0, b);
  mmio_write _ a v b :=
    if a =? WIN0 then mkBoard (mem b) [v; selected b 1] (rtes b)
    else if a =? WIN1 then mkBoard (mem b) [selected b 0; v] (rtes b)
    else if a =? WIN0 + 16 then write_reg b 0 v
    else if a =? WIN1 + 16 then write_reg b 1 v else b;
  ram b a := default 0 (mem b !! Z.to_nat a);
  ram_write _ _ b := b;
  alloc_pages _ := mret None;
  free_frames _ _ b := b
|}.

Lemma wmask_bit r k : 0 <= k < 32 → Z.testbit (wmask r) k = writable r k.
Proof.
  revert k. unfold wmask, writable. destruct (Z.even r); apply range_cases; vm_compute; repeat constructor.
Qed.

Lemma not_wmask_bit r k : 0 <= k < 32 → Z.testbit (not32 (wmask r)) k = negb (writable r k).
Proof.
  revert k. unfold wmask, writable. destruct (Z.even r); apply range_cases; vm_compute; repeat constructor.
Qed.

Lemma merge_bit r old v k :
  0 <= k < 32 → Z.testbit (merge r old v) k = if writable r k then Z.testbit v k else Z.testbit old k.
Proof.
  intros Hk. unfold merge. rewrite Z.lor_spec, !Z.land_spec, wmask_bit, not_wmask_bit by done.
  destruct (writable r k); cbn [negb]; by rewrite ?andb_true_r, ?andb_false_r, ?orb_false_r.
Qed.

Lemma write_reg_law b i v :
  (∀ k, 0 <= k < 32 → Z.testbit (rtes (write_reg b i v) i (selected b i)) k =
    if writable (selected b i) k then Z.testbit v k else Z.testbit (rtes b i (selected b i)) k) ∧
  ∀ j q, (j, q) ≠ (i, selected b i) → rtes (write_reg b i v) j q = rtes b j q.
Proof.
  split.
  - intros k Hk. cbn. rewrite bool_decide_true, Z.eqb_refl by done. by apply merge_bit.
  - intros j q Hne. cbn. destruct (bool_decide_reflect (j = i)) as [->|]; [|done].
    destruct (Z.eqb_spec q (selected b i)) as [->|]; [done|done].
Qed.

#[refine, export] Instance board_laws : IoApicLaws Board windows := {|
  ioregsel := selected;
  ioreg := rtes
|}.
Proof.
  - intros [|[|i]] p r b Hp Hr; try done; injection Hp as <-; done.
  - intros [|[|i]] p b Hp; try done; injection Hp as <-; done.
  - intros [|[|i]] p v b Hp Hs; try done; injection Hp as <-; apply write_reg_law.
Defined.

(** Two I/O APICs, the keyboard override, and a local APIC entry, which the parser
    skips. *)
Definition io0 : IOApic := mkIOApic 0 WIN0 0.
Definition io1 : IOApic := mkIOApic 1 WIN1 24.
Definition madt : list MadtEntry :=
  [MadtOther 0 [0; 0; 1; 0; 0; 0]; MadtIOApic io0; MadtOverride (mkOverride 0 2 0); MadtIOApic io1;
   MadtOverride (mkOverride 9 9 13)].
Definition madt_length : Z := 44 + Z.of_nat (length (madt ≫= madt_bytes)).
Definition madt_table : list Z :=
  replicate 4 0 ++ le_bytes 4 madt_length ++ replicate 36 0 ++ (madt ≫= madt_bytes).

Definition board : Board := mkBoard madt_table [0; 0] (λ _ _, 0x10000).
Definition boot : AcpiState (W := Board) := mkAcpi board no_statics.

(** The state in which both lists are filled. *)
Definition running : AcpiState (W := Board) :=
  mkAcpi board (put IOAPIC_REGIONS (mkLateInit true (Some windows))
    (put IOAPICS (mkLateInit true (Some [io0; io1])) no_statics)).

Lemma madt_ok : Forall entry_ok madt.
Proof. unfold madt. rewrite !Forall_cons, Forall_nil. unfold io0, io1, WIN0, WIN1. cbn. lia. Qed.

Lemma madt_mapped : table_mapped 0 madt_length.
Proof. intros i Hi. left. assert (madt_length = 96) as E by reflexivity. rewrite E in Hi. lia. Qed.

Lemma madt_bytes_mem a : 0 <= ram board a < 256.
Proof.
  cbn [ram board_bus]. destruct (mem board !! Z.to_nat a) as [x|] eqn:E; [|cbn; lia].
  assert (Forall (λ x, 0 <= x < 256) (mem board)) as H by (vm_compute; repeat constructor; discriminate).
  rewrite Forall_lookup in H. by apply (H _ _ E).
Qed.

Lemma madt_roundtrip_witness :
  ∃ s', init_apic 0 0 boot = (Ok tt, s') ∧ hw s' = board ∧
    filled IOAPICS [io0; io1] s' ∧ filled OVERRIDES [mkOverride 0 2 0; mkOverride 9 9 13] s'.
Proof.
  apply (madt_roundtrip 0 0 madt boot); try reflexivity.
  - exact madt_ok.
  - exact madt_mapped.
Defined.

Lemma madt_terminates_witness :
  wp (parse_madt 0 0) (λ _ w', w' = board) (λ e w', e = MADTEntryLengthZero ∧ w' = board) board.
Proof. apply (madt_terminates 0 0 board madt_bytes_mem). exact madt_mapped. Defined.

Lemma io1_owns : owns [io0; io1] 1 io1 30.
Proof.
  split_and!; [done| |done|done|done|done].
  intros [|[|j]] [|[|k]] b c Hj Hb Hc; cbn in *; try lia; by simplify_eq.
Qed.

(** Interrupt 30, level triggered and active low, to vector 33 on processor 2. *)
Lemma redirect_routes_witness :
  ∃ s', (redirect 30 33 2 15;; unmask 30) running = (Ok tt, s') ∧
    Z.testbit (ioreg (hw s') 1 (16 + 2 * (30 - 24))) 15 = true.
Proof.
  destruct (redirect_routes windows [io0; io1] 1 io1 30 WIN1 io1_owns eq_refl 33 2 15 running)
    as (s' & E & _ & _ & _ & _ & _ & H & _); [by repeat split|lia|lia|].
  exists s'. split; [exact E|exact H].
Defined.

(** With a single I/O APIC every interrupt above its base counts as its own, and
    from 120 on the register number wraps: the first such interrupt is written to
    register 0, the identification of the I/O APIC. *)
Definition single : AcpiState (W := Board) :=
  mkAcpi board (put IOAPIC_REGIONS (mkLateInit true (Some windows))
    (put IOAPICS (mkLateInit true (Some [io0])) no_statics)).

Lemma redirect_wraps :
  let '(r, s) := redirect 120 33 2 0 single in
  r = Ok tt ∧ rtes (hw s) 0%nat 0 = 0x10021 ∧ rtes (hw s) 0%nat 1 = 0x02010000.
Proof. vm_compute. done. Qed.

(** I/O APICs in another order: the interrupt is given to the wrong one. *)
Lemma unsorted_owner : ioapic_from 0 [io1; io0] 30 = Ok 1%nat ∧ ioapic_from 0 [io0; io1] 30 = Ok 1%nat.
Proof. done. Qed.

End AcpiExamples.
