(* ===== verification/AcpiWalk.v ===== *)
(** * The walk over the ACPI tables (src/kernel/src/acpi/mod.rs)

    [init] goes from the RSDP to the XSDT and from there to every table.  The
    headers are written out as bytes here; the theorem reads them back, on every
    branch, and shows which tables are initialised, in what order.  The registers
    of devices and of the processor are not memory ([RegisterLaws]), so the
    tables stay what they are while their contents are used. *)

From S2P Require Import Prelude Errors Virt Helpers Hardware Pci Acpi AcpiTables VirtExamples AcpiExamples.
Import Errors Virt Helpers Hardware Acpi AcpiTables.

Module AcpiWalk.

(** ** The headers in memory *)

Definition rsdp_bytes (r : RSDPHeader) : list Z :=
  le_bytes 8 (rsdp_signature r) ++ [rsdp_checksum r] ++ rsdp_oem_id r ++ [rsdp_revision r] ++ le_bytes 4 (rsdt_address r) ++
  le_bytes 4 (rsdp_length r) ++ le_bytes 8 (xsdt_address_ r) ++ [ext_checksum r] ++ rsdp_reserved r.

Definition rsdp_ok (r : RSDPHeader) : Prop :=
  in_u64 (rsdp_signature r) ∧ length (rsdp_oem_id r) = 6%nat ∧ in_u32 (rsdt_address r) ∧ in_u32 (rsdp_length r) ∧
  in_u64 (xsdt_address_ r) ∧ length (rsdp_reserved r) = 3%nat.

Definition sdt_bytes (h : SDTHeader) : list Z :=
  sdt_signature h ++ le_bytes 4 (sdt_length h) ++ [sdt_revision h; sdt_checksum h] ++ sdt_oem_id h ++ oem_table_id h ++
  le_bytes 4 (oem_revision h) ++ le_bytes 4 (creator_id h) ++ le_bytes 4 (creator_revision h).

Definition sdt_ok (h : SDTHeader) : Prop :=
  length (sdt_signature h) = 4%nat ∧ in_u32 (sdt_length h) ∧ length (sdt_oem_id h) = 6%nat ∧ length (oem_table_id h) = 8%nat ∧
  in_u32 (oem_revision h) ∧ in_u32 (creator_id h) ∧ in_u32 (creator_revision h).

Definition xsdt_bytes (x : SDTHeader) (es : list Z) : list Z := sdt_bytes x ++ (es ≫= le_bytes 8).

(** Fields of packed structures. *)
Lemma slice_after (a s : list Z) off n : (length a <= off)%nat → slice off n (a ++ s) = slice (off - length a) n s.
Proof. intros Ha. unfold slice. by rewrite drop_app_ge. Qed.
Lemma slice_front (b c : list Z) n : length b = n → slice 0 n (b ++ c) = b.
Proof. intros <-. unfold slice. by rewrite drop_0, take_app_length. Qed.
Lemma slice_whole (b : list Z) n : length b = n → slice 0 n b = b.
Proof. intros <-. unfold slice. by rewrite drop_0, firstn_all. Qed.

(** Goes past the fields before the one that is read. *)
Ltac lens := rewrite ?length_le_bytes in *; cbn [length] in *.
Ltac field_at := repeat first
  [ rewrite slice_front by (lens; lia) | rewrite slice_whole by (lens; lia)
  | rewrite slice_after by (lens; lia); rewrite ?length_le_bytes; cbn [length];
    repeat match goal with H : length ?x = _ |- context [length ?x] => rewrite H end; cbn [Nat.sub] ].

Lemma decode_rsdp_bytes r : rsdp_ok r → decode_rsdp (rsdp_bytes r) = r.
Proof.
  destruct r as [a1 a2 a3 a4 a5 a6 a7 a8 a9]. intros (H1 & H2 & H3 & H4 & H5 & H6).
  cbn [rsdp_signature rsdp_checksum rsdp_oem_id rsdp_revision rsdt_address rsdp_length xsdt_address_ ext_checksum rsdp_reserved] in *.
  unfold decode_rsdp, rsdp_bytes. cbn [rsdp_signature rsdp_checksum rsdp_oem_id rsdp_revision rsdt_address rsdp_length
    xsdt_address_ ext_checksum rsdp_reserved].
  f_equal; field_at.
  all: rewrite ?le_val_bytes by (unfold_uint; lia); cbn [le_val]; first [done | lia].
Qed.

Lemma decode_sdt_bytes h t : sdt_ok h → decode_sdt (sdt_bytes h ++ t) = h.
Proof.
  destruct h as [a1 a2 a3 a4 a5 a6 a7 a8 a9]. intros (H1 & H2 & H3 & H4 & H5 & H6 & H7).
  unfold decode_sdt, sdt_bytes.
  cbn [sdt_signature sdt_length sdt_revision sdt_checksum sdt_oem_id oem_table_id oem_revision creator_id creator_revision] in *.
  rewrite <-!app_assoc. change ([a3; a4] ++ ?l) with ([a3] ++ [a4] ++ l).
  f_equal; field_at.
  all: rewrite ?le_val_bytes by (unfold_uint; lia); cbn [le_val]; first [done | lia].
Qed.

Lemma length_rsdp r : rsdp_ok r → length (rsdp_bytes r) = 36%nat.
Proof. intros (_ & H1 & _ & _ & _ & H2). unfold rsdp_bytes. rewrite !length_app, !length_le_bytes. cbn [length]. lia. Qed.
Lemma length_sdt h : sdt_ok h → length (sdt_bytes h) = 36%nat.
Proof. intros (H1 & _ & H2 & H3 & _). unfold sdt_bytes. rewrite !length_app, !length_le_bytes. cbn [length]. lia. Qed.
Lemma length_entries es : length (es ≫= le_bytes 8) = (8 * length es)%nat.
Proof. induction es as [|e es IH]; [done|]. cbn [mbind list_bind]. rewrite length_app, length_le_bytes, IH. cbn [length]. lia. Qed.

Lemma slice_entry x l1 e l2 : sdt_ok x → slice (36 + 8 * length l1) 8 (xsdt_bytes x (l1 ++ e :: l2)) = le_bytes 8 e.
Proof.
  intros Hx. unfold xsdt_bytes. rewrite bind_app, bind_cons. pose proof (length_sdt x Hx).
  rewrite slice_after by lia. rewrite slice_after by (rewrite length_entries; lia). rewrite length_entries.
  replace (_ - _ - _)%nat with 0%nat by lia. apply slice_front, length_le_bytes.
Qed.

(** ** The tables stay what they are *)

(** Device registers and model-specific registers are not memory. *)
Class RegisterLaws (W : Type) {BU : Bus W} {MS : Msr W} := {
  read_keeps n a w x : ram (mmio_read n a w).2 x = ram w x;
  write_keeps n a v w x : ram (mmio_write n a v w) x = ram w x;
  wrmsr_keeps r v w x : ram (wrmsr r v w) x = ram w x;
  base_keeps f b w x : ram (set_apic_base f b w) x = ram w x
}.

(** Code that does not change the memory [mem] of its state. *)
Definition keeps {S E A} (mem : S → Z → Z) (m : M S E A) : Prop := ∀ s x, mem (m s).2 x = mem s x.

Section keeps.
Context {S : Type} (mem : S → Z → Z).

Lemma keeps_bind {E A B} (m : M S E A) (f : A → M S E B) : keeps mem m → (∀ a, keeps mem (f a)) → keeps mem (m ≫= f).
Proof.
  intros Hm Hf s x. unfold mbind, M_bind. specialize (Hm s x). destruct (m s) as [[] s']; cbn in *; [|done..].
  by rewrite Hf.
Qed.
Lemma keeps_gets {E A} (f : S → A) : keeps mem (E := E) (gets f).
Proof. by intros s x. Qed.
Lemma keeps_ret {E A} (a : A) : keeps mem (E := E) (mret a).
Proof. by intros s x. Qed.
Lemma keeps_fail {E A} (e : E) : keeps mem (A := A) (fail e).
Proof. by intros s x. Qed.
Lemma keeps_lift {E A} (r : res E A) : keeps mem (lift r).
Proof. by intros s x. Qed.
Lemma keeps_opt {E A} (o : option A) : keeps mem (E := E) (opt_panic o).
Proof. by destruct o; intros s x. Qed.
Lemma keeps_map_err {E F A} (f : E → F) (m : M S E A) : keeps mem m → keeps mem (map_errM f m).
Proof. intros Hm s x. apply Hm. Qed.
Lemma keeps_foldM {E A B} (f : B → A → M S E B) l b : (∀ b a, keeps mem (f b a)) → keeps mem (foldM f b l).
Proof. intros Hf. revert b. induction l as [|a l IH]; intros b; [apply keeps_ret|]. by apply keeps_bind. Qed.
End keeps.

Create HintDb keeps discriminated.
#[export] Hint Resolve keeps_gets keeps_ret keeps_fail keeps_lift keeps_opt : keeps.

(** Statement by statement. *)
Ltac keep :=
  intros; cbv zeta;
  lazymatch goal with
  | |- keeps _ (_ ≫= _) => apply keeps_bind; keep
  | |- keeps _ (if ?b then _ else _) => destruct b; keep
  | |- keeps _ (match ?b with _ => _ end) => destruct b; keep
  | |- keeps _ (foldM _ _ _) => apply keeps_foldM; keep
  | |- keeps _ (map_errM _ _) => apply keeps_map_err; keep
  | |- _ => auto with keeps
  end.

Section tables.
Context {W : Type} {AD : Addresses} {BU : Bus W} {MS : Msr W} {RL : RegisterLaws W}.
Variable HHDM_OFFSET : Z.
Abbreviation acpi_ram := (λ s : AcpiState (W := W), ram (hw s)).

Lemma keeps_hw {E A} (m : M W E A) : keeps ram m → keeps acpi_ram (on_hw m).
Proof. intros Hm s x. unfold on_hw. specialize (Hm (hw s) x). by destruct (m (hw s)). Qed.
Lemma keeps_static {E A B} (st : Static A) (m : M (LateInit A) E B) : keeps acpi_ram (on_static st m).
Proof. intros s x. unfold on_static. by destruct (m (view st (statics s))). Qed.
Lemma keeps_read {E} n a : keeps ram (read_volatile (E := E) n a).
Proof. intros w x. unfold read_volatile. pose proof (read_keeps n a w x). by destruct (mmio_read n a w). Qed.
Lemma keeps_write {E} n a v : keeps ram (write_volatile (E := E) n a v).
Proof. intros w x. apply write_keeps. Qed.
Lemma keeps_wrmsr {E} r v : keeps ram (modify (E := E) (wrmsr r v)).
Proof. intros w x. apply wrmsr_keeps. Qed.
Lemma keeps_base {E} f b : keeps ram (modify (E := E) (set_apic_base f b)).
Proof. intros w x. apply base_keeps. Qed.
#[local] Hint Extern 1 (keeps _ (on_hw _)) => apply keeps_hw; keep : keeps.
#[local] Hint Resolve keeps_static keeps_read keeps_write keeps_wrmsr keeps_base : keeps.

Lemma keeps_madt n : ∀ h len off ios ovs, keeps ram (madt_loop HHDM_OFFSET n h len off ios ovs).
Proof.
  induction n as [|n IH]; intros h len off ios ovs; cbn [madt_loop]; unfold peek_val, peek; keep.
Qed.

Lemma keeps_table e : keeps acpi_ram (init_table HHDM_OFFSET e).
Proof.
  unfold init_table, apic_init, init_apic, parse_madt, ioapic_init, lapic_init, lapic_enable, hpet_init, mcfg_init, mcfg_entry,
    verify_checksum, try_get_or, try_get, set, phys_to_virt, peek_val, peek. pose proof keeps_madt. keep.
Qed.

Section walk.
Context {AL : AddressLaws}.
Variables (r : RSDPHeader) (x : SDTHeader) (es : list Z) (rsdp_ptr : Z).
Hypotheses (Hr : rsdp_ok r) (Hx : sdt_ok x) (Hes : Forall in_u64 es).
Hypotheses (Hlen : sdt_length x = 36 + 8 * Z.of_nat (length es)) (Hphys : 0 <= xsdt_address_ r < 2 ^ 52).
Hypothesis (Hcan : ∀ i, 0 <= i <= sdt_length x → canonical (xsdt_address_ r + HHDM_OFFSET + i)).

(** The headers and the entries are in memory. *)
Definition in_memory (s : AcpiState (W := W)) : Prop :=
  holds (ram (hw s)) (rsdp_ptr - HHDM_OFFSET) (rsdp_bytes r) ∧ holds (ram (hw s)) (xsdt_address_ r) (xsdt_bytes x es).

Lemma in_memory_keeps s s' : in_memory s → (∀ a, ram (hw s') a = ram (hw s) a) → in_memory s'.
Proof. intros [H1 H2] H. split; (eapply holds_ext; [|done]); intros a _; apply H. Qed.

(** Entry number [length l1] of the table. *)
Lemma entry_read {E} l1 e l2 s : in_memory s → es = l1 ++ e :: l2 →
  on_hw (E := E) (peek_val HHDM_OFFSET (xsdt_address_ r + HHDM_OFFSET + 36 + 8 * Z.of_nat (length l1)) 8) s = (Ok e, s).
Proof.
  intros [_ Hm] He. assert (in_u64 e) as Hin. { rewrite He in Hes. apply Forall_app in Hes as [_ H]. by inversion H. }
  unfold on_hw. rewrite peek_val_at. destruct s as [w t]. cbn [hw statics] in *. do 2 f_equal.
  replace (_ - HHDM_OFFSET) with (xsdt_address_ r + Z.of_nat (36 + 8 * length l1)) by lia.
  pose proof (bytes_slice _ _ _ (36 + 8 * length l1) 8 Hm) as Hs. rewrite He in Hs. rewrite slice_entry in Hs by done.
  change (Z.of_nat 8) with 8 in Hs. rewrite Hs, le_val_bytes; [done|unfold_uint; lia|].
  unfold xsdt_bytes. rewrite length_app, length_sdt, length_entries, length_app by done. cbn [length]. lia.
Qed.

Lemma entries_loop l2 : ∀ l1 s, in_memory s → es = l1 ++ l2 →
  forM (seqZ (Z.of_nat (length l1)) (Z.of_nat (length l2))) (λ i,
    info_phys ← on_hw (peek_val HHDM_OFFSET (xsdt_address_ r + HHDM_OFFSET + 36 + 8 * i) 8);
    init_table HHDM_OFFSET info_phys) s = forM l2 (init_table HHDM_OFFSET) s.
Proof.
  induction l2 as [|e l2 IH]; intros l1 s Hm He; [done|]. cbn [length]. rewrite seqZ_cons by lia. cbn [forM].
  replace (Z.succ (Z.of_nat (length l1))) with (Z.of_nat (length (l1 ++ [e]))) by (rewrite length_app; cbn; lia).
  replace (Z.pred (Z.of_nat (S (length l2)))) with (Z.of_nat (length l2)) by lia.
  pose proof (keeps_table e s) as Hk. pose proof (entry_read (E := KernelError) l1 e l2 s Hm He) as E.
  unfold mbind at 1, M_bind at 1. rewrite (bind_Ok _ _ _ _ _ E). unfold mbind at 2, M_bind at 2.
  destruct (init_table HHDM_OFFSET e s) as [[] s']; [|done..]. apply (IH (l1 ++ [e])).
  - by eapply in_memory_keeps.
  - by rewrite <-app_assoc.
Qed.

Lemma xsdt_here (s : AcpiState (W := W)) : xsdt_address HHDM_OFFSET r s = (Ok (xsdt_address_ r + HHDM_OFFSET), s).
Proof.
  pose proof (Hcan 0 ltac:(unfold_uint; lia)) as Hc. rewrite Z.add_0_r in Hc.
  unfold xsdt_address. rewrite (phys_new_ok _ Hphys). unfold on_hw, phys_to_virt, mbind, M_bind, mret, M_ret. cbn.
  rewrite u64_small by (unfold in_u64, canonical in *; lia). rewrite virt_new_ok by done. by destruct s.
Qed.

Lemma checksum_at s : in_memory s →
  on_hw (verify_checksum (E := KernelError) HHDM_OFFSET (xsdt_address_ r + HHDM_OFFSET)) s =
  (Ok (sum_bytes (xsdt_bytes x es) =? 0), s).
Proof.
  intros [_ Hm]. destruct s as [w t]. cbn [hw] in Hm. pose proof Hx as (L1 & L2 & _).
  assert (length (xsdt_bytes x es) = Z.to_nat (sdt_length x)) as Ll.
  { unfold xsdt_bytes. rewrite length_app, length_sdt, length_entries by done. lia. }
  assert (peek_val (E := KernelError) HHDM_OFFSET (xsdt_address_ r + HHDM_OFFSET + 4) 4 w = (Ok (sdt_length x), w)) as E.
  { rewrite peek_val_at. replace (_ - HHDM_OFFSET) with (xsdt_address_ r + Z.of_nat 4) by lia.
    pose proof (bytes_slice _ _ _ 4 4 Hm ltac:(unfold_uint; lia)) as Hs. change (Z.of_nat 4) with 4 in *. rewrite Hs.
    pose proof (decode_sdt_bytes x (es ≫= le_bytes 8) Hx) as D. apply (f_equal sdt_length) in D.
    change (le_val (slice 4 4 (xsdt_bytes x es)) = sdt_length x) in D. by rewrite D. }
  unfold on_hw, verify_checksum. cbn [hw statics]. mstep E. unfold peek. rewrite gets_bind.
  replace (_ - HHDM_OFFSET) with (xsdt_address_ r) by lia. unfold holds in Hm. rewrite Ll, Z2Nat.id in Hm by (unfold_uint; lia).
  by rewrite Hm.
Qed.

(** C34. The walk over the ACPI tables, on every branch: from an RSDP and an XSDT in memory, [init] fails
    with the error of the first check that does not hold -- the sum of the RSDP's bytes, its revision,
    the sum of the XSDT's bytes -- and changes nothing; and if all hold it initialises the tables that
    the XSDT lists, each once, in its order, and stops at the first that fails. *)
Theorem acpi_walks s : in_memory s →
  acpi_init HHDM_OFFSET rsdp_ptr s =
    if negb (sum_bytes (rsdp_bytes r) =? 0) then (Err (KACPI RSDPIntegrityFailed), s)
    else if negb (rsdp_revision r =? 2) then (Err (KACPI RSDPUnsupportedRevision), s)
    else if negb (sum_bytes (xsdt_bytes x es) =? 0) then (Err (KACPI XSDTChecksumFailed), s)
    else forM es (init_table HHDM_OFFSET) s.
Proof.
  intros Hm. pose proof Hm as [Hm1 Hm2]. unfold acpi_init.
  assert (on_hw (E := KernelError) (peek HHDM_OFFSET rsdp_ptr 36) s = (Ok (rsdp_bytes r), s)) as E1.
  { unfold on_hw, peek, gets. unfold holds in Hm1. rewrite length_rsdp in Hm1 by done. change (Z.of_nat 36) with 36 in Hm1.
    rewrite Hm1. by destruct s. }
  mstep E1. rewrite decode_rsdp_bytes by done. unfold verify_integrity.
  destruct (sum_bytes (rsdp_bytes r) =? 0); [|done]. destruct (rsdp_revision r =? 2); [|done]. cbn [negb].
  mstep (xsdt_here s). mstep (checksum_at s Hm). destruct (sum_bytes (xsdt_bytes x es) =? 0); [|done]. cbn [negb].
  assert (on_hw (E := KernelError) (peek HHDM_OFFSET (xsdt_address_ r + HHDM_OFFSET) 36) s = (Ok (sdt_bytes x), s)) as E2.
  { unfold on_hw, peek, gets. replace (_ - HHDM_OFFSET) with (xsdt_address_ r) by lia. unfold xsdt_bytes in Hm2.
    apply holds_app in Hm2 as [Hm2 _]. unfold holds in Hm2. rewrite length_sdt in Hm2 by done.
    change (Z.of_nat 36) with 36 in Hm2. rewrite Hm2. by destruct s. }
  mstep E2. rewrite <-(app_nil_r (sdt_bytes x)), decode_sdt_bytes by done. rewrite Hlen.
  rewrite u64_small by (destruct Hx as (_ & ? & _); unfold_uint; lia).
  replace (36 + 8 * Z.of_nat (length es) - 36) with (Z.of_nat (length es) * 8) by lia. rewrite Z.div_mul by lia.
  rewrite virt_add_ok by (try apply Hcan; lia). exact (entries_loop es [] s Hm eq_refl).
Qed.
End walk.
End tables.

(** ** A machine with two tables *)

Import VirtExamples AcpiExamples.

#[local] Instance board_msr : Msr Board := {|
  rdmsr _ _ := 0; wrmsr _ _ b := b; cpuid1_ecx _ := 0; apic_base _ := (0, 0); set_apic_base _ _ b := b
|}.

#[local] Instance board_registers : RegisterLaws Board.
Proof.
  split; try done. intros n a v w x. cbn. unfold write_reg.
  by destruct (a =? WIN0), (a =? WIN1), (a =? WIN0 + 16), (a =? WIN1 + 16).
Qed.

(** The RSDP at 0, the XSDT at 64 and two tables at 128 and 192: a FADT, and one
    whose sum is wrong. *)
Definition with_check (c : Z) : RSDPHeader := mkRSDP 0x2052545020445352 0 [77; 65; 82; 65; 77; 32] 2 0 36 64 c [0; 0; 0].
Definition header_of (sig : list Z) (len c : Z) : SDTHeader := mkSDT sig len 1 c [77; 65; 82; 65; 77; 32] (replicate 8 32) 1 1 1.
Definition XSDT : list Z := [88; 83; 68; 84].
Definition FACP : list Z := [70; 65; 67; 80].
Definition balanced (f : Z → list Z) : Z := u8 (- sum_bytes (f 0)).

Definition sample_rsdp : RSDPHeader := with_check (balanced (λ c, rsdp_bytes (with_check c))).
Definition sample_xsdt : SDTHeader := header_of XSDT 52 (balanced (λ c, xsdt_bytes (header_of XSDT 52 c) [128; 192])).
Definition sample_fadt : SDTHeader := header_of FACP 36 (balanced (λ c, sdt_bytes (header_of FACP 36 c))).
Definition tables_at : list Z :=
  rsdp_bytes sample_rsdp ++ replicate 28 0 ++ xsdt_bytes sample_xsdt [128; 192] ++ replicate 12 0 ++
  sdt_bytes sample_fadt ++ replicate 28 0 ++ sdt_bytes (header_of FACP 36 0).
Definition tables_board : AcpiState (W := Board) := mkAcpi (mkBoard tables_at [0; 0] (λ _ _, 0)) no_statics.

Lemma acpi_walks_witness : acpi_init 0 0 tables_board = forM [128; 192] (init_table 0) tables_board ∧
  (acpi_init 0 0 tables_board).1 = Ok tt.
Proof.
  assert (rsdp_ok sample_rsdp) as Hr by (vm_compute; intuition (try done)).
  assert (sdt_ok sample_xsdt) as Hx by (vm_compute; intuition (try done)).
  assert (in_memory 0 sample_rsdp sample_xsdt [128; 192] 0 tables_board) as Hm by (split; vm_compute; reflexivity).
  assert (Forall in_u64 [128; 192]) as He by (by repeat constructor).
  assert (∀ i, 0 <= i <= sdt_length sample_xsdt → canonical (xsdt_address_ sample_rsdp + 0 + i)) as Hc.
  { intros i Hi. left. change (sdt_length sample_xsdt) with 52 in Hi. change (xsdt_address_ sample_rsdp) with 64. lia. }
  split; [|vm_compute; reflexivity].
  assert (0 <= xsdt_address_ sample_rsdp < 2 ^ 52) as Hp by (change (xsdt_address_ sample_rsdp) with 64; lia).
  pose proof (acpi_walks 0 sample_rsdp sample_xsdt [128; 192] 0 Hr Hx He eq_refl Hp Hc tables_board Hm) as Hw.
  rewrite Hw.
  assert (sum_bytes (rsdp_bytes sample_rsdp) = 0) as -> by (vm_compute; reflexivity).
  assert (sum_bytes (xsdt_bytes sample_xsdt [128; 192]) = 0) as -> by (vm_compute; reflexivity).
  change (rsdp_revision sample_rsdp) with 2. cbv [Z.eqb Pos.eqb negb]. exact eq_refl.
Defined.
End AcpiWalk.
