(* ===== verification/Drivers.v ===== *)
(** * Bringing up the drivers (src/kernel/src/drivers/pci/mod.rs and
    src/kernel/src/drivers/storage/mod.rs)

    [pci::init] fills the list of devices, [storage::init] claims the controllers
    and registers their drives.  The functions of the PCI bus have one owner each:
    the list of devices or a registered drive. *)

From S2P Require Import Prelude Errors Virt Helpers Hardware Pci Ahci AhciInit.
Import Errors Virt Helpers.

Module Drivers.

#[local] Existing Instance Pci.DeviceType_eq_dec.
#[local] Existing Instance Pci.PciID_eq_dec.

(** [Drive]: the drive, the controller that [mapped_device] keeps alive, and the
    partitions. *)
Record Drive (P : Type) := mkDrive {
  inner : Ahci.AHCIDrive; controller : Pci.PCIFunction; partitions : list P
}.
Arguments mkDrive {P}.
Arguments inner {P}.
Arguments controller {P}.
Arguments partitions {P}.

Section drivers.
Context {W P : Type} {AD : Addresses} {BU : Hardware.Bus W} {MP : Mapper W}.

(** The kernel's address space and the statics of the drivers. *)
Record State := mkState {
  space : VMemAllocator (W := W);
  SEGMENTS : LateInit (list Pci.Segment);
  DEVICES : list Pci.PCIFunction;
  DRIVES : list (Drive P)
}.

Definition on_space {E A} (m : M VMemAllocator E A) : M State E A := λ s,
  let '(r, v) := m (space s) in (r, mkState v (SEGMENTS s) (DEVICES s) (DRIVES s)).
Definition on_segments {E A} (m : M (LateInit (list Pci.Segment)) E A) : M State E A := λ s,
  let '(r, l) := m (SEGMENTS s) in (r, mkState (space s) l (DEVICES s) (DRIVES s)).
Definition on_devices {E A} (m : M (list Pci.PCIFunction) E A) : M State E A := λ s,
  let '(r, l) := m (DEVICES s) in (r, mkState (space s) (SEGMENTS s) l (DRIVES s)).
Definition push_drive {E} (d : Drive P) : M State E unit :=
  modify (λ s, mkState (space s) (SEGMENTS s) (DEVICES s) (DRIVES s ++ [d])).

(** [pci::init] on the entries of the MCFG. *)
Definition pci_init (entries : list Pci.MCFGEntry) : M State PCIError unit :=
  segments ← on_space (Pci.init_segments (Pci.from_mcfg_entry <$> entries));
  on_segments (late_init segments);;
  devices ← on_space (on_table (Pci.scan segments));
  on_devices (modify (λ l, l ++ devices)).

(** [ahci::init] and [gpt::init]. *)
Variable ahci_init : list Pci.Segment → Pci.PCIFunction →
  M (VMemAllocator (W := W)) StorageError (list Ahci.AHCIDrive).
Variable gpt_init : Ahci.AHCIDrive → M (VMemAllocator (W := W)) KernelError (list P).

(** [claim_device], then [ahci::init], for each identifier; a controller without
    drives is dropped, and with it the function goes back to the list. *)
Fixpoint controllers (ids : list Pci.PciID) : M State KernelError (list (Pci.PCIFunction * list Ahci.AHCIDrive)) :=
  match ids with
  | [] => mret []
  | i :: ids =>
      o ← on_devices (Pci.claim_device i);
      match o with
      | None => controllers ids
      | Some f =>
          segments ← on_segments late_get;
          r ← on_space (attempt (ahci_init segments f));
          match r with
          | inr (d :: ds) => rest ← controllers ids; mret ((f, d :: ds) :: rest)
          | _ => on_devices (Pci.function_drop f);; controllers ids
          end
      end
  end.

Definition drop_drives {E} (ds : list Ahci.AHCIDrive) : M State E unit :=
  on_space (on_table (forM ds AhciInit.drop_drive)).

(** The drives of one controller; [kept] tells that an earlier one is registered.
    An error drops the others, and the controller with the last of them. *)
Fixpoint register_drives (f : Pci.PCIFunction) (kept : bool) (ds : list Ahci.AHCIDrive) : M State KernelError unit :=
  match ds with
  | [] => mret tt
  | d :: ds =>
      r ← on_space (attempt (gpt_init d));
      match r with
      | inr parts => push_drive (mkDrive d f parts);; register_drives f true ds
      | inl e =>
          drop_drives (d :: ds);;
          (if kept then mret tt else on_devices (Pci.function_drop f));;
          fail e
      end
  end.

Fixpoint drop_controllers {E} (cs : list (Pci.PCIFunction * list Ahci.AHCIDrive)) : M State E unit :=
  match cs with
  | [] => mret tt
  | (f, ds) :: cs => drop_drives ds;; on_devices (Pci.function_drop f);; drop_controllers cs
  end.

(** [for device in ahci_devices] *)
Fixpoint register_all (cs : list (Pci.PCIFunction * list Ahci.AHCIDrive)) : M State KernelError unit :=
  match cs with
  | [] => mret tt
  | (f, ds) :: cs =>
      r ← attempt (register_drives f false ds);
      match r with
      | inr _ => register_all cs
      | inl e => drop_controllers cs;; fail e
      end
  end.

Definition storage_init : M State KernelError unit :=
  ids ← on_devices (gets (Pci.find_devices (λ d, bool_decide (Pci.device_type d = Pci.Ahci))));
  cs ← controllers ids;
  register_all cs.

Definition claim_drive {E} (f : Drive P → bool) : M State E (option (Drive P)) :=
  gets (λ s, List.find f (DRIVES s)).
End drivers.

(** ** One owner for each function *)

Section ownership.
Context {W P : Type} {AD : Addresses} {BU : Hardware.Bus W} {MP : Mapper W}.
Context (ahci_init : list Pci.Segment → Pci.PCIFunction → M (VMemAllocator (W := W)) StorageError (list Ahci.AHCIDrive)).
Context (gpt_init : Ahci.AHCIDrive → M (VMemAllocator (W := W)) KernelError (list P)).
Context (segments : list Pci.Segment).
Hypothesis ahci_returns : ∀ f v, wp (ahci_init segments f) (λ _ _, True) (λ _ _, True) v.
Hypothesis gpt_returns : ∀ d v, wp (gpt_init d) (λ _ _, True) (λ _ _, True) v.
Implicit Types s : State (W := W) (P := P).

Definition ready s : Prop := SEGMENTS s = mkLateInit true (Some segments).

(** [s'] differs from [s] in the address space only. *)
Definition same_lists s s' : Prop :=
  SEGMENTS s' = SEGMENTS s ∧ DEVICES s' = DEVICES s ∧ DRIVES s' = DRIVES s.

Lemma on_space_attempt {E F A} (m : M VMemAllocator E A) (Q : E + A → State → Prop) (R : F → State → Prop) s :
  wp m (λ _ _, True) (λ _ _, True) (space s) → (∀ r s', same_lists s s' → Q r s') →
  wp (on_space (attempt m)) Q R s.
Proof.
  unfold wp, on_space, attempt. intros H HQ. destruct (m (space s)) as [[] v]; try done; by apply HQ.
Qed.

Lemma drop_drives_lists {E} ds (Q : unit → State → Prop) (R : E → State → Prop) s :
  (∀ s', same_lists s s' → Q tt s') → wp (drop_drives ds) Q R s.
Proof.
  intros HQ. unfold wp, drop_drives, on_space, on_table.
  assert (∀ w, ∃ w', forM (E := E) ds AhciInit.drop_drive w = (Ok tt, w')) as Hd.
  { induction ds as [|d ds IH]; intros w; [by eexists|].
    edestruct IH as [w' Hw']. exists w'. cbn [forM]. by mstep (eq_refl (AhciInit.drop_drive (E := E) d w)). }
  destruct (Hd (page_table (space s))) as [w' ->]. by apply HQ.
Qed.

Lemma claim_device_perm i (l l' : list Pci.PCIFunction) f :
  Pci.claim_device (E := KernelError) i l = (Ok (Some f), l') → f :: l' ≡ₚ l.
Proof.
  unfold Pci.claim_device. destruct (list_find _ l) as [[k d]|] eqn:Hf; [|done]. intros [= <- <-].
  apply list_find_Some in Hf as (Hk & _). symmetry. by apply delete_Permutation.
Qed.

(** The functions of [cs] have left the list of devices, the others are there. *)
Lemma controllers_wp ids : ∀ s,
  ready s →
  wp (controllers ahci_init ids)
    (λ cs s', ready s' ∧ DRIVES s' = DRIVES s ∧ cs.*1 ++ DEVICES s' ≡ₚ DEVICES s ∧ Forall (λ c, c.2 ≠ []) cs)
    (λ _ _, False) s.
Proof.
  induction ids as [|i ids IH]; intros s Hs; cbn [controllers]; [by apply wp_ret|].
  apply wp_bind. unfold wp at 1, on_devices.
  destruct (Pci.claim_device i (DEVICES s)) as [o l] eqn:Hc.
  assert (∃ o', o = Ok o') as [o' ->].
  { unfold Pci.claim_device in Hc. destruct (list_find _ _) as [[]|]; injection Hc as <- _; by eexists. }
  destruct o' as [f|].
  2:{ assert (l = DEVICES s) as ->.
      { unfold Pci.claim_device in Hc. destruct (list_find _ _) as [[]|]; by injection Hc. }
      destruct s as [v sg dv dr]. apply (IH (mkState v sg dv dr)), Hs. }
  apply claim_device_perm in Hc.
  eapply wp_step. { unfold on_segments. cbn [SEGMENTS]. rewrite Hs. reflexivity. }
  apply wp_bind, on_space_attempt; [apply ahci_returns|]. intros r s1 (HS & HD & HV). cbn in HS, HD, HV.
  assert (wp (on_devices (Pci.function_drop f);; controllers ahci_init ids)
    (λ cs s', ready s' ∧ DRIVES s' = DRIVES s ∧ cs.*1 ++ DEVICES s' ≡ₚ DEVICES s ∧ Forall (λ c, c.2 ≠ []) cs)
    (λ _ _, False) s1) as Hdrop.
  { eapply wp_step; [reflexivity|]. eapply wp_mono; [apply IH; exact HS|..|done]. intros cs s' (? & Hd & Hp & ?).
    cbn in Hd, Hp. split_and!; [done|congruence| |done]. rewrite Hp, HD, <- Hc. by rewrite Permutation_app_comm. }
  destruct r as [e|[|d ds]]; [exact Hdrop|exact Hdrop|].
  apply wp_bind. eapply wp_mono; [apply IH; exact HS|..|done]. intros cs s' (? & Hd & Hp & ?). apply wp_ret.
  split_and!; [done|congruence| |by constructor]. cbn. by rewrite Hp, HD, Hc.
Qed.

(** Between [s] and [s'] the functions [cs] got an owner: those of [kept] are held
    by the new drives, the others are in the list. *)
Definition settled (fs : list Pci.PCIFunction) s s' : Prop :=
  ∃ kept new, DRIVES s' = DRIVES s ++ new ∧ DEVICES s' ++ kept ≡ₚ fs ++ DEVICES s ∧
    ∀ f, f ∈ kept ↔ f ∈ controller <$> new.

(** Drives after the first one, when their controller is held already. *)
Lemma register_more f ds : ∀ s,
  let Q s' := ∃ new, DRIVES s' = DRIVES s ++ new ∧ DEVICES s' = DEVICES s ∧ Forall (λ d, controller d = f) new in
  wp (register_drives gpt_init f true ds) (λ _, Q) (λ _, Q) s.
Proof.
  induction ds as [|d ds IH]; intros s Q; cbn [register_drives].
  { apply wp_ret. exists []. by rewrite app_nil_r. }
  apply wp_bind, on_space_attempt; [apply gpt_returns|]. intros r s1 (_ & HD & HV). destruct r as [e|parts].
  - apply wp_bind, drop_drives_lists. intros s2 (_ & HD2 & HV2). eapply wp_step; [reflexivity|].
    exists []. rewrite app_nil_r. split_and!; [congruence|congruence|done].
  - eapply wp_step; [reflexivity|]. eapply wp_mono; [apply IH|..].
    all: intros ? s' (new & Hd & He & Hn); cbn in Hd, He; exists (mkDrive d f parts :: new).
    all: split_and!; [by rewrite Hd, HV, <- app_assoc|congruence|by constructor].
Qed.

Lemma register_controller f ds s :
  ds ≠ [] → wp (register_drives gpt_init f false ds) (λ _, settled [f] s) (λ _, settled [f] s) s.
Proof.
  destruct ds as [|d ds]; [done|]. intros _. cbn [register_drives].
  apply wp_bind, on_space_attempt; [apply gpt_returns|]. intros r s1 (_ & HD & HV). destruct r as [e|parts].
  - apply wp_bind, drop_drives_lists. intros s2 (_ & HD2 & HV2). eapply wp_step; [reflexivity|].
    exists [], []. cbn. rewrite HD2, HD, !app_nil_r. split_and!; [congruence| |done]. by rewrite Permutation_app_comm.
  - eapply wp_step; [reflexivity|]. eapply wp_mono; [apply register_more|..].
    all: intros ? s' (new & Hd & He & Hn); cbn in Hd, He; exists [f], (mkDrive d f parts :: new).
    all: split_and!; [by rewrite Hd, HV, <- app_assoc|rewrite He, HD; by rewrite Permutation_app_comm|].
    all: intros g; split; [intros ->%list_elem_of_singleton; by left|].
    all: intros [->|Hg]%elem_of_cons; [by left|]; apply list_elem_of_fmap in Hg as (x & -> & Hx).
    all: rewrite Forall_forall in Hn; apply list_elem_of_singleton; by apply Hn.
Qed.

Lemma drop_controllers_wp {E} cs : ∀ s (Q : State → Prop) (R : E → State → Prop),
  (∀ s', DRIVES s' = DRIVES s → DEVICES s' = DEVICES s ++ cs.*1 → Q s') → wp (drop_controllers cs) (λ _, Q) R s.
Proof.
  induction cs as [|[f ds] cs IH]; intros s Q R HQ; cbn [drop_controllers].
  { apply wp_ret, HQ; [done|]. by rewrite app_nil_r. }
  apply wp_bind, drop_drives_lists. intros s1 (_ & HD & HV). eapply wp_step; [reflexivity|].
  apply IH. intros s' Hd He. cbn in Hd, He. apply HQ; [congruence|]. by rewrite He, HD, <- app_assoc.
Qed.

Lemma settled_app fs gs s1 s2 s3 : settled fs s1 s2 → settled gs s2 s3 → settled (fs ++ gs) s1 s3.
Proof.
  intros (k1 & n1 & D1 & P1 & K1) (k2 & n2 & D2 & P2 & K2). exists (k1 ++ k2), (n1 ++ n2). split_and!.
  - by rewrite D2, D1, app_assoc.
  - rewrite (Permutation_app_comm k1), app_assoc, P2, <- !app_assoc, P1. rewrite !app_assoc.
    by rewrite (Permutation_app_comm gs).
  - intros f. by rewrite fmap_app, !elem_of_app, K1, K2.
Qed.

Lemma register_all_wp cs : ∀ s,
  Forall (λ c, c.2 ≠ []) cs →
  wp (register_all gpt_init cs) (λ _, settled cs.*1 s) (λ _, settled cs.*1 s) s.
Proof.
  induction cs as [|[f ds] cs IH]; intros s Hn; cbn [register_all].
  { apply wp_ret. exists [], []. cbn. by rewrite !app_nil_r. }
  apply Forall_cons in Hn as [Hf Hn]. apply wp_bind, wp_attempt.
  eapply wp_mono; [apply (register_controller f ds s Hf)|..].
  - intros ? s1 H1. eapply wp_mono; [by apply IH|..]; intros ? s2 H2; exact (settled_app [f] _ _ _ _ H1 H2).
  - intros e s1 H1. apply wp_bind, drop_controllers_wp. intros s2 HV HD.
    change (settled ([f] ++ cs.*1) s s2). apply (settled_app _ _ _ s1 _ H1). exists [], []. rewrite !app_nil_r, HV, HD.
    split_and!; [done|by rewrite Permutation_app_comm|done].
Qed.

(** [storage::init] returns, and whether or not it fails each function that was in
    the list of devices is there again or is the controller of a new drive. *)
Theorem one_owner s :
  ready s → wp (storage_init ahci_init gpt_init) (λ _, settled [] s) (λ _, settled [] s) s.
Proof.
  intros Hs. unfold storage_init. eapply wp_step; [reflexivity|]. apply wp_bind.
  eapply wp_mono; [apply controllers_wp; exact Hs|..|done]. intros cs s1 (_ & HV & HP & Hn).
  assert (∀ s2, settled cs.*1 s1 s2 → settled [] s s2) as Hset.
  { intros s2 (kept & new & D & PP & K). exists kept, new. cbn in HV, HP. split_and!; [congruence| |done].
    by rewrite PP, HP. }
  eapply wp_mono; [by apply register_all_wp|..]; intros ? s2; apply Hset.
Qed.
End ownership.

End Drivers.
