(* ===== verification/Descriptors.v ===== *)
(** * Descriptor tables (src/kernel/src/descriptors/)

    The global descriptor table with its selectors, the interrupt descriptor
    table with the handlers of the exceptions, and the legacy interrupt
    controller, which is switched off.  The tables are those of the [x86_64]
    crate, a parameter ([Tables]) with its documented behaviour ([TableLaws]). *)

From S2P Require Import Prelude Errors Helpers Scheduler.
Import Errors Helpers.

Module Descriptors.

(** ** gdt.rs *)

Inductive Descriptor := KernelCode | KernelData | UserCode | UserData | TssSegment (tss : Z).

(** A task state segment: the tables of stacks for interrupts and for changes of
    the privilege level. *)
Record TaskStateSegment := mkTss { interrupt_stack_table : list Z; privilege_stack_table : list Z }.
Definition tss_new : TaskStateSegment := mkTss (replicate 7 0) (replicate 3 0).

(** [append] gives the selector and the table; [None] is a panic, as for a full
    table.  [star_write] tells whether the crate accepts the selectors. *)
Class Tables := {
  Gdt : Type;
  gdt_empty : Gdt;
  gdt_append : Descriptor → Gdt → option (Z * Gdt);
  star_write : Z → Z → Z → Z → bool
}.

Definition GDT_SIZE : Z := 64.

Definition slots (d : Descriptor) : Z := match d with TssSegment _ => 2 | _ => 1 end.
Definition level (d : Descriptor) : Z := match d with UserCode | UserData => 3 | _ => 0 end.

(** The selector of index [i] with a requested privilege level. *)
Definition selector (i rpl : Z) : Z := Z.lor (Z.shiftl i 3) rpl.

Class TableLaws `{TB : Tables} := {
  gdt_len : Gdt → Z;
  gdt_at : Gdt → Z → option Descriptor;
  empty_law : gdt_len gdt_empty = 1;
  append_law d g : gdt_len g + slots d <= GDT_SIZE →
    ∃ g', gdt_append d g = Some (selector (gdt_len g) (level d), g') ∧ gdt_len g' = gdt_len g + slots d ∧
      gdt_at g' (gdt_len g) = Some d ∧ ∀ i, 0 <= i < gdt_len g → gdt_at g' i = gdt_at g i;
  star_law cs_sysret ss_sysret cs_syscall ss_syscall :
    star_write cs_sysret ss_sysret cs_syscall ss_syscall = true ↔
      cs_sysret - 16 = ss_sysret - 8 ∧ cs_syscall = ss_syscall - 8 ∧
      Z.land ss_sysret 3 = 3 ∧ Z.land ss_syscall 3 = 0
}.

Record Selectors := mkSelectors {
  kernel_code : Z; kernel_data : Z; user_code : Z; user_data : Z; user_code_intel : Z; tss_sel : Z
}.

Section gdt.
Context {TB : Tables} {W : Type}.
(** [Stack::new]: the bottom and the top of a new stack. *)
Variable stack_new : M W KernelError (Z * Z).
(** The address of the boxed task state segment. *)
Variable tss_addr : Z.

Definition append (d : Descriptor) (g : Gdt) : M W KernelError (Z * Gdt) :=
  match gdt_append d g with Some r => mret r | None => panic end.

(** The stacks are leaked.  An error ends in the panic of [kmain]; what is freed
    on the way is left out. *)
Definition new_gdt : M W KernelError (Gdt * TaskStateSegment * Selectors) :=
  r ← append KernelCode gdt_empty; let '(kernel_code, gdt) := r in
  r ← append KernelData gdt; let '(kernel_data, gdt) := r in
  r ← append UserCode gdt; let '(user_code, gdt) := r in
  r ← append UserData gdt; let '(user_data, gdt) := r in
  r ← append UserCode gdt; let '(user_code_intel, gdt) := r in
  ist0_stack ← stack_new;
  ist1_stack ← stack_new;
  ist2_stack ← stack_new;
  let tss := mkTss (<[2%nat := ist2_stack.2]> (<[1%nat := ist1_stack.2]> (<[0%nat := ist0_stack.2]>
               (interrupt_stack_table tss_new)))) (privilege_stack_table tss_new) in
  r ← append (TssSegment tss_addr) gdt; let '(tss_sel, gdt) := r in
  mret (gdt, tss, mkSelectors kernel_code kernel_data user_code user_data user_code_intel tss_sel).
End gdt.

(** ** idt.rs *)

Inductive Exception := DivideError | Breakpoint | InvalidOpcode | DoubleFault | GeneralProtection
  | PageFault | NonMaskable | MachineCheck.

Definition vector (e : Exception) : Z :=
  match e with
  | DivideError => 0 | NonMaskable => 2 | Breakpoint => 3 | InvalidOpcode => 6
  | DoubleFault => 8 | GeneralProtection => 13 | PageFault => 14 | MachineCheck => 18
  end.

Inductive HardwareInterrupts := Timer | Keyboard | Ahci.
Definition as_u8 (h : HardwareInterrupts) : Z := match h with Timer => 32 | Keyboard => 33 | Ahci => 34 end.

(** A handler: that of an exception, or a function registered later. *)
Inductive Handler := OfException (e : Exception) | Registered (f : Z).
Record Gate := mkGate { handler : Handler; stack_index : option Z }.
Abbreviation Idt := (gmap Z Gate).

Definition set_handler (e : Exception) (stack : option Z) (idt : Idt) : Idt :=
  <[vector e := mkGate (OfException e) stack]> idt.

Definition idt_table : Idt :=
  let idt := set_handler Breakpoint None ∅ in
  let idt := set_handler PageFault None idt in
  let idt := set_handler GeneralProtection None idt in
  let idt := set_handler InvalidOpcode None idt in
  let idt := set_handler DivideError None idt in
  let idt := set_handler DoubleFault (Some 0) idt in
  let idt := set_handler NonMaskable (Some 1) idt in
  set_handler MachineCheck (Some 2) idt.

(** [IDT.init(idt)]; the table loaded is the static. *)
Definition idt_init {E} : M (LateInit Idt) E unit := late_init idt_table;; mret tt.

(** The crate panics for the vectors of exceptions that have an error code or do
    not return, and for reserved ones ([indexable]). *)
Definition add_idt_entry (indexable : Z → bool) (f index : Z) : M (LateInit Idt) KernelError unit :=
  idt ← late_get;
  if negb (indexable index) then panic
  else match idt !! index with
  | Some _ => fail (IDTRegisterError index)
  | None => λ s, (Ok tt, mkLateInit (init_ s) (Some (<[index := mkGate (Registered f) None]> idt)))
  end.

(** What a handler does with the processor: [panic] stops the kernel. *)
Definition code_of (e : Exception) : Z :=
  match e with
  | PageFault => U64_MAX
  | GeneralProtection => U64_MAX - 1
  | InvalidOpcode => U64_MAX - 2
  | _ => U64_MAX - 3
  end.

Definition fault (e : Exception) (ring : Z) : M Scheduler.CPU Empty_set unit :=
  if ring =? 0 then panic else modify (Scheduler.kill_active_task (code_of e)).

(** [ring] is that of the interrupted code; [cr2_ok] that CR2 holds an address. *)
Definition exception (cr2_ok : bool) (e : Exception) (ring : Z) : M Scheduler.CPU Empty_set unit :=
  match e with
  | DoubleFault | MachineCheck => panic
  | Breakpoint | NonMaskable => mret tt
  | PageFault => if negb cr2_ok then panic else fault e ring
  | GeneralProtection | InvalidOpcode | DivideError => fault e ring
  end.

(** ** pic.rs *)

(** The writes of [disable], in order. *)
Definition pic_disable : list (Z * Z) :=
  [(0x20, 0x11); (0xA0, 0x11); (0x21, 0x20); (0xA1, 0x28); (0x21, 4); (0xA1, 2); (0x21, 1); (0xA1, 1);
   (0x21, 0xFF); (0xA1, 0xFF)].

(** An 8259: the first four writes of an initialisation set the vector base, the
    wiring and the mode; later writes to its data port set the mask. *)
Record Pic := mkPic { step_of : nat; vectors : Z; mask : Z }.

Definition pic_write (data : bool) (v : Z) (p : Pic) : Pic :=
  if data then
    match step_of p with
    | 1%nat => mkPic 2 v (mask p)
    | 2%nat => mkPic 3 (vectors p) (mask p)
    | 3%nat => mkPic 0 (vectors p) (mask p)
    | _ => mkPic 0 (vectors p) v
    end
  else if Z.testbit v 4 then mkPic 1 (vectors p) 0 else p.

Definition pics_write (ps : Pic * Pic) (w : Z * Z) : Pic * Pic :=
  if w.1 =? 0x20 then (pic_write false w.2 ps.1, ps.2)
  else if w.1 =? 0x21 then (pic_write true w.2 ps.1, ps.2)
  else if w.1 =? 0xA0 then (ps.1, pic_write false w.2 ps.2)
  else if w.1 =? 0xA1 then (ps.1, pic_write true w.2 ps.2)
  else ps.

(** ** The selectors *)

Section gdt_proofs.
Context {TB : Tables} {TL : TableLaws} {W : Type}.
Variables (stack_new : M W KernelError (Z * Z)) (tss_addr : Z).

Lemma append_wp {R} d g w (Q : Z * Gdt → W → Prop) : gdt_len g + slots d <= GDT_SIZE →
  (∀ g', gdt_len g' = gdt_len g + slots d → gdt_at g' (gdt_len g) = Some d →
     (∀ i, 0 <= i < gdt_len g → gdt_at g' i = gdt_at g i) → Q (selector (gdt_len g) (level d), g') w) →
  wp (append d g) Q R w.
Proof.
  intros Hl HQ. destruct (append_law d g Hl) as (g' & E & H1 & H2 & H3). unfold append. rewrite E. by apply HQ.
Qed.

(** The table as [new_gdt] leaves it. *)
Definition gdt_ready (g : Gdt) : Prop :=
  gdt_at g 1 = Some KernelCode ∧ gdt_at g 2 = Some KernelData ∧ gdt_at g 3 = Some UserCode ∧
  gdt_at g 4 = Some UserData ∧ gdt_at g 5 = Some UserCode ∧ gdt_at g 6 = Some (TssSegment tss_addr).

Definition ready_selectors : Selectors := mkSelectors 0x08 0x10 0x1B 0x23 0x2B 0x30.

(** Three different stacks for the three interrupts that need one. *)
Definition ists (t : TaskStateSegment) (s0 s1 s2 : Z) : Prop :=
  t = mkTss [s0; s1; s2; 0; 0; 0; 0] [0; 0; 0].

Lemma new_gdt_wp w (I : list (Z * Z) → W → Prop) :
  I [] w → (∀ l w, I l w → wp stack_new (λ s, I (l ++ [s])) (λ _ _, True) w) →
  wp (new_gdt stack_new tss_addr)
    (λ r w', let '(g, t, sel) := r in gdt_ready g ∧ sel = ready_selectors ∧
       ∃ s0 s1 s2, I [s0; s1; s2] w' ∧ ists t s0.2 s1.2 s2.2) (λ _ _, True) w.
Proof.
  intros H0 Hs. unfold new_gdt. pose proof empty_law as He.
  apply wp_bind, append_wp; [rewrite He; done|]. intros g1 L1 A1 K1. cbv beta iota. rewrite He in *.
  apply wp_bind, append_wp; [rewrite L1; done|]. intros g2 L2 A2 K2. cbv beta iota. rewrite L1 in *.
  apply wp_bind, append_wp; [rewrite L2; done|]. intros g3 L3 A3 K3. cbv beta iota. rewrite L2 in *.
  apply wp_bind, append_wp; [rewrite L3; done|]. intros g4 L4 A4 K4. cbv beta iota. rewrite L3 in *.
  apply wp_bind, append_wp; [rewrite L4; done|]. intros g5 L5 A5 K5. cbv beta iota. rewrite L4 in *. cbn [slots] in *.
  apply wp_bind. eapply wp_mono; [exact (Hs _ _ H0)|..|done]. intros s0 w1 I1.
  apply wp_bind. eapply wp_mono; [exact (Hs _ _ I1)|..|done]. intros s1 w2 I2.
  apply wp_bind. eapply wp_mono; [exact (Hs _ _ I2)|..|done]. intros s2 w3 I3.
  apply wp_bind, append_wp; [rewrite L5; done|]. intros g6 L6 A6 K6. cbv beta iota. rewrite L5 in *. cbn in A2, A3, A4, A5, A6, K2, K3, K4, K5, K6.
  split_and!; [|done|by exists s0, s1, s2].
  unfold gdt_ready. rewrite !K6 by lia. rewrite !K5 by lia. rewrite !K4 by lia. rewrite !K3 by lia. by rewrite !K2 by lia.
Qed.

Lemma star_accepts : star_write (user_code_intel ready_selectors) (user_data ready_selectors)
  (kernel_code ready_selectors) (kernel_data ready_selectors) = true.
Proof. by apply star_law. Qed.
End gdt_proofs.

(** ** Interrupt vectors *)

(** Registering never replaces a handler: it fails for a vector in use and
    leaves all others alone. *)
Lemma add_idt_entry_wp indexable f index idt : indexable index = true →
  wp (add_idt_entry indexable f index)
    (λ _ s, idt !! index = None ∧ s = mkLateInit true (Some (<[index := mkGate (Registered f) None]> idt)))
    (λ e s, e = IDTRegisterError index ∧ is_Some (idt !! index) ∧ s = mkLateInit true (Some idt))
    (mkLateInit true (Some idt)).
Proof.
  intros Hi. unfold add_idt_entry. eapply wp_step; [done|]. rewrite Hi. cbn [negb].
  destruct (idt !! index) eqn:E; [by split_and!|done].
Qed.

(** Every exception has its handler, the three that need it a stack of their
    own; the vectors from 32 on are free. *)
Definition ist_of (e : Exception) : option Z :=
  match e with DoubleFault => Some 0 | NonMaskable => Some 1 | MachineCheck => Some 2 | _ => None end.

Lemma idt_table_spec :
  (∀ e, idt_table !! vector e = Some (mkGate (OfException e) (ist_of e))) ∧ (∀ v, 32 <= v → idt_table !! v = None).
Proof.
  split; [by intros []|]. intros v Hv. unfold idt_table, set_handler. cbv zeta.
  by rewrite !lookup_insert_ne by (cbn; lia).
Qed.

(** ** Exceptions *)

(** A fault of user code ends the active task with the code of the exception and
    nothing else; a fault of the kernel stops it. *)
Lemma user_fault_kills e ring c : e ∈ [DivideError; InvalidOpcode; GeneralProtection; PageFault] → ring ≠ 0 →
  exception true e ring c = (Ok tt, Scheduler.kill_active_task (code_of e) c).
Proof.
  intros He Hr. assert (fault e ring c = (Ok tt, Scheduler.kill_active_task (code_of e) c)) as Hf
    by (unfold fault; by rewrite (proj2 (Z.eqb_neq _ _) Hr)).
  by repeat (apply elem_of_cons in He as [->|He]; [exact Hf|]); apply elem_of_nil in He.
Qed.

Lemma fault_codes_differ e e' : e ∈ [DivideError; InvalidOpcode; GeneralProtection; PageFault] →
  e' ∈ [DivideError; InvalidOpcode; GeneralProtection; PageFault] → code_of e = code_of e' → e = e'.
Proof. rewrite !elem_of_cons, !elem_of_nil. intros [->|[->|[->|[->|[]]]]] [->|[->|[->|[->|[]]]]] Hc; try done; by vm_compute in Hc. Qed.

(** ** The legacy interrupt controller *)

(** Whatever state the two controllers were in, all their lines are masked and
    their vectors are those of hardware interrupts. *)
Lemma pic_masked ps :
  fold_left pics_write pic_disable ps = (mkPic 0 0x20 0xFF, mkPic 0 0x28 0xFF).
Proof. destruct ps as [[s1 v1 m1] [s2 v2 m2]]. reflexivity. Qed.
(** ** The tables as lists *)

Definition list_tables : Tables := {|
  Gdt := list Descriptor; gdt_empty := [KernelData];
  gdt_append d g := if Z.of_nat (length g) + slots d <=? GDT_SIZE
    then Some (selector (Z.of_nat (length g)) (level d), g ++ replicate (Z.to_nat (slots d)) d) else None;
  star_write a b c d := bool_decide (a - 16 = b - 8 ∧ c = d - 8 ∧ Z.land b 3 = 3 ∧ Z.land d 3 = 0)
|}.

Definition list_table_laws : @TableLaws list_tables.
Proof.
  refine (@Build_TableLaws list_tables (λ g, Z.of_nat (length (g : list Descriptor))) (λ g i, (g : list Descriptor) !! Z.to_nat i) _ _ _).
  - done.
  - intros d g Hl. unfold gdt_append, list_tables. rewrite (proj2 (Z.leb_le _ _) Hl). eexists. split; [done|]. split_and!.
    + rewrite length_app, length_replicate. destruct d; cbn; lia.
    + rewrite Nat2Z.id, lookup_app_r, Nat.sub_diag by lia. by destruct d.
    + intros i Hi. apply lookup_app_l. lia.
  - intros a b c d. unfold star_write, list_tables. by rewrite bool_decide_eq_true.
Qed.
End Descriptors.
