(* ===== verification/Timer.v ===== *)
(** * The timer of the scheduler (scheduling/mod.rs, acpi/apic/lapic.rs)

    [scheduling::init] registers the timer's handler and calibrates the timer of
    the first processor against the clock; [init_timer_ap] arms those of the
    others with what it measured.  The table of handlers and the ACPI state are
    side by side. *)

From S2P Require Import Prelude Errors Virt Helpers Hardware Pci Acpi AcpiTables Descriptors VirtExamples.
Import Errors Virt Helpers Hardware Acpi AcpiTables.

Module Timer.

Definition TIMER_TICK : Time := Milliseconds 100.
Definition VECTOR : Z := Descriptors.as_u8 Descriptors.Timer.

Section code.
Context {W : Type} {AD : Addresses} {BU : Bus W} {MS : Msr W}.
Variables (fuel : nat) (indexable : Z → bool) (timer_handler : Z).

Record St := mkSt { idt : LateInit Descriptors.Idt; acpi : AcpiState (W := W) }.

Definition on_idt {E A} (m : M (LateInit Descriptors.Idt) E A) : M St E A := λ s,
  let '(r, t) := m (idt s) in (r, mkSt t (acpi s)).
Definition on_acpi {E A} (m : M AcpiState E A) : M St E A := λ s,
  let '(r, a) := m (acpi s) in (r, mkSt (idt s) a).

Definition scheduling_init : M St KernelError unit :=
  on_idt (Descriptors.add_idt_entry indexable timer_handler VECTOR);;
  on_acpi (init_timer fuel VECTOR TIMER_TICK).

Definition yield_now {E} : M W E unit := trigger_interrupt VECTOR.
End code.

(** ** The registers of the timer *)

Definition registers : list Z := [X2APIC_TIMER_LVT; X2APIC_TIMER_ICR; X2APIC_TIMER_DCR].

(** Neither periodic nor driven by the time-stamp counter. *)
Definition one_shot (lvt : Z) : bool := Z.land (Z.shiftr lvt 17) 3 =? 0.

(** They keep what is written to them, whatever else is written or read.  The
    current count starts at what is written to the initial count.  With the divider
    16 it goes down by one every [timer_period] femtoseconds, [phase] before the
    zero of the clock's counter, and in one-shot mode it stops at zero.  Time
    passes where the clock is read. *)
Class TimerLaws (W : Type) {BU : Bus W} {MS : Msr W} (h : Hpet) {CL : ClockLaws W h} := {
  timer_period : Z;
  phase : Z;
  timer_period_pos : 0 < timer_period;
  steps w := (counter w * period h + phase) / timer_period;
  wrmsr_same r v w : r ∈ registers → rdmsr r (wrmsr r v w) = v;
  wrmsr_other r r' v w : r' ∈ registers → r ≠ r' → rdmsr r' (wrmsr r v w) = rdmsr r' w;
  read_msr r n a w : r ∈ registers → rdmsr r (mmio_read n a w).2 = rdmsr r w;
  wrmsr_counter r v w : counter (wrmsr r v w) = counter w;
  ccr_start v w : in_u32 v → rdmsr X2APIC_TIMER_CCR (wrmsr X2APIC_TIMER_ICR v w) = v;
  ccr_counts w : let w' := (mmio_read 8 (regs h + 0xF0) w).2 in
    rdmsr X2APIC_TIMER_DCR w = 3 → one_shot (rdmsr X2APIC_TIMER_LVT w) = true →
    rdmsr X2APIC_TIMER_CCR w' = Z.max 0 (rdmsr X2APIC_TIMER_CCR w - (steps w' - steps w))
}.

(** A timer that fires at [VECTOR] again and again, every [ticks]. *)
Definition armed {W} {MS : Msr W} (ticks : Z) (w : W) : Prop :=
  rdmsr X2APIC_TIMER_DCR w = 3 ∧ rdmsr X2APIC_TIMER_LVT w = Z.lor VECTOR (Z.shiftl 1 17) ∧ rdmsr X2APIC_TIMER_ICR w = ticks.

(** What the timer counts in the time that passes between two states: a number of
    its periods which is less than one off, up to the end of the register. *)
Definition counted {W} {BU : Bus W} {MS : Msr W} h {CL : ClockLaws W h} {TL : TimerLaws W h} (ticks : Z) (w w' : W) : Prop :=
  ∃ n, ticks = Z.min U32_MAX n ∧ Z.abs (n * timer_period - span h w w') < timer_period.

Section proofs.
Context {W : Type} {AD : Addresses} {BU : Bus W} {MS : Msr W} {AL : AddressLaws}.
Context (h : Hpet) {CL : ClockLaws W h} {TL : TimerLaws W h}.

Lemma read_write r r' v w : r' ∈ registers →
  rdmsr r' (wrmsr r v w) = if r =? r' then v else rdmsr r' w.
Proof.
  intros Hr. destruct (Z.eqb_spec r r') as [->|Hne]; [by apply wrmsr_same|by apply wrmsr_other].
Qed.

(** The wait of [init_timer] is that of [wait_loop]. *)
Lemma wait_while_loop {S E} (clock : M S E Z) start T fuel s :
  wait_while (now ← clock; mret (now ⊟ start <? T)) fuel s = wait_loop clock fuel start T s.
Proof.
  revert s. induction fuel as [|fuel IH]; intros s; [done|]. cbn [wait_while wait_loop].
  unfold mbind, M_bind. destruct (clock s) as [[now| | |] s']; [|done..]. cbn.
  destruct (now ⊟ start <? T); [apply IH|done].
Qed.

(** *** Counting down *)

(** The timer since it was started in [w0]. *)
Definition counting (w0 w : W) : Prop :=
  rdmsr X2APIC_TIMER_DCR w = 3 ∧ one_shot (rdmsr X2APIC_TIMER_LVT w) = true ∧ counter w0 <= counter w ∧
  rdmsr X2APIC_TIMER_CCR w = Z.max 0 (U32_MAX - (steps w - steps w0)).

Lemma steps_mono w w' : counter w <= counter w' → steps w <= steps w'.
Proof. intros. pose proof timer_period_pos. pose proof period_pos. apply Z.div_le_mono; [done|nia]. Qed.

Lemma counting_tick w0 w : counting w0 w → counting w0 (mmio_read 8 (regs h + 0xF0) w).2.
Proof.
  intros (Hd & Hl & Hc & Hn). destruct (counter_law w) as (c & _ & Hc' & Hn'). pose proof tick_pos.
  pose proof (ccr_counts w Hd Hl) as Hccr. cbn zeta in Hccr.
  split_and!; [by rewrite read_msr by set_solver..|lia|]. rewrite Hccr, Hn.
  assert (steps w <= steps (mmio_read 8 (regs h + 0xF0) w).2) by (apply steps_mono; lia). lia.
Qed.

(** The number of the periods of the timer. *)
Lemma steps_span w w' : Z.abs ((steps w' - steps w) * timer_period - span h w w') < timer_period.
Proof.
  unfold steps, span. pose proof timer_period_pos as Hp. set (p := timer_period) in *. clearbody p.
  replace ((counter w' - counter w) * period h) with (counter w' * period h + phase - (counter w * period h + phase)) by lia.
  set (x := counter w * period h + phase). set (y := counter w' * period h + phase). clearbody x y.
  pose proof (Z.div_mod x p ltac:(lia)). pose proof (Z.mod_pos_bound x p Hp).
  pose proof (Z.div_mod y p ltac:(lia)). pose proof (Z.mod_pos_bound y p Hp). lia.
Qed.

Lemma counting_counted w0 w : counting w0 w → counted h (u32 (U32_MAX - u32 (rdmsr X2APIC_TIMER_CCR w))) w0 w.
Proof.
  intros (_ & _ & Hc & ->). exists (steps w - steps w0). split; [|apply steps_span].
  assert (0 <= steps w - steps w0) as H0 by (pose proof (steps_mono w0 w Hc); lia).
  revert H0. generalize (steps w - steps w0). intros n Hn. unfold u32, U32_MAX. rewrite (Z.mod_small (Z.max _ _)), Z.mod_small by lia. lia.
Qed.

(** A static that is filled can be read. *)
Lemma get_filled {E A} (st : Static A) v (a : AcpiState (W := W)) : filled st v a → get (E := E) st a = (Ok v, a).
Proof.
  destruct a as [w t]. intros [V P]. cbn [statics] in *. unfold get, on_static. cbn [statics hw]. rewrite V in *.
  cbn [late_get init_ data_ negb]. by rewrite P.
Qed.

(** The clock reads two statics and the machine. *)
Section clock.
Variable t : Statics.
Hypothesis Hregs : ∀ w : W, filled HPET_REGS (regs h) (mkAcpi w t).
Hypothesis Hperiod : ∀ w : W, filled HPET_PERIOD_FS (period h) (mkAcpi w t).

Lemma nanos_filled {E} w : acpi_nanos (E := E) (mkAcpi w t) = on_hw (passed_nanos h) (mkAcpi w t).
Proof.
  unfold acpi_nanos. mstep (get_filled (E := E) _ _ _ (Hregs w)). mstep (get_filled (E := E) _ _ _ (Hperiod w)). by destruct h.
Qed.

Lemma wait_filled {E} fuel start T w :
  wait_loop acpi_nanos fuel start T (mkAcpi w t) = on_hw (wait_loop (E := E) (passed_nanos h) fuel start T) (mkAcpi w t).
Proof.
  revert w. induction fuel as [|fuel IH]; intros w; [done|]. cbn [wait_loop]. unfold mbind, M_bind, on_hw. cbn [hw statics].
  rewrite nanos_filled. unfold on_hw. cbn [hw statics]. destruct (passed_nanos h w) as [[now| | |] w']; [|done..].
  destruct (now ⊟ start <? T); [apply IH|done].
Qed.

Lemma calibration {E} fuel T w :
  (start ← acpi_nanos; wait_while (now ← acpi_nanos; mret (now ⊟ start <? to_nanos T)) fuel) (mkAcpi w t) =
  on_hw (wait (E := E) (passed_nanos h) fuel T) (mkAcpi w t).
Proof.
  unfold wait, mbind, M_bind, on_hw. cbn [hw statics]. rewrite nanos_filled. unfold on_hw. cbn [hw statics].
  destruct (passed_nanos h w) as [[start| | |] w']; [|done..].
  etransitivity; [apply wait_while_loop|apply wait_filled].
Qed.
End clock.

Lemma wp_assoc {S E A B C} (m : M S E A) (f : A → M S E B) (g : M S E C) Q R s :
  wp ((m ≫= f) ≫= λ _, g) Q R s → wp (m ≫= λ y, f y ≫= λ _, g) Q R s.
Proof. unfold wp, mbind, M_bind. by destruct (m s) as [[] ?]. Qed.

Lemma started (w : W) : counting w (wrmsr X2APIC_TIMER_ICR U32_MAX
  (wrmsr X2APIC_TIMER_DCR 3 (wrmsr X2APIC_TIMER_LVT (Z.shiftl 1 16) w))).
Proof.
  split_and!.
  - repeat (rewrite read_write by set_solver; cbn). done.
  - repeat (rewrite read_write by set_solver; cbn). done.
  - by rewrite !wrmsr_counter.
  - rewrite ccr_start by (split; done). unfold steps. rewrite !wrmsr_counter, Z.sub_diag. done.
Qed.

(** Only the clock tells the time. *)
Lemma same_time ticks (w w1 w2 w3 : W) : counter w1 = counter w → counter w3 = counter w2 →
  counted h ticks w w2 → waited h TIMER_TICK w1 w2 → counted h ticks w w3 ∧ waited h TIMER_TICK w w3.
Proof. unfold counted, waited, span, clock_wrapped. by intros -> ->. Qed.

Lemma init_timer_wp fuel w t :
  (∀ w : W, filled HPET_REGS (regs h) (mkAcpi w t)) → (∀ w : W, filled HPET_PERIOD_FS (period h) (mkAcpi w t)) →
  view LAPIC_TIMER_VECTOR t = late_new → view LAPIC_TIMER_TICKS t = late_new → enough h fuel TIMER_TICK →
  wp (init_timer (E := KernelError) fuel VECTOR TIMER_TICK)
    (λ _ a, ∃ ticks, counted h ticks w (hw a) ∧ waited h TIMER_TICK w (hw a) ∧ armed ticks (hw a) ∧
      filled LAPIC_TIMER_VECTOR VECTOR a ∧ filled LAPIC_TIMER_TICKS ticks a) (λ _ _, False) (mkAcpi w t).
Proof.
  intros Hr Hp Hv Ht Hf. unfold init_timer. do 3 (eapply wp_step; [reflexivity|]).
  pose proof (started w) as Hm. cbn [hw statics].
  set (w1 := wrmsr X2APIC_TIMER_ICR U32_MAX _) in *.
  assert (counter w1 = counter w) as Hc1 by (unfold w1; by rewrite !wrmsr_counter).
  clearbody w1. apply wp_assoc, wp_bind. unfold wp at 1. rewrite (calibration t Hr Hp). unfold on_hw at 1. cbn [hw statics].
  pose proof (wait_span (E := KernelError) h (counting w) (λ _ _, False) (counting_tick w)
    fuel TIMER_TICK w1 ltac:(done) Hf Hm) as Hw. unfold wp in Hw.
  destruct (wait (passed_nanos h) fuel TIMER_TICK w1) as [[| | |] w2]; [|done..]. destruct Hw as [Hn Hw].
  pose proof (proj1 Hn) as Hd. apply counting_counted in Hn. do 3 (eapply wp_step; [reflexivity|]). cbn [hw statics].
  set (ticks := u32 (U32_MAX - _)) in *.
  set (w3 := wrmsr X2APIC_TIMER_ICR _ _). assert (armed ticks w3) as Ha.
  { unfold armed, w3. cbn. repeat (rewrite read_write by set_solver; cbn). done. }
  assert (counter w3 = counter w2) as Hc3 by (unfold w3; by rewrite !wrmsr_counter).
  clearbody w3 ticks. destruct t as [t1 t2 t3 t4 t5 t6 t7 t8]. cbn in Hv, Ht. subst t7 t8.
  destruct (same_time ticks w w1 w2 w3 Hc1 Hc3 Hn Hw). unfold wp. cbn. by exists ticks.
Qed.

(** [init_timer_ap] on another processor. *)
Lemma init_timer_ap_wp t (w : W) ticks :
  filled LAPIC_TIMER_VECTOR VECTOR (mkAcpi w t) → filled LAPIC_TIMER_TICKS ticks (mkAcpi w t) →
  wp (init_timer_ap (E := KernelError)) (λ _ a, armed ticks (hw a) ∧ statics a = t) (λ _ _, False) (mkAcpi w t).
Proof.
  intros Hv Ht. unfold init_timer_ap. eapply wp_step; [by apply get_filled|]. eapply wp_step; [by apply get_filled|].
  unfold wp. cbn. split; [|done]. unfold armed. cbn. repeat (rewrite read_write by set_solver; cbn). done.
Qed.
End proofs.

(** C35. The scheduler gets its interrupts.  With the clock running and the vector free, [scheduling::init]
    returns: the handler is at the vector of the timer and all other handlers stay, and the timer of this
    processor is periodic.  Its interval is the time that the calibration took, to less than one step of the
    timer: more than 99.999999 ms, unless the clock's 64-bit product wrapped around in between, and at most
    100 ms and the advance of the clock in two readings; it is cut off at the end of the 32-bit register.
    The processors that start later arm theirs with the same interval.  If the vector is taken it fails and
    touches neither. *)
Theorem timer_armed {W : Type} {AD : Addresses} {BU : Bus W} {MS : Msr W} {AL : AddressLaws}
    h {CL : ClockLaws W h} {TL : TimerLaws W h} fuel indexable handler table (a : AcpiState (W := W)) :
  indexable VECTOR = true →
  filled HPET_REGS (regs h) a → filled HPET_PERIOD_FS (period h) a →
  view LAPIC_TIMER_VECTOR (statics a) = late_new → view LAPIC_TIMER_TICKS (statics a) = late_new → enough h fuel TIMER_TICK →
  wp (scheduling_init fuel indexable handler)
    (λ _ s, table !! VECTOR = None ∧ ∃ ticks,
      idt s = mkLateInit true (Some (<[VECTOR := Descriptors.mkGate (Descriptors.Registered handler) None]> table)) ∧
      counted h ticks (hw a) (hw (acpi s)) ∧ waited h TIMER_TICK (hw a) (hw (acpi s)) ∧
      armed ticks (hw (acpi s)) ∧
      ∀ w : W, wp (init_timer_ap (E := KernelError)) (λ _ b, armed ticks (hw b) ∧ statics b = statics (acpi s)) (λ _ _, False)
        (mkAcpi w (statics (acpi s))))
    (λ e s, e = IDTRegisterError VECTOR ∧ is_Some (table !! VECTOR) ∧ s = mkSt (mkLateInit true (Some table)) a)
    (mkSt (mkLateInit true (Some table)) a).
Proof.
  intros Hi Hr Hp Hv Ht Hf. unfold scheduling_init. apply wp_bind.
  pose proof (Descriptors.add_idt_entry_wp indexable handler VECTOR table Hi) as Hw.
  unfold wp, on_idt. cbn [idt acpi]. unfold wp in Hw.
  destruct (Descriptors.add_idt_entry indexable handler VECTOR (mkLateInit true (Some table))) as [[[]|e| |] t']; [| |done..].
  2:{ destruct Hw as (-> & Hs & ->). done. }
  destruct Hw as [Hn ->]. destruct a as [w t]. cbn [statics] in *.
  pose proof (init_timer_wp h fuel w t (λ w', Hr) (λ w', Hp) Hv Ht Hf) as Hw. unfold on_acpi. cbn [acpi idt]. unfold wp in Hw.
  destruct (init_timer fuel VECTOR TIMER_TICK (mkAcpi w t)) as [[| | |] a']; [|done..].
  destruct Hw as (ticks & H1 & H1' & H2 & H3 & H4). split; [done|]. exists ticks. split_and!; [done..|]. intros w'.
  by apply (init_timer_ap_wp h).
Qed.

(** ** A processor and its clock *)

Import VirtExamples.

(** The counter advances by 10^5 periods of 10^8 fs from one reading to the next
    and the timer goes down by one every 10^9 fs.  [count] is the current count. *)
Record Chip := mkChip { ticks_of : Z; count : Z; msrs : Z → Z }.
Definition chip_hpet : Hpet := mkHpet 0x1000 100000000.

#[local] Instance chip_bus : Bus Chip := {|
  mmio_read _ a c :=
    if a =? 0x10F0 then (u64 (ticks_of c + 100000), mkChip (ticks_of c + 100000) (Z.max 0 (count c - 10000)) (msrs c)) else (0, c);
  mmio_write _ _ _ c := c;
  ram _ _ := 0;
  ram_write _ _ c := c;
  alloc_pages _ := mret None;
  free_frames _ _ c := c
|}.
#[local] Instance chip_msr : Msr Chip := {|
  rdmsr r c := if r =? X2APIC_TIMER_CCR then count c else msrs c r;
  wrmsr r v c := mkChip (ticks_of c) (if r =? X2APIC_TIMER_ICR then v else count c) (λ q, if q =? r then v else msrs c q);
  cpuid1_ecx _ := 0; apic_base _ := (0, 0); set_apic_base _ _ c := c
|}.

#[local] Instance chip_clock : ClockLaws Chip chip_hpet.
Proof.
  refine (@Build_ClockLaws Chip chip_bus chip_hpet ticks_of 100000 100000 _ _ _ _ _ _); [done|done|done|left; cbn; lia| |].
  - intros w. exists (ticks_of w + 100000). cbn. split_and!; [done|lia|lia|done].
  - intros n a w Ha. cbn. destruct (Z.eqb_spec a 0x10F0); [by subst|done].
Defined.

Lemma chip_register r c : r ∈ registers → rdmsr r c = msrs c r.
Proof. intros Hr. cbn. by rewrite (proj2 (Z.eqb_neq r _)) by (intros ->; set_solver). Qed.

Lemma chip_steps x : ((x + 100000) * 100000000 + 0) / 1000000000 = (x * 100000000 + 0) / 1000000000 + 10000.
Proof. rewrite <- Z.div_add by lia. f_equal. lia. Qed.

#[local] Instance chip_timer : TimerLaws Chip chip_hpet.
Proof.
  refine (@Build_TimerLaws Chip chip_bus chip_msr chip_hpet chip_clock 1000000000 0 _ _ _ _ _ _ _); [done|..].
  - intros r v w Hr. rewrite chip_register by done. cbn. by rewrite Z.eqb_refl.
  - intros r r' v w Hr Hne. rewrite !chip_register by done. cbn. by rewrite (proj2 (Z.eqb_neq r' r)) by done.
  - intros r n a w Hr. rewrite !chip_register by done. cbn. by destruct (a =? 0x10F0).
  - done.
  - done.
  - intros w w' _ _. pose proof (chip_steps (ticks_of w)) as Hc. subst w'. unfold rdmsr, mmio_read, chip_msr, chip_bus.
    change (regs chip_hpet + 0xF0 =? 0x10F0) with true. rewrite Z.eqb_refl. cbn [snd count ticks_of counter chip_clock].
    change (period chip_hpet) with 100000000. rewrite Hc. f_equal. lia.
Defined.

Definition chip_state : AcpiState (W := Chip) :=
  mkAcpi (mkChip 0 0 (λ _, 0)) (put HPET_PERIOD_FS (mkLateInit true (Some 100000000))
    (put HPET_REGS (mkLateInit true (Some 0x1000)) no_statics)).

Definition chip_start : res KernelError unit * St (W := Chip) :=
  scheduling_init 11 (λ _, true) 7 (mkSt (mkLateInit true (Some ∅)) chip_state).

(** The eleven readings of the clock take 110 ms, and the timer does 110000 steps in
    them. *)
Lemma timer_armed_witness : ∃ s ticks, chip_start = (Ok tt, s) ∧
  counted chip_hpet ticks (hw chip_state) (hw (acpi s)) ∧ armed ticks (hw (acpi s)) ∧
  (λ r, rdmsr r (hw (acpi chip_start.2))) <$> registers = [0x20020; 110000; 3].
Proof.
  pose proof (timer_armed chip_hpet 11 (λ _, true) 7 ∅ chip_state eq_refl ltac:(done) ltac:(done) eq_refl eq_refl
    ltac:(vm_compute; split_and!; done)) as Hw.
  change (scheduling_init 11 (λ _, true) 7 (mkSt (mkLateInit true (Some ∅)) chip_state)) with chip_start in Hw.
  assert ((λ r, rdmsr r (hw (acpi chip_start.2))) <$> registers = [0x20020; 110000; 3]) as Hv by (by vm_compute).
  unfold wp in Hw. unfold chip_start in *. destruct (scheduling_init _ _ _ _) as [[[]|e| |] s]; [|exfalso|done..].
  - destruct Hw as (_ & ticks & _ & Hn & _ & Ha & _). by exists s, ticks.
  - destruct Hw as (_ & [? Hs] & _). by rewrite lookup_empty in Hs.
Defined.
End Timer.
