(* ===== verification/Ipi.v ===== *)
(** * Inter-processor interrupts (src/kernel/src/smp/ipi.rs)

    A processor that has changed page tables asks the others to forget the old
    translations, and one that panics makes them halt.  The processors run in any
    interleaving: an action of the model is what one of them does while it holds a
    lock, or one access to shared memory.  The accesses are sequentially consistent, as the fence makes them.
    [Online] is the end of [ap_entry] on another processor.

    [stale p] are the pages whose old translation a processor still has.  Pages
    become stale while no request for them is under way ([Cache]): the tables are
    changed before the call. *)

From S2P Require Import Prelude Errors Helpers Descriptors.

Module Ipi.

(** ** Vectors and the interrupt command register *)

Inductive IPIVectors := TLBShootdown | HaltVector | Spurious.
Definition vector_of (v : IPIVectors) : Z :=
  match v with TLBShootdown => 0xFF - 2 | HaltVector => 0xFF - 1 | Spurious => 0xFF end.

Inductive DeliveryMode := Fixed | Nmi.
Definition mode_of (m : DeliveryMode) : Z := match m with Fixed => 0 | Nmi => 4 end.

Inductive IPITarget := CpuTarget (id : Z) | AllExcludingSelf | All | SelfOnly.
Definition icr_fields (t : IPITarget) : Z * Z :=
  match t with
  | CpuTarget id => (0, id)
  | AllExcludingSelf => (3, 0)
  | SelfOnly => (1, 0)
  | All => (2, 0)
  end.

(** The value [send_ipi] writes. *)
Definition icr (vector : IPIVectors) (destination : IPITarget) (mode : DeliveryMode) : Z :=
  let fields := icr_fields destination in
  Z.lor (Z.lor (Z.lor (vector_of vector) (Z.shiftl (mode_of mode) 8)) (u64 (Z.shiftl fields.1 18)))
    (u64 (Z.shiftl fields.2 32)).

(** ** Processors *)

(** What is asked for: [tlb_shootdown(addresses)], [tlb_shoot_all()] or
    [halt_other_cpus()]. *)
Inductive Request := Shootdown (addresses : list Z) | ShootAll | HaltOthers.

Definition addresses_of (r : Request) : list Z :=
  match r with Shootdown l => l | _ => [] end.

(** [ipi_tlb_handler]: an empty list flushes everything. *)
Definition flush (addresses : list Z) (stale : gset Z) : gset Z :=
  match addresses with [] => ∅ | _ => stale ∖ list_to_set addresses end.

(** The flush that a caller does on its own processor. *)
Definition flush_local (r : Request) (stale : gset Z) : gset Z :=
  match r with Shootdown l => stale ∖ list_to_set l | ShootAll => ∅ | HaltOthers => stale end.

(** Where a processor is in a call: waiting for [IPI_LOCK]; the loop that prepares
    the processors, at number [k]; before [send_ipi]; [wait_acks] at number [k],
    with whether all before have acknowledged. *)
Inductive PC :=
| Idle
| Locking (r : Request)
| Preparing (r : Request) (k : nat)
| Sending (r : Request)
| Waiting (r : Request) (k : nat) (acked : bool).

Record Cpu := mkCpu {
  pc : PC; flag : bool; saved : bool;
  ipi_ack : bool; tlb_addresses : list Z; pending : bool; pending_halt : bool; halted : bool; stale : gset Z
}.

(** [CPUS] with [ONLINE_APS], and who holds [IPI_LOCK]. *)
Record System := mkSystem { cpus : list Cpu; online_aps : nat; holder : option nat }.

Definition with_cpu (i : nat) (c : Cpu) (s : System) : System :=
  mkSystem (<[i := c]> (cpus s)) (online_aps s) (holder s).
Definition with_pc (p : PC) (c : Cpu) : Cpu :=
  mkCpu p (flag c) (saved c) (ipi_ack c) (tlb_addresses c) (pending c) (pending_halt c) (halted c) (stale c).

Inductive Action :=
| Call (i : nat) (r : Request)
| Acquire (i : nat)
| Advance (i : nat)
| GiveUp (i : nat)
| Handle (i : nat)
| HandleHalt (i : nat)
| Cache (i : nat) (page : Z)
| Online.

Definition covers (r : Request) (page : Z) : bool :=
  match r with Shootdown l => bool_decide (page ∈ l) | ShootAll => true | HaltOthers => false end.

(** A page may not become stale while a request for it is past the lock. *)
Definition in_progress (c : Cpu) (page : Z) : bool :=
  match pc c with
  | Preparing r _ | Sending r | Waiting r _ _ => covers r page
  | _ => false
  end.

(** [if CPUS.len() <= 1 ... return]; the empty list is for [tlb_shootdown] only. *)
Definition returns_early (s : System) (r : Request) : bool :=
  (length (cpus s) <=? 1)%nat || (match r with Shootdown [] => true | _ => false end) ||
  negb (Nat.eqb (online_aps s) (length (cpus s) - 1)).

(** Dropping the guard: the lock is free and the flag is back. *)
Definition release (i : nat) (c : Cpu) (s : System) : System :=
  mkSystem (<[i := mkCpu Idle (saved c) (saved c) (ipi_ack c) (tlb_addresses c) (pending c) (pending_halt c) (halted c) (stale c)]> (cpus s))
    (online_aps s) None.

(** One processor of the first loop. *)
Definition prepare (r : Request) (c : Cpu) : Cpu :=
  mkCpu (pc c) (flag c) (saved c) false (match r with HaltOthers => tlb_addresses c | _ => addresses_of r end)
    (pending c) (pending_halt c) (halted c) (stale c).

(** The interrupt of the request reaches the processor. *)
Definition raise (r : Request) (c : Cpu) : Cpu :=
  match r with
  | HaltOthers => mkCpu (pc c) (flag c) (saved c) (ipi_ack c) (tlb_addresses c) (pending c) true (halted c) (stale c)
  | _ => mkCpu (pc c) (flag c) (saved c) (ipi_ack c) (tlb_addresses c) true (pending_halt c) (halted c) (stale c)
  end.

(** [ipi_tlb_handler] and [ipi_halt_handler], which does not return and has
    interrupts off. *)
Definition tlb_handler (c : Cpu) : Cpu :=
  mkCpu (pc c) (flag c) (saved c) true (tlb_addresses c) false (pending_halt c) (halted c)
    (flush (tlb_addresses c) (stale c)).
Definition halt_handler (c : Cpu) : Cpu :=
  mkCpu (pc c) false (saved c) true (tlb_addresses c) (pending c) false true (stale c).

Definition step (a : Action) (s : System) : option System :=
  match a with
  | Call i r =>
      c ← cpus s !! i;
      match pc c, halted c with
      | Idle, false => Some (with_cpu i (mkCpu (Locking r) false (flag c) (ipi_ack c) (tlb_addresses c) (pending c) (pending_halt c) (halted c) (stale c)) s)
      | _, _ => None
      end
  | Acquire i =>
      c ← cpus s !! i;
      match pc c, holder s with
      | Locking r, None =>
          let c := mkCpu (Preparing r 0) (flag c) (saved c) (ipi_ack c) (tlb_addresses c) (pending c) (pending_halt c) (halted c)
                     (flush_local r (stale c)) in
          if returns_early s r then Some (release i c s)
          else Some (mkSystem (<[i := c]> (cpus s)) (online_aps s) (Some i))
      | _, _ => None
      end
  | Advance i =>
      c ← cpus s !! i;
      match pc c with
      | Preparing r k =>
          match cpus s !! k with
          | None => Some (with_cpu i (with_pc (Sending r) c) s)
          | Some ck =>
              let s := with_cpu i (with_pc (Preparing r (S k)) c) s in
              if Nat.eqb k i then Some s else Some (with_cpu k (prepare r ck) s)
          end
      | Sending r =>
          let s := mkSystem (raise r <$> cpus s) (online_aps s) (holder s) in
          Some (with_cpu i (with_pc (Waiting r 0 true) c) s)
      | Waiting r k acked =>
          match cpus s !! k with
          | None => Some (release i c s)
          | Some ck =>
              if Nat.eqb k i || ipi_ack ck then Some (with_cpu i (with_pc (Waiting r (S k) acked) c) s) else None
          end
      | _ => None
      end
  | GiveUp i =>
      c ← cpus s !! i;
      match pc c with
      | Waiting r k _ =>
          match cpus s !! k with
          | None => None
          | Some ck =>
              if Nat.eqb k i || ipi_ack ck then None else Some (with_cpu i (with_pc (Waiting r (S k) false) c) s)
          end
      | _ => None
      end
  | Handle i =>
      c ← cpus s !! i;
      if flag c && pending c then
        Some (with_cpu i (tlb_handler c) s)
      else None
  | HandleHalt i =>
      c ← cpus s !! i;
      if flag c && pending_halt c then Some (with_cpu i (halt_handler c) s) else None
  | Cache i page =>
      c ← cpus s !! i;
      if halted c || existsb (λ c, in_progress c page) (cpus s) then None
      else Some (with_cpu i (mkCpu (pc c) (flag c) (saved c) (ipi_ack c) (tlb_addresses c) (pending c) (pending_halt c) (halted c)
                               ({[page]} ∪ stale c)) s)
  | Online =>
      if (online_aps s <? length (cpus s) - 1)%nat then Some (mkSystem (cpus s) (S (online_aps s)) (holder s)) else None
  end.

Definition start (n online : nat) : System :=
  mkSystem (replicate n (mkCpu Idle true true false [] false false false ∅)) online None.

(** ** No stale translation is left *)

Definition moves (s s' : System) : Prop := ∃ a, step a s = Some s'.

(** No page of the request is stale on the processor, unless it has halted. *)
Definition clean (r : Request) (c : Cpu) : Prop := halted c = false → ∀ x, covers r x = true → x ∉ stale c.

(** The processor knows the request, and has served it if it says so. *)
Definition informed (r : Request) (c : Cpu) : Prop :=
  (r ≠ HaltOthers → tlb_addresses c = addresses_of r) ∧ (ipi_ack c = true → clean r c).

(** The request of a processor past the lock, how many processors it has
    informed, and how many it has seen acknowledge without a gap. *)
Definition progress (n : nat) (c : Cpu) : option (Request * nat * nat) :=
  match pc c with
  | Idle | Locking _ => None
  | Preparing r k => Some (r, k, O)
  | Sending r => Some (r, n, O)
  | Waiting r k true => Some (r, n, k)
  | Waiting r k false => Some (r, n, O)
  end.

Definition others (s : System) (i n : nat) (P : Cpu → Prop) : Prop :=
  ∀ j c, (j < n)%nat → j ≠ i → cpus s !! j = Some c → P c.

Definition serves (s : System) (i : nat) (c : Cpu) (r : Request) (p w : nat) : Prop :=
  holder s = Some i ∧ r ≠ Shootdown [] ∧ clean r c ∧ others s i p (informed r) ∧ others s i w (clean r).

Definition inv (s : System) : Prop :=
  ∀ i c r p w, cpus s !! i = Some c → progress (length (cpus s)) c = Some (r, p, w) → serves s i c r p w.

Lemma covers_flush r c x :
  r ≠ Shootdown [] → tlb_addresses c = addresses_of r → covers r x = true → x ∉ flush (tlb_addresses c) (stale c).
Proof.
  intros Hr -> Hx. destruct r as [[|y l]| |]; cbn in *; [done| |set_solver|done].
  apply bool_decide_eq_true in Hx. set_solver.
Qed.

Lemma covers_local r st x : covers r x = true → x ∉ flush_local r st.
Proof. destruct r; cbn; intros Hx; [apply bool_decide_eq_true in Hx; set_solver|set_solver|done]. Qed.

Lemma flush_subset l st : flush l st ⊆ st.
Proof. destruct l; cbn; set_solver. Qed.

Lemma lookup_with_cpu s i c j : (i < length (cpus s))%nat →
  cpus (with_cpu i c s) !! j = if decide (i = j) then Some c else cpus s !! j.
Proof.
  intros. cbn. destruct (decide (i = j)) as [<-|]; [by rewrite list_lookup_insert_eq|by rewrite list_lookup_insert_ne].
Qed.

Lemma progress_in_progress n c r p w x : progress n c = Some (r, p, w) → in_progress c x = covers r x.
Proof. unfold progress, in_progress. destruct (pc c) as [| | | |? ? []]; intros; by simplify_eq. Qed.

(** A step of one processor that does not go on with its own request. *)
Lemma inv_update s i c c' :
  inv s → cpus s !! i = Some c →
  progress (length (cpus s)) c' = None ∨ progress (length (cpus s)) c' = progress (length (cpus s)) c →
  (∀ h ch r p w, cpus s !! h = Some ch → progress (length (cpus s)) ch = Some (r, p, w) → r ≠ Shootdown [] →
    (informed r c → informed r c') ∧ (clean r c → clean r c')) →
  inv (with_cpu i c' s).
Proof.
  intros Hinv Hc Hp Hk h ch r p w Hh Hpr. pose proof (lookup_lt_Some _ _ _ Hc) as Hi.
  rewrite lookup_with_cpu in Hh by done. cbn in Hpr. rewrite length_insert in Hpr.
  assert (∃ ch0, cpus s !! h = Some ch0 ∧ progress (length (cpus s)) ch0 = Some (r, p, w)) as (ch0 & Hh0 & Hp0).
  { destruct (decide (i = h)) as [<-|]; [|by eauto]. exists c. injection Hh as <-. split; [done|]. destruct Hp; congruence. }
  destruct (Hinv h ch0 r p w Hh0 Hp0) as (H1 & H2 & H3 & H4 & H5). destruct (Hk h ch0 r p w Hh0 Hp0 H2) as [K1 K2].
  split_and!; [done|done| | |].
  - destruct (decide (i = h)) as [<-|]; simplify_eq; [by apply K2|done].
  - intros j cj Hj Hne Hcj. rewrite lookup_with_cpu in Hcj by done.
    destruct (decide (i = j)) as [<-|]; [injection Hcj as <-; apply K1|]; by eapply H4.
  - intros j cj Hj Hne Hcj. rewrite lookup_with_cpu in Hcj by done.
    destruct (decide (i = j)) as [<-|]; [injection Hcj as <-; apply K2|]; by eapply H5.
Qed.

(** Only the holder of the lock is past it. *)
Lemma inv_holder s i c r p w j cj r' p' w' :
  inv s → cpus s !! i = Some c → progress (length (cpus s)) c = Some (r, p, w) →
  cpus s !! j = Some cj → progress (length (cpus s)) cj = Some (r', p', w') → i = j.
Proof.
  intros Hinv Hi Hpi Hj Hpj. destruct (Hinv _ _ _ _ _ Hi Hpi) as (E1 & _).
  destruct (Hinv _ _ _ _ _ Hj Hpj) as (E2 & _). congruence.
Qed.

(** A step of the holder: its new record, with all else as it was but for the
    processors it has informed. *)
Lemma inv_advance s s' i c r p w :
  inv s → cpus s !! i = Some c → progress (length (cpus s)) c = Some (r, p, w) →
  length (cpus s') = length (cpus s) → holder s' = holder s →
  (∀ j, j ≠ i → ∀ cj', cpus s' !! j = Some cj' → ∃ cj, cpus s !! j = Some cj ∧
     progress (length (cpus s)) cj' = progress (length (cpus s)) cj ∧
     (informed r cj → informed r cj') ∧ (clean r cj → clean r cj')) →
  (∀ c' r' p' w', cpus s' !! i = Some c' → progress (length (cpus s)) c' = Some (r', p', w') →
     r' = r ∧ (clean r c → clean r c') ∧ others s' i p' (informed r) ∧ others s' i w' (clean r)) →
  inv s'.
Proof.
  intros Hinv Hi Hpi Hlen Hhold Hoth Hown h ch r' p' w' Hh Hph. rewrite Hlen in Hph.
  destruct (Hinv i c r p w Hi Hpi) as (E1 & E2 & E3 & _).
  destruct (decide (h = i)) as [->|Hne].
  - destruct (Hown ch r' p' w' Hh Hph) as (-> & Hc & Ho & Hw). split_and!; [congruence|done|by apply Hc|done|done].
  - exfalso. apply Hne. destruct (Hoth h Hne ch Hh) as (ch0 & Hh0 & Hp & _). rewrite Hp in Hph. symmetry.
    by eapply (inv_holder s).
Qed.

Lemma inv_start n online : inv (start n online).
Proof.
  intros i c r p w Hc Hp. apply lookup_replicate in Hc as [-> _]. done.
Qed.

Lemma inv_acquire s i c r : inv s → cpus s !! i = Some c → pc c = Locking r → holder s = None →
  ∀ s', step (Acquire i) s = Some s' → inv s'.
Proof.
  intros Hinv Hc Hpc Hh s' Hst. cbn in Hst. rewrite Hc in Hst. cbn in Hst. rewrite Hpc, Hh in Hst.
  set (c' := mkCpu (Preparing r 0) (flag c) (saved c) (ipi_ack c) (tlb_addresses c) (pending c) (pending_halt c) (halted c)
    (flush_local r (stale c))) in *.
  pose proof (lookup_lt_Some _ _ _ Hc) as Hi.
  assert (∀ j cj, cpus s !! j = Some cj → progress (length (cpus s)) cj = None) as Hnone.
  { intros j cj Hj. destruct (progress _ cj) as [[[]]|] eqn:E; [|done].
    destruct (Hinv _ _ _ _ _ Hj E) as (? & _). congruence. }
  destruct (returns_early s r) eqn:Hr; injection Hst as <-; intros h ch r' p w Hch Hph.
  - cbn in Hch, Hph. rewrite length_insert in Hph.
    destruct (decide (i = h)) as [<-|]; [rewrite list_lookup_insert_eq in Hch by done; by simplify_eq|].
    rewrite list_lookup_insert_ne in Hch by done. by rewrite (Hnone _ _ Hch) in Hph.
  - cbn in Hch, Hph. rewrite length_insert in Hph.
    destruct (decide (i = h)) as [<-|].
    2:{ rewrite list_lookup_insert_ne in Hch by done. by rewrite (Hnone _ _ Hch) in Hph. }
    rewrite list_lookup_insert_eq in Hch by done. injection Hch as <-. cbn in Hph. injection Hph as <- <- <-.
    split_and!; [done| | |intros ? ? ?; lia|intros ? ? ?; lia].
    + intros ->. unfold returns_early in Hr. by rewrite orb_true_r in Hr.
    + intros _ x. apply covers_local.
Qed.

Lemma others_with_cpu s i c n P : (i < length (cpus s))%nat → others s i n P → others (with_cpu i c s) i n P.
Proof.
  intros Hi H j cj Hj Hne Hcj. rewrite lookup_with_cpu in Hcj by done. rewrite decide_False in Hcj by done. by eapply H.
Qed.

(** The holder moves on and nobody else changes. *)
Lemma inv_own s i c c' r p w :
  inv s → cpus s !! i = Some c → progress (length (cpus s)) c = Some (r, p, w) →
  (clean r c → clean r c') →
  (∀ r' p' w', progress (length (cpus s)) c' = Some (r', p', w') →
     r' = r ∧ others s i p' (informed r) ∧ others s i w' (clean r)) →
  inv (with_cpu i c' s).
Proof.
  intros Hinv Hc Hp Hcl Hown. pose proof (lookup_lt_Some _ _ _ Hc) as Hi.
  apply (inv_advance s _ i c r p w); [done|done|done|cbn; by rewrite length_insert|done| |].
  - intros j Hne cj Hj. rewrite lookup_with_cpu, decide_False in Hj by done. by exists cj.
  - intros c2 r' p' w' H2 Hpr. rewrite lookup_with_cpu, decide_True in H2 by done. injection H2 as <-.
    destruct (Hown _ _ _ Hpr) as (-> & Ho & Hw). split_and!; [done|done|by apply others_with_cpu|by apply others_with_cpu].
Qed.

Lemma others_S s i k n P ck :
  cpus s !! k = Some ck → others s i n P → (k = i ∨ P ck) → n = k → others s i (S k) P.
Proof.
  intros Hk Ho Hck -> j cj Hj Hne Hcj. destruct (decide (j = k)) as [->|]; [|eapply (Ho j); [lia|done|done]].
  destruct Hck as [->|]; [done|congruence].
Qed.

Lemma prepare_informed r c : informed r (prepare r c).
Proof. by split; [destruct r|]. Qed.

Lemma raise_keeps n r r' c : progress n (raise r c) = progress n c ∧
  (informed r' c → informed r' (raise r c)) ∧ (clean r' c → clean r' (raise r c)).
Proof. by destruct r. Qed.

Lemma inv_prepare s i c r k ck :
  inv s → cpus s !! i = Some c → pc c = Preparing r k → cpus s !! k = Some ck → k ≠ i →
  inv (with_cpu k (prepare r ck) (with_cpu i (with_pc (Preparing r (S k)) c) s)).
Proof.
  intros Hinv Hc Hpc Hk Hne. pose proof (lookup_lt_Some _ _ _ Hc). pose proof (lookup_lt_Some _ _ _ Hk).
  assert (progress (length (cpus s)) c = Some (r, k, O)) as Hp by (unfold progress; by rewrite Hpc).
  destruct (Hinv _ _ _ _ _ Hc Hp) as (_ & _ & Hcl & Ho & _).
  set (s1 := with_cpu i (with_pc (Preparing r (S k)) c) s).
  assert (length (cpus s1) = length (cpus s)) as Hl1 by apply length_insert.
  assert (∀ j, cpus (with_cpu k (prepare r ck) s1) !! j =
    if decide (k = j) then Some (prepare r ck) else if decide (i = j) then Some (with_pc (Preparing r (S k)) c)
    else cpus s !! j) as Hlook.
  { intros j. rewrite lookup_with_cpu by lia. destruct (decide (k = j)); [done|]. by apply lookup_with_cpu. }
  apply (inv_advance s _ i c r k 0); [done|done|done|cbn; by rewrite !length_insert|done| |].
  - intros j Hj cj Hcj. rewrite Hlook in Hcj. destruct (decide (k = j)) as [<-|].
    + injection Hcj as <-. exists ck. split_and!; [done|done| |done]. intros _. apply prepare_informed.
    + rewrite decide_False in Hcj by done. by exists cj.
  - intros c' r' p' w' Hc' Hpr. rewrite Hlook, decide_False, decide_True in Hc' by done. injection Hc' as <-.
    cbn in Hpr. injection Hpr as <- <- <-. split_and!; [done|done| |intros ? ? ?; lia].
    intros j cj Hj Hji Hcj. rewrite Hlook in Hcj. destruct (decide (k = j)) as [<-|].
    + injection Hcj as <-. apply prepare_informed.
    + rewrite decide_False in Hcj by done. eapply (Ho j); [lia|done|done].
Qed.

Lemma inv_send s i c r :
  inv s → cpus s !! i = Some c → pc c = Sending r →
  inv (with_cpu i (with_pc (Waiting r 0 true) c) (mkSystem (raise r <$> cpus s) (online_aps s) (holder s))).
Proof.
  intros Hinv Hc Hpc. pose proof (lookup_lt_Some _ _ _ Hc).
  assert (progress (length (cpus s)) c = Some (r, length (cpus s), O)) as Hp by (unfold progress; by rewrite Hpc).
  destruct (Hinv _ _ _ _ _ Hc Hp) as (_ & _ & _ & Ho & _).
  assert (∀ j cj, j ≠ i → <[i := with_pc (Waiting r 0 true) c]> (raise r <$> cpus s) !! j = Some cj →
    ∃ cj0, cpus s !! j = Some cj0 ∧ cj = raise r cj0) as Hlook.
  { intros j cj Hj Hcj. rewrite list_lookup_insert_ne, list_lookup_fmap in Hcj by done.
    destruct (cpus s !! j) as [cj0|] eqn:E; [|done]. injection Hcj as <-. by exists cj0. }
  apply (inv_advance s _ i c r (length (cpus s)) 0); [done|done|done|cbn; by rewrite length_insert, length_fmap|done| |].
  - intros j Hj cj Hcj. destruct (Hlook j cj Hj Hcj) as (cj0 & ? & ->). exists cj0. split; [done|apply raise_keeps].
  - intros c' r' p' w' Hc' Hpr. cbn in Hc'. rewrite list_lookup_insert_eq in Hc' by (by rewrite length_fmap).
    injection Hc' as <-. cbn in Hpr. injection Hpr as <- <- <-. split_and!; [done|done| |intros ? ? ?; lia].
    intros j cj Hj Hji Hcj. destruct (Hlook j cj Hji Hcj) as (cj0 & Hx & ->). apply (raise_keeps 0), (Ho j cj0 Hj Hji Hx).
Qed.

Lemma inv_release s i c r p w :
  inv s → cpus s !! i = Some c → progress (length (cpus s)) c = Some (r, p, w) → inv (release i c s).
Proof.
  intros Hinv Hc Hp h ch r' p' w' Hh Hph. pose proof (lookup_lt_Some _ _ _ Hc). exfalso.
  cbn in Hh, Hph. rewrite length_insert in Hph. destruct (decide (i = h)) as [<-|Hne].
  - rewrite list_lookup_insert_eq in Hh by done. by injection Hh as <-.
  - rewrite list_lookup_insert_ne in Hh by done. apply Hne. by eapply (inv_holder s).
Qed.

Lemma inv_advance_step s i s' : inv s → step (Advance i) s = Some s' → inv s'.
Proof.
  intros Hinv Hst. cbn in Hst. destruct (cpus s !! i) as [c|] eqn:Hc; [|done]. cbn in Hst.
  destruct (pc c) as [| |r k|r|r k acked] eqn:Hpc; try done.
  - assert (progress (length (cpus s)) c = Some (r, k, O)) as Hp by (unfold progress; by rewrite Hpc).
    destruct (Hinv _ _ _ _ _ Hc Hp) as (_ & _ & _ & Ho & _).
    destruct (cpus s !! k) as [ck|] eqn:Hk; [destruct (Nat.eqb_spec k i) as [->|Hne]|]; injection Hst as <-.
    + apply (inv_own s i c _ r i 0); [done|done|done|done|]. intros ? ? ? [= <- <- <-].
      split_and!; [done| |intros ? ? ?; lia]. eapply others_S; eauto.
    + by apply inv_prepare.
    + apply (inv_own s i c _ r k 0); [done|done|done|done|]. intros ? ? ? [= <- <- <-].
      split_and!; [done| |intros ? ? ?; lia]. apply lookup_ge_None in Hk. intros j cj Hj. apply Ho. lia.
  - injection Hst as <-. by apply inv_send.
  - assert (∃ w, progress (length (cpus s)) c = Some (r, length (cpus s), w) ∧ (acked = true → w = k)) as (w & Hp & Hw).
    { unfold progress. rewrite Hpc. destruct acked; by eexists. }
    destruct (cpus s !! k) as [ck|] eqn:Hk; [|injection Hst as <-; by eapply inv_release].
    destruct (Nat.eqb k i || ipi_ack ck) eqn:Hack; [|done]. injection Hst as <-.
    destruct (Hinv _ _ _ _ _ Hc Hp) as (_ & _ & _ & Ho & Hcl).
    apply (inv_own s i c _ r (length (cpus s)) w); [done|done|done|done|]. intros r' p' w' Hpr.
    destruct acked; injection Hpr as <- <- <-; split_and!; [done|done| |done|done|intros ? ? ?; lia].
    apply (others_S s i k w _ ck); [done|done| |by apply Hw]. destruct (Nat.eqb_spec k i) as [|Hne]; [by left|right].
    apply (Ho k ck); [by eapply lookup_lt_Some|done|done|done].
Qed.

Lemma inv_give_up s i s' : inv s → step (GiveUp i) s = Some s' → inv s'.
Proof.
  intros Hinv Hst. cbn in Hst. destruct (cpus s !! i) as [c|] eqn:Hc; [|done]. cbn in Hst.
  destruct (pc c) as [| | | |r k acked] eqn:Hpc; try done. destruct (cpus s !! k) as [ck|]; [|done].
  destruct (Nat.eqb k i || ipi_ack ck); [done|]. injection Hst as <-.
  assert (∃ w, progress (length (cpus s)) c = Some (r, length (cpus s), w)) as (w & Hp).
  { unfold progress. rewrite Hpc. destruct acked; by eexists. }
  destruct (Hinv _ _ _ _ _ Hc Hp) as (_ & _ & _ & Ho & _).
  apply (inv_own s i c _ r (length (cpus s)) w); [done|done|done|done|]. intros ? ? ? [= <- <- <-].
  split_and!; [done|done|intros ? ? ?; lia].
Qed.

Lemma inv_handle s i s' : inv s → step (Handle i) s = Some s' → inv s'.
Proof.
  intros Hinv Hst. cbn in Hst. destruct (cpus s !! i) as [c|] eqn:Hc; [|done]. cbn in Hst.
  destruct (flag c && pending c); [|done]. injection Hst as <-.
  apply (inv_update s i c); [done|done|by right|]. intros h ch r p w _ _ Hr. split.
  - intros [Ha _]. split; [done|]. intros _ _ x Hx. apply (covers_flush r c); [done| |done]. apply Ha. by intros ->.
  - intros Hcl Hh x Hx Hin. apply (Hcl Hh x Hx). by apply (flush_subset (tlb_addresses c)).
Qed.

Lemma inv_handle_halt s i s' : inv s → step (HandleHalt i) s = Some s' → inv s'.
Proof.
  intros Hinv Hst. cbn in Hst. destruct (cpus s !! i) as [c|] eqn:Hc; [|done]. cbn in Hst.
  destruct (flag c && pending_halt c); [|done]. injection Hst as <-.
  apply (inv_update s i c); [done|done|by right|]. intros h ch r p w _ _ Hr. split; [|done].
  intros [Ha _]. by split.
Qed.

Lemma inv_cache s i page s' : inv s → step (Cache i page) s = Some s' → inv s'.
Proof.
  intros Hinv Hst. cbn in Hst. destruct (cpus s !! i) as [c|] eqn:Hc; [|done]. cbn in Hst.
  destruct (halted c) eqn:Hhalt; [done|]. cbn in Hst. destruct (existsb _ _) eqn:He; [done|]. injection Hst as <-.
  apply (inv_update s i c); [done|done|by right|]. intros h ch r p w Hh Hp _.
  assert (covers r page = false) as Hcov.
  { rewrite <- (progress_in_progress _ _ _ _ _ page Hp). destruct (in_progress ch page) eqn:Hi; [|done].
    enough (existsb (λ c, in_progress c page) (cpus s) = true) by congruence.
    apply existsb_exists. exists ch. split; [apply list_elem_of_In; by eapply list_elem_of_lookup_2|done]. }
  assert (clean r c → ∀ x, covers r x = true → x ∉ {[page]} ∪ stale c) as Hclean.
  { intros Hcl x Hx Hin. apply elem_of_union in Hin as [->%elem_of_singleton|Hin]; [congruence|by apply (Hcl Hhalt x)]. }
  split; [|by intros Hcl _; apply Hclean]. intros [Ha Hk]. split; [done|]. intros Hack _. exact (Hclean (Hk Hack)).
Qed.

Lemma inv_step s s' : inv s → moves s s' → inv s'.
Proof.
  intros Hinv [[i r|i|i|i|i|i|i page|] Hst].
  - cbn in Hst. destruct (cpus s !! i) as [c|] eqn:Hc; [|done]. cbn in Hst. destruct (pc c) eqn:Hpc, (halted c) eqn:Hh; try done.
    injection Hst as <-. apply (inv_update s i c); [done|done|by left|]. intros. unfold informed, clean. cbn. by rewrite Hh.
  - pose proof Hst as Hst'. cbn in Hst'. destruct (cpus s !! i) as [c|] eqn:Hc; [|done]. cbn in Hst'.
    destruct (pc c) eqn:Hpc; try done. destruct (holder s) eqn:Hh; [done|]. by eapply inv_acquire.
  - by eapply inv_advance_step.
  - by eapply inv_give_up.
  - by eapply inv_handle.
  - by eapply inv_handle_halt.
  - by eapply inv_cache.
  - cbn [step] in Hst. destruct (_ <? _)%nat; [|done]. by injection Hst as <-.
Qed.

Lemma inv_rtc s s' : rtc moves s s' → inv s → inv s'.
Proof. induction 1 as [|s s1 s2 Hm _ IH]; intros Hinv; [done|]. by eapply IH, inv_step. Qed.

(** What a processor is asking for, at any point of its call. *)
Definition request (c : Cpu) : option Request :=
  match pc c with
  | Idle => None
  | Locking r | Preparing r _ | Sending r | Waiting r _ _ => Some r
  end.

(** A call ends where it finds that there is nobody to wait for, or at the end of
    [wait_acks]. *)
Lemma returns_how s s' i c c' :
  moves s s' → cpus s !! i = Some c → pc c ≠ Idle → cpus s' !! i = Some c' → pc c' = Idle →
  (∃ r, pc c = Locking r ∧ returns_early s r = true ∧
     s' = release i (mkCpu (Preparing r 0) (flag c) (saved c) (ipi_ack c) (tlb_addresses c) (pending c) (pending_halt c)
                       (halted c) (flush_local r (stale c))) s) ∨
  (∃ r k b, pc c = Waiting r k b ∧ (length (cpus s) <= k)%nat ∧ s' = release i c s).
Proof.
  intros [a Hst] Hc Hne Hc' Hidle.
  destruct a as [h rq|h|h|h|h|h|h page|]; cbn [step] in Hst;
    [..|destruct (_ <? _)%nat; [|done]; injection Hst as <-; cbn in Hc'; congruence];
    destruct (cpus s !! h) as [ch|] eqn:Hh; try done; cbn in Hst;
    repeat case_match; simplify_eq; cbn in Hc';
    repeat (apply list_lookup_insert_Some in Hc' as [(-> & <- & ?)|[? Hc']]); cbn in Hidle; try done;
    try (apply list_lookup_fmap_Some in Hc' as (cj & -> & Hc')); simplify_eq; try done.
  all: try by (match goal with r : Request |- _ => destruct r end; cbn in Hidle; congruence).
  - left. by eexists.
  - right. eexists _, _, _. split_and!; [done|by apply lookup_ge_None|done].
Qed.

(** The end of [wait_acks] without a gap. *)
Lemma waited_clean s i c r k : inv s → cpus s !! i = Some c → pc c = Waiting r k true → (length (cpus s) <= k)%nat →
  ∀ j cj, cpus (release i c s) !! j = Some cj → clean r cj.
Proof.
  intros Hinv Hc Hpc Hk j cj Hj.
  assert (progress (length (cpus s)) c = Some (r, length (cpus s), k)) as Hp
    by (unfold progress; by rewrite Hpc).
  destruct (Hinv _ _ _ _ _ Hc Hp) as (_ & _ & Hown & _ & Hcl). pose proof (lookup_lt_Some _ _ _ Hc).
  cbn in Hj. destruct (decide (i = j)) as [<-|Hne].
  - rewrite list_lookup_insert_eq in Hj by done. injection Hj as <-. exact Hown.
  - rewrite list_lookup_insert_ne in Hj by done. apply (Hcl j cj); [|done|done]. apply lookup_lt_Some in Hj. lia.
Qed.

(** A call that returns at once: its own processor is clean, and so are all if
    there is no other or nothing was asked for. *)
Lemma early_clean s i c r : cpus s !! i = Some c → returns_early s r = true →
  let c' := mkCpu (Preparing r 0) (flag c) (saved c) (ipi_ack c) (tlb_addresses c) (pending c) (pending_halt c) (halted c)
              (flush_local r (stale c)) in
  (∀ ci, cpus (release i c' s) !! i = Some ci → clean r ci) ∧
  (online_aps s ≠ (length (cpus s) - 1)%nat ∨ ∀ j cj, cpus (release i c' s) !! j = Some cj → clean r cj).
Proof.
  intros Hc He c'. pose proof (lookup_lt_Some _ _ _ Hc).
  assert (∀ ci, cpus (release i c' s) !! i = Some ci → clean r ci) as Hown.
  { intros ci Hi. cbn in Hi. rewrite list_lookup_insert_eq in Hi by done. injection Hi as <-. intros _ x. apply covers_local. }
  split; [exact Hown|]. unfold returns_early in He. apply orb_true_iff in He as [[He|He]%orb_true_iff|He].
  - right. intros j cj Hj. apply Nat.leb_le in He. pose proof (lookup_lt_Some _ _ _ Hj) as Hlt. cbn in Hlt.
    rewrite length_insert in Hlt. assert (j = i) as -> by lia. by apply Hown.
  - right. intros j cj _ _ x Hx. by destruct r as [[]| |].
  - left. by apply negb_true_iff, Nat.eqb_neq in He.
Qed.

(** C22. Every return of a TLB shootdown, in every interleaving of any number of
    callers, handlers, new translations and processors that come online.  The
    processor of the caller has no old translation of a requested page, and
    neither has any processor that has not halted, but for two cases: the call gave
    up waiting for a processor, or it returned at once because not all processors
    were online. *)
Theorem shootdown_complete n online s s' i c c' r :
  rtc moves (start n online) s → moves s s' →
  cpus s !! i = Some c → request c = Some r → cpus s' !! i = Some c' → pc c' = Idle →
  (halted c' = false → ∀ page, covers r page = true → page ∉ stale c') ∧
  ((∃ k, pc c = Waiting r k false) ∨
   (pc c = Locking r ∧ online_aps s ≠ (length (cpus s) - 1)%nat) ∨
   ∀ j cj, cpus s' !! j = Some cj → halted cj = false → ∀ page, covers r page = true → page ∉ stale cj).
Proof.
  intros Hreach Hm Hc Hr Hc' Hidle. pose proof (inv_rtc _ _ Hreach (inv_start n online)) as Hinv.
  assert (pc c ≠ Idle) as Hne by (intros E; unfold request in Hr; by rewrite E in Hr). unfold request in Hr.
  destruct (returns_how s s' i c c' Hm Hc Hne Hc' Hidle) as [(r' & Hpc & He & ->)|(r' & k & b & Hpc & Hk & ->)];
    rewrite Hpc in Hr; injection Hr as ->.
  - destruct (early_clean s i c r Hc He) as [H1 [H2|H2]]; (split; [exact (H1 c' Hc')|]); [right; left; done|right; right; exact H2].
  - assert (∃ w, progress (length (cpus s)) c = Some (r, length (cpus s), w)) as (w & Hp).
    { unfold progress. rewrite Hpc. destruct b; by eexists. }
    destruct (Hinv _ _ _ _ _ Hc Hp) as (_ & _ & Hown & _). pose proof (lookup_lt_Some _ _ _ Hc).
    split.
    + cbn in Hc'. rewrite list_lookup_insert_eq in Hc' by done. injection Hc' as <-. exact Hown.
    + destruct b; [right; right|left; by exists k]. by apply (waited_clean s i c r k).
Qed.

(** ** Halting the others *)

(** The processor has halted, or will as soon as it takes interrupts. *)
Definition halting (c : Cpu) : Prop := halted c = true ∨ pending_halt c = true.

(** Once its interrupt is sent a request to halt has reached the others. *)
Definition halt_sent (s : System) : Prop :=
  ∀ i c k b, cpus s !! i = Some c → pc c = Waiting HaltOthers k b → others s i (length (cpus s)) halting.

Lemma raise_halting r c : halting c → halting (raise r c).
Proof. unfold halting. destruct r; naive_solver. Qed.

(** What one action does to one processor. *)
Lemma step_cpu a s s' j c' : step a s = Some s' → cpus s' !! j = Some c' →
  ∃ c, cpus s !! j = Some c ∧ (halting c → halting c') ∧
    (∀ k b, pc c' = Waiting HaltOthers k b → (pc c = Sending HaltOthers ∧ a = Advance j) ∨ ∃ k' b', pc c = Waiting HaltOthers k' b').
Proof.
  intros Hst Hj. destruct a; cbn [step] in Hst;
    [..|destruct (_ <? _)%nat; [|done]; injection Hst as <-; exists c'; split_and!; [done|done|by eauto]];
    destruct (cpus s !! i) as [c|] eqn:Hi; try done; cbn in Hst;
    repeat case_match; simplify_eq; cbn in Hj;
    repeat (apply list_lookup_insert_Some in Hj as [(-> & <- & ?)|[? Hj]]);
    try (apply list_lookup_fmap_Some in Hj as (cj & -> & Hj)).
  all: eexists; (split; [eassumption|]); unfold halting in *; cbn;
    (split; [try destruct r; cbn; first [tauto|naive_solver]|intros ? ? Hw; try destruct r; cbn in Hw; simplify_eq; eauto]).
Qed.

(** Sending the interrupt reaches the others. *)
Lemma sent_halting s s' i c :
  step (Advance i) s = Some s' → cpus s !! i = Some c → pc c = Sending HaltOthers →
  others s' i (length (cpus s')) halting.
Proof.
  intros Hst Hc Hpc. cbn in Hst. rewrite Hc in Hst. cbn in Hst. rewrite Hpc in Hst. injection Hst as <-.
  intros j cj _ Hne Hj. cbn in Hj. rewrite list_lookup_insert_ne in Hj by done.
  apply list_lookup_fmap_Some in Hj as (cj0 & -> & _). by right.
Qed.

Lemma step_length a s s' : step a s = Some s' → length (cpus s') = length (cpus s).
Proof.
  intros Hst. destruct a; cbn [step] in Hst; [..|destruct (_ <? _)%nat; [|done]; by injection Hst as <-];
    destruct (cpus s !! i) as [c|] eqn:Hi; try done; cbn in Hst;
    repeat case_match; simplify_eq; cbn; by rewrite ?length_insert, ?length_fmap.
Qed.

Lemma halting_others s s' i : moves s s' → others s i (length (cpus s)) halting → others s' i (length (cpus s')) halting.
Proof.
  intros [a Hst] Ho j cj Hj Hne Hcj. rewrite (step_length _ _ _ Hst) in Hj.
  destruct (step_cpu _ _ _ _ _ Hst Hcj) as (c & Hc & Hh & _). apply Hh. by apply (Ho j c).
Qed.

Lemma halt_sent_step s s' : halt_sent s → moves s s' → halt_sent s'.
Proof.
  intros Hs [a Hst] i c' k b Hc' Hpc'. destruct (step_cpu _ _ _ _ _ Hst Hc') as (c & Hc & _ & Hw).
  destruct (Hw k b Hpc') as [[Hpc ->]|(k' & b' & Hpc)]; [by eapply sent_halting|].
  eapply halting_others; [by exists a|]. by eapply Hs.
Qed.

Lemma halt_sent_rtc s s' : rtc moves s s' → halt_sent s → halt_sent s'.
Proof. induction 1 as [|s s1 s2 Hm _ IH]; intros Hs; [done|]. by eapply IH, halt_sent_step. Qed.

(** When [halt_other_cpus] returns after [wait_acks], now and ever after every
    other processor has halted or does so when it next takes interrupts. *)
Lemma halts_others n online s s' i c b :
  rtc moves (start n online) s → cpus s !! i = Some c → pc c = Waiting HaltOthers (length (cpus s)) b →
  rtc moves s s' → others s' i (length (cpus s')) halting.
Proof.
  intros Hreach Hc Hpc Hlater.
  assert (halt_sent s) as Hs.
  { eapply halt_sent_rtc; [exact Hreach|]. intros j cj k bj Hj Hw. apply lookup_replicate in Hj as [-> _]. done. }
  specialize (Hs i c _ b Hc Hpc). clear -Hlater Hs. induction Hlater as [|s s1 s2 Hm _ IH]; [done|].
  by eapply IH, halting_others.
Qed.

(** ** Runs *)

Fixpoint run (l : list Action) (s : System) : option System :=
  match l with
  | [] => Some s
  | a :: l => s ← step a s; run l s
  end.

Lemma run_moves l : ∀ s s', run l s = Some s' → rtc moves s s'.
Proof.
  induction l as [|a l IH]; intros s s' H; cbn in H; [by injection H as <-|].
  destruct (step a s) as [s1|] eqn:E; [|done]. eapply rtc_l; [by exists a|by apply IH].
Qed.

(** Processor 0 asks for page 4096, which processor 1 has cached. *)
Definition served : list Action :=
  [Online; Cache 1 4096; Call 0 (Shootdown [4096]); Acquire 0; Advance 0; Advance 0; Advance 0; Advance 0;
   Handle 1; Advance 0; Advance 0].

Lemma shootdown_complete_witness :
  ∃ s s', run served (start 2 0) = Some s ∧ step (Advance 0) s = Some s' ∧
    ∀ j cj, cpus s' !! j = Some cj → halted cj = false → ∀ page, covers (Shootdown [4096]) page = true → page ∉ stale cj.
Proof.
  destruct (run served (start 2 0)) as [s|] eqn:E; [|by vm_compute in E].
  destruct (step (Advance 0) s) as [s'|] eqn:E'.
  2:{ exfalso. vm_compute in E. injection E as <-. by vm_compute in E'. }
  exists s, s'. split; [done|]. split; [done|].
  assert (∃ c c', cpus s !! 0%nat = Some c ∧ pc c = Waiting (Shootdown [4096]) 2 true ∧
    cpus s' !! 0%nat = Some c' ∧ pc c' = Idle) as (c & c' & Hc & Hpc & Hc' & Hi).
  { vm_compute in E. injection E as <-. vm_compute in E'. injection E' as <-. by eexists _, _. }
  destruct (shootdown_complete 2 0 s s' 0 c c' (Shootdown [4096]) (run_moves _ _ _ E) (ex_intro _ _ E') Hc
    ltac:(unfold request; by rewrite Hpc) Hc' Hi) as [_ [(k & Hk)|[[Hk _]|H]]]; [congruence|congruence|exact H].
Defined.

(** While processor 2 is not online a shootdown flushes the processor of the
    caller only: processor 1, which is, keeps the page. *)
Lemma not_all_online :
  ∃ s c, run [Online; Cache 1 4096; Call 0 (Shootdown [4096]); Acquire 0] (start 3 0) = Some s ∧
    pc <$> cpus s !! 0%nat = Some Idle ∧ cpus s !! 1%nat = Some c ∧ 4096 ∈ stale c.
Proof. eexists _, _. split; [vm_compute; reflexivity|]. by vm_compute. Qed.

(** A processor that waits for [IPI_LOCK] has interrupts off and cannot serve the
    holder, who gives up and returns while the page is still cached. *)
Definition both_call : list Action :=
  [Cache 1 4096; Call 0 (Shootdown [4096]); Acquire 0; Call 1 (Shootdown [8192]); Advance 0; Advance 0;
   Advance 0; Advance 0; Advance 0].

Lemma waiting_cpu_not_served :
  ∃ s c, run both_call (start 2 1) = Some s ∧ step (Handle 1) s = None ∧ step (Advance 0) s = None ∧
    (s' ← step (GiveUp 0) s; s'' ← step (Advance 0) s'; cpus s'' !! 1%nat) = Some c ∧ 4096 ∈ stale c.
Proof. eexists _, _. split; [vm_compute; reflexivity|]. by vm_compute. Qed.

(** ** The vectors *)

(** The handlers are the addresses of the three functions. *)
Definition init (indexable : Z → bool) (ipi_halt_handler ipi_tlb_handler ipi_spurious_handler : Z) :
    M (Helpers.LateInit Descriptors.Idt) Errors.KernelError unit :=
  Descriptors.add_idt_entry indexable ipi_halt_handler (vector_of HaltVector);;
  Descriptors.add_idt_entry indexable ipi_tlb_handler (vector_of TLBShootdown);;
  Descriptors.add_idt_entry indexable ipi_spurious_handler (vector_of Spurious).

(** With the vectors above 252 free the three get their handlers, and no other
    vector changes; a second time fails. *)
Lemma init_registers indexable h t sp idt :
  (∀ v, 32 <= v < 256 → indexable v = true) → (∀ v, 252 < v → idt !! v = None) →
  ∃ idt', init indexable h t sp (Helpers.mkLateInit true (Some idt)) = (Ok tt, Helpers.mkLateInit true (Some idt')) ∧
    (Descriptors.handler <$> idt' !! 0xFE) = Some (Descriptors.Registered h) ∧
    (Descriptors.handler <$> idt' !! 0xFD) = Some (Descriptors.Registered t) ∧
    (Descriptors.handler <$> idt' !! 0xFF) = Some (Descriptors.Registered sp) ∧
    (∀ v, v <= 252 → idt' !! v = idt !! v) ∧
    (init indexable h t sp (Helpers.mkLateInit true (Some idt'))).1 = Err (Errors.IDTRegisterError 0xFE).
Proof.
  intros Hi Hv. set (g := λ f, Descriptors.mkGate (Descriptors.Registered f) None).
  exists (<[0xFF := g sp]> (<[0xFD := g t]> (<[0xFE := g h]> idt))). split_and!.
  - unfold init, Descriptors.add_idt_entry, mbind, M_bind, Helpers.late_get. cbn. rewrite !Hi by lia. cbn. rewrite !Hv by lia. cbn.
    rewrite lookup_insert_ne, Hv by lia. cbn. by rewrite !lookup_insert_ne, Hv by lia.
  - by simplify_map_eq.
  - by simplify_map_eq.
  - by simplify_map_eq.
  - intros v Hle. by rewrite !lookup_insert_ne by lia.
  - unfold init, Descriptors.add_idt_entry, mbind, M_bind, Helpers.late_get. cbn. rewrite !Hi by lia. cbn. by simplify_map_eq.
Qed.

End Ipi.
