(* ===== verification/Terminal.v ===== *)
(** * Framebuffer, terminal and log (src/kernel/src/display/ and
    src/kernel/src/stdout.rs)

    The terminal draws glyphs into video memory and scrolls by copying pixels.
    Its specification is a grid of cells with a cursor ([Text]); the theorem shows
    that the pixels are those of the grid, whatever is printed.  The font is that
    of the [simple_psf] crate, a parameter.  An access outside the video memory,
    which would be undefined behaviour, is a panic of the model. *)

From S2P Require Import Prelude.

Module Terminal.

(** ** Colours *)

Definition color_new (r g b : Z) : Z := Z.lor (Z.lor (Z.shiftl r 16) (Z.shiftl g 8)) b.
Definition BLACK : Z := 0x000000.
Definition WHITE : Z := 0xFFFFFF.
Definition RED : Z := 0xFF0000.
Definition GREEN : Z := 0x00FF00.
Definition YELLOW : Z := 0xFFFF00.

(** ** framebuffer.rs *)

Record FrameBuffer := mkFB { height : Z; width : Z; pitch : Z; fb_size : Z }.

(** [FONT]: the size of a glyph and its pixels, row by row. *)
Class Font := {
  glyph_width : Z;
  glyph_height : Z;
  get_glyph_pixels : Z → option (list bool)
}.

Class FontLaws `{FO : Font} := {
  glyph_width_pos : 0 < glyph_width < 2 ^ 16;
  glyph_height_pos : 0 < glyph_height < 2 ^ 16;
  glyph_pixels_length c l : get_glyph_pixels c = Some l → Z.of_nat (length l) = glyph_width * glyph_height
}.

Section terminal.
Context {FO : Font}.

Record Terminal := mkTerminal {
  fb : FrameBuffer; cursor_col : Z; cursor_row : Z; fg : Z; bg : Z; cols : Z; rows : Z
}.

(** The terminal and the words of video memory from [address] on. *)
Record Screen := mkScreen { term : Terminal; vram : Z → Z }.

Abbreviation T A := (M Screen Empty_set A).

Definition position (f : FrameBuffer) (x y : Z) : Z := (pitch f / 4) ⊠ y ⊞ x.

Definition put_word (i color : Z) : T unit := λ s,
  if (0 <=? i) && (i <? fb_size (fb (term s)) / 4)
  then (Ok tt, mkScreen (term s) (λ j, if j =? i then color else vram s j)) else (Panic, s).

Definition set_pixel (x y color : Z) : T unit :=
  t ← gets term; put_word (position (fb t) x y) color.

Definition read_pixel (x y : Z) : T Z := λ s,
  let i := position (fb (term s)) x y in
  if (0 <=? i) && (i <? fb_size (fb (term s)) / 4) then (Ok (vram s i), s) else (Panic, s).

Definition fill_screen (color : Z) : T unit :=
  t ← gets term; forM (seqZ 0 (fb_size (fb t) / 4)) (λ i, put_word i color).

(** ** terminal.rs *)

Definition TAB_WIDTH : Z := 8.

Definition terminal_new (f : FrameBuffer) : Terminal :=
  mkTerminal f 0 0 WHITE BLACK (width f / glyph_width) (height f / glyph_height).

Definition set_term (g : Terminal → Terminal) : T unit := modify (λ s, mkScreen (g (term s)) (vram s)).
Definition with_cursor (col row : Z) (t : Terminal) : Terminal :=
  mkTerminal (fb t) col row (fg t) (bg t) (cols t) (rows t).

Definition clear : T unit :=
  t ← gets term;
  fill_screen (bg t);;
  set_term (with_cursor 0 0).

Definition set_colors (fg bg : Z) : T unit :=
  set_term (λ t, mkTerminal (fb t) (cursor_col t) (cursor_row t) fg bg (cols t) (rows t)).

Definition saturating_sub (a b : Z) : Z := Z.max 0 (a - b).

Definition set_cursor (col row : Z) : T unit :=
  set_term (λ t, with_cursor (Z.min col (saturating_sub (cols t) 1)) (Z.min row (saturating_sub (rows t) 1)) t).

Definition render_glyph (glyph_index col row : Z) : T unit :=
  t ← gets term;
  let base_x := col ⊠ glyph_width in
  let base_y := row ⊠ glyph_height in
  match get_glyph_pixels glyph_index with
  | Some pixels =>
      forM (zip (seqZ 0 (Z.of_nat (length pixels))) pixels) (λ p,
        let '(i, on) := p in
        let x := base_x ⊞ i mod glyph_width in
        let y := base_y ⊞ i / glyph_width in
        set_pixel x y (if on : bool then fg t else bg t))
  | None =>
      forM (seqZ 0 glyph_height) (λ gy,
        forM (seqZ 0 glyph_width) (λ gx, set_pixel (base_x ⊞ gx) (base_y ⊞ gy) (bg t)))
  end.

(** [for y in a..b] *)
Definition range (a b : Z) : list Z := seqZ a (b - a).

Definition scroll : T unit :=
  t ← gets term;
  let row_height := glyph_height in
  let fb_w := width (fb t) in
  let fb_h := height (fb t) in
  forM (range row_height fb_h) (λ y,
    forM (range 0 fb_w) (λ x,
      p ← read_pixel x y;
      set_pixel x (y ⊟ row_height) p));;
  forM (range (fb_h ⊟ row_height) fb_h) (λ y,
    forM (range 0 fb_w) (λ x, set_pixel x y (bg t)));;
  set_term (λ t, with_cursor (cursor_col t) (rows t ⊟ 1) t).

Definition advance_row : T unit :=
  set_term (λ t, with_cursor 0 (cursor_row t ⊞ 1) t);;
  t ← gets term;
  if rows t <=? cursor_row t then scroll else mret tt.

Definition print_char (c : Z) : T unit :=
  t ← gets term;
  if c =? 10 then advance_row
  else if c =? 13 then set_term (λ t, with_cursor 0 (cursor_row t) t)
  else if c =? 9 then
    let next := (cursor_col t / TAB_WIDTH ⊞ 1) ⊠ TAB_WIDTH in
    if next <? cols t then set_term (λ t, with_cursor next (cursor_row t) t) else mret tt
  else
    render_glyph c (cursor_col t) (cursor_row t);;
    set_term (λ t, with_cursor (cursor_col t ⊞ 1) (cursor_row t) t);;
    t ← gets term;
    if cols t <=? cursor_col t
    then set_term (λ t, with_cursor 0 (cursor_row t) t);; advance_row
    else mret tt.

Definition print_str (s : list Z) : T unit := forM s print_char.

(** ** stdout.rs *)

Definition log (color : Z) (tag args : list Z) : T unit :=
  set_colors color BLACK;;
  print_str tag;;
  set_colors WHITE BLACK;;
  print_str args;;
  print_str [10].

(** "[OK] ", "[WARN] " and "[ERROR] " *)
Definition OK_TAG : list Z := [91; 79; 75; 93; 32].
Definition WARN_TAG : list Z := [91; 87; 65; 82; 78; 93; 32].
Definition ERROR_TAG : list Z := [91; 69; 82; 82; 79; 82; 93; 32].

(** [TERMINAL] is empty until [init]; what is printed before is lost.  The
    formatted arguments are a string. *)
Record Stdout := mkStdout { TERMINAL : option Terminal; memory : Z → Z }.

Abbreviation O A := (M Stdout Empty_set A).

(** [if let Some(ref mut t) = *TERMINAL.lock()] *)
Definition locked (m : T unit) : O unit := λ s,
  match TERMINAL s with
  | Some t => let '(r, s') := m (mkScreen t (memory s)) in (r, mkStdout (Some (term s')) (vram s'))
  | None => (Ok tt, s)
  end.

Definition stdout_clear : O unit := locked clear.
Definition stdout_set_colors (fg bg : Z) : O unit := locked (set_colors fg bg).
Definition stdout_print (args : list Z) : O unit := locked (print_str args).
Definition log_ok (args : list Z) : O unit := locked (log GREEN OK_TAG args).
Definition log_warn (args : list Z) : O unit := locked (log YELLOW WARN_TAG args).
Definition log_err (args : list Z) : O unit := locked (log RED ERROR_TAG args).

(** "Framebuffer Initialized!" *)
Definition FB_READY : list Z :=
  [70; 114; 97; 109; 101; 98; 117; 102; 102; 101; 114; 32; 73; 110; 105; 116; 105; 97; 108; 105; 122; 101; 100; 33].

Definition stdout_init (framebuffers : list FrameBuffer) : O unit :=
  match framebuffers with
  | [] => panic
  | f :: _ =>
      modify (λ s, mkStdout (Some (terminal_new f)) (memory s));;
      stdout_clear;;
      log_ok FB_READY
  end.
End terminal.

(** ** The grid of cells *)

(** What a cell shows: a character in its colours, or nothing.  An empty cell has
    a band of another colour at its top, as high as what the screen has below the
    last row. *)
Inductive Cell := Glyph (code cell_fg cell_bg : Z) | Blank (band cell_bg : Z).

(** [strip] is the colour of the pixels below the last row, which scrolling moves
    into it. *)
Record Text := mkText {
  cells : Z → Z → Cell; col : Z; row : Z; t_fg : Z; t_bg : Z; t_cols : Z; t_rows : Z; strip : Z
}.

Definition text_newline (t : Text) : Text :=
  if row t + 1 <? t_rows t then mkText (cells t) 0 (row t + 1) (t_fg t) (t_bg t) (t_cols t) (t_rows t) (strip t)
  else mkText (λ c r, if r + 1 <? t_rows t then cells t c (r + 1) else Blank (strip t) (t_bg t))
         0 (row t) (t_fg t) (t_bg t) (t_cols t) (t_rows t) (t_bg t).

Definition text_at (c : Z) (t : Text) : Text :=
  mkText (cells t) c (row t) (t_fg t) (t_bg t) (t_cols t) (t_rows t) (strip t).

Definition text_char (ch : Z) (t : Text) : Text :=
  if ch =? 10 then text_newline t
  else if ch =? 13 then text_at 0 t
  else if ch =? 9 then
    let next := (col t / 8 + 1) * 8 in if next <? t_cols t then text_at next t else t
  else
    let cs := λ c r, if (c =? col t) && (r =? row t) then Glyph ch (t_fg t) (t_bg t) else cells t c r in
    let t' := mkText cs (col t) (row t) (t_fg t) (t_bg t) (t_cols t) (t_rows t) (strip t) in
    if col t + 1 <? t_cols t then text_at (col t + 1) t' else text_newline t'.

Definition text_str (s : list Z) (t : Text) : Text := fold_left (λ t c, text_char c t) s t.

Definition text_colors (fg bg : Z) (t : Text) : Text :=
  mkText (cells t) (col t) (row t) fg bg (t_cols t) (t_rows t) (strip t).

Definition text_log (color : Z) (tag args : list Z) (t : Text) : Text :=
  text_newline (text_str args (text_colors WHITE BLACK (text_str tag (text_colors color BLACK t)))).

Definition text_clear (t : Text) : Text :=
  mkText (λ _ _, Blank (t_bg t) (t_bg t)) 0 0 (t_fg t) (t_bg t) (t_cols t) (t_rows t) (t_bg t).

Definition text_cursor (c r : Z) (t : Text) : Text :=
  mkText (cells t) (Z.min c (t_cols t - 1)) (Z.min r (t_rows t - 1)) (t_fg t) (t_bg t) (t_cols t) (t_rows t) (strip t).

Definition text_init (cols rows : Z) : Text := mkText (λ _ _, Blank BLACK BLACK) 0 0 WHITE BLACK cols rows BLACK.

(** What the kernel asks of the terminal. *)
Inductive Op := OPrint (s : list Z) | OOk (s : list Z) | OWarn (s : list Z) | OErr (s : list Z)
  | OColors (fg bg : Z) | OClear.

Definition exec {FO : Font} (o : Op) : M Stdout Empty_set unit :=
  match o with
  | OPrint s => stdout_print s | OOk s => log_ok s | OWarn s => log_warn s | OErr s => log_err s
  | OColors fg bg => stdout_set_colors fg bg | OClear => stdout_clear
  end.

Definition text_op (t : Text) (o : Op) : Text :=
  match o with
  | OPrint s => text_str s t
  | OOk s => text_log GREEN OK_TAG s t | OWarn s => text_log YELLOW WARN_TAG s t | OErr s => text_log RED ERROR_TAG s t
  | OColors fg bg => text_colors fg bg t | OClear => text_clear t
  end.

(** ** The pixels of a grid *)

Section refinement.
Context {FO : Font} {FL : FontLaws}.
Variable F : FrameBuffer.

Abbreviation gw := glyph_width.
Abbreviation gh := glyph_height.
Abbreviation fw := (width F).
Abbreviation fh := (height F).

(** A framebuffer that holds at least one glyph. *)
Definition fb_ok : Prop :=
  gw <= fw ∧ gh <= fh ∧ fw * 4 <= pitch F ∧ fb_size F = pitch F * fh ∧ fb_size F < 2 ^ 62.
Hypothesis HF : fb_ok.

Definition on_screen (x y : Z) : Prop := 0 <= x < fw ∧ 0 <= y < fh.

Definition px (s : Screen) (x y : Z) : Z := vram s (pitch F / 4 * y + x).

Lemma stride : fw <= pitch F / 4 ∧ pitch F / 4 * fh <= fb_size F / 4 ∧ 0 < fw ∧ 0 < fh ∧ fb_size F / 4 < 2 ^ 60.
Proof.
  destruct HF as (H1 & H2 & H3 & H4 & H5). pose proof glyph_width_pos. pose proof glyph_height_pos.
  assert (fw <= pitch F / 4) by (apply Z.div_le_lower_bound; lia).
  assert (4 * (pitch F / 4) <= pitch F) by (apply Z.mul_div_le; lia).
  assert (4 * (pitch F / 4) * fh <= pitch F * fh) by (apply Z.mul_le_mono_nonneg_r; lia).
  split_and!; [done|apply Z.div_le_lower_bound; lia|lia|lia|apply Z.div_lt_upper_bound; lia].
Qed.

Lemma position_bounds x y : on_screen x y → 0 <= pitch F / 4 * y ∧ 0 <= pitch F / 4 * y + x < fb_size F / 4.
Proof.
  intros [Hx Hy]. destruct stride as (H1 & H2 & _). set (q := pitch F / 4) in *.
  assert (q * y <= q * (fh - 1)) by (apply Z.mul_le_mono_nonneg_l; lia).
  assert (0 <= q * y) by (apply Z.mul_nonneg_nonneg; lia). lia.
Qed.

Lemma position_eq x y : on_screen x y → position F x y = pitch F / 4 * y + x.
Proof.
  intros Hxy. pose proof (position_bounds x y Hxy) as Hb. destruct stride as (_ & _ & _ & _ & H5). destruct Hxy.
  unfold position. rewrite (u64_small (_ * y)) by (unfold in_u64; lia). apply u64_small. unfold in_u64. lia.
Qed.

Lemma position_inj x y x' y' :
  on_screen x y → on_screen x' y' → pitch F / 4 * y + x = pitch F / 4 * y' + x' → x = x' ∧ y = y'.
Proof. intros [? ?] [? ?] E. destruct stride as (Hs & _). assert (y = y') by nia. subst. lia. Qed.

(** [s'] is [s] with the pixels of [P] drawn. *)
Definition painted (s s' : Screen) (P : Z → Z → option Z) : Prop :=
  term s' = term s ∧ ∀ x y, on_screen x y → px s' x y = default (px s x y) (P x y).

Lemma painted_refl s : painted s s (λ _ _, None).
Proof. done. Qed.

Lemma painted_ext s s' P P' :
  (∀ x y, on_screen x y → P x y = P' x y) → painted s s' P → painted s s' P'.
Proof. intros He [Ht Hp]. split; [done|]. intros x y Hxy. by rewrite Hp, He. Qed.

Definition draws (x y c : Z) (P : Z → Z → option Z) : Z → Z → option Z :=
  λ x' y', if (x' =? x) && (y' =? y) then Some c else P x' y'.

Lemma set_pixel_wp {R} x y c P s0 s (Q : Screen → Prop) :
  fb (term s) = F → on_screen x y → painted s0 s P →
  (∀ s', painted s0 s' (draws x y c P) → Q s') → wp (set_pixel x y c) (λ _, Q) R s.
Proof.
  intros Hf Hxy [Ht Hp] HQ. unfold set_pixel. apply wp_bind, wp_gets. unfold wp, put_word.
  rewrite Hf, position_eq by done. pose proof (position_bounds x y Hxy).
  rewrite (proj2 (Z.leb_le _ _)), (proj2 (Z.ltb_lt _ _)) by lia. cbn [andb]. apply HQ. split; [done|].
  intros x' y' Hxy'. unfold px, draws. cbn [vram]. destruct (Z.eqb_spec (pitch F / 4 * y' + x') (pitch F / 4 * y + x)) as [E|E].
  - apply position_inj in E as [-> ->]; [|done|done]. by rewrite !Z.eqb_refl.
  - destruct (Z.eqb_spec x' x), (Z.eqb_spec y' y); subst; try done; by apply Hp.
Qed.

Lemma read_pixel_wp {R} x y s (Q : Z → Screen → Prop) :
  fb (term s) = F → on_screen x y → Q (px s x y) s → wp (read_pixel x y) Q R s.
Proof.
  intros Hf Hxy HQ. unfold wp, read_pixel. rewrite Hf, position_eq by done. pose proof (position_bounds x y Hxy).
  by rewrite (proj2 (Z.leb_le _ _)), (proj2 (Z.ltb_lt _ _)) by lia.
Qed.

(** The pixels of a rectangle drawn row by row, up to column [x] of row [y]. *)
Definition upto (g : Z → Z → Z) (x0 w y0 y x : Z) : Z → Z → option Z := λ X Y,
  if (x0 <=? X) && (X <? x0 + w) && (y0 <=? Y) && ((Y <? y) || (Y =? y) && (X <? x)) then Some (g X Y) else None.

Definition rect (g : Z → Z → Z) (x0 w y0 h : Z) : Z → Z → option Z := λ X Y,
  if (x0 <=? X) && (X <? x0 + w) && (y0 <=? Y) && (Y <? y0 + h) then Some (g X Y) else None.

Ltac pixel_cases := repeat match goal with
  | |- context [?a <=? ?b] => destruct (Z.leb_spec a b)
  | |- context [?a <? ?b] => destruct (Z.ltb_spec a b)
  | |- context [?a =? ?b] => destruct (Z.eqb_spec a b)
  end; cbn [andb orb default]; subst; try done; try lia.

(** A loop over [a .. a + n] that paints [P i] up to [i]. *)
Lemma paint_loop {R} (P : Z → Z → Z → option Z) (body : Z → M Screen Empty_set unit) a n s0 :
  0 <= n → (∀ i s, a <= i < a + n → painted s0 s (P i) → wp (body i) (λ _ s', painted s0 s' (P (i + 1))) R s) →
  ∀ s, painted s0 s (P a) → wp (forM (seqZ a n) body) (λ _ s', painted s0 s' (P (a + n))) R s.
Proof.
  intros Hn Hb s Hs.
  eapply wp_mono; [apply (wp_forM (λ k s, painted s0 s (P (a + Z.of_nat k))))|..]; [by rewrite Z.add_0_r| | |done].
  - intros k i s1 Hk Hp1. apply lookup_seqZ in Hk as [-> Hk]. eapply wp_mono; [apply Hb; [lia|exact Hp1]|..|done].
    intros ? s2 Hp2. by replace (a + Z.of_nat (S k)) with (a + Z.of_nat k + 1) by lia.
  - intros ? s1. cbn beta. by rewrite length_seqZ, Z2Nat.id.
Qed.

(** Nested loops that draw the rectangle with its corner at ([ax + dx], [ay + dy]). *)
Lemma rect_loop {R} g (body : Z → Z → M Screen Empty_set unit) ax w ay h dx dy s0 :
  0 <= w → 0 <= h →
  (∀ x y s, ax <= x < ax + w → ay <= y < ay + h → painted s0 s (upto g (ax + dx) w (ay + dy) (y + dy) (x + dx)) →
     wp (body y x) (λ _ s', painted s0 s'
       (draws (x + dx) (y + dy) (g (x + dx) (y + dy)) (upto g (ax + dx) w (ay + dy) (y + dy) (x + dx)))) R s) →
  wp (forM (seqZ ay h) (λ y, forM (seqZ ax w) (body y)))
     (λ _ s', painted s0 s' (rect g (ax + dx) w (ay + dy) h)) R s0.
Proof.
  intros Hw Hh Hb.
  eapply wp_mono; [apply (paint_loop (λ y, upto g (ax + dx) w (ay + dy) (y + dy) (ax + dx)) _ ay h s0 Hh)|..|done].
  - intros y s Hy Hs.
    eapply wp_mono; [apply (paint_loop (λ x, upto g (ax + dx) w (ay + dy) (y + dy) (x + dx)) _ ax w s0 Hw)|..|done]; [|done|].
    + intros x s1 Hx H1. eapply wp_mono; [by apply Hb|..|done]. intros ? s2. cbn beta. apply painted_ext.
      intros X Y _. unfold draws, upto. pixel_cases.
    + intros ? s2. cbn beta. apply painted_ext. intros X Y _. unfold upto. pixel_cases.
  - apply (painted_ext _ _ (λ _ _, None)); [|done]. intros X Y _. unfold upto. pixel_cases.
  - intros ? s2. cbn beta. apply painted_ext. intros X Y _. unfold upto, rect. pixel_cases.
Qed.
(** The pixels of a glyph in its cell, up to the [k]-th. *)
Definition glyph_upto (l : list bool) (fg bg x0 y0 k : Z) : Z → Z → option Z := λ X Y,
  if (x0 <=? X) && (X <? x0 + gw) && (y0 <=? Y) && (Y <? y0 + gh) && ((Y - y0) * gw + (X - x0) <? k)
  then Some (if default false (l !! Z.to_nat ((Y - y0) * gw + (X - x0))) then fg else bg) else None.

Lemma linear_index x y i : 0 <= x < gw → y * gw + x = i → x = i mod gw ∧ y = i / gw.
Proof. intros ? <-. split; [apply (Z.mod_unique_pos _ _ y)|apply (Z.div_unique_pos _ _ _ x)]; lia. Qed.

Lemma glyph_step l fg bg x0 y0 i b X Y :
  Z.of_nat (length l) = gw * gh → 0 <= i → l !! Z.to_nat i = Some b →
  draws (x0 + i mod gw) (y0 + i / gw) (if b : bool then fg else bg) (glyph_upto l fg bg x0 y0 i) X Y
  = glyph_upto l fg bg x0 y0 (i + 1) X Y.
Proof.
  intros Hl Hi Hb. pose proof glyph_width_pos. pose proof glyph_height_pos. unfold draws, glyph_upto.
  assert (Z.to_nat i < length l)%nat by (by eapply lookup_lt_Some).
  assert (Hm : 0 <= i mod gw < gw) by (apply Z.mod_pos_bound; lia).
  assert (Hd : 0 <= i / gw < gh) by (split; [apply Z.div_pos|apply Z.div_lt_upper_bound]; lia).
  assert (He : i = gw * (i / gw) + i mod gw) by (apply Z.div_mod; lia).
  destruct (Z.eq_dec X (x0 + i mod gw)) as [HX|HX], (Z.eq_dec Y (y0 + i / gw)) as [HY|HY].
  1: { subst X Y. replace ((y0 + i / gw - y0) * gw + (x0 + i mod gw - x0)) with i by lia.
       rewrite !Z.eqb_refl, Hb. pixel_cases. }
  all: assert (0 <= X - x0 < gw → (Y - y0) * gw + (X - x0) ≠ i)
    by (intros Hx Hc; destruct (linear_index _ _ _ Hx Hc); lia); pixel_cases.
Qed.
Lemma dims : 0 < fw < 2 ^ 60 ∧ 0 < fh < 2 ^ 60.
Proof. destruct stride as (H1 & H2 & H3 & H4 & H5). nia. Qed.

Lemma add_small a b : 0 <= a → 0 <= b → a + b < 2 ^ 60 → a ⊞ b = a + b.
Proof. intros. apply u64_small. unfold in_u64. lia. Qed.

Definition cell_pixel (c : Cell) (i j : Z) : Z :=
  match c with
  | Glyph ch f b =>
      match get_glyph_pixels ch with
      | Some l => if default false (l !! Z.to_nat (j * gw + i)) then f else b
      | None => b
      end
  | Blank band b => if j <? fh mod gh then band else b
  end.

(** The cell at column [c] of row [r] is on the screen. *)
Definition cell_on_screen (c r : Z) : Prop := 0 <= c ∧ (c + 1) * gw <= fw ∧ 0 <= r ∧ (r + 1) * gh <= fh.

Lemma cell_base c r : cell_on_screen c r → 
  c ⊠ gw = c * gw ∧ r ⊠ gh = r * gh ∧ 0 <= c * gw ∧ c * gw + gw <= fw ∧ 0 <= r * gh ∧ r * gh + gh <= fh.
Proof.
  intros (H1 & H2 & H3 & H4). pose proof glyph_width_pos. pose proof glyph_height_pos. pose proof dims.
  assert (0 <= c * gw) by (apply Z.mul_nonneg_nonneg; lia). assert (0 <= r * gh) by (apply Z.mul_nonneg_nonneg; lia).
  split_and!; try lia; apply u64_small; unfold in_u64; lia.
Qed.

Lemma render_glyph_wp {R} ch c r s :
  fb (term s) = F → cell_on_screen c r →
  wp (render_glyph ch c r) (λ _ s', painted s s'
    (rect (λ X Y, cell_pixel (Glyph ch (fg (term s)) (bg (term s))) (X - c * gw) (Y - r * gh))
       (c * gw) gw (r * gh) gh)) R s.
Proof.
  intros Hf Hc. destruct (cell_base c r Hc) as (E1 & E2 & H1 & H2 & H3 & H4).
  pose proof glyph_width_pos. pose proof glyph_height_pos. pose proof dims.
  unfold render_glyph. apply wp_bind, wp_gets. rewrite E1, E2. set (x0 := c * gw) in *. set (y0 := r * gh) in *.
  destruct (get_glyph_pixels ch) as [l|] eqn:Hg.
  - pose proof (glyph_pixels_length ch l Hg) as Hl. set (f := fg (term s)). set (b := bg (term s)).
    assert (Hlen : length (zip (seqZ 0 (Z.of_nat (length l))) l) = length l)
      by (rewrite length_zip_with, length_seqZ; lia).
    eapply wp_mono; [apply (wp_forM (λ k s', painted s s' (glyph_upto l f b x0 y0 (Z.of_nat k))))|..|done].
    + apply (painted_ext _ _ (λ _ _, None)); [|done]. intros X Y _. unfold glyph_upto. pixel_cases. nia.
    + intros k [i on] s1 Hk Hs1. apply lookup_zip_with_Some in Hk as (i' & on' & [= <- <-] & Hi & Ho).
      apply lookup_seqZ in Hi as [Hi Hk]. rewrite Z.add_0_l in Hi. subst i.
      assert (0 <= Z.of_nat k mod gw < gw) by (apply Z.mod_pos_bound; lia).
      assert (0 <= Z.of_nat k / gw < gh) by (split; [apply Z.div_pos|apply Z.div_lt_upper_bound]; lia).
      rewrite !add_small by lia.
      apply (set_pixel_wp _ _ _ (glyph_upto l f b x0 y0 (Z.of_nat k)) s); [by destruct Hs1 as [-> _]|split; lia|done|].
      intros s2. apply painted_ext. intros X Y _. rewrite glyph_step; [|done|lia|by rewrite Nat2Z.id].
      by replace (Z.of_nat k + 1) with (Z.of_nat (S k)) by lia.
    + intros ? s1. cbn beta. rewrite Hlen. apply painted_ext. intros X Y _. unfold glyph_upto, rect, cell_pixel.
      rewrite Hg, Hl. pixel_cases. nia.
  - unfold cell_pixel. rewrite Hg.
    eapply wp_mono; [apply (rect_loop (λ _ _, bg (term s)) _ 0 gw 0 gh x0 y0 s); [lia|lia|]|by intros ? ?|done].
    intros x y s1 Hx Hy Hs1. rewrite !add_small by lia. rewrite (Z.add_comm x), (Z.add_comm y) in *.
    eapply set_pixel_wp; [by destruct Hs1 as [-> _]|split; lia|done|by intros].
Qed.
(** Each pixel takes the place of the one a row of text above it; the last row
    of text at the bottom of the screen is cleared. *)
Lemma scroll_wp {R} s (Q : Screen → Prop) :
  fb (term s) = F → 1 <= rows (term s) < 2 ^ 60 →
  (∀ s', term s' = with_cursor (cursor_col (term s)) (rows (term s) - 1) (term s) →
     (∀ x y, on_screen x y → px s' x y = if y + gh <? fh then px s x (y + gh) else bg (term s)) → Q s') →
  wp scroll (λ _, Q) R s.
Proof.
  intros Hf Hr HQ. pose proof glyph_height_pos. pose proof dims. destruct HF as (_ & Hgh & _).
  unfold scroll. apply wp_bind, wp_gets. rewrite Hf. cbv zeta. apply wp_bind. unfold range. rewrite Z.sub_0_r.
  eapply wp_mono; [apply (rect_loop (λ X Y, px s X (Y + gh)) _ 0 fw gh (fh - gh) 0 (- gh) s); [lia|lia|]|..|done].
  { intros x y s1 Hx Hy [Ht Hp]. rewrite !Z.add_0_r in *. replace (gh + - gh) with 0 in * by lia.
    apply wp_bind, read_pixel_wp; [by rewrite Ht|split; lia|].
    rewrite Hp by (split; lia). rewrite u64_small by (unfold in_u64; lia).
    change (y - gh) with (y + - gh). replace (default _ _) with (px s x (y + - gh + gh)).
    - eapply set_pixel_wp; [by rewrite Ht|split; lia|by split|by intros].
    - unfold upto. pixel_cases. all: f_equal; lia. }
  intros ? s1 [Ht Hp]. apply wp_bind. rewrite u64_small by (unfold in_u64; lia).
  replace (fh - (fh - gh)) with gh by lia.
  eapply wp_mono; [apply (rect_loop (λ _ _, bg (term s)) _ 0 fw (fh - gh) gh 0 0 s1); [lia|lia|]|..|done].
  { intros x y s2 Hx Hy Hs2. rewrite !Z.add_0_r in *.
    eapply set_pixel_wp; [by destruct Hs2 as [-> _]; rewrite Ht|split; lia|done|by intros]. }
  intros ? s2 [Ht2 Hp2]. unfold wp, set_term, modify. apply HQ; cbn [term].
  { rewrite Ht2, Ht. f_equal. apply u64_small. unfold in_u64. lia. }
  intros x y [Hx Hy]. change (px (mkScreen _ (vram s2)) x y) with (px s2 x y).
  rewrite Hp2, Hp by (split; lia). unfold rect. pixel_cases.
Qed.

Lemma fill_screen_wp {R} c s (Q : Screen → Prop) :
  fb (term s) = F →
  (∀ s', term s' = term s → (∀ x y, on_screen x y → px s' x y = c) → Q s') → wp (fill_screen c) (λ _, Q) R s.
Proof.
  intros Hf HQ. unfold fill_screen. apply wp_bind, wp_gets. rewrite Hf.
  eapply wp_mono; [apply (wp_forM (λ k s', term s' = term s ∧ ∀ i, 0 <= i < Z.of_nat k → vram s' i = c))|..|done].
  - split; [done|lia].
  - intros k i s1 Hk [Ht Hv]. apply lookup_seqZ in Hk as [-> Hk]. unfold wp, put_word. rewrite Ht, Hf.
    rewrite (proj2 (Z.leb_le _ _)), (proj2 (Z.ltb_lt _ _)) by lia. cbn [andb]. split; [done|].
    intros i Hi. cbn [vram]. destruct (Z.eqb_spec i (0 + Z.of_nat k)); [done|]. apply Hv. lia.
  - intros ? s1 [Ht Hv]. apply HQ; [done|]. intros x y Hxy. pose proof (position_bounds x y Hxy).
    rewrite length_seqZ in Hv. apply Hv. lia.
Qed.

(** ** The refinement *)

(** A grid of the size of the framebuffer, with its cursor inside. *)
Definition framed (t : Text) : Prop :=
  t_cols t = fw / gw ∧ t_rows t = fh / gh ∧ 0 <= col t < t_cols t ∧ 0 <= row t < t_rows t.

(** Each cell's pixels are those of its glyph or its colours, and the pixels below
    the last row have theirs. *)
Definition pixels (s : Screen) (t : Text) : Prop :=
  (∀ c r i j, 0 <= c < t_cols t → 0 <= r < t_rows t → 0 <= i < gw → 0 <= j < gh →
     px s (c * gw + i) (r * gh + j) = cell_pixel (cells t c r) i j) ∧
  (∀ x y, 0 <= x < t_cols t * gw → t_rows t * gh <= y < fh → px s x y = strip t).

Definition term_at (c r : Z) (t : Text) : Terminal := mkTerminal F c r (t_fg t) (t_bg t) (t_cols t) (t_rows t).

(** The screen shows the grid. *)
Definition shows (s : Screen) (t : Text) : Prop := term s = term_at (col t) (row t) t ∧ framed t ∧ pixels s t.

Lemma grid_dims : 1 <= fw / gw ∧ 1 <= fh / gh ∧ fw / gw * gw <= fw ∧ fh / gh * gh <= fh < (fh / gh + 1) * gh
  ∧ fw / gw < 2 ^ 60 ∧ fh / gh < 2 ^ 60.
Proof.
  pose proof glyph_width_pos. pose proof glyph_height_pos. pose proof dims. destruct HF as (Hw & Hh & _).
  assert (1 <= fw / gw) by (apply Z.div_le_lower_bound; lia). assert (1 <= fh / gh) by (apply Z.div_le_lower_bound; lia).
  pose proof (Z.mul_div_le fw gw). pose proof (Z.mul_div_le fh gh). pose proof (Z.mul_succ_div_gt fh gh).
  assert (fw / gw < 2 ^ 60) by (apply Z.div_lt_upper_bound; nia).
  assert (fh / gh < 2 ^ 60) by (apply Z.div_lt_upper_bound; nia). lia.
Qed.

Lemma grid_cell t c r : t_cols t = fw / gw → t_rows t = fh / gh → 0 <= c < t_cols t → 0 <= r < t_rows t →
  cell_on_screen c r.
Proof.
  intros -> -> Hc Hr. pose proof grid_dims. pose proof glyph_width_pos. pose proof glyph_height_pos.
  assert ((c + 1) * gw <= fw / gw * gw) by (apply Z.mul_le_mono_nonneg_r; lia).
  assert ((r + 1) * gh <= fh / gh * gh) by (apply Z.mul_le_mono_nonneg_r; lia). unfold cell_on_screen. lia.
Qed.
Lemma cell_in_rect c c' w i : 0 < w → 0 <= i < w → (c * w <=? c' * w + i) && (c' * w + i <? c * w + w) = (c' =? c).
Proof. intros Hw Hi. destruct (Z.eqb_spec c' c) as [->|Hne]; pixel_cases; nia. Qed.

Lemma scrolled_pixels s s' t :
  framed t → pixels s t →
  (∀ x y, on_screen x y → px s' x y = if y + gh <? fh then px s x (y + gh) else t_bg t) →
  pixels s' (mkText (λ c r, if r + 1 <? t_rows t then cells t c (r + 1) else Blank (strip t) (t_bg t))
         0 (row t) (t_fg t) (t_bg t) (t_cols t) (t_rows t) (t_bg t)).
Proof.
  intros (Hc & Hr & _) [Hp Hb] Hs. pose proof grid_dims. pose proof glyph_width_pos. pose proof glyph_height_pos.
  assert (Hon : ∀ x y, 0 <= x < t_cols t * gw → 0 <= y < fh → on_screen x y) by (rewrite Hc; split; lia).
  assert (fh mod gh = fh - t_rows t * gh) as Hm by (pose proof (Z.div_mod fh gh); rewrite Hr; lia).
  split; cbn [t_cols t_rows cells t_bg strip].
  - intros c r i j Hc' Hr' Hi Hj. assert (0 <= c * gw ∧ (c + 1) * gw <= t_cols t * gw) by nia.
    assert (0 <= r * gh ∧ (r + 1) * gh <= t_rows t * gh) by nia. rewrite Hs by (apply Hon; lia).
    replace (r * gh + j + gh) with ((r + 1) * gh + j) by lia. destruct (Z.ltb_spec (r + 1) (t_rows t)) as [Hl|Hl].
    + assert ((r + 1 + 1) * gh <= t_rows t * gh) by nia. rewrite (proj2 (Z.ltb_lt _ _)) by lia. apply Hp; lia.
    + assert (r + 1 = t_rows t) as -> by lia. unfold cell_pixel. rewrite Hm.
      replace (j <? fh - t_rows t * gh) with (t_rows t * gh + j <? fh) by (destruct (Z.ltb_spec (t_rows t * gh + j) fh); symmetry; [apply Z.ltb_lt|apply Z.ltb_ge]; lia).
      destruct (Z.ltb_spec (t_rows t * gh + j) fh); [|done]. apply Hb; lia.
  - intros x y Hx Hy. rewrite Hs by (apply Hon; lia). assert (fh < (t_rows t + 1) * gh) by (rewrite Hr; lia).
    by destruct (Z.ltb_spec (y + gh) fh); [lia|].
Qed.

Lemma advance_row_wp {R} s c t :
  term s = term_at c (row t) t → framed t → pixels s t → wp advance_row (λ _ s', shows s' (text_newline t)) R s.
Proof.
  intros Ht Hfr Hp. pose proof Hfr as (Hc & Hr & Hc' & Hr'). pose proof grid_dims.
  unfold advance_row. eapply wp_step; [done|]. apply wp_bind, wp_gets. cbn [term]. rewrite Ht.
  cbn [with_cursor term_at rows cursor_row fb fg bg cols]. rewrite add_small by lia.
  unfold text_newline. rewrite (Z.ltb_antisym (t_rows t) (row t + 1)). destruct (Z.leb_spec (t_rows t) (row t + 1)); cbn [negb].
  - apply scroll_wp; cbn [term vram fb rows bg with_cursor term_at cursor_col]; [done|lia|]. intros s' Ht' Hpx. split_and!.
    + rewrite Ht'. unfold with_cursor, term_at. cbn. f_equal. lia.
    + unfold framed. cbn. lia.
    + by apply (scrolled_pixels s).
  - split_and!; [done|unfold framed; cbn; lia|exact Hp].
Qed.

Lemma glyph_pixels s s' t ch :
  framed t → pixels s t →
  painted s s' (rect (λ X Y, cell_pixel (Glyph ch (t_fg t) (t_bg t)) (X - col t * gw) (Y - row t * gh))
    (col t * gw) gw (row t * gh) gh) →
  pixels s' (mkText (λ c r, if (c =? col t) && (r =? row t) then Glyph ch (t_fg t) (t_bg t) else cells t c r)
    (col t) (row t) (t_fg t) (t_bg t) (t_cols t) (t_rows t) (strip t)).
Proof.
  intros Hfr [Hp Hb] [_ Hs]. pose proof Hfr as (Hc & Hr & Hc' & Hr'). pose proof grid_dims.
  pose proof glyph_width_pos. pose proof glyph_height_pos. unfold rect in Hs.
  split; cbn [t_cols t_rows cells t_bg strip].
  - intros c r i j Hc1 Hr1 Hi Hj. destruct (cell_base c r (grid_cell t c r Hc Hr Hc1 Hr1)) as (_ & _ & ?).
    rewrite Hs by (split; lia). rewrite <-andb_assoc, !cell_in_rect by lia.
    destruct (Z.eqb_spec c (col t)) as [->|], (Z.eqb_spec r (row t)) as [->|]; cbn [andb default]; try by apply Hp.
    by rewrite !Z.add_simpl_l.
  - intros x y Hx Hy. rewrite Hs by (rewrite Hc in Hx; split; nia).
    assert ((row t + 1) * gh <= t_rows t * gh) by nia.
    replace (y <? row t * gh + gh) with false by (symmetry; apply Z.ltb_ge; lia).
    rewrite andb_false_r. by apply Hb.
Qed.
Lemma print_char_wp ch s t :
  shows s t → wp (print_char ch) (λ _ s', shows s' (text_char ch t)) (λ _ _, False) s.
Proof.
  intros (Ht & Hfr & Hp). pose proof Hfr as (Hc & Hr & Hc' & Hr'). pose proof grid_dims.
  unfold print_char, text_char. apply wp_bind, wp_gets. rewrite Ht. cbn [term_at cursor_col cursor_row cols].
  assert (0 <= col t / 8 <= col t) by (split; [apply Z.div_pos|apply Z.div_le_upper_bound]; lia).
  change TAB_WIDTH with 8. rewrite (add_small (col t / 8)), (u64_small (_ * 8)) by (unfold in_u64; lia). cbv zeta.
  destruct (ch =? 10); [by eapply advance_row_wp|].
  destruct (ch =? 13); [|destruct (ch =? 9); [destruct (Z.ltb_spec ((col t / 8 + 1) * 8) (t_cols t))|]].
  - split_and!; [cbn; by rewrite Ht|unfold framed; cbn; lia|done].
  - split_and!; [cbn; by rewrite Ht|unfold framed; cbn; lia|done].
  - by split_and!.
  - set (t' := mkText _ _ _ _ _ _ _ _).
    apply wp_bind. eapply wp_mono; [apply (render_glyph_wp (R := λ _ _, False)); [by rewrite Ht|by eapply grid_cell]|..|done].
    rewrite Ht. cbn [term_at fg bg]. intros ? s1 Hs1. pose proof (glyph_pixels s s1 t ch Hfr Hp Hs1) as Hp1.
    destruct Hs1 as [Ht1 _]. eapply wp_step; [done|]. apply wp_bind, wp_gets. cbn [term]. rewrite Ht1, Ht.
    cbn [with_cursor term_at cols cursor_col cursor_row fb fg bg rows]. rewrite add_small by lia.
    rewrite (Z.ltb_antisym (t_cols t) (col t + 1)). destruct (Z.leb_spec (t_cols t) (col t + 1)); cbn [negb].
    + eapply wp_step; [done|]. by apply (advance_row_wp _ 0 t').
    + split_and!; [done|unfold framed; cbn; lia|done].
Qed.

Lemma print_str_wp l s t : shows s t → wp (print_str l) (λ _ s', shows s' (text_str l t)) (λ _ _, False) s.
Proof.
  revert s t. induction l as [|ch l IH]; intros s t Hs; [done|].
  apply wp_bind. eapply wp_mono; [by apply print_char_wp|..|done]. intros ? s1 H1. by apply IH.
Qed.

Lemma colors_shown f b s t : shows s t →
  wp (set_colors f b) (λ _ s', shows s' (text_colors f b t)) (λ _ _, False) s.
Proof. intros (Ht & Hfr & Hp). split_and!; [cbn; by rewrite Ht|done|exact Hp]. Qed.

Lemma log_shown color tag args s t : shows s t →
  wp (log color tag args) (λ _ s', shows s' (text_log color tag args t)) (λ _ _, False) s.
Proof.
  intros Hs. unfold log.
  apply wp_bind. eapply wp_mono; [by apply colors_shown|..|done]. intros ? s1 H1.
  apply wp_bind. eapply wp_mono; [exact (print_str_wp _ _ _ H1)|..|done]. intros ? s2 H2.
  apply wp_bind. eapply wp_mono; [apply colors_shown; exact H2|..|done]. intros ? s3 H3.
  apply wp_bind. eapply wp_mono; [exact (print_str_wp _ _ _ H3)|..|done]. intros ? s4 H4.
  eapply wp_mono; [exact (print_str_wp [10] _ _ H4)|by intros|done].
Qed.

Lemma clear_shown s t : term s = term_at (col t) (row t) t → t_cols t = fw / gw → t_rows t = fh / gh →
  wp clear (λ _ s', shows s' (text_clear t)) (λ _ _, False) s.
Proof.
  intros Ht Hc Hr. unfold clear. apply wp_bind, wp_gets, wp_bind, fill_screen_wp; rewrite Ht; [done|].
  intros s1 Ht1 Hp1. pose proof grid_dims. pose proof glyph_width_pos. pose proof glyph_height_pos.
  split_and!; [cbn; by rewrite Ht1|unfold framed; cbn; lia|].
  split; cbn [text_clear t_cols t_rows cells t_bg strip].
  - intros c r i j Hc1 Hr1 Hi Hj. destruct (cell_base c r (grid_cell t c r Hc Hr Hc1 Hr1)) as (_ & _ & ?).
    trans (t_bg t); [apply Hp1; split; lia|]. unfold cell_pixel. by case_match.
  - intros x y Hx Hy. apply Hp1. rewrite Hc in Hx. rewrite Hr in Hy. split; nia.
Qed.

Lemma cursor_shown c r s t : 0 <= c → 0 <= r → shows s t →
  wp (set_cursor c r) (λ _ s', shows s' (text_cursor c r t)) (λ _ _, False) s.
Proof.
  intros Hc Hr (Ht & (H1 & H2 & H3 & H4) & Hp). split_and!; [|unfold framed; cbn; lia|done].
  cbn. rewrite Ht. unfold with_cursor, term_at, saturating_sub. cbn. f_equal; lia.
Qed.
(** What is on the screen behind [TERMINAL]. *)
Definition displays (s : Stdout) (t : Text) : Prop :=
  ∃ m, TERMINAL s = Some m ∧ shows (mkScreen m (memory s)) t.

Lemma locked_wp (m : M Screen Empty_set unit) s t t' :
  displays s t → (∀ s, shows s t → wp m (λ _ s', shows s' t') (λ _ _, False) s) →
  wp (locked m) (λ _ s', displays s' t') (λ _ _, False) s.
Proof.
  intros (u & Hu & Hs) Hm. specialize (Hm _ Hs). unfold wp, locked in *. rewrite Hu.
  destruct (m _) as [[] [u' v]]; try done. by exists u'.
Qed.

Lemma exec_wp o s t : displays s t → wp (exec o) (λ _ s', displays s' (text_op t o)) (λ _ _, False) s.
Proof.
  intros Hd. destruct o; (eapply locked_wp; [exact Hd|]); intros s1 Hs1; try by apply log_shown.
  - by apply print_str_wp.
  - by apply colors_shown.
  - destruct Hs1 as (Ht & (Hc & Hr & _) & _). by apply clear_shown.
Qed.

Lemma execs_wp ops s t : displays s t →
  wp (forM ops exec) (λ _ s', displays s' (fold_left text_op ops t)) (λ _ _, False) s.
Proof.
  revert s t. induction ops as [|o ops IH]; intros s t Hd; [done|].
  apply wp_bind. eapply wp_mono; [by apply exec_wp|..|done]. intros ? s1 Hs1. by apply IH.
Qed.

Definition grid_init : Text := text_init (fw / gw) (fh / gh).

Lemma init_wp msg s :
  wp (modify (λ s, mkStdout (Some (terminal_new F)) (memory s));; stdout_clear;; log_ok msg)
     (λ _ s', displays s' (text_op grid_init (OOk msg))) (λ _ _, False) s.
Proof.
  apply wp_bind. change (wp (stdout_clear;; log_ok msg) (λ _ s', displays s' (text_op grid_init (OOk msg)))
    (λ _ _, False) (mkStdout (Some (terminal_new F)) (memory s))). apply wp_bind.
  assert (Hc : wp clear (λ _ s', shows s' grid_init) (λ _ _, False) (mkScreen (terminal_new F) (memory s)))
    by exact (clear_shown (mkScreen (terminal_new F) (memory s)) grid_init eq_refl eq_refl eq_refl).
  apply (wp_mono _ (λ _ s', displays s' grid_init) _ (λ _ _, False)); [|intros ? s1 Hs1|done].
  - unfold wp, stdout_clear, locked in *. cbn [TERMINAL memory].
    destruct (clear _) as [[] [u' v]]; try done. by exists u'.
  - exact (exec_wp (OOk msg) s1 grid_init Hs1).
Qed.
End refinement.

(** C30. Whatever the kernel logs and prints after the initialisation of the
    terminal, in whatever colours, no access leaves the video memory and the pixels
    on the screen are those of a grid of characters with a cursor: a character is
    drawn in its cell in the current colours, a full line and a newline go to the
    next row, and at the bottom each row takes the place of the one above it.  An
    empty cell has the background colour that was current when it appeared, but for
    a band at its top, as high as the strip of the screen below the last row and of
    the colour which that strip had: scrolling moves it there.  The framebuffer
    holds at least one glyph. *)
Theorem terminal_refines {FO : Font} {FL : FontLaws} (F : FrameBuffer) others ops s :
  fb_ok F →
  wp (stdout_init (F :: others);; forM ops exec)
     (λ _ s', displays F s' (fold_left text_op ops (text_op (grid_init F) (OOk FB_READY)))) (λ _ _, False) s.
Proof.
  intros HF. unfold stdout_init. generalize FB_READY as msg. intros msg. apply wp_bind.
  apply (wp_mono _ _ _ _ _ _ (init_wp F HF msg s)); [|by intros []]. intros ? s1 Hs1.
  apply (execs_wp F HF). exact Hs1.
Qed.

(** *** A screen of seven rows of pixels with a font of two by two pixels *)

Definition tiny_font : Font := {|
  glyph_width := 2; glyph_height := 2;
  get_glyph_pixels c := if c <? 128 then Some [Z.odd c; Z.odd (c / 2); Z.odd (c / 4); Z.odd (c / 8)] else None
|}.

Lemma tiny_font_laws : FontLaws (FO := tiny_font).
Proof.
  constructor; [cbn; lia..|]. cbn. intros c l. by destruct (c <? 128); intros [= <-].
Qed.

Definition tiny_fb : FrameBuffer := mkFB 7 10 48 336.

Definition tiny_run : res Empty_set unit * Stdout :=
  (stdout_init (FO := tiny_font) [tiny_fb];; forM [OOk [65; 9; 66; 10; 200]; OPrint [67]] (exec (FO := tiny_font)))
    (mkStdout None (λ _, 7)).

(** What the theorem shows on it is what it draws: the last line of text and the
    cursor behind it. *)
Lemma terminal_refines_witness :
  (∃ s', tiny_run = (Ok tt, s') ∧ displays (FO := tiny_font) tiny_fb s'
     (fold_left text_op [OOk [65; 9; 66; 10; 200]; OPrint [67]]
        (text_op (grid_init (FO := tiny_font) tiny_fb) (OOk FB_READY)))) ∧
  match tiny_run with
  | (Ok tt, mkStdout (Some t) v) =>
      cursor_col t = 1 ∧ cursor_row t = 2 ∧ map v (seqZ 48 10 ++ seqZ 60 10) =
        [WHITE; WHITE; 0; 0; 0; 0; 0; 0; 0; 0; 0; 0; 0; 0; 0; 0; 0; 0; 0; 0]
  | _ => False
  end.
Proof.
  split; [|by vm_compute].
  assert (Hok : fb_ok (FO := tiny_font) tiny_fb) by (unfold fb_ok; cbn; lia).
  pose proof (terminal_refines (FO := tiny_font) (FL := tiny_font_laws) tiny_fb [] [OOk [65; 9; 66; 10; 200]; OPrint [67]]
    (mkStdout None (λ _, 7)) Hok) as Hw.
  apply wp_Ok in Hw as ([] & s' & Hr & Hs). exists s'. split; [exact Hr|exact Hs].
Defined.

End Terminal.
