(* ===== verification/DirectMap.v ===== *)
(** * Pages through the direct map (src/kernel/src/memory/physical.rs)

    [alloc_pages] zeroes the frames it takes from the buddy allocator through
    the direct map of physical memory, and, for a run of 2 MiB or 1 GiB, replaces
    the tables that map it there by one entry for a huge page and gives their
    frames back.  The theorem shows that this changes no translation of any
    address space.  Physical memory is a function from the addresses of 8-byte
    words; a pointer into the direct map reads it at the address less
    [HHDM_OFFSET].  [VirtAddr::new] is a parameter.  The words the allocator keeps
    in free frames are its own ([FreeList.Mem]); the theorem lets the frames given
    back change at will. *)

From S2P Require Import Prelude FreeList Slab Buddy Physical Errors RangeAllocator Virt PageTables.
Import FreeList.

Module DirectMap.

Abbreviation entry_addr := Virt.entry_addr.
Abbreviation is_unused := Virt.is_unused.
Abbreviation is_present := Virt.is_present.
Abbreviation is_huge := Virt.is_huge.
Abbreviation pt_index := PageTables.pt_index.

(** What the other components see: the frames given back and the requests that
    all CPUs flush their translations. *)
Inductive Event := Freed (start count : Z) | Shootdown.

Record St := mkSt { frames : Buddy.St; ram : Z → Z; cr3 : Z; trace : list Event }.

Section code.
Context (virt_new : Z → option Z) (HHDM_OFFSET : Z).

Definition phys_to_virt (phys : Z) : K St Z := Virt.opt_panic (virt_new (phys ⊞ HHDM_OFFSET)).
Definition virt_to_phys (virt : Z) : Z := virt ⊟ HHDM_OFFSET.

(** Reads and writes of a word through a pointer into the direct map. *)
Definition read_word (p : Z) : K St Z := gets (λ s, ram s (virt_to_phys p)).
Definition write_word (p v : Z) : K St unit :=
  modify (λ s, mkSt (frames s) (λ w, if w =? virt_to_phys p then v else ram s w) (cr3 s) (trace s)).

Definition on_frames {A} (m : K Buddy.St A) : K St A := λ s,
  let '(r, b) := m (frames s) in (r, mkSt b (ram s) (cr3 s) (trace s)).

Definition emit (e : Event) : K St unit :=
  modify (λ s, mkSt (frames s) (ram s) (cr3 s) (trace s ++ [e])).

(** [rep stosq] *)
Definition zero_pages (start count : Z) : K St unit :=
  let word_count := count ⊠ PAGE_SIZE / 8 in
  forM (seqZ 0 word_count) (λ i, write_word (start ⊞ 8 ⊠ i) 0).

Definition free_frames (start count : Z) : K St unit :=
  on_frames (Physical.free_frames virt_new start count);;
  emit (Freed start count).

Definition active_l4_table : K St Z := s ← gets cr3; phys_to_virt s.
Definition get_pagetable (e : Z) : K St Z := phys_to_virt (entry_addr e).

(** Entry [i] of the table behind a pointer, and [PageTableEntry::set_addr]. *)
Definition entry (table i : Z) : K St Z := read_word (table ⊞ 8 ⊠ i).
Definition set_addr (table i addr flags : Z) : K St unit :=
  if negb (is_multiple_of addr PAGE_SIZE) then panic else write_word (table ⊞ 8 ⊠ i) (Z.lor addr flags).

Definition PAGES_2MIB : Z := Virt.SIZE Virt.Size2MiB / PAGE_SIZE.
Definition PAGES_1GIB : Z := Virt.SIZE Virt.Size1GiB / PAGE_SIZE.
Definition HUGE_PAGE : Z := 128.
Definition upgrade_flags : Z := Z.lor (Z.lor (Z.lor Virt.PRESENT Virt.WRITABLE) Virt.GLOBAL) HUGE_PAGE.

Definition try_upgrade_hhdm (phys count : Z) : K St unit :=
  l4 ← active_l4_table;
  virt ← phys_to_virt phys;
  let l4_index := pt_index 4 virt in
  let l3_index := pt_index 3 virt in
  let l2_index := pt_index 2 virt in
  l4_entry ← entry l4 l4_index;
  if is_unused l4_entry || is_huge l4_entry then mret tt else
  l3 ← get_pagetable l4_entry;
  let flags := upgrade_flags in
  if (count =? PAGES_1GIB) && is_multiple_of phys (Virt.SIZE Virt.Size1GiB) then
    l3_entry ← entry l3 l3_index;
    if is_unused l3_entry || is_huge l3_entry then mret tt else
    let l2_frame := entry_addr l3_entry in
    set_addr l3 l3_index phys flags;;
    l2 ← phys_to_virt l2_frame;
    forM (seqZ 0 512) (λ i,
      e ← entry l2 i;
      if is_unused e || is_huge e then mret tt else free_frames (entry_addr e) 1);;
    free_frames l2_frame 1;;
    emit Shootdown
  else if (count =? PAGES_2MIB) && is_multiple_of phys (Virt.SIZE Virt.Size2MiB) then
    l3_entry ← entry l3 l3_index;
    if is_unused l3_entry || is_huge l3_entry then mret tt else
    l2 ← get_pagetable l3_entry;
    l2_entry ← entry l2 l2_index;
    if is_unused l2_entry || is_huge l2_entry then mret tt else
    let l1_frame := entry_addr l2_entry in
    set_addr l2 l2_index phys flags;;
    free_frames l1_frame 1;;
    emit Shootdown
  else mret tt.

Definition alloc_pages (count : Z) : K St (option Z) :=
  r ← on_frames (Physical.alloc_pages_raw virt_new count);
  match r with
  | None => mret None
  | Some start =>
      virt ← phys_to_virt start;
      zero_pages virt count;;
      try_upgrade_hhdm start count;;
      mret (Some virt)
  end.
End code.

(** ** The page walk of the processor *)

(** The bytes an entry of a table of level [S l] maps. *)
Definition reach (l : nat) : Z := 2 ^ (12 + 9 * Z.of_nat l).

Section walks.
Implicit Types ram : Z → Z.

Definition slot (l : nat) (t a : Z) : Z := t + 8 * pt_index (Z.of_nat l) a.

Definition leaf_addr (l : nat) (e a : Z) : Z := entry_addr e - entry_addr e mod reach l + a mod reach l.

(** The physical address of [a], from its table [t] of level [l]. *)
Fixpoint walk ram (l : nat) (t a : Z) : option Z :=
  match l with
  | O => None
  | S k =>
      let e := ram (slot l t a) in
      if negb (is_present e) then None
      else if (k =? 0)%nat then Some (leaf_addr 0 e a)
      else if is_huge e then (if (k <? 3)%nat then Some (leaf_addr k e a) else None)
      else walk ram k (entry_addr e) a
  end.

(** The tables the walk reads, with their levels. *)
Fixpoint tables ram (l : nat) (t a : Z) : list (nat * Z) :=
  match l with
  | O => []
  | S k =>
      let e := ram (slot l t a) in
      (l, t) :: if is_present e && negb (is_huge e) then tables ram k (entry_addr e) a else []
  end.

(** The addresses that share the tables from level [l] up. *)
Definition region (l : nat) (a : Z) : Z := (a mod 2 ^ 48) / reach l.

Lemma reach_pos l : 0 < reach l.
Proof. unfold reach. apply Z.pow_pos_nonneg; lia. Qed.

Lemma region_S l a : region (S l) a = region l a / 512.
Proof.
  unfold region, reach. rewrite Z.div_div by lia. f_equal.
  replace (12 + 9 * Z.of_nat (S l)) with (12 + 9 * Z.of_nat l + 9) by lia. by rewrite Z.pow_add_r by lia.
Qed.

Lemma pt_index_region l a : (l < 4)%nat → pt_index (Z.of_nat (S l)) a = region l a mod 512.
Proof.
  intros Hl. unfold PageTables.pt_index, region, reach.
  rewrite (Z.land_ones _ 9), Z.shiftr_div_pow2 by lia. change (2 ^ 9) with 512.
  replace (3 + 9 * Z.of_nat (S l)) with (12 + 9 * Z.of_nat l) by lia.
  rewrite (Z.div_mod a (2 ^ 48)) at 1 by lia.
  set (q := a / 2 ^ 48). set (r := a mod 2 ^ 48).
  assert (l = 0 ∨ l = 1 ∨ l = 2 ∨ l = 3)%nat as [-> |[-> |[-> | ->]]] by lia.
  - replace (2 ^ 48 * q + r) with (q * 2 ^ 27 * 512 * 2 ^ 12 + r) by lia.
    rewrite Z.div_add_l by lia. rewrite Z.add_comm, Z.mod_add by lia. done.
  - replace (2 ^ 48 * q + r) with (q * 2 ^ 18 * 512 * 2 ^ 21 + r) by lia.
    rewrite Z.div_add_l by lia. rewrite Z.add_comm, Z.mod_add by lia. done.
  - replace (2 ^ 48 * q + r) with (q * 2 ^ 9 * 512 * 2 ^ 30 + r) by lia.
    rewrite Z.div_add_l by lia. rewrite Z.add_comm, Z.mod_add by lia. done.
  - replace (2 ^ 48 * q + r) with (q * 512 * 2 ^ 39 + r) by lia.
    rewrite Z.div_add_l by lia. rewrite Z.add_comm, Z.mod_add by lia. done.
Qed.

Lemma pt_index_bounds l a : 0 <= pt_index l a < 512.
Proof. unfold PageTables.pt_index. rewrite (Z.land_ones _ 9) by lia. apply Z.mod_pos_bound. lia. Qed.

Lemma region_up j k a b : region j a = region j b → (j <= k)%nat → region k a = region k b.
Proof. intros H. induction 1 as [|k Hk IH]; [done|]. by rewrite !region_S, IH. Qed.

Lemma region_down l a b : (l < 4)%nat →
  region (S l) a = region (S l) b → pt_index (Z.of_nat (S l)) a = pt_index (Z.of_nat (S l)) b →
  region l a = region l b.
Proof.
  intros Hl. rewrite !region_S, !pt_index_region by done. intros H1 H2.
  rewrite (Z.div_mod (region l a) 512), (Z.div_mod (region l b) 512) by lia. congruence.
Qed.

(** ** The tables of a walk *)

Lemma tables_level ram l t a j u : (j, u) ∈ tables ram l t a → (1 <= j <= l)%nat.
Proof.
  revert t. induction l as [|k IH]; intros t; [by intros []%elem_of_nil|]. cbn [tables].
  intros [[= -> ->]|H]%elem_of_cons; [lia|]. destruct (_ && _); [|by apply elem_of_nil in H].
  apply IH in H. lia.
Qed.

Lemma tables_top ram l t a u : (l, u) ∈ tables ram l t a → u = t.
Proof.
  destruct l as [|k]; [by intros []%elem_of_nil|]. cbn [tables]. intros [[= ->]|H]%elem_of_cons; [done|].
  destruct (_ && _); [|by apply elem_of_nil in H]. apply tables_level in H. lia.
Qed.

Lemma tables_fun ram l t a j u u' : (j, u) ∈ tables ram l t a → (j, u') ∈ tables ram l t a → u = u'.
Proof.
  revert t. induction l as [|k IH]; intros t; [by intros []%elem_of_nil|]. intros H H'.
  destruct (decide (j = S k)) as [->|Hne].
  - apply tables_top in H as ->. by apply tables_top in H' as ->.
  - cbn [tables] in *. apply elem_of_cons in H as [[= ? ?]|H]; [done|].
    apply elem_of_cons in H' as [[= ? ?]|H']; [done|].
    destruct (_ && _); [|by apply elem_of_nil in H]. by eapply IH.
Qed.

(** Lower tables are reached through all the levels above them. *)
Lemma tables_above ram l t a j u k : (j, u) ∈ tables ram l t a → (j <= k <= l)%nat → ∃ w, (k, w) ∈ tables ram l t a.
Proof.
  revert t. induction l as [|l IH]; intros t; [by intros []%elem_of_nil|]. intros H Hk.
  destruct (decide (k = S l)) as [->|]; [exists t; cbn [tables]; set_solver|]. cbn [tables] in *.
  apply elem_of_cons in H as [[= ? ?]|H]; [lia|]. destruct (_ && _); [|by apply elem_of_nil in H].
  destruct (IH _ H) as [w Hw]; [lia|]. exists w. by right.
Qed.

Lemma tables_tail ram k t a l u : (l, u) ∈ tables ram (S k) t a → (l <= k)%nat →
  ∃ w, (k, w) ∈ tables ram (S k) t a ∧ (l, u) ∈ tables ram k w a.
Proof.
  cbn [tables]. intros [[= -> ->]|H]%elem_of_cons Hl; [lia|]. destruct (_ && _); [|by apply elem_of_nil in H].
  eexists. split; [|exact H]. right. destruct k; [by apply elem_of_nil in H|]. by left.
Qed.

Lemma tables_region ram l t a b j u :
  (l <= 4)%nat → (j, u) ∈ tables ram l t a → region j a = region j b → (j, u) ∈ tables ram l t b.
Proof.
  revert t. induction l as [|k IH]; intros t Hl H Hr; [by apply elem_of_nil in H|].
  cbn [tables] in *. apply elem_of_cons in H as [[= -> ->]|H]; [by left|]. right.
  assert (slot (S k) t a = slot (S k) t b) as <-.
  { unfold slot. rewrite !pt_index_region by lia. do 3 f_equal. eapply region_up; [exact Hr|].
    destruct (_ && _); [apply tables_level in H; lia|by apply elem_of_nil in H]. }
  destruct (_ && _); [|done]. apply IH; [lia|done|done].
Qed.

(** A walk depends on the words it reads only. *)
Lemma walk_agree ram ram' l t a :
  (∀ j u, (j, u) ∈ tables ram l t a → ram' (slot j u a) = ram (slot j u a)) →
  walk ram' l t a = walk ram l t a ∧ tables ram' l t a = tables ram l t a.
Proof.
  revert t. induction l as [|k IH]; intros t H; [done|]. cbn [walk tables] in *.
  rewrite (H (S k) t) by (by left).
  assert (is_present (ram (slot (S k) t a)) && negb (is_huge (ram (slot (S k) t a))) = true →
    walk ram' k (entry_addr (ram (slot (S k) t a))) a = walk ram k (entry_addr (ram (slot (S k) t a))) a ∧
    tables ram' k (entry_addr (ram (slot (S k) t a))) a = tables ram k (entry_addr (ram (slot (S k) t a))) a) as IH'.
  { intros E. apply IH. intros j u Hu. apply H. right. by rewrite E. }
  destruct (is_present _), (is_huge _); cbn [andb negb] in *; try by destruct (k =? 0)%nat, (k <? 3)%nat.
  destruct IH' as [E1 E2]; [done|]. rewrite E2. by destruct (k =? 0)%nat.
Qed.

(** The entries of a walk that finds an address are present, and lead on. *)
Lemma walk_entries ram l t a x j u :
  walk ram l t a = Some x → (j, u) ∈ tables ram l t a →
  is_present (ram (slot j u a)) = true ∧ (j = 4%nat → is_huge (ram (slot j u a)) = false) ∧
  (is_huge (ram (slot j u a)) = false → (1 < j)%nat → (pred j, entry_addr (ram (slot j u a))) ∈ tables ram l t a).
Proof.
  revert t. induction l as [|k IH]; intros t Hx H; [done|]. cbn [walk tables] in *.
  destruct (is_present (ram (slot (S k) t a))) eqn:Ep; [|done]. cbn [negb andb] in *.
  apply elem_of_cons in H as [[= -> ->]|H].
  - split_and!; [done| |].
    + intros [= ->]. by destruct (is_huge _).
    + intros Eh Hj. rewrite Eh. right. cbn [pred negb]. destruct k as [|k]; [lia|]. by left.
  - destruct (is_huge (ram (slot (S k) t a))) eqn:Eh; [by apply elem_of_nil in H|]. cbn [negb] in *.
    destruct (Nat.eqb_spec k 0) as [->|]; [by apply elem_of_nil in H|].
    destruct (IH _ Hx H) as (H1 & H2 & H3). split_and!; [done..|]. intros. right. auto.
Qed.

(** An entry for a huge page ends the walk. *)
Lemma walk_cut ram ram' l t a k w :
  (S k, w) ∈ tables ram l t a → (1 <= k < 3)%nat →
  (∀ j u, (j, u) ∈ tables ram l t a → (S k < j)%nat → ram' (slot j u a) = ram (slot j u a)) →
  is_present (ram' (slot (S k) w a)) = true → is_huge (ram' (slot (S k) w a)) = true →
  walk ram' l t a = Some (leaf_addr k (ram' (slot (S k) w a)) a) ∧
  ∀ j u, (j, u) ∈ tables ram' l t a → (j, u) ∈ tables ram l t a ∧ (S k <= j)%nat.
Proof.
  intros Hw Hk Ha Hp Hh. revert t Hw Ha. induction l as [|m IH]; intros t Hw Ha; [by apply elem_of_nil in Hw|].
  destruct (decide (m = k)) as [->|Hne].
  - apply tables_top in Hw as ->. cbn [walk tables]. rewrite Hp, Hh. cbn [negb andb].
    destruct (Nat.eqb_spec k 0); [lia|]. destruct (Nat.ltb_spec k 3); [|lia]. split; [done|].
    intros j u [= -> ->]%list_elem_of_singleton. split; [by left|lia].
  - pose proof (tables_level _ _ _ _ _ _ Hw). cbn [walk tables] in *.
    rewrite (Ha (S m) t) by (by left || lia). apply elem_of_cons in Hw as [[= ? ?]|Hw]; [lia|].
    destruct (is_present (ram (slot (S m) t a))), (is_huge (ram (slot (S m) t a))); cbn [andb negb] in *; try by apply elem_of_nil in Hw.
    destruct (IH _ Hw) as [E1 E2]; [intros j u Hu; apply Ha; by right|]. rewrite E1.
    destruct (Nat.eqb_spec m 0); [lia|]. split; [done|].
    intros j u [[= -> ->]|Hu]%elem_of_cons; [split; [by left|lia]|]. apply E2 in Hu as [? ?]. split; [by right|done].
Qed.

Lemma reach_48 l : (l <= 4)%nat → (reach l | 2 ^ 48).
Proof.
  intros Hl. exists (2 ^ (48 - (12 + 9 * Z.of_nat l))). unfold reach. rewrite <- Z.pow_add_r by lia. f_equal. lia.
Qed.

Lemma mod_48 l a : (l <= 4)%nat → (a mod 2 ^ 48) mod reach l = a mod reach l.
Proof.
  intros Hl. apply Z.mod_mod_divide. by apply reach_48.
Qed.

Lemma walk_congr ram l t a b : (l <= 4)%nat → a mod 2 ^ 48 = b mod 2 ^ 48 → walk ram l t a = walk ram l t b.
Proof.
  intros Hl Hab. revert t. induction l as [|k IH]; intros t; [done|]. cbn [walk].
  assert (slot (S k) t a = slot (S k) t b) as ->
    by (unfold slot; rewrite !pt_index_region by lia; unfold region; by rewrite Hab).
  assert (∀ j e, (j <= 4)%nat → leaf_addr j e a = leaf_addr j e b) as Hj.
  { intros j e Hj. unfold leaf_addr. by rewrite <- (mod_48 j a), <- (mod_48 j b), Hab by done. }
  rewrite IH, !Hj by lia. done.
Qed.

(** The addresses of the block that starts at [v]. *)
Lemma block_addr k v a : (k <= 4)%nat → (reach k | v) → region k a = region k v →
  a mod 2 ^ 48 = (v + a mod reach k) mod 2 ^ 48.
Proof.
  intros Hk Hv Hr. pose proof (reach_pos k).
  assert ((v mod 2 ^ 48) mod reach k = 0) as H0 by (rewrite mod_48 by done; by apply Z.mod_divide; [lia|]).
  unfold region in Hr. pose proof (Z.div_mod (a mod 2 ^ 48) (reach k) ltac:(lia)) as Ha.
  pose proof (Z.div_mod (v mod 2 ^ 48) (reach k) ltac:(lia)) as Hv'. rewrite mod_48 in Ha by done.
  rewrite <- (Zplus_mod_idemp_l v). replace (v mod 2 ^ 48 + a mod reach k) with (a mod 2 ^ 48) by lia.
  by rewrite Z.mod_mod by lia.
Qed.

Lemma entry_addr_aligned e : (4096 | entry_addr e).
Proof.
  apply Z.mod_divide; [done|]. unfold Virt.entry_addr. rewrite <- (Z.land_ones _ 12) by lia.
  rewrite <- Z.land_assoc. change (Z.land 0x000FFFFFFFFFF000 (Z.ones 12)) with 0. apply Z.land_0_r.
Qed.

Lemma tables_aligned ram l t a j u : (4096 | t) → (j, u) ∈ tables ram l t a → (4096 | u).
Proof.
  revert t. induction l as [|k IH]; intros t Ht H; [by apply elem_of_nil in H|]. cbn [tables] in H.
  apply elem_of_cons in H as [[= -> ->]|H]; [done|]. destruct (_ && _); [|by apply elem_of_nil in H].
  eapply IH; [|exact H]. apply entry_addr_aligned.
Qed.

Lemma slot_inj j k u u' a b : (4096 | u) → (4096 | u') → slot j u a = slot k u' b →
  u = u' ∧ pt_index (Z.of_nat j) a = pt_index (Z.of_nat k) b.
Proof.
  intros [x ->] [y ->]. unfold slot. pose proof (pt_index_bounds (Z.of_nat j) a).
  pose proof (pt_index_bounds (Z.of_nat k) b). lia.
Qed.

Lemma slot_frame j u u' a w : (4096 | u) → (4096 | u') → u ≠ u' → u' <= w < u' + 4096 → slot j u a ≠ w.
Proof. intros [x ->] [y ->] Hne Hw. unfold slot. pose proof (pt_index_bounds (Z.of_nat j) a). lia. Qed.
End walks.

(** ** The tables of all the address spaces *)

(** The tables are trees that share at most their tables for the higher half:
    no table is used twice, and the higher half is the same everywhere. *)
Record forest (ram : Z → Z) (roots : list Z) : Prop := {
  roots_aligned r : r ∈ roots → (4096 | r);
  tables_once r r' a b l k t : r ∈ roots → r' ∈ roots →
    (l, t) ∈ tables ram 4 r a → (k, t) ∈ tables ram 4 r' b → l = k ∧ region l a = region l b;
  kernel_shared r r' a t t' : r ∈ roots → r' ∈ roots → 2 ^ 47 <= a mod 2 ^ 48 →
    (3%nat, t) ∈ tables ram 4 r a → (3%nat, t') ∈ tables ram 4 r' a → t = t'
}.

(** Physical memory below [LIMIT] is at [HHDM] in every address space. *)
Definition direct (HHDM LIMIT : Z) (ram : Z → Z) (roots : list Z) : Prop :=
  ∀ r p, r ∈ roots → 0 <= p < LIMIT → walk ram 4 r (HHDM + p) = Some p.

Definition set_word (ram : Z → Z) (w v : Z) : Z → Z := λ x, if x =? w then v else ram x.

Section replace.
Context (HHDM LIMIT : Z) (roots : list Z).
Context (H30 : (2 ^ 30 | HHDM)) (Hlo : 2 ^ 64 - 2 ^ 47 <= HHDM) (Hhi : HHDM + LIMIT <= 2 ^ 64).
Implicit Types ram : Z → Z.

Lemma shared_below ram r r' a l t t' :
  forest ram roots → r ∈ roots → r' ∈ roots → 2 ^ 47 <= a mod 2 ^ 48 → (l <= 3)%nat →
  (l, t) ∈ tables ram 4 r a → (l, t') ∈ tables ram 4 r' a → t = t'.
Proof.
  intros Hf Hr Hr' Ha Hl Ht Ht'. destruct (tables_tail _ _ _ _ _ _ Ht Hl) as (w & Hw & Hwt).
  destruct (tables_tail _ _ _ _ _ _ Ht' Hl) as (w' & Hw' & Hwt').
  pose proof (kernel_shared _ _ Hf r r' a w w' Hr Hr' Ha Hw Hw') as <-. by eapply tables_fun.
Qed.

(** An entry for the huge page at [p]. *)
Definition huge_entry (p : Z) : Z := Z.lor p upgrade_flags.

Lemma huge_entry_spec k p : (1 <= k < 3)%nat → 0 <= p < 2 ^ 52 → (reach k | p) →
  is_present (huge_entry p) = true ∧ is_huge (huge_entry p) = true ∧
  ∀ a, leaf_addr k (huge_entry p) a = p + a mod reach k.
Proof.
  intros Hk Hp Hd. unfold huge_entry, Virt.is_present, Virt.is_huge. rewrite !Z.lor_spec.
  change (Z.testbit upgrade_flags 0) with true. change (Z.testbit upgrade_flags 7) with true. rewrite !orb_true_r.
  split_and!; [done..|]. intros a. unfold leaf_addr.
  assert (p mod reach k = 0) as H0 by (apply Z.mod_divide; [pose proof (reach_pos k); lia|done]).
  assert (entry_addr (Z.lor p upgrade_flags) = p) as ->; [|by rewrite H0, Z.sub_0_r].
  assert (4096 | p) as [q ->].
  { etransitivity; [|exact Hd]. unfold reach. exists (2 ^ (9 * Z.of_nat k)).
    change 4096 with (2 ^ 12). rewrite <- Z.pow_add_r by lia. f_equal. lia. }
  unfold Virt.entry_addr. rewrite Z.land_lor_distr_l. change (Z.land upgrade_flags _) with 0. rewrite Z.lor_0_r.
  apply Z.bits_inj'. intros i Hi. rewrite Z.land_spec.
  change 0x000FFFFFFFFFF000 with (Z.shiftl (Z.ones 40) 12). change 4096 with (2 ^ 12).
  destruct (decide (i < 12)); [by rewrite Z.mul_pow2_bits_low by lia|].
  rewrite Z.shiftl_spec by lia. destruct (decide (i < 52)).
  - by rewrite Z.ones_spec_low, andb_true_r by lia.
  - rewrite Z.ones_spec_high, andb_false_r by lia. symmetry. rewrite Z.bits_above_log2; [done|lia|].
    destruct (decide (q = 0)) as [->|]; [simpl; lia|]. apply Z.log2_lt_pow2; [lia|].
    pose proof (Z.pow_le_mono_r 2 52 i ltac:(lia) ltac:(lia)). lia.
Qed.

Section entry.
Context (ram : Z → Z) (r0 p w : Z) (k : nat) (F : list Z).
Context (HF : forest ram roots) (HD : direct HHDM LIMIT ram roots) (Hr0 : r0 ∈ roots).
Context (Hk : (1 <= k < 3)%nat) (Hp : 0 <= p) (Hp' : p + reach k <= LIMIT) (Hpk : (reach k | p)).
Context (Hw : (S k, w) ∈ tables ram 4 r0 (HHDM + p)).
(** Frames of tables below the entry. *)
Context (Hfreed : ∀ t, t ∈ F → ∃ b j, (j, t) ∈ tables ram 4 r0 b ∧ (j <= k)%nat ∧ region k b = region k (HHDM + p)).

Let v := HHDM + p.
Let ram' := set_word ram (slot (S k) w v) (huge_entry p).

Lemma v_kernel : 2 ^ 47 <= v mod 2 ^ 48 ∧ (reach k | v).
Proof.
  pose proof (reach_pos k). subst v. split.
  - rewrite <- (Z.mod_unique_pos (HHDM + p) (2 ^ 48) (2 ^ 16 - 1) (HHDM + p - (2 ^ 64 - 2 ^ 48))); lia.
  - apply Z.divide_add_r; [|done]. etransitivity; [|exact H30]. exists (2 ^ (30 - (12 + 9 * Z.of_nat k))).
    unfold reach. rewrite <- Z.pow_add_r by lia. f_equal. lia.
Qed.

(** In every address space a walk that goes through the entry, or below, is one
    for an address of the block. *)
Lemma through_entry r a j u : r ∈ roots → (j, u) ∈ tables ram 4 r a → slot j u a = slot (S k) w v →
  j = S k ∧ u = w ∧ region k a = region k v.
Proof.
  intros Hr Hu Hs. apply slot_inj in Hs as [-> Hi];
    [|eapply tables_aligned; [by apply HF|done]|eapply tables_aligned; [by apply (roots_aligned _ _ HF r0)|done]].
  destruct (tables_once _ _ HF r r0 a v j (S k) w) as [-> Hreg]; [done..|].
  split_and!; [done..|]. apply region_down; [lia|done|done].
Qed.

Lemma below_entry r a j t : r ∈ roots → (j, t) ∈ tables ram 4 r a → t ∈ F →
  region k a = region k v ∧ (S k, w) ∈ tables ram 4 r a ∧ (j <= k)%nat.
Proof.
  intros Hr Ht HtF. destruct (Hfreed t HtF) as (b & j' & Hb & Hj & Hreg).
  destruct (tables_once _ _ HF r r0 a b j j' t) as [-> Hab]; [done..|].
  assert (region k a = region k v) as Hav by (etransitivity; [|exact Hreg]; by eapply region_up).
  split_and!; [done| |done]. destruct (tables_above _ _ _ _ _ _ (S k) Ht) as [x Hx]; [lia|].
  assert ((S k, x) ∈ tables ram 4 r v) as Hxv.
  { eapply tables_region; [done|exact Hx|]. eapply region_up; [exact Hav|lia]. }
  pose proof (shared_below ram r r0 v (S k) x w HF Hr Hr0 (proj1 v_kernel) ltac:(lia) Hxv Hw) as ->. done.
Qed.

(** Writing the entry changes no translation, and the walks no longer read the
    tables below it. *)
Lemma replace_entry r a : r ∈ roots →
  walk ram' 4 r a = walk ram 4 r a ∧
  ∀ j t, (j, t) ∈ tables ram' 4 r a → (j, t) ∈ tables ram 4 r a ∧ t ∉ F.
Proof.
  intros Hr. destruct v_kernel as [Hv1 Hv2]. pose proof (reach_pos k).
  destruct (huge_entry_spec k p Hk ltac:(lia) Hpk) as (Hpres & Hhuge & Hleaf).
  assert (ram' (slot (S k) w v) = huge_entry p) as Hat by (unfold ram', set_word; by rewrite Z.eqb_refl).
  destruct (decide ((S k, w) ∈ tables ram 4 r a ∧ region k a = region k v)) as [[Hin Hreg]|Hout].
  - assert (slot (S k) w a = slot (S k) w v) as Hs by (unfold slot; by rewrite !pt_index_region, Hreg by lia).
    destruct (walk_cut ram ram' 4 r a k w Hin Hk) as [E1 E2]; [|by rewrite Hs, Hat..|].
    { intros j u Hu Hj. unfold ram', set_word. rewrite (proj2 (Z.eqb_neq _ _)); [done|]. intros E.
      destruct (through_entry r a j u Hr Hu E); lia. }
    split.
    + rewrite E1, Hs, Hat, Hleaf. symmetry. pose proof (Z.mod_pos_bound a (reach k) (reach_pos k)).
      rewrite (walk_congr _ _ _ a (HHDM + (p + a mod reach k))); [apply HD; [done|lia]|done|].
      rewrite (block_addr k v a); [|lia|done|done]. f_equal. unfold v. lia.
    + intros j t [Ht Hj]%E2. split; [done|]. intros HtF. destruct (below_entry r a j t Hr Ht HtF) as (_ & _ & ?). lia.
  - destruct (walk_agree ram ram' 4 r a) as [E1 E2].
    { intros j u Hu. unfold ram', set_word. rewrite (proj2 (Z.eqb_neq _ _)); [done|]. intros E.
      destruct (through_entry r a j u Hr Hu E) as (-> & -> & ?). by apply Hout. }
    split; [done|]. rewrite E2. intros j t Ht. split; [done|]. intros HtF.
    destruct (below_entry r a j t Hr Ht HtF) as (? & ? & _). by apply Hout.
Qed.

(** The same when the tables below are overwritten too. *)
Lemma replace_free ram'' :
  (∀ x, (∀ t, t ∈ F → ¬ (t <= x < t + 4096)) → ram'' x = ram' x) →
  ∀ r a, r ∈ roots → walk ram'' 4 r a = walk ram 4 r a ∧
    ∀ j t, (j, t) ∈ tables ram'' 4 r a → (j, t) ∈ tables ram 4 r a ∧ t ∉ F.
Proof.
  intros H r a Hr. destruct (replace_entry r a Hr) as [E1 E2].
  destruct (walk_agree ram' ram'' 4 r a) as [E3 E4]; [|by rewrite E3, E4].
  intros j u Hu. apply H. intros t Ht Hx. destruct (E2 j u Hu) as [Hu' HuF].
  destruct (Hfreed t Ht) as (b & j' & Hb & _).
  eapply (slot_frame j u t a); [| | |exact Hx|done].
  - eapply tables_aligned; [by apply (roots_aligned _ _ HF r)|exact Hu'].
  - eapply tables_aligned; [by apply (roots_aligned _ _ HF r0)|exact Hb].
  - by intros ->.
Qed.
End entry.

Lemma forest_sub ram ram' :
  (∀ r a j t, r ∈ roots → (j, t) ∈ tables ram' 4 r a → (j, t) ∈ tables ram 4 r a) →
  forest ram roots → forest ram' roots.
Proof.
  intros Hs [H1 H2 H3]. split; [done|..].
  - intros r r' a b l k t Hr Hr' Ha Hb. apply (H2 r r' a b l k t); auto.
  - intros r r' a t t' Hr Hr' Ha Ht Ht'. apply (H3 r r' a); auto.
Qed.

(** ** Addresses of the direct map *)

Lemma hhdm_mod p : 0 <= p < LIMIT → (HHDM + p) mod 2 ^ 48 = HHDM + p - (2 ^ 64 - 2 ^ 48).
Proof. intros Hp. symmetry. apply (Z.mod_unique_pos _ _ (2 ^ 16 - 1)); lia. Qed.

Lemma region_hhdm l p i : (l <= 2)%nat → 0 <= p → (reach 2 | p) → 0 <= i < 512 → p + reach 2 <= LIMIT →
  region (S (S l)) (HHDM + (p + i * 2 ^ 21)) = region (S (S l)) (HHDM + p) ∧
  region 1 (HHDM + (p + i * 2 ^ 21)) = region 1 (HHDM + p) + i ∧
  pt_index 2 (HHDM + (p + i * 2 ^ 21)) = i.
Proof.
  intros Hl Hp [q Hq] Hi Hle. change (reach 2) with (2 ^ 30) in *. destruct H30 as [h Hh]. split_and!.
  - apply (region_up 2); [|lia]. unfold region. rewrite !hhdm_mod by lia. change (reach 2) with (2 ^ 30).
    rewrite <- (Z.div_unique_pos _ (2 ^ 30) (h + q - 2 ^ 34 + 2 ^ 18) (i * 2 ^ 21)) by lia.
    apply (Z.div_unique_pos _ _ _ 0); lia.
  - unfold region. rewrite !hhdm_mod by lia. change (reach 1) with (2 ^ 21).
    replace (HHDM + (p + i * 2 ^ 21) - (2 ^ 64 - 2 ^ 48)) with (HHDM + p - (2 ^ 64 - 2 ^ 48) + i * 2 ^ 21) by lia.
    by rewrite Z.div_add by lia.
  - apply (PageTables.pt_index_at 2 (h + q) i 0); unfold PageTables.index; lia.
Qed.
End replace.

(** ** The frames of tables *)

Section frames.
Context (virt_new : Z → option Z) (HHDM LIMIT : Z).
Context `{Ar : !Slab.Arena virt_new HHDM PAGE_SIZE LIMIT (2 ^ 12)}.

Abbreviation inv := (Buddy.inv 12 19 true HHDM PAGE_SIZE LIMIT).
Abbreviation extent := (Buddy.extent 12).

(** A frame that can be given to the allocator: one that it handed out, or one
    it never had, as those of the boot loader's tables. *)
Definition spare (g : Buddy.Ghost) (t : Z) : Prop :=
  PAGE_SIZE <= t ∧ t + 4096 <= LIMIT ∧ (4096 | t) ∧
  ((t, 1) ∈ Buddy.lives g ∨ ∀ x, t <= x < t + 4096 → ¬ icovers (extent g []) x).

Lemma inv_hold s g t :
  inv s g [] → (∀ x, t <= x < t + 4096 → ¬ icovers (extent g []) x) → inv s g [(t, 4096)].
Proof.
  intros Hi Hx. pose proof (Buddy.inv_geo _ _ _ _ _ _ _ _ _ Hi) as Hg.
  eapply Buddy.inv_held; [|exact Hi]. eapply Buddy.geo_held_disj; [exact Hg| |].
  - intros i ->%list_elem_of_singleton. done.
  - intros Hd. unfold Buddy.extent in *. cbn [app] in *. apply disj_cons. split; [|done]. intros y Hy.
    assert (0 < y.2) by (eapply (Buddy.extent_pos virt_new 12 19 true HHDM PAGE_SIZE LIMIT
      Physical.page_min Physical.page_orders Physical.page_width g []); done).
    unfold idisj. cbn [fst snd]. destruct (decide (t + 4096 <= y.1)); [by left|right].
    destruct (decide (y.1 + y.2 <= t)); [done|]. exfalso. apply (Hx (Z.max t y.1)); [lia|].
    exists y. split; [exact Hy|lia].
Qed.

Lemma give_back s g t :
  inv s g [] → spare g t →
  ∃ s' g', Physical.free_frames virt_new t 1 s = (Ok tt, s') ∧ inv s' g' [] ∧
    (∀ x, x ∈ Buddy.lives g → x ≠ (t, 1) → x ∈ Buddy.lives g') ∧
    (∀ x, icovers (extent g' []) x → icovers (extent g []) x ∨ t <= x < t + 4096).
Proof.
  intros Hi (H1 & H2 & H3 & [Hl|Hx]).
  - destruct (Buddy.free_range_ok virt_new 12 19 true HHDM PAGE_SIZE LIMIT
      Physical.page_min Physical.page_orders Physical.page_width s g t 1 Hi Hl) as (s' & g' & E & Hi' & HL & HM).
    exists s', g'. split_and!; [exact E|done| |].
    + intros x Hx Hne. rewrite HL in Hx. by apply elem_of_cons in Hx as [->|].
    + intros x Hc. left. by apply HM.
  - pose proof (inv_hold s g t Hi Hx) as Hh. change 4096 with (Buddy.bs 12 0) in Hh.
    destruct (Buddy.buddy_free virt_new 12 19 true HHDM PAGE_SIZE LIMIT
      Physical.page_min Physical.page_orders Physical.page_width t 0 s g [] Hh) as (s' & g' & E & Hi' & M1 & M2 & M3).
    { split_and!; [lia|done|done|done]. }
    exists s', g'. split_and!; [|done| |].
    + unfold Physical.free_frames, Buddy.free_range. change (1 =? 0) with false. cbv iota. rewrite gets_bind.
      assert (Slab.owns (Buddy.slab s.1) t = false) as ->; [|exact E]. unfold Slab.owns.
      erewrite (Slab.find_block_None virt_new HHDM PAGE_SIZE LIMIT (2 ^ 12)); [done|apply Hi|eapply Buddy.geo_slabs_ok, Hi|].
      intros (i & Hin & Hc). apply (Hx t); [lia|]. exists i. split; [|done].
      unfold Buddy.extent. rewrite !elem_of_app. by do 3 right.
    + intros x Hin _. unfold Buddy.lives in *. by rewrite M1, M2.
    + intros x Hc. apply M3 in Hc. unfold Buddy.extent in Hc. cbn [app] in Hc.
      apply icovers_cons in Hc as [?|?]; [by right|by left].
Qed.

Lemma spare_keep g g' t u :
  (∀ x, x ∈ Buddy.lives g → x ≠ (t, 1) → x ∈ Buddy.lives g') →
  (∀ x, icovers (extent g' []) x → icovers (extent g []) x ∨ t <= x < t + 4096) →
  (4096 | t) → u ≠ t → spare g u → spare g' u.
Proof.
  intros HL HX [q ->] Hne (H1 & H2 & [r ->] & H4). split_and!; [done|done|by exists r|].
  destruct H4 as [H4|H4]; [left|right]; [apply HL; [done|congruence]|].
  intros x Hx [Hc|Hc]%HX; [by apply (H4 x)|lia].
Qed.

Lemma give_back_all F s g :
  inv (frames s) g [] → NoDup F → (∀ t, t ∈ F → spare g t) →
  ∃ b' g', forM F (λ t, free_frames virt_new t 1) s =
      (Ok tt, mkSt b' (ram s) (cr3 s) (trace s ++ ((λ t, Freed t 1) <$> F))) ∧
    inv b' g' [] ∧
    (∀ x, x ∈ Buddy.lives g → (∀ t, t ∈ F → x ≠ (t, 1)) → x ∈ Buddy.lives g') ∧
    (∀ u, u ∉ F → spare g u → spare g' u).
Proof.
  revert s g. induction F as [|t F IH]; intros s g Hi Hnd Hs.
  { exists (frames s), g. rewrite app_nil_r. split_and!; [by destruct s|done|done|done]. }
  apply NoDup_cons in Hnd as [Ht Hnd]. destruct (Hs t) as (H1 & H2 & H3 & H4); [by left|].
  destruct (give_back (frames s) g t Hi) as (b1 & g1 & E1 & I1 & L1 & X1); [done|].
  assert (free_frames virt_new t 1 s = (Ok tt, mkSt b1 (ram s) (cr3 s) (trace s ++ [Freed t 1]))) as E.
  { unfold free_frames, on_frames, mbind, M_bind. by rewrite E1. }
  destruct (IH (mkSt b1 (ram s) (cr3 s) (trace s ++ [Freed t 1])) g1) as (b' & g' & E' & I' & L' & S'); [done|done| |].
  { intros u Hu. eapply spare_keep; [done|done|done| |by apply Hs; right]. by intros ->. }
  exists b', g'. split_and!; [|done| |].
  - cbn [forM]. mstep E. rewrite E'. cbn [ram cr3 trace fmap list_fmap]. by rewrite <- app_assoc.
  - intros x Hx Hne. apply L'; [apply L1; [done|]|]; [apply Hne; by left|intros u Hu; apply Hne; by right].
  - intros u Hu Hsp. apply S'; [set_solver|]. eapply spare_keep; [done|done|done| |done]. set_solver.
Qed.

(** ** Upgrading the direct map *)

Context (roots : list Z).
Context (H30 : (2 ^ 30 | HHDM)) (Hlo : 2 ^ 64 - 2 ^ 47 <= HHDM).

(** The tables of the address spaces with the given roots are in order, map
    physical memory at [HHDM], and lie in frames that are in use. *)
Record mapped (s : St) (g : Buddy.Ghost) : Prop := {
  m_inv : inv (frames s) g [];
  m_forest : forest (ram s) roots;
  m_direct : direct HHDM LIMIT (ram s) roots;
  m_root : cr3 s ∈ roots;
  m_tables r a j t : r ∈ roots → (j, t) ∈ tables (ram s) 4 r a → spare g t
}.

Definition with_ram (s : St) (m : Z → Z) : St := mkSt (frames s) m (cr3 s) (trace s).

(** [s'] is [s] with the frames [F] of tables given back: whatever is written to
    them, no address space changes. *)
Definition upgraded (s : St) (g : Buddy.Ghost) (s' : St) (g' : Buddy.Ghost) (F : list Z) : Prop :=
  trace s' = trace s ++ ((λ t, Freed t 1) <$> F) ++ (match F with [] => [] | _ => [Shootdown] end) ∧
  (∀ x, (∀ r a j t, r ∈ roots → (j, t) ∈ tables (ram s) 4 r a → ¬ (t <= x < t + 4096)) → ram s' x = ram s x) ∧
  (∀ t, t ∈ F → ∃ r a j, r ∈ roots ∧ (j, t) ∈ tables (ram s) 4 r a) ∧
  (∀ x, x ∈ Buddy.lives g → (∀ t, t ∈ F → x ≠ (t, 1)) → x ∈ Buddy.lives g') ∧
  ∀ m, (∀ x, (∀ t, t ∈ F → ¬ (t <= x < t + 4096)) → m x = ram s' x) →
    mapped (with_ram s' m) g' ∧ ∀ r a, r ∈ roots → walk m 4 r a = walk (ram s) 4 r a ∧
      ∀ j t, (j, t) ∈ tables m 4 r a → (j, t) ∈ tables (ram s) 4 r a.

Lemma hhdm_end : HHDM + LIMIT <= 2 ^ 64.
Proof. destruct Ar. lia. Qed.

Lemma upgraded_refl s g : mapped s g → upgraded s g s g [].
Proof.
  intros [H1 H2 H3 H4 H5]. split_and!; [by rewrite app_nil_r|done|by intros t ?%elem_of_nil|done|]. intros m Hm.
  assert (∀ r a, walk m 4 r a = walk (ram s) 4 r a ∧ tables m 4 r a = tables (ram s) 4 r a) as Hw.
  { intros r a. apply walk_agree. intros j u _. apply Hm. by intros t ?%elem_of_nil. }
  split; [|intros r a _; destruct (Hw r a) as [-> ->]; done]. split; cbn [with_ram frames ram cr3]; [done| | |done|].
  - eapply forest_sub; [|exact H2]. intros r a j t _. by rewrite (proj2 (Hw r a)).
  - intros r p Hr Hp. rewrite (proj1 (Hw _ _)). by apply H3.
  - intros r a j t Hr. rewrite (proj2 (Hw _ _)). by apply H5.
Qed.

Lemma finish s g p k w F :
  mapped s g → (1 <= k < 3)%nat → 0 <= p → p + reach k <= LIMIT → (reach k | p) →
  (S k, w) ∈ tables (ram s) 4 (cr3 s) (HHDM + p) →
  (∀ t, t ∈ F → ∃ b j, (j, t) ∈ tables (ram s) 4 (cr3 s) b ∧ (j <= k)%nat ∧ region k b = region k (HHDM + p)) →
  NoDup F → F ≠ [] →
  ∃ s' g', (forM F (λ t, free_frames virt_new t 1);; emit Shootdown)
      (with_ram s (set_word (ram s) (slot (S k) w (HHDM + p)) (huge_entry p))) = (Ok tt, s') ∧
    upgraded s g s' g' F.
Proof.
  intros [H1 H2 H3 H4 H5] Hk Hp Hp' Hd Hw HF Hnd Hne.
  set (ram' := set_word (ram s) (slot (S k) w (HHDM + p)) (huge_entry p)).
  destruct (give_back_all F (with_ram s ram') g) as (b' & g' & E & Hi & HL & HS); [done|done| |].
  { intros t Ht. destruct (HF t Ht) as (b & j & Hb & _). by eapply H5. }
  eexists _, g'. split; [unfold mbind, M_bind; rewrite E; reflexivity|].
  unfold upgraded, with_ram. cbn [frames ram cr3 trace]. split_and!.
  - rewrite <- app_assoc. by destruct F.
  - intros x Hx. unfold ram', set_word. rewrite (proj2 (Z.eqb_neq _ _)); [done|]. intros ->.
    apply (Hx _ _ _ _ H4 Hw). unfold slot. pose proof (pt_index_bounds (Z.of_nat (S k)) (HHDM + p)). lia.
  - intros t Ht. destruct (HF t Ht) as (b & j & Hb & _). by exists (cr3 s), b, j.
  - exact HL.
  - intros m Hm.
    pose proof (replace_free HHDM LIMIT roots H30 Hlo hhdm_end (ram s) (cr3 s) p w k F
      H2 H3 H4 Hk Hp Hp' Hd Hw HF m Hm) as Hr.
    split; [|intros r a Hra; split; [by apply Hr|intros j t Ht; by apply Hr in Ht as [? _]]]. split; cbn [frames ram cr3]; [done| | |done|].
    + eapply forest_sub; [|exact H2]. intros r a j t Hra Ht. by apply Hr.
    + intros r q Hra Hq. rewrite (proj1 (Hr _ _ Hra)). by apply H3.
    + intros r a j t Hra Ht. destruct (proj2 (Hr r a Hra) j t Ht) as [Ht' HtF]. apply HS; [done|]. by eapply H5.
Qed.

(** ** The code on the tables *)

Lemma phys_to_virt_at t s : PAGE_SIZE <= t < LIMIT → phys_to_virt virt_new HHDM t s = (Ok (t + HHDM), s).
Proof.
  intros Ht. unfold phys_to_virt. destruct Ar as [H1 H2 H3 H4 _].
  rewrite u64_small by (unfold in_u64; lia). by rewrite H1.
Qed.

Lemma to_phys t x : PAGE_SIZE <= t → t + 4096 <= LIMIT → 0 <= x < 512 →
  virt_to_phys HHDM (t + HHDM ⊞ 8 ⊠ x) = t + 8 * x.
Proof.
  intros H1 H2 Hx. unfold virt_to_phys. destruct Ar as [_ _ H3 H4 _]. unfold PAGE_SIZE in *.
  rewrite (u64_small (8 * x)) by (unfold in_u64; lia). rewrite (u64_small (_ + 8 * x)) by (unfold in_u64; lia).
  rewrite u64_small by (unfold in_u64; lia). lia.
Qed.

Lemma entry_at t x s : PAGE_SIZE <= t → t + 4096 <= LIMIT → 0 <= x < 512 →
  entry HHDM (t + HHDM) x s = (Ok (ram s (t + 8 * x)), s).
Proof. intros. unfold entry, read_word, gets. by rewrite to_phys. Qed.

Lemma set_addr_at t x p s : PAGE_SIZE <= t → t + 4096 <= LIMIT → 0 <= x < 512 → (4096 | p) →
  set_addr HHDM (t + HHDM) x p upgrade_flags s =
    (Ok tt, with_ram s (set_word (ram s) (t + 8 * x) (huge_entry p))).
Proof.
  intros ? ? ? Hp. unfold set_addr, is_multiple_of. change (PAGE_SIZE =? 0) with false. cbv iota.
  unfold PAGE_SIZE at 1. rewrite (proj2 (Z.mod_divide p 4096 ltac:(lia)) Hp). cbn [negb Z.eqb].
  unfold write_word, modify. by rewrite to_phys.
Qed.

Lemma used e : is_present e = true → is_unused e = false.
Proof.
  unfold Virt.is_present, Virt.is_unused. intros H. apply Z.eqb_neq. intros ->. done.
Qed.

(** The table of a walk, through its pointer in the direct map. *)
Lemma table_at s g r a j t : mapped s g → r ∈ roots → (j, t) ∈ tables (ram s) 4 r a →
  (∀ s', phys_to_virt virt_new HHDM t s' = (Ok (t + HHDM), s')) ∧
  (∀ l b s', entry HHDM (t + HHDM) (pt_index (Z.of_nat l) b) s' = (Ok (ram s' (slot l t b)), s')).
Proof.
  intros Hm Hr Ht. destruct (m_tables _ _ Hm r a j t Hr Ht) as (H1 & H2 & _). split.
  - intros s'. apply phys_to_virt_at. lia.
  - intros l b s'. pose proof (pt_index_bounds (Z.of_nat l) b). by apply entry_at.
Qed.

Lemma walk_top s p : (4%nat, cr3 s) ∈ tables (ram s) 4 (cr3 s) (HHDM + p).
Proof. by left. Qed.

(** The part of the code before the two cases. *)
Lemma upgrade_head s g p count : mapped s g → PAGE_SIZE <= p < LIMIT →
  let t3 := entry_addr (ram s (slot 4 (cr3 s) (HHDM + p))) in
  (3%nat, t3) ∈ tables (ram s) 4 (cr3 s) (HHDM + p) ∧
  try_upgrade_hhdm virt_new HHDM p count s = (
    let virt := HHDM + p in
    let flags := upgrade_flags in
    if (count =? PAGES_1GIB) && is_multiple_of p (Virt.SIZE Virt.Size1GiB) then
      l3_entry ← entry HHDM (t3 + HHDM) (pt_index 3 virt);
      if is_unused l3_entry || is_huge l3_entry then mret tt else
      let l2_frame := entry_addr l3_entry in
      set_addr HHDM (t3 + HHDM) (pt_index 3 virt) p flags;;
      l2 ← phys_to_virt virt_new HHDM l2_frame;
      forM (seqZ 0 512) (λ i,
        e ← entry HHDM l2 i;
        if is_unused e || is_huge e then mret tt else free_frames virt_new (entry_addr e) 1);;
      free_frames virt_new l2_frame 1;;
      emit Shootdown
    else if (count =? PAGES_2MIB) && is_multiple_of p (Virt.SIZE Virt.Size2MiB) then
      l3_entry ← entry HHDM (t3 + HHDM) (pt_index 3 virt);
      if is_unused l3_entry || is_huge l3_entry then mret tt else
      l2 ← get_pagetable virt_new HHDM l3_entry;
      l2_entry ← entry HHDM l2 (pt_index 2 virt);
      if is_unused l2_entry || is_huge l2_entry then mret tt else
      let l1_frame := entry_addr l2_entry in
      set_addr HHDM l2 (pt_index 2 virt) p flags;;
      free_frames virt_new l1_frame 1;;
      emit Shootdown
    else mret tt) s.
Proof.
  intros Hm Hp t3. pose proof (m_root _ _ Hm) as Hr. pose proof (m_direct _ _ Hm _ p Hr ltac:(unfold PAGE_SIZE in *; lia)) as Hw.
  destruct (walk_entries _ _ _ _ _ _ _ Hw (walk_top s p)) as (Ep & Eh & H3). specialize (Eh eq_refl).
  specialize (H3 Eh ltac:(lia)). split; [exact H3|].
  destruct (table_at _ _ _ _ _ _ Hm Hr (walk_top s p)) as [P4 E4]. destruct (table_at _ _ _ _ _ _ Hm Hr H3) as [P3 _].
  unfold try_upgrade_hhdm.
  assert (active_l4_table virt_new HHDM s = (Ok (cr3 s + HHDM), s)) as E0 by apply P4.
  mstep E0. mstep (phys_to_virt_at p s Hp). rewrite (Z.add_comm p HHDM). cbv zeta. mstep (E4 4%nat (HHDM + p) s).
  rewrite (used _ Ep), Eh. cbn [orb]. unfold get_pagetable at 1. mstep (P3 s). done.
Qed.

Lemma upgrade_2m s g p : mapped s g → PAGE_SIZE <= p → p + reach 1 <= LIMIT → (reach 1 | p) →
  ∃ s' g' F, try_upgrade_hhdm virt_new HHDM p PAGES_2MIB s = (Ok tt, s') ∧ upgraded s g s' g' F.
Proof.
  intros Hm Hp Hp' Hd. pose proof (reach_pos 1). pose proof (m_root _ _ Hm) as Hr. unfold PAGE_SIZE in Hp.
  pose proof (m_direct _ _ Hm _ p Hr ltac:(lia)) as Hw.
  destruct (upgrade_head s g p PAGES_2MIB Hm) as [H3 ->]; [unfold PAGE_SIZE; lia|].
  change (PAGES_2MIB =? PAGES_1GIB) with false. change (PAGES_2MIB =? PAGES_2MIB) with true. cbn [andb]. cbv zeta.
  assert (is_multiple_of p (Virt.SIZE Virt.Size2MiB) = true) as ->.
  { unfold is_multiple_of. change (Virt.SIZE Virt.Size2MiB) with (reach 1).
    by rewrite (proj2 (Z.mod_divide p (reach 1) ltac:(lia)) Hd). }
  set (t3 := entry_addr _) in *. destruct (table_at _ _ _ _ _ _ Hm Hr H3) as [_ E3].
  mstep (E3 3%nat (HHDM + p) s). destruct (walk_entries _ _ _ _ _ _ _ Hw H3) as (Ep3 & _ & H2).
  rewrite (used _ Ep3). cbn [orb].
  destruct (is_huge (ram s (slot 3 t3 (HHDM + p)))) eqn:Eh3; [exists s, g, []; split; [done|by apply upgraded_refl]|].
  specialize (H2 eq_refl ltac:(lia)). cbn [pred] in H2. set (t2 := entry_addr (ram s (slot 3 t3 (HHDM + p)))) in *.
  destruct (table_at _ _ _ _ _ _ Hm Hr H2) as [P2 E2]. unfold get_pagetable. mstep (P2 s). mstep (E2 2%nat (HHDM + p) s).
  destruct (walk_entries _ _ _ _ _ _ _ Hw H2) as (Ep2 & _ & H1). rewrite (used _ Ep2). cbn [orb].
  destruct (is_huge (ram s (slot 2 t2 (HHDM + p)))) eqn:Eh2; [exists s, g, []; split; [done|by apply upgraded_refl]|].
  specialize (H1 eq_refl ltac:(lia)). cbn [pred] in H1. set (t1 := entry_addr (ram s (slot 2 t2 (HHDM + p)))) in *.
  destruct (m_tables _ _ Hm _ _ _ _ Hr H2) as (B1 & B2 & _).
  mstep (set_addr_at t2 (pt_index 2 (HHDM + p)) p s B1 B2 (pt_index_bounds _ _) ltac:(etransitivity; [|exact Hd]; by exists 512)).
  destruct (finish s g p 1 t2 [t1] Hm) as (s' & g' & E & U); [lia|lia|done|done|done| |apply NoDup_singleton|done|].
  { intros t ->%list_elem_of_singleton. exists (HHDM + p), 1%nat. split_and!; [done|lia|done]. }
  exists s', g', [t1]. split; [|exact U]. rewrite <- E. cbn [forM]. unfold mbind, M_bind. cbv zeta.
  by destruct (free_frames virt_new t1 1 _) as [[] ?].
Qed.

(** The L1 tables below an L2 table, as the loop finds them. *)
Definition l1_frame (m : Z → Z) (l2 i : Z) : option Z :=
  let e := m (l2 + 8 * i) in if is_unused e || is_huge e then None else Some (entry_addr e).

Lemma free_frames_ram t n s : ram (free_frames virt_new t n s).2 = ram s.
Proof.
  unfold free_frames, on_frames, mbind, M_bind. by destruct (Physical.free_frames _ _ _ _) as [[] ?].
Qed.

Lemma free_loop t l s : PAGE_SIZE <= t → t + 4096 <= LIMIT → (∀ i, i ∈ l → 0 <= i < 512) →
  forM l (λ i, e ← entry HHDM (t + HHDM) i;
    if is_unused e || is_huge e then mret tt else free_frames virt_new (entry_addr e) 1) s
  = forM (omap (l1_frame (ram s) t) l) (λ u, free_frames virt_new u 1) s.
Proof.
  intros H1 H2. revert s. induction l as [|i l IH]; intros s Hl; [done|].
  assert (∀ s, forM l (λ i, e ← entry HHDM (t + HHDM) i;
    if is_unused e || is_huge e then mret tt else free_frames virt_new (entry_addr e) 1) s
    = forM (omap (l1_frame (ram s) t) l) (λ u, free_frames virt_new u 1) s) as IH'.
  { intros s'. apply IH. intros j Hj. apply Hl. by right. }
  cbn [forM omap list_omap]. unfold l1_frame at 1.
  assert (∀ f : Z → K St unit, (e ← entry HHDM (t + HHDM) i; f e) s = f (ram s (t + 8 * i)) s) as Hen.
  { intros f. mstep (entry_at t i s H1 H2 (Hl i ltac:(by left))). done. }
  unfold mbind at 1, M_bind at 1. rewrite Hen. destruct (_ || _); [apply IH'|].
  cbn [forM]. unfold mbind, M_bind. pose proof (free_frames_ram (entry_addr (ram s (t + 8 * i))) 1 s) as Hram.
  destruct (free_frames _ _ _ _) as [[] s']; try done. cbn [snd] in Hram. specialize (IH' s'). rewrite Hram in IH'.
  unfold mbind, M_bind in IH'. apply IH'.
Qed.

Lemma NoDup_omap {A B} (f : A → option B) l :
  NoDup l → (∀ x y b, x ∈ l → y ∈ l → f x = Some b → f y = Some b → x = y) → NoDup (omap f l).
Proof.
  induction 1 as [|x l Hx Hnd IH]; intros Hf; [constructor|].
  assert (NoDup (omap f l)) as IH' by (apply IH; intros y z b Hy Hz; apply Hf; by right).
  cbn [omap list_omap]. destruct (f x) as [b|] eqn:E; [|exact IH']. constructor; [|exact IH'].
  intros (y & Hy & Ey)%list_elem_of_omap. apply Hx.
  by rewrite (Hf x y b ltac:(by left) ltac:(by right) E Ey).
Qed.

Section block.
Context (s : St) (g : Buddy.Ghost) (p t2 t3 : Z) (Hm : mapped s g).
Context (Hp : 4096 <= p) (Hp' : p + reach 2 <= LIMIT) (Hd : (reach 2 | p)).
Context (H3 : (3%nat, t3) ∈ tables (ram s) 4 (cr3 s) (HHDM + p)).
Context (H2 : (2%nat, t2) ∈ tables (ram s) 4 (cr3 s) (HHDM + p)).
Context (l : list Z) (Hl : ∀ i, i ∈ l → 0 <= i < 512) (Hnd : NoDup l).

Let m := set_word (ram s) (slot 3 t3 (HHDM + p)) (huge_entry p).

(** The L2 table is the same for all the block, and the write is elsewhere. *)
Lemma l2_block i : 0 <= i < 512 →
  (2%nat, t2) ∈ tables (ram s) 4 (cr3 s) (HHDM + (p + i * 2 ^ 21)) ∧
  m (t2 + 8 * i) = ram s (slot 2 t2 (HHDM + (p + i * 2 ^ 21))).
Proof.
  intros Hi. pose proof (m_root _ _ Hm) as Hr. pose proof (roots_aligned _ _ (m_forest _ _ Hm) _ Hr) as Ha.
  destruct (region_hhdm HHDM LIMIT H30 Hlo hhdm_end 0 p i) as (R1 & _ & R3); [lia|lia|done|done|done|].
  assert (t2 + 8 * i = slot 2 t2 (HHDM + (p + i * 2 ^ 21))) as Hs
    by (unfold slot; change (Z.of_nat 2) with 2; by rewrite R3).
  split; [by eapply tables_region|]. unfold m, set_word. rewrite (proj2 (Z.eqb_neq _ _)); [by rewrite Hs|].
  rewrite Hs. intros [Hc _]%slot_inj; [|by eapply tables_aligned|by eapply tables_aligned].
  pose proof H2 as H2'. rewrite Hc in H2'.
  destruct (tables_once _ _ (m_forest _ _ Hm) _ _ _ _ _ _ _ Hr Hr H2' H3). lia.
Qed.

Lemma l1_found i t : 0 <= i < 512 → l1_frame m t2 i = Some t →
  (1%nat, t) ∈ tables (ram s) 4 (cr3 s) (HHDM + (p + i * 2 ^ 21)).
Proof.
  intros Hi. destruct (l2_block i Hi) as [T R]. unfold l1_frame. rewrite R. pose proof (m_root _ _ Hm) as Hr.
  pose proof (m_direct _ _ Hm _ (p + i * 2 ^ 21) Hr ltac:(change (reach 2) with (2 ^ 30) in *; lia)) as Hw.
  destruct (walk_entries _ _ _ _ _ _ _ Hw T) as (Ep & _ & Hn). rewrite (used _ Ep). cbn [orb].
  destruct (is_huge _) eqn:Eh; [done|]. intros [= <-]. apply Hn; [done|lia].
Qed.

Definition block_frames : list Z := omap (l1_frame m t2) l ++ [t2].

Lemma block_frames_spec t : t ∈ block_frames →
  ∃ b j, (j, t) ∈ tables (ram s) 4 (cr3 s) b ∧ (j <= 2)%nat ∧ region 2 b = region 2 (HHDM + p).
Proof.
  intros [(i & Hi%Hl & Ht)%list_elem_of_omap | ->%list_elem_of_singleton]%elem_of_app.
  - exists (HHDM + (p + i * 2 ^ 21)), 1%nat. split_and!; [apply l1_found; [lia|done]|lia|].
    apply (region_hhdm HHDM LIMIT H30 Hlo hhdm_end 0 p i); [lia|lia|done|lia|done].
  - exists (HHDM + p), 2%nat. split_and!; [done|lia|done].
Qed.

Lemma block_frames_NoDup : NoDup block_frames.
Proof.
  pose proof (m_root _ _ Hm) as Hr. pose proof (tables_once _ _ (m_forest _ _ Hm)) as Honce.
  apply NoDup_app. split_and!; [|intros t (i & Hi%Hl & Ht)%list_elem_of_omap ->%list_elem_of_singleton|apply NoDup_singleton].
  - apply NoDup_omap; [exact Hnd|]. intros i j t Hi%Hl Hj%Hl Ei Ej.
    apply l1_found in Ei; [|lia]. apply l1_found in Ej; [|lia].
    destruct (Honce _ _ _ _ _ _ _ Hr Hr Ei Ej) as [_ Hreg].
    destruct (region_hhdm HHDM LIMIT H30 Hlo hhdm_end 0 p i) as (_ & R & _); [lia|lia|done|lia|done|].
    destruct (region_hhdm HHDM LIMIT H30 Hlo hhdm_end 0 p j) as (_ & R' & _); [lia|lia|done|lia|done|]. lia.
  - apply l1_found in Ht; [|lia]. destruct (Honce _ _ _ _ _ _ _ Hr Hr Ht H2). lia.
Qed.
End block.

Lemma forM_app {S E A} (f : A → M S E unit) l1 l2 s : forM (l1 ++ l2) f s = (forM l1 f;; forM l2 f) s.
Proof.
  revert s. induction l1 as [|x l1 IH]; intros s; [done|]. cbn [app forM]. unfold mbind, M_bind in *.
  destruct (f x s) as [[] s']; done.
Qed.

Lemma upgrade_1g s g p : mapped s g → PAGE_SIZE <= p → p + reach 2 <= LIMIT → (reach 2 | p) →
  ∃ s' g' F, try_upgrade_hhdm virt_new HHDM p PAGES_1GIB s = (Ok tt, s') ∧ upgraded s g s' g' F.
Proof.
  intros Hm Hp Hp' Hd. pose proof (reach_pos 2). pose proof (m_root _ _ Hm) as Hr. unfold PAGE_SIZE in Hp.
  pose proof (m_direct _ _ Hm _ p Hr ltac:(lia)) as Hw.
  destruct (upgrade_head s g p PAGES_1GIB Hm) as [H3 ->]; [unfold PAGE_SIZE; lia|].
  change (PAGES_1GIB =? PAGES_1GIB) with true. cbn [andb]. cbv zeta.
  assert (is_multiple_of p (Virt.SIZE Virt.Size1GiB) = true) as ->.
  { unfold is_multiple_of. change (Virt.SIZE Virt.Size1GiB) with (reach 2).
    by rewrite (proj2 (Z.mod_divide p (reach 2) ltac:(lia)) Hd). }
  set (t3 := entry_addr _) in *. destruct (table_at _ _ _ _ _ _ Hm Hr H3) as [_ E3].
  mstep (E3 3%nat (HHDM + p) s). destruct (walk_entries _ _ _ _ _ _ _ Hw H3) as (Ep3 & _ & H2).
  rewrite (used _ Ep3). cbn [orb].
  destruct (is_huge (ram s (slot 3 t3 (HHDM + p)))) eqn:Eh3; [exists s, g, []; split; [done|by apply upgraded_refl]|].
  specialize (H2 eq_refl ltac:(lia)). cbn [pred] in H2. set (t2 := entry_addr (ram s (slot 3 t3 (HHDM + p)))) in *.
  destruct (table_at _ _ _ _ _ _ Hm Hr H2) as [P2 _]. destruct (m_tables _ _ Hm _ _ _ _ Hr H3) as (B1 & B2 & _).
  destruct (m_tables _ _ Hm _ _ _ _ Hr H2) as (C1 & C2 & _).
  mstep (set_addr_at t3 (pt_index 3 (HHDM + p)) p s B1 B2 (pt_index_bounds _ _) ltac:(etransitivity; [|exact Hd]; by exists 262144)).
  change (t3 + 8 * pt_index 3 (HHDM + p)) with (slot 3 t3 (HHDM + p)). set (s1 := with_ram s _). mstep (P2 s1).
  assert (∀ i, i ∈ seqZ 0 512 → 0 <= i < 512) as Hl by (intros i Hi%elem_of_seqZ; lia).
  pose proof (NoDup_seqZ 0 512) as Hndl. revert Hl Hndl. generalize (seqZ 0 512) as l. intros l Hl Hndl.
  pose proof (block_frames_NoDup s g p t2 t3 Hm Hp Hp' Hd H3 H2 l Hl Hndl) as Hnd.
  destruct (finish s g p 2 t3 (block_frames s p t2 t3 l) Hm) as (s' & g' & E & U);
    [lia|lia|exact Hp'|exact Hd|exact H3|by apply (block_frames_spec s g p t2 t3)|exact Hnd|by intros [_ ?]%app_eq_nil|].
  exists s', g', (block_frames s p t2 t3 l). split; [|exact U]. rewrite <- E. fold s1.
  unfold mbind at 1, M_bind at 1. rewrite free_loop by done.
  unfold mbind at 2, M_bind at 2. unfold block_frames. rewrite forM_app.
  unfold mbind, M_bind. destruct (forM (omap _ _) _ s1) as [[] s2]; try done. cbn [forM]. unfold mbind, M_bind.
  by destruct (free_frames virt_new t2 1 s2) as [[] ?].
Qed.

(** Any other run is left alone. *)
Lemma upgrade_spec s g p count : mapped s g → PAGE_SIZE <= p → 0 < count → p + count * 4096 <= LIMIT →
  ∃ s' g' F, try_upgrade_hhdm virt_new HHDM p count s = (Ok tt, s') ∧ upgraded s g s' g' F.
Proof.
  intros Hm Hp Hc Hp'.
  destruct ((count =? PAGES_1GIB) && is_multiple_of p (Virt.SIZE Virt.Size1GiB)) eqn:E1.
  { apply andb_prop in E1 as [->%Z.eqb_eq E1%(is_multiple_of_spec p (Virt.SIZE Virt.Size1GiB) ltac:(done))].
    apply upgrade_1g; [done|done|exact Hp'|exact E1]. }
  destruct ((count =? PAGES_2MIB) && is_multiple_of p (Virt.SIZE Virt.Size2MiB)) eqn:E2.
  { apply andb_prop in E2 as [->%Z.eqb_eq E2%(is_multiple_of_spec p (Virt.SIZE Virt.Size2MiB) ltac:(done))].
    apply upgrade_2m; [done|done|exact Hp'|exact E2]. }
  exists s, g, []. split; [|by apply upgraded_refl].
  destruct (upgrade_head s g p count Hm) as [_ ->]; [lia|]. cbv zeta. by rewrite E1, E2.
Qed.

(** ** Allocating *)

Lemma zero_pages_spec start count s : PAGE_SIZE <= start → 0 < count → start + count * 4096 <= LIMIT →
  ∃ m, zero_pages HHDM (start + HHDM) count s = (Ok tt, with_ram s m) ∧
    (∀ i, 0 <= i < count * 512 → m (start + 8 * i) = 0) ∧
    (∀ x, ¬ (start <= x < start + count * 4096) → m x = ram s x).
Proof.
  intros H1 H2 H3. unfold zero_pages. destruct Ar as [_ _ A1 A2 _]. unfold PAGE_SIZE in *.
  rewrite u64_small by (unfold in_u64; lia).
  replace (count * 4096 / 8) with (count * 512) by (apply (Z.div_unique_pos _ _ _ 0); lia).
  destruct (wp_Ok (forM (seqZ 0 (count * 512)) (λ i, write_word HHDM (start + HHDM ⊞ 8 ⊠ i) 0)) (λ _ s', ∃ m,
    s' = with_ram s m ∧ (∀ i, 0 <= i < count * 512 → m (start + 8 * i) = 0) ∧
    (∀ x, ¬ (start <= x < start + count * 4096) → m x = ram s x)) s) as ([] & s' & E & m & -> & Hz & Hk).
  2:{ exists m. split_and!; [exact E|done|done]. }
  eapply wp_mono; [apply (wp_forM (λ n s', ∃ m, s' = with_ram s m ∧
    (∀ i, 0 <= i < Z.of_nat n → m (start + 8 * i) = 0) ∧ (∀ x, ¬ (start <= x < start + count * 4096) → m x = ram s x)) _ (λ _ _, False))|..|done].
  - exists (ram s). split_and!; [by destruct s|lia|done].
  - intros k i s' [-> Hk]%lookup_seqZ (m & -> & Hz & Hx). unfold wp, write_word, modify. eexists. split; [reflexivity|].
    assert (virt_to_phys HHDM (start + HHDM ⊞ 8 ⊠ (0 + Z.of_nat k)) = start + 8 * Z.of_nat k) as ->.
    { unfold virt_to_phys. rewrite (u64_small (8 * _)) by (unfold in_u64; lia).
      rewrite (u64_small (_ + 8 * _)) by (unfold in_u64; lia). rewrite u64_small by (unfold in_u64; lia). lia. }
    cbn [with_ram ram]. split.
    + intros i Hi. destruct (Z.eqb_spec (start + 8 * i) (start + 8 * Z.of_nat k)); [done|]. apply Hz. lia.
    + intros x Hx'. rewrite (proj2 (Z.eqb_neq _ _)) by lia. by apply Hx.
  - intros _ s' (m & -> & Hz & Hx). exists m. split_and!; [done| |done].
    intros i Hi. apply Hz. rewrite length_seqZ. lia.
Qed.

Lemma lives_bounds s g a n : inv s g [] → (a, n) ∈ Buddy.lives g → PAGE_SIZE <= a ∧ a + n * 4096 <= LIMIT.
Proof.
  intros Hi Ha. pose proof (Buddy.inv_geo _ _ _ _ _ _ _ _ _ Hi) as Hg.
  apply elem_of_app in Ha as [Ha|(sg & Ha & Hsg)%list_elem_of_bind].
  - pose proof (Buddy.live_sub virt_new 12 19 true HHDM PAGE_SIZE LIMIT Physical.page_min Physical.page_orders
      g [] _ Hg Ha) as [S1 S2]. pose proof (Buddy.geo_live _ _ _ _ _ _ _ Hg) as Hl.
    rewrite Forall_forall in Hl. destruct (Hl _ Ha) as (_ & _ & V1 & V2 & _). cbn in *. lia.
  - pose proof (Buddy.slab_live_sub virt_new 12 19 true HHDM PAGE_SIZE LIMIT Physical.page_min
      Physical.page_orders Physical.page_width g [] sg _ Hg Hsg Ha) as [S1 S2]. pose proof (Buddy.geo_slab _ _ _ _ _ _ _ Hg) as Hl.
    rewrite Forall_forall in Hl. pose proof (Hl _ Hsg) as Hok. destruct (Hok) as (O1 & O2 & O3 & O4 & _).
    cbn in *. lia.
Qed.

(** A run just handed out is apart from those in use. *)
Lemma new_run s g g1 a n : inv s g1 [] → Buddy.lives g1 ≡ₚ (a, n) :: Buddy.lives g →
  ∀ x, x ∈ Buddy.lives g → idisj (a, n * 4096) (x.1, x.2 * 4096).
Proof.
  intros Hi HL x Hx. pose proof (Buddy.lives_disj virt_new 12 19 true HHDM PAGE_SIZE LIMIT Physical.page_min
    Physical.page_orders Physical.page_width g1 (Buddy.inv_geo _ _ _ _ _ _ _ _ _ Hi)) as Hd.
  rewrite HL in Hd. apply disj_cons in Hd as [Hd _]. exact (Hd _ (list_elem_of_fmap_2 (Buddy.handle_iv 12) _ _ Hx)).
Qed.

(** A run just handed out has no frame of a table in it. *)
Lemma fresh_run g g1 a n t :
  (∃ s, inv s g1 []) → Buddy.lives g1 ≡ₚ (a, n) :: Buddy.lives g → Buddy.same_memory 12 g g1 → spare g t →
  ∀ x, t <= x < t + 4096 → ¬ (a <= x < a + n * 4096).
Proof.
  intros [s Hi] HL HM (_ & _ & _ & Hs) x Hx Ha. pose proof (Buddy.inv_geo _ _ _ _ _ _ _ _ _ Hi) as Hg.
  destruct Hs as [Hs|Hs].
  - pose proof (new_run s g g1 a n Hi HL _ Hs) as Hd. unfold idisj in Hd. cbn [fst snd] in Hd. lia.
  - apply (Hs x Hx). apply HM. eapply (Buddy.lives_covered virt_new 12 19 true HHDM PAGE_SIZE LIMIT
      Physical.page_min Physical.page_orders Physical.page_width g1 (a, n) x Hg); [rewrite HL; by left|done].
Qed.

Lemma alloc_zeroed s g count : mapped s g → 0 < count < 18446744073709551616 →
  on_frames (Physical.alloc_pages_raw virt_new count) s = (Ok None, s) ∨
  ∃ start s1 s2 g1, on_frames (Physical.alloc_pages_raw virt_new count) s = (Ok (Some start), s1) ∧
    PAGE_SIZE <= start ∧ start + count * 4096 <= LIMIT ∧ (start, count) ∈ Buddy.lives g1 ∧
    (∀ x, x ∈ Buddy.lives g → x ∈ Buddy.lives g1) ∧
    (∀ x, x ∈ Buddy.lives g → idisj (start, count * 4096) (x.1, x.2 * 4096)) ∧
    zero_pages HHDM (start + HHDM) count s1 = (Ok tt, s2) ∧ mapped s2 g1 ∧ trace s2 = trace s ∧
    (∀ i, 0 <= i < count * 512 → ram s2 (start + 8 * i) = 0) ∧
    (∀ r a j t x, r ∈ roots → (j, t) ∈ tables (ram s2) 4 r a → t <= x < t + 4096 → ¬ (start <= x < start + count * 4096)) ∧
    (∀ x, ¬ (start <= x < start + count * 4096) → ram s2 x = ram s x) ∧
    (∀ r a, r ∈ roots → walk (ram s2) 4 r a = walk (ram s) 4 r a ∧ tables (ram s2) 4 r a = tables (ram s) 4 r a).
Proof.
  intros [H1 H2 H3 H4 H5] Hc.
  destruct (Buddy.alloc_range_ok virt_new 12 19 true HHDM PAGE_SIZE LIMIT Physical.page_min Physical.page_orders
    Physical.page_width (frames s) g count H1 Hc) as [[E _]|(a & b & g1 & E & Hi & HL & HM & _)]; [left|right].
  { unfold on_frames, Physical.alloc_pages_raw. rewrite E. by destruct s. }
  assert ((a, count) ∈ Buddy.lives g1) as Hin by (rewrite HL; by left).
  destruct (lives_bounds b g1 a count Hi Hin) as [B1 B2].
  destruct (zero_pages_spec a count (mkSt b (ram s) (cr3 s) (trace s)) B1 ltac:(lia) B2) as (m & Ez & Hz & Hk).
  assert (∀ r x j t y, r ∈ roots → (j, t) ∈ tables (ram s) 4 r x → t <= y < t + 4096 → ¬ (a <= y < a + count * 4096)) as Hfr.
  { intros r x j t y Hr Ht. eapply fresh_run; [by exists b|done|done|by eapply H5]. }
  assert (∀ r x, r ∈ roots → walk m 4 r x = walk (ram s) 4 r x ∧ tables m 4 r x = tables (ram s) 4 r x) as Hw.
  { intros r x Hr. apply walk_agree. intros j u Hu. apply Hk. eapply Hfr; [done|done|].
    unfold slot. pose proof (pt_index_bounds (Z.of_nat j) x). lia. }
  exists a. eexists _, _, g1. split_and!; [unfold on_frames, Physical.alloc_pages_raw; by rewrite E|done|done|done| | |exact Ez| |done|done| |exact Hk|].
  - intros x Hx. rewrite HL. by right.
  - by apply (new_run b g g1).
  - split; cbn [with_ram frames ram cr3]; [done| | |done|].
    + eapply forest_sub; [|exact H2]. intros r x j t Hr. by rewrite (proj2 (Hw r x Hr)).
    + intros r p Hr Hp. rewrite (proj1 (Hw _ _ Hr)). by apply H3.
    + intros r x j t Hr. rewrite (proj2 (Hw _ _ Hr)). intros Ht. destruct (H5 r x j t Hr Ht) as (S1 & S2 & S3 & S4).
      split_and!; [done..|]. destruct S4 as [S4|S4]; [left; rewrite HL; by right|right].
      intros y Hy Hcov. apply (S4 y Hy). by apply HM.
  - intros r x j t y Hr. cbn [with_ram ram]. rewrite (proj2 (Hw _ _ Hr)). by apply Hfr.
  - intros r x Hr. by apply Hw.
Qed.
End frames.

(** All that [alloc_pages] promises. *)
Lemma alloc_pages_full (virt_new : Z → option Z) (HHDM LIMIT : Z)
    `{Ar : !Slab.Arena virt_new HHDM PAGE_SIZE LIMIT (2 ^ 12)} (roots : list Z) s g count :
  (2 ^ 30 | HHDM) → 2 ^ 64 - 2 ^ 47 <= HHDM → mapped HHDM LIMIT roots s g → 0 < count < 18446744073709551616 →
  alloc_pages virt_new HHDM count s = (Ok None, s) ∨
  ∃ start s' g' F, alloc_pages virt_new HHDM count s = (Ok (Some (HHDM + start)), s') ∧
    (PAGE_SIZE <= start ∧ start + count * 4096 <= LIMIT ∧ (start, count) ∈ Buddy.lives g') ∧
    (∀ x, x ∈ Buddy.lives g → idisj (start, count * 4096) (x.1, x.2 * 4096)) ∧
    (∀ i, 0 <= i < count * 512 → ram s' (start + 8 * i) = 0) ∧
    trace s' = trace s ++ ((λ t, Freed t 1) <$> F) ++ (match F with [] => [] | _ => [Shootdown] end) ∧
    (∀ x, x ∈ Buddy.lives g → (∀ t, t ∈ F → x ≠ (t, 1)) → x ∈ Buddy.lives g') ∧
    (∀ m, (∀ x, (∀ t, t ∈ F → ¬ (t <= x < t + 4096)) → m x = ram s' x) →
      mapped HHDM LIMIT roots (with_ram s' m) g' ∧ ∀ r a, r ∈ roots → walk m 4 r a = walk (ram s) 4 r a ∧
        ∀ j t, (j, t) ∈ tables m 4 r a → (j, t) ∈ tables (ram s) 4 r a) ∧
    (∀ t, t ∈ F → ∃ r a j, r ∈ roots ∧ (j, t) ∈ tables (ram s) 4 r a) ∧
    (∀ r a j t x, r ∈ roots → (j, t) ∈ tables (ram s) 4 r a → t <= x < t + 4096 → ¬ (start <= x < start + count * 4096)) ∧
    (∀ x, ¬ (start <= x < start + count * 4096) →
      (∀ r a j t, r ∈ roots → (j, t) ∈ tables (ram s) 4 r a → ¬ (t <= x < t + 4096)) → ram s' x = ram s x).
Proof.
  intros H30 Hlo Hm Hc. unfold alloc_pages.
  destruct (alloc_zeroed virt_new HHDM LIMIT roots Hlo s g count Hm Hc)
    as [E|(a & s1 & s2 & g1 & E & B1 & B2 & Hin & HL & Hnew & Ez & Hm2 & Ht & Hz & Hfr & Hk2 & Hw)]; [left; by mstep E|right].
  destruct (upgrade_spec virt_new HHDM LIMIT roots H30 Hlo s2 g1 a count Hm2 B1 ltac:(lia) B2)
    as (s' & g' & F & E' & T & Hk & HF & HL' & Hmap).
  assert (∀ r x j t, r ∈ roots → (j, t) ∈ tables (ram s2) 4 r x ↔ (j, t) ∈ tables (ram s) 4 r x) as Htb.
  { intros r x j t Hr. by rewrite (proj2 (Hw r x Hr)). }
  assert (∀ r x j t y, r ∈ roots → (j, t) ∈ tables (ram s2) 4 r x → a <= y < a + count * 4096 → ¬ (t <= y < t + 4096)) as Hfr'.
  { intros r x j t y Hr Hj Hy Hy'. by apply (Hfr r x j t y). }
  exists a, s', g', F. split_and!; [|done|done| |exact Hnew| | | | | | |].
  - mstep E. mstep (phys_to_virt_at virt_new HHDM LIMIT Hlo a s1 ltac:(lia)). mstep Ez. mstep E'. by rewrite Z.add_comm.
  - apply HL'; [done|]. intros t HtF [= -> ->]. destruct (HF t HtF) as (r & x & j & Hr & Hj).
    apply (Hfr' r x j t t Hr Hj); lia.
  - intros i Hi. rewrite Hk; [by apply Hz|]. intros r x j t Hr Hj. apply (Hfr' r x j t _ Hr Hj). lia.
  - by rewrite T, Ht.
  - intros x Hx. apply HL'. by apply HL.
  - intros m Hm'. destruct (Hmap m Hm') as [M1 M2]. split; [exact M1|]. intros r x Hr. destruct (M2 r x Hr) as [-> M3].
    split; [by apply Hw|]. intros j t Hj. by apply Htb, M3.
  - intros t HtF. destruct (HF t HtF) as (r & x & j & Hr & Hj). exists r, x, j. split; [done|]. by apply Htb.
  - intros r x j t y Hr Hj. apply (Hfr r x j t y Hr). by apply Htb.
  - intros x Hx Ho. rewrite Hk; [by apply Hk2|]. intros r y j t Hr Hj. apply (Ho r y j t Hr). by apply Htb.
Qed.

(** The part of it that its users need. *)
Lemma alloc_pages_spec (virt_new : Z → option Z) (HHDM LIMIT : Z)
    `{Ar : !Slab.Arena virt_new HHDM PAGE_SIZE LIMIT (2 ^ 12)} (roots : list Z) s g count :
  (2 ^ 30 | HHDM) → 2 ^ 64 - 2 ^ 47 <= HHDM → mapped HHDM LIMIT roots s g → 0 < count < 18446744073709551616 →
  alloc_pages virt_new HHDM count s = (Ok None, s) ∨
  ∃ start s' g' F, alloc_pages virt_new HHDM count s = (Ok (Some (HHDM + start)), s') ∧
    (start, count) ∈ Buddy.lives g' ∧
    (∀ x, x ∈ Buddy.lives g → idisj (start, count * 4096) (x.1, x.2 * 4096)) ∧
    (∀ i, 0 <= i < count * 512 → ram s' (start + 8 * i) = 0) ∧
    trace s' = trace s ++ ((λ t, Freed t 1) <$> F) ++ (match F with [] => [] | _ => [Shootdown] end) ∧
    (∀ x, x ∈ Buddy.lives g → (∀ t, t ∈ F → x ≠ (t, 1)) → x ∈ Buddy.lives g') ∧
    ∀ m, (∀ x, (∀ t, t ∈ F → ¬ (t <= x < t + 4096)) → m x = ram s' x) →
      mapped HHDM LIMIT roots (with_ram s' m) g' ∧ ∀ r a, r ∈ roots → walk m 4 r a = walk (ram s) 4 r a.
Proof.
  intros H30 Hlo Hm Hc.
  destruct (alloc_pages_full virt_new HHDM LIMIT roots s g count H30 Hlo Hm Hc)
    as [?|(a & s' & g' & F & E & (_ & _ & Hin) & Hd & Hz & T & HL & Hmap & _)]; [by left|right].
  exists a, s', g', F. split_and!; [done..|]. intros m Hm'. destruct (Hmap m Hm') as [M1 M2]. split; [done|].
  intros r x Hr. by apply M2.
Qed.

(** C3. [alloc_pages] returns zeroed pages that are in use by nobody else, and
    changes no address space.  For a run of 2 MiB or 1 GiB it puts a huge page in
    the direct map and gives the frames of the replaced tables back: every
    address of every address space keeps its translation, even when those
    frames are overwritten; the tables stay in order, so this can go on. *)
Theorem direct_map_kept (virt_new : Z → option Z) (HHDM LIMIT : Z)
    `{Ar : !Slab.Arena virt_new HHDM PAGE_SIZE LIMIT (2 ^ 12)} (roots : list Z) s g count :
  (2 ^ 30 | HHDM) → 2 ^ 64 - 2 ^ 47 <= HHDM → mapped HHDM LIMIT roots s g → 0 < count < 18446744073709551616 →
  alloc_pages virt_new HHDM count s = (Ok None, s) ∨
  ∃ start s' g' F, alloc_pages virt_new HHDM count s = (Ok (Some (HHDM + start)), s') ∧
    (start, count) ∈ Buddy.lives g' ∧
    (∀ x, x ∈ Buddy.lives g → idisj (start, count * 4096) (x.1, x.2 * 4096)) ∧
    (∀ i, 0 <= i < count * 512 → ram s' (start + 8 * i) = 0) ∧
    trace s' = trace s ++ ((λ t, Freed t 1) <$> F) ++ (match F with [] => [] | _ => [Shootdown] end) ∧
    (∀ x, x ∈ Buddy.lives g → (∀ t, t ∈ F → x ≠ (t, 1)) → x ∈ Buddy.lives g') ∧
    ∀ m, (∀ x, (∀ t, t ∈ F → ¬ (t <= x < t + 4096)) → m x = ram s' x) →
      mapped HHDM LIMIT roots (with_ram s' m) g' ∧ ∀ r a, r ∈ roots → walk m 4 r a = walk (ram s) 4 r a.
Proof. intros. by apply (alloc_pages_spec virt_new HHDM LIMIT roots). Qed.
End DirectMap.
