(* ===== verification/DirectMapExamples.v ===== *)
(** * A direct map with 4 KiB pages in it

    The tables of a boot loader that map 512 GiB with huge pages but for one
    block of 2 MiB, which a table of 4 KiB pages maps: allocating that block is
    an instance of the theorem on [alloc_pages]. *)

From S2P Require Import Prelude FreeList Slab Buddy Physical Errors RangeAllocator Virt PageTables DirectMap.
Import FreeList Physical DirectMap.

Module DirectMapExamples.

Definition LIMIT : Z := 2 ^ 39.

#[local] Instance limit_arena : Slab.Arena canonical HHDM PAGE_SIZE LIMIT (2 ^ 12).
Proof. destruct hhdm_arena as [H1 H2 H3 H4 H5]. unfold LIMIT, HHDM, PAGE_SIZE in *. split; try lia. intros a Ha. apply H1. lia. Qed.

(** L4 at 0x1000, L3 at 0x2000, L2 at 0x3000 and L1 at 0x4000. *)
Definition loader_ram (w : Z) : Z :=
  let i := (w mod 4096) / 8 in
  if w / 4096 =? 1 then (if i =? 256 then 0x2003 else 0)
  else if w / 4096 =? 2 then (if i =? 0 then 0x3003 else i * 2 ^ 30 + 0x83)
  else if w / 4096 =? 3 then (if i =? 1 then 0x4003 else i * 2 ^ 21 + 0x83)
  else if w / 4096 =? 4 then 0x200003 + i * 4096
  else 0.

Lemma ram_at n i : 0 <= i < 512 → loader_ram (n * 4096 + 8 * i) =
  if n =? 1 then (if i =? 256 then 0x2003 else 0)
  else if n =? 2 then (if i =? 0 then 0x3003 else i * 2 ^ 30 + 0x83)
  else if n =? 3 then (if i =? 1 then 0x4003 else i * 2 ^ 21 + 0x83)
  else if n =? 4 then 0x200003 + i * 4096
  else 0.
Proof.
  intros Hi. unfold loader_ram.
  rewrite <- (Z.div_unique_pos (n * 4096 + 8 * i) 4096 n (8 * i)), <- (Z.mod_unique_pos (n * 4096 + 8 * i) 4096 n (8 * i)) by lia.
  by rewrite <- (Z.div_unique_pos (8 * i) 8 i 0) by lia.
Qed.

Lemma frame_flags q f : 0 <= q < 2 ^ 40 → 0 <= f < 4096 → entry_addr (q * 4096 + f) = q * 4096.
Proof.
  intros Hq Hf. unfold Virt.entry_addr. rewrite <- (lor_add (q * 4096) f 12) by (lia || by exists q).
  rewrite Z.land_lor_distr_l. change 0x000FFFFFFFFFF000 with (Z.shiftl (Z.ones 40) 12).
  change 4096 with (2 ^ 12). rewrite <- Z.shiftl_mul_pow2, <- Z.shiftl_land by lia.
  rewrite (Z.land_ones q) by lia. rewrite (Z.mod_small q) by lia.
  assert (Z.land f (Z.shiftl (Z.ones 40) 12) = 0) as ->; [|apply Z.lor_0_r].
  apply Z.bits_inj'. intros i Hi. rewrite Z.land_spec, Z.bits_0. destruct (decide (i < 12)).
  - by rewrite Z.shiftl_spec_low, andb_false_r by lia.
  - rewrite Z.bits_above_log2; [done|lia|]. destruct (decide (f = 0)) as [->|]; [simpl; lia|].
    apply Z.log2_lt_pow2; [lia|]. pose proof (Z.pow_le_mono_r 2 12 i ltac:(lia) ltac:(lia)). lia.
Qed.

Lemma flag_bits q f k : 0 <= k < 12 → 0 <= f < 4096 → Z.testbit (q * 4096 + f) k = Z.testbit f k.
Proof.
  intros Hk Hf. rewrite <- (lor_add (q * 4096) f 12) by (lia || by exists q).
  rewrite Z.lor_spec. change 4096 with (2 ^ 12). by rewrite Z.mul_pow2_bits_low by lia.
Qed.

Lemma entry_flags q f : 0 <= q < 2 ^ 40 → 0 <= f < 4096 →
  is_present (q * 4096 + f) = Z.testbit f 0 ∧ is_huge (q * 4096 + f) = Z.testbit f 7 ∧
  entry_addr (q * 4096 + f) = q * 4096.
Proof. intros. split_and!; [by apply flag_bits..|by apply frame_flags]. Qed.

(** The entries the walk for [a] may read. *)
Lemma entries a :
  loader_ram (slot 4 0x1000 a) = (if pt_index 4 a =? 256 then 2 * 4096 + 3 else 0) ∧
  loader_ram (slot 3 0x2000 a) = (if pt_index 3 a =? 0 then 3 * 4096 + 3 else pt_index 3 a * 2 ^ 18 * 4096 + 0x83) ∧
  loader_ram (slot 2 0x3000 a) = (if pt_index 2 a =? 1 then 4 * 4096 + 3 else pt_index 2 a * 2 ^ 9 * 4096 + 0x83) ∧
  loader_ram (slot 1 0x4000 a) = (512 + pt_index 1 a) * 4096 + 3.
Proof.
  unfold slot. split_and!;
    [rewrite (ram_at 1)|rewrite (ram_at 2)|rewrite (ram_at 3)|rewrite (ram_at 4)]; try apply pt_index_bounds; cbn [Z.eqb Pos.eqb].
  - done.
  - change (Z.of_nat 3) with 3. case_bool; lia.
  - change (Z.of_nat 2) with 2. case_bool; lia.
  - change (Z.of_nat 1) with 1. lia.
Qed.

Lemma loader_tables a l t : (l, t) ∈ tables loader_ram 4 0x1000 a →
  (l = 4%nat ∧ t = 0x1000) ∨ (l = 3%nat ∧ t = 0x2000 ∧ pt_index 4 a = 256) ∨
  (l = 2%nat ∧ t = 0x3000 ∧ pt_index 4 a = 256 ∧ pt_index 3 a = 0) ∨
  (l = 1%nat ∧ t = 0x4000 ∧ pt_index 4 a = 256 ∧ pt_index 3 a = 0 ∧ pt_index 2 a = 1).
Proof.
  destruct (entries a) as (E4 & E3 & E2 & _). cbn [tables]. rewrite E4.
  intros [[= -> ->]|H]%elem_of_cons; [auto 10|]. destruct (Z.eqb_spec (pt_index 4 a) 256) as [H4|]; [|by apply elem_of_nil in H].
  change (entry_addr (2 * 4096 + 3)) with 0x2000 in H. rewrite E3 in H. cbn [is_present is_huge andb negb] in H.
  apply elem_of_cons in H as [[= -> ->]|H]; [auto 10|]. destruct (Z.eqb_spec (pt_index 3 a) 0) as [H3|].
  2:{ pose proof (pt_index_bounds 3 a).
      destruct (entry_flags (pt_index 3 a * 2 ^ 18) 0x83) as (F1 & F2 & _); [lia|lia|].
      rewrite F1, F2 in H. by apply elem_of_nil in H. }
  change (entry_addr (3 * 4096 + 3)) with 0x3000 in H. rewrite E2 in H.
  apply elem_of_cons in H as [[= -> ->]|H]; [auto 10|]. destruct (Z.eqb_spec (pt_index 2 a) 1) as [H2|].
  2:{ pose proof (pt_index_bounds 2 a).
      destruct (entry_flags (pt_index 2 a * 2 ^ 9) 0x83) as (F1 & F2 & _); [lia|lia|].
      rewrite F1, F2 in H. by apply elem_of_nil in H. }
  change (entry_addr (4 * 4096 + 3)) with 0x4000 in H.
  apply elem_of_cons in H as [[= -> ->]|H]; [auto 10|]. destruct (_ && _); by apply elem_of_nil in H.
Qed.

Lemma region_4 a : region 4 a = 0.
Proof. unfold region. change (reach 4) with (2 ^ 48). apply Z.div_small, Z.mod_pos_bound. lia. Qed.

Lemma loader_forest : forest loader_ram [0x1000].
Proof.
  split.
  - intros r ->%list_elem_of_singleton. by exists 1.
  - intros r r' a b l k t ->%list_elem_of_singleton ->%list_elem_of_singleton Ha%loader_tables Hb%loader_tables.
    assert (l = k) as <- by (destruct Ha as [Ha|[Ha|[Ha|Ha]]], Hb as [Hb|[Hb|[Hb|Hb]]]; lia). split; [done|].
    pose proof (region_4 a) as Ra. pose proof (region_4 b) as Rb. rewrite <- Rb in Ra.
    assert (pt_index 4 a = pt_index 4 b → region 3 a = region 3 b) as D3 by (intros; by apply region_down; [lia|..]).
    assert (region 3 a = region 3 b → pt_index 3 a = pt_index 3 b → region 2 a = region 2 b) as D2
      by (intros; by apply region_down; [lia|..]).
    assert (region 2 a = region 2 b → pt_index 2 a = pt_index 2 b → region 1 a = region 1 b) as D1
      by (intros; by apply region_down; [lia|..]).
    destruct Ha as [[-> Ha]|[[-> Ha]|[[-> Ha]|[-> Ha]]]], Hb as [Hb|[Hb|[Hb|Hb]]]; lia.
  - intros r r' a t t' -> %list_elem_of_singleton ->%list_elem_of_singleton _. apply tables_fun.
Qed.

Lemma loader_index p : 0 <= p < LIMIT →
  pt_index 4 (HHDM + p) = 256 ∧ pt_index 3 (HHDM + p) = p / 2 ^ 30 ∧
  pt_index 2 (HHDM + p) = p / 2 ^ 21 mod 512 ∧ pt_index 1 (HHDM + p) = p / 2 ^ 12 mod 512.
Proof.
  unfold LIMIT, HHDM. intros Hp. unfold PageTables.pt_index. rewrite !(Z.land_ones _ 9), !Z.shiftr_div_pow2 by lia.
  change (2 ^ 9) with 512. cbn [Z.mul Z.add Pos.mul Pos.add Pos.succ].
  split_and!.
  - rewrite <- (Z.div_unique_pos _ (2 ^ 39) 0x1FFFF00 p) by lia. done.
  - replace (0xFFFF800000000000 + p) with (0x1FFFF00 * 512 * 2 ^ 30 + p) by lia. rewrite Z.div_add_l by lia.
    rewrite Z.add_comm, Z.mod_add by lia. apply Z.mod_small.
    split; [apply Z.div_pos|apply Z.div_lt_upper_bound]; lia.
  - replace (0xFFFF800000000000 + p) with (0x1FFFF00 * 2 ^ 9 * 512 * 2 ^ 21 + p) by lia. rewrite Z.div_add_l by lia.
    by rewrite Z.add_comm, Z.mod_add by lia.
  - replace (0xFFFF800000000000 + p) with (0x1FFFF00 * 2 ^ 18 * 512 * 2 ^ 12 + p) by lia. rewrite Z.div_add_l by lia.
    by rewrite Z.add_comm, Z.mod_add by lia.
Qed.

Lemma mod_split p : 0 <= p → p = p / 2 ^ 21 mod 512 * 2 ^ 21 + p mod 2 ^ 21 + p / 2 ^ 30 * 2 ^ 30.
Proof.
  intros Hp. pose proof (Z.div_mod p (2 ^ 21) ltac:(lia)). pose proof (Z.div_mod (p / 2 ^ 21) 512 ltac:(lia)) as H1.
  rewrite Z.div_div in H1 by lia. change (2 ^ 21 * 512) with (2 ^ 30) in H1. lia.
Qed.

Lemma loader_direct : direct HHDM LIMIT loader_ram [0x1000].
Proof.
  intros r p ->%list_elem_of_singleton Hp. destruct (loader_index p Hp) as (I4 & I3 & I2 & I1).
  destruct (entries (HHDM + p)) as (E4 & E3 & E2 & E1). rewrite I4 in E4. rewrite I3 in E3. rewrite I2 in E2. rewrite I1 in E1.
  unfold LIMIT in Hp. pose proof (mod_split p ltac:(lia)) as Hsp.
  assert (0 <= p / 2 ^ 30 < 512) by (split; [apply Z.div_pos|apply Z.div_lt_upper_bound]; lia).
  assert (0 <= p / 2 ^ 21 mod 512 < 512) by (apply Z.mod_pos_bound; lia).
  assert (0 <= p / 2 ^ 12 mod 512 < 512) by (apply Z.mod_pos_bound; lia).
  assert (∀ k, (k < 3)%nat → (HHDM + p) mod reach k = p mod reach k) as Hmod.
  { intros k Hk. assert (reach k | HHDM) as [h ->].
    { assert (k = 0 ∨ k = 1 ∨ k = 2)%nat as [-> |[-> | ->]] by lia;
        [by exists (HHDM / 2 ^ 12)|by exists (HHDM / 2 ^ 21)|by exists (HHDM / 2 ^ 30)]. }
    pose proof (reach_pos k). rewrite Z.add_comm. apply Z.mod_add. lia. }
  cbn [walk]. rewrite E4. cbn [Z.eqb Pos.eqb]. change (entry_addr (2 * 4096 + 3)) with 0x2000.
  change (is_present (2 * 4096 + 3)) with true. change (is_huge (2 * 4096 + 3)) with false. cbn [negb Nat.eqb].
  rewrite E3. destruct (Z.eqb_spec (p / 2 ^ 30) 0) as [H3|].
  2:{ destruct (entry_flags (p / 2 ^ 30 * 2 ^ 18) 0x83) as (F1 & F2 & F3); [lia|lia|].
      rewrite F1, F2. cbn [negb]. change (Z.testbit 0x83 0) with true. change (Z.testbit 0x83 7) with true. cbn.
      unfold leaf_addr. rewrite F3, Hmod by lia. change (reach 2) with (2 ^ 30). f_equal.
      replace (p / 2 ^ 30 * 2 ^ 18 * 4096) with (p / 2 ^ 30 * 2 ^ 30) by lia. rewrite Z.mod_mul by lia.
      pose proof (Z.div_mod p (2 ^ 30)). lia. }
  change (entry_addr (3 * 4096 + 3)) with 0x3000.
  change (is_present (3 * 4096 + 3)) with true. change (is_huge (3 * 4096 + 3)) with false. cbn [negb Nat.eqb].
  rewrite E2. destruct (Z.eqb_spec (p / 2 ^ 21 mod 512) 1) as [H2|].
  2:{ destruct (entry_flags (p / 2 ^ 21 mod 512 * 2 ^ 9) 0x83) as (F1 & F2 & F3); [lia|lia|].
      rewrite F1, F2. change (Z.testbit 0x83 0) with true. change (Z.testbit 0x83 7) with true. cbn [negb Nat.ltb Nat.leb].
      unfold leaf_addr. rewrite F3, Hmod by lia. change (reach 1) with (2 ^ 21). f_equal.
      replace (p / 2 ^ 21 mod 512 * 2 ^ 9 * 4096) with (p / 2 ^ 21 mod 512 * 2 ^ 21) by lia. rewrite Z.mod_mul by lia. lia. }
  change (entry_addr (4 * 4096 + 3)) with 0x4000.
  change (is_present (4 * 4096 + 3)) with true. change (is_huge (4 * 4096 + 3)) with false. cbn [negb Nat.eqb].
  rewrite E1. destruct (entry_flags (512 + p / 2 ^ 12 mod 512) 3) as (F1 & _ & F3); [lia|lia|]. rewrite F1.
  change (Z.testbit 3 0) with true. cbn [negb]. unfold leaf_addr. rewrite F3, Hmod by lia. change (reach 0) with 4096.
  rewrite Z.mod_mul by lia. f_equal. pose proof (Z.div_mod p 4096 ltac:(lia)).
  pose proof (Z.div_mod (p / 4096) 512 ltac:(lia)) as Hd. rewrite Z.div_div in Hd by lia.
  change (2 ^ 12) with 4096. change (4096 * 512) with (2 ^ 21) in Hd.
  pose proof (Z.div_mod p (2 ^ 21) ltac:(lia)). lia.
Qed.

Definition loader_mmap : list MemmapEntry := [mkEntry 0x200000 0x200000 0].
Definition dm0 : St := mkSt (init canonical 0 HHDM loader_mmap ∅).2 loader_ram 0x1000 [].

Lemma loader_mmap_ok : mmap_ok 0 LIMIT loader_mmap.
Proof.
  split.
  - intros en ->%list_elem_of_singleton. cbn. unfold LIMIT. lia.
  - change (loader_mmap ≫= pages_of 0) with [(2097152, 2097152)]. repeat constructor.
Qed.

Lemma loader_mapped : ∃ g, mapped HHDM LIMIT [0x1000] dm0 g.
Proof.
  destruct (init_spec canonical 0 HHDM LIMIT ltac:(unfold LIMIT; lia) loader_mmap ∅ loader_mmap_ok) as (s & g & E & Hi & _ & Hx).
  exists g. unfold dm0. rewrite E. split; cbn [frames ram cr3 snd];
    [exact Hi|exact loader_forest|exact loader_direct|by left|].
  intros r a j t ->%list_elem_of_singleton Ht%loader_tables.
  assert (t = 0x1000 ∨ t = 0x2000 ∨ t = 0x3000 ∨ t = 0x4000) as Ht' by lia.
  unfold spare, PAGE_SIZE, LIMIT. split_and!; [lia|lia|exists (t / 4096); by destruct Ht' as [-> |[-> |[-> | ->]]]|right].
  intros x Hr Hc%Hx. change (loader_mmap ≫= pages_of 0) with [(2097152, 2097152)] in Hc.
  destruct Hc as (i & ->%list_elem_of_singleton & Hc). cbn in Hc. lia.
Qed.

(** An allocation that fails has failed in the buddy allocator. *)
Lemma alloc_none n s s' :
  alloc_pages canonical HHDM n s = (Ok None, s') → (alloc_pages_raw canonical n (frames s)).1 = Ok None.
Proof.
  unfold alloc_pages, on_frames, mbind, M_bind. destruct (alloc_pages_raw canonical n (frames s)) as [[[start|]| | |] b]; try done.
  cbn [fst]. destruct (phys_to_virt _ _ _ _) as [[] s1]; try done. destruct (zero_pages _ _ _ _) as [[] s2]; try done.
  by destruct (try_upgrade_hhdm _ _ _ _ _) as [[] s3].
Qed.

Lemma direct_map_kept_witness : ∃ start s', alloc_pages canonical HHDM 512 dm0 = (Ok (Some (HHDM + start)), s') ∧
  (∀ i, 0 <= i < 512 * 512 → ram s' (start + 8 * i) = 0) ∧
  ∀ p, 0 <= p < LIMIT → walk (ram s') 4 0x1000 (HHDM + p) = Some p.
Proof.
  destruct loader_mapped as [g Hm].
  destruct (direct_map_kept canonical HHDM LIMIT [0x1000] dm0 g 512 ltac:(by exists (HHDM / 2 ^ 30)) ltac:(done) Hm ltac:(lia))
    as [E|(start & s' & g' & F & E & _ & _ & Hz & _ & _ & Hk)].
  - exfalso. apply alloc_none in E. assert ((alloc_pages_raw canonical 512 (frames dm0)).1 = Ok (Some 0x200000)) as E'
      by (vm_compute; reflexivity). rewrite E in E'. done.
  - exists start, s'. split_and!; [exact E|exact Hz|]. intros p Hp.
    destruct (Hk (ram s') ltac:(done)) as [_ Hw]. rewrite Hw by (by left). apply loader_direct; [by left|done].
Defined.
End DirectMapExamples.
