(* ===== verification/Owned.v ===== *)
(** * Who owns which page (memory/wrappers.rs, memory/virt.rs)

    [PhysPage] and the frame allocator of the page tables on the page allocator
    of [DirectMap]: [new] and [drop], [leak], [zero], [allocate_frame] and
    [deallocate_frame].  Owners do these in any order, and write to what they
    own, while the allocator writes what it likes to memory that nobody owns.
    The theorem shows what a type with a destructor promises: the pages owned are
    apart, each holds what its owner put there, and they can always be dropped;
    and no address space changes. *)

From S2P Require Import Prelude Errors FreeList Slab Buddy Physical RangeAllocator Virt DirectMap DirectMapExamples.
Import Errors FreeList DirectMap.

Module Owned.

Record PhysPage := mkPage { start : Z; count : Z; phys : Z }.

Section code.
Context (virt_new : Z → option Z) (HHDM_OFFSET : Z).

Definition total {A} (m : K St A) : M St MemoryError A := map_errM (λ e : Empty_set, match e with end) m.

Definition page_new (count : Z) : M St MemoryError PhysPage :=
  r ← total (alloc_pages virt_new HHDM_OFFSET count);
  match r with
  | None => fail OutOfMemory
  | Some start => mret (mkPage start count (virt_to_phys HHDM_OFFSET start))
  end.

(** The address and the length of [as_byte_slice] and [as_byte_slice_mut]. *)
Definition as_byte_slice (p : PhysPage) : Z * Z := (start p, count p ⊠ PAGE_SIZE).
Definition page_zero (p : PhysPage) : K St unit := zero_pages HHDM_OFFSET (start p) (count p).
(** [mem::forget]: no destructor runs. *)
Definition leak (p : PhysPage) : Z * Z * Z := (start p, phys p, count p).
Definition page_drop (p : PhysPage) : K St unit := free_frames virt_new (phys p) (count p).

(** The frame allocator that the page tables are built with. *)
Definition allocate_frame : K St (option Z) :=
  r ← alloc_pages virt_new HHDM_OFFSET 1;
  match r with
  | None => mret None
  | Some v => mret (Some (Virt.align_down (virt_to_phys HHDM_OFFSET v) 4096))
  end.
Definition deallocate_frame (frame : Z) : K St unit := free_frames virt_new frame 1.

(** [PhysOffset::frame_to_pointer] *)
Definition frame_to_pointer (offset frame : Z) : Z := frame ⊞ offset.

(** An address space as the kernel holds it: the pointer to its top table and
    the free ranges.  [from_current_l4] reads them from the tables in use;
    [l4] is what goes into CR3. *)
Record VMem := mkVMem { page_table : Z; allocator : Ranges.RangeAllocator }.
Definition from_current_l4 (space : Virt.AddressSpace) : K St VMem :=
  phys ← gets cr3;
  virt ← phys_to_virt virt_new HHDM_OFFSET phys;
  m ← gets ram;
  mret (mkVMem virt (Virt.new_ranges (λ t i, m (t + 8 * i)) (virt_to_phys HHDM_OFFSET virt) space)).
Definition l4 (v : VMem) : Z := virt_to_phys HHDM_OFFSET (page_table v).

(** ** Owners *)

(** A run of frames that somebody owns: as a [PhysPage], or by its address only
    ([raw]: leaked, or a frame of [allocate_frame]); and the words its owner
    expects there. *)
Record Owner := mkOwner { run_of : Z * Z; raw : bool; view : Z → Z }.
Definition page_of (o : Owner) : PhysPage := mkPage (HHDM_OFFSET + (run_of o).1) (run_of o).2 (run_of o).1.
Definition owner_at (o : Owner) (x : Z) : Prop := (run_of o).1 <= x < (run_of o).1 + (run_of o).2 * 4096.

Inductive step (roots : list Z) : St * list Owner → St * list Owner → Prop :=
| Step_new n s os p s' : 0 < n < 2 ^ 64 → page_new n s = (Ok p, s') →
    step roots (s, os) (s', mkOwner (phys p, count p) false (λ _, 0) :: os)
| Step_new_fails n s os e s' : 0 < n < 2 ^ 64 → page_new n s = (Err e, s') → step roots (s, os) (s', os)
| Step_frame s os f s' : allocate_frame s = (Ok (Some f), s') →
    step roots (s, os) (s', mkOwner (f, 1) true (λ _, 0) :: os)
| Step_frame_fails s os s' : allocate_frame s = (Ok None, s') → step roots (s, os) (s', os)
| Step_drop s os1 o os2 s' : raw o = false → page_drop (page_of o) s = (Ok tt, s') →
    step roots (s, os1 ++ o :: os2) (s', os1 ++ os2)
| Step_leak s os1 o os2 v p n : raw o = false → leak (page_of o) = (v, p, n) →
    step roots (s, os1 ++ o :: os2) (s, os1 ++ mkOwner (p, n) true (view o) :: os2)
| Step_dealloc s os1 o os2 s' : raw o = true → (run_of o).2 = 1 → deallocate_frame (run_of o).1 s = (Ok tt, s') →
    step roots (s, os1 ++ o :: os2) (s', os1 ++ os2)
| Step_zero s os1 o os2 s' : page_zero (page_of o) s = (Ok tt, s') →
    step roots (s, os1 ++ o :: os2) (s', os1 ++ mkOwner (run_of o) (raw o) (λ _, 0) :: os2)
| Step_store s os1 o os2 i v s' : 0 <= i < (run_of o).2 * 512 →
    write_word HHDM_OFFSET (start (page_of o) ⊞ 8 ⊠ i) v s = (Ok tt, s') →
    step roots (s, os1 ++ o :: os2)
      (s', os1 ++ mkOwner (run_of o) (raw o) (λ j, if j =? i then v else view o j) :: os2)
| Step_other s os m :
    (∀ o x, o ∈ os → owner_at o x → m x = ram s x) →
    (∀ r a j t x, r ∈ roots → (j, t) ∈ tables (ram s) 4 r a → t <= x < t + 4096 → m x = ram s x) →
    step roots (s, os) (with_ram s m, os).
End code.

Section proofs.
Context (virt_new : Z → option Z) (HHDM LIMIT : Z) `{Ar : !Slab.Arena virt_new HHDM PAGE_SIZE LIMIT (2 ^ 12)}.
Context (roots : list Z) (H30 : (2 ^ 30 | HHDM)) (Hlo : 2 ^ 64 - 2 ^ 47 <= HHDM).
Abbreviation mapped := (DirectMap.mapped HHDM LIMIT roots).
Abbreviation binv := (Buddy.inv 12 19 true HHDM PAGE_SIZE LIMIT).

(** A run of the allocator that no table is in. *)
Definition apart_from_tables (m : Z → Z) (h : Z * Z) : Prop :=
  ∀ r a j t, r ∈ roots → (j, t) ∈ tables m 4 r a → h ≠ (t, 1).

Definition shows (s : St) (o : Owner) : Prop :=
  ∀ i, 0 <= i < (run_of o).2 * 512 → ram s ((run_of o).1 + 8 * i) = view o i.

Record inv (w : Z → Z → option Z) (s : St) (g : Buddy.Ghost) (os : list Owner) : Prop := {
  i_mapped : mapped s g;
  i_live o : o ∈ os → 0 < (run_of o).2 ∧ run_of o ∈ Buddy.lives g ∧ apart_from_tables (ram s) (run_of o) ∧ shows s o;
  i_nodup : NoDup (run_of <$> os);
  i_walk r a : r ∈ roots → walk (ram s) 4 r a = w r a
}.

Lemma lives_apart s g h k : binv s g [] → h ∈ Buddy.lives g → k ∈ Buddy.lives g → h ≠ k →
  idisj (h.1, h.2 * 4096) (k.1, k.2 * 4096).
Proof.
  intros Hi Hh Hk Hne.
  pose proof (Buddy.lives_disj virt_new 12 19 true HHDM PAGE_SIZE LIMIT Physical.page_min
    Physical.page_orders Physical.page_width g (Buddy.inv_geo _ _ _ _ _ _ _ _ _ Hi)) as Hd.
  apply elem_of_Permutation in Hh as [L HL]. rewrite HL in Hk, Hd. apply elem_of_cons in Hk as [->|Hk]; [done|].
  cbn [fmap list_fmap] in Hd. apply disj_cons in Hd as [Hd _].
  exact (Hd _ (list_elem_of_fmap_2 (Buddy.handle_iv 12) _ _ Hk)).
Qed.

(** A run in use that is no table has no table in it. *)
Lemma no_table_in s g h r a j t x : mapped s g → h ∈ Buddy.lives g → apart_from_tables (ram s) h →
  r ∈ roots → (j, t) ∈ tables (ram s) 4 r a → t <= x < t + 4096 → ¬ (h.1 <= x < h.1 + h.2 * 4096).
Proof.
  intros Hm Hh Ha Hr Ht Hx Hin. pose proof (m_inv _ _ _ _ _ Hm) as Hi.
  destruct (m_tables _ _ _ _ _ Hm r a j t Hr Ht) as (_ & _ & _ & [Hs|Hs]).
  - pose proof (lives_apart _ _ _ _ Hi Hh Hs (Ha r a j t Hr Ht)) as Hd. unfold idisj in Hd. cbn in Hd. lia.
  - apply (Hs x Hx). by eapply (Buddy.lives_covered virt_new 12 19 true HHDM PAGE_SIZE LIMIT Physical.page_min
      Physical.page_orders Physical.page_width g h x (Buddy.inv_geo _ _ _ _ _ _ _ _ _ Hi)).
Qed.

(** Memory outside of the tables can change. *)
Lemma same_tables (s : St) m :
  (∀ r a j t x, r ∈ roots → (j, t) ∈ tables (ram s) 4 r a → t <= x < t + 4096 → m x = ram s x) →
  ∀ r a, r ∈ roots → walk m 4 r a = walk (ram s) 4 r a ∧ tables m 4 r a = tables (ram s) 4 r a.
Proof.
  intros Hm r a Hr. apply walk_agree. intros j u Hu. eapply Hm; [done|done|].
  unfold slot. pose proof (pt_index_bounds (Z.of_nat j) a). lia.
Qed.

Lemma mapped_ram s g m : mapped s g →
  (∀ r a j t x, r ∈ roots → (j, t) ∈ tables (ram s) 4 r a → t <= x < t + 4096 → m x = ram s x) →
  mapped (with_ram s m) g.
Proof.
  intros [H1 H2 H3 H4 H5] Hm. pose proof (same_tables s m Hm) as Hw.
  split; cbn [with_ram frames ram cr3]; [done| | |done|].
  - eapply forest_sub; [|exact H2]. intros r a j t Hr. by rewrite (proj2 (Hw r a Hr)).
  - intros r p Hr Hp. rewrite (proj1 (Hw _ _ Hr)). by apply H3.
  - intros r a j t Hr. rewrite (proj2 (Hw _ _ Hr)). by apply H5.
Qed.

(** Changes of memory that leave the tables alone and show each owner its view. *)
Lemma inv_ram w s g os os' m : inv w s g os →
  (∀ r a j t x, r ∈ roots → (j, t) ∈ tables (ram s) 4 r a → t <= x < t + 4096 → m x = ram s x) →
  run_of <$> os' = run_of <$> os → (∀ o, o ∈ os' → shows (with_ram s m) o) → inv w (with_ram s m) g os'.
Proof.
  intros [I1 I2 I3 I4] Hm Hr Hs. pose proof (same_tables s m Hm) as Hw. split.
  - by apply mapped_ram.
  - intros o Ho. assert (run_of o ∈ run_of <$> os) as Hin by (rewrite <-Hr; by apply list_elem_of_fmap_2).
    apply list_elem_of_fmap in Hin as (o' & E & Ho'). destruct (I2 o' Ho') as (P & L & A & _). rewrite <-E in P, L, A.
    split_and!; [done|done| |by apply Hs]. intros r a j t Hra. cbn [with_ram ram]. rewrite (proj2 (Hw r a Hra)). by apply A.
  - by rewrite Hr.
  - intros r a Hra. cbn [with_ram ram]. rewrite (proj1 (Hw r a Hra)). by apply I4.
Qed.

Lemma owners_apart w s g os1 o os2 o' : inv w s g (os1 ++ o :: os2) → o' ∈ os1 ++ os2 →
  run_of o' ≠ run_of o ∧ ∀ x, owner_at o x → ¬ owner_at o' x.
Proof.
  intros [I1 I2 I3 _] Ho'. rewrite fmap_app in I3. cbn [fmap list_fmap] in I3.
  assert (run_of o' ≠ run_of o) as Hne.
  { intros E. apply NoDup_app in I3 as (_ & H12 & H2). apply NoDup_cons in H2 as [H2 _].
    apply elem_of_app in Ho' as [Ho'|Ho']; apply (list_elem_of_fmap_2 run_of) in Ho'; rewrite E in Ho';
      [by apply (H12 _ Ho'); left|done]. }
  split; [done|]. intros x Hx Hx'. destruct (I2 o) as (_ & L & _); [set_solver|]. destruct (I2 o') as (_ & L' & _); [set_solver|].
  pose proof (lives_apart _ _ _ _ (m_inv _ _ _ _ _ I1) L L' (not_eq_sym Hne)) as Hd. unfold idisj, owner_at in *. cbn in *. lia.
Qed.

(** An owner changes its own run. *)
Lemma owner_writes w s g os1 o os2 m b v : inv w s g (os1 ++ o :: os2) →
  (∀ x, ¬ owner_at o x → m x = ram s x) →
  (∀ i, 0 <= i < (run_of o).2 * 512 → m ((run_of o).1 + 8 * i) = v i) →
  inv w (with_ram s m) g (os1 ++ mkOwner (run_of o) b v :: os2).
Proof.
  intros Hi Hm Hv. pose proof Hi as [I1 I2 _ _]. destruct (I2 o) as (P & L & A & _); [set_solver|].
  eapply inv_ram; [exact Hi| |by rewrite !fmap_app|].
  - intros r a j t x Hr Ht Hx. apply Hm. by eapply no_table_in.
  - intros o' [Ho'|[->|Ho']%elem_of_cons]%elem_of_app; [|by intros i; apply Hv|].
    all: intros i Hii; cbn [with_ram ram]; rewrite Hm; [by apply I2; [set_solver|]|].
    all: intros Hx; eapply (owners_apart _ _ _ _ _ _ o'); [exact Hi|set_solver|exact Hx|unfold owner_at; lia].
Qed.

Lemma inv_free w s g os1 o os2 : inv w s g (os1 ++ o :: os2) →
  ∃ s' g', free_frames virt_new (run_of o).1 (run_of o).2 s = (Ok tt, s') ∧ inv w s' g' (os1 ++ os2).
Proof.
  intros Hi. pose proof Hi as [I1 I2 I3 I4]. destruct (I2 o) as (P & L & A & _); [set_solver|]. destruct (run_of o) as [a n] eqn:Eo.
  destruct (Buddy.free_range_ok virt_new 12 19 true HHDM PAGE_SIZE LIMIT
      Physical.page_min Physical.page_orders Physical.page_width (frames s) g a n (m_inv _ _ _ _ _ I1) L) as (b & g' & E & Hb & HL & HM).
  eexists _, g'. split.
  { unfold free_frames, on_frames, Physical.free_frames, mbind, M_bind. cbn [fst snd]. rewrite E. reflexivity. }
  assert (∀ h, h ∈ Buddy.lives g → h ≠ (a, n) → h ∈ Buddy.lives g') as HL'.
  { intros h Hh Hne. rewrite HL in Hh. by apply elem_of_cons in Hh as [->|]. }
  split; cbn [frames ram cr3 trace].
  - destruct I1 as [M1 M2 M3 M4 M5]. split; cbn [frames ram cr3 trace]; [done..|].
    intros r x j t Hr Ht. destruct (M5 r x j t Hr Ht) as (S1 & S2 & S3 & S4). split_and!; [done..|].
    destruct S4 as [S4|S4]; [left; apply HL'; [done|]|right; intros y Hy Hc; apply (S4 y Hy); by apply HM].
    intros E'. by apply (A r x j t Hr Ht).
  - intros o' Ho'. destruct (I2 o') as (P' & L' & A' & S'); [set_solver|]. split_and!; [done| |done|done].
    apply HL'; [done|]. rewrite <-Eo. by eapply owners_apart.
  - eapply sublist_NoDup; [exact I3|]. rewrite !fmap_app. apply sublist_app; [done|]. by apply sublist_cons.
  - done.
Qed.

Lemma inv_alloc w s g os n b : inv w s g os → 0 < n < 2 ^ 64 →
  alloc_pages virt_new HHDM n s = (Ok None, s) ∨
  ∃ a s' g', alloc_pages virt_new HHDM n s = (Ok (Some (HHDM + a)), s') ∧ PAGE_SIZE <= a ∧ a + n * 4096 <= LIMIT ∧ 
    inv w s' g' (mkOwner (a, n) b (λ _, 0) :: os).
Proof.
  intros [I1 I2 I3 I4] Hn.
  destruct (alloc_pages_full virt_new HHDM LIMIT roots s g n H30 Hlo I1 ltac:(lia))
    as [?|(a & s' & g' & F & E & (B1 & B2 & Hin) & Hd & Hz & _ & HL & Hmap & HF & Hfr & Hk)]; [by left|right].
  exists a, s', g'. split_and!; [done..|]. destruct (Hmap (ram s')) as [M1 M2]; [done|].
  assert (with_ram s' (ram s') = s') as Es by by destruct s'. rewrite Es in M1. split.
  - done.
  - intros o [->|Ho]%elem_of_cons; cbn [run_of].
    + split_and!; [cbn; lia|done| |by intros i; apply Hz]. intros r x j t Hr Ht [= -> ->].
      apply (Hfr r x j t t Hr); [by apply M2|lia..].
    + destruct (I2 o Ho) as (P & L & A & S). split_and!; [done| | |].
      * apply HL; [done|]. intros t HtF. destruct (HF t HtF) as (r & x & j & Hr & Ht). by apply (A r x j t).
      * intros r x j t Hr Ht. apply (A r x j t Hr). by apply M2.
      * intros i Hi. rewrite Hk; [by apply S| |].
        -- specialize (Hd _ L). unfold idisj in Hd. cbn in Hd. lia.
        -- intros r x j t Hr Ht Hx. apply (no_table_in s g (run_of o) r x j t _ I1 L A Hr Ht Hx). lia.
  - cbn. apply NoDup_cons. split; [|done]. intros Hc. apply list_elem_of_fmap in Hc as (o & E' & Ho).
    destruct (I2 o Ho) as (P & L & _). specialize (Hd _ L). rewrite <-E' in *. unfold idisj in Hd. cbn in *. lia.
  - intros r x Hr. rewrite <-I4 by done. by apply M2.
Qed.

(** The words of a run, through its pointer. *)
Lemma store_at a n i v s : PAGE_SIZE <= a → a + n * 4096 <= LIMIT → 0 <= i < n * 512 →
  write_word HHDM (HHDM + a ⊞ 8 ⊠ i) v s = (Ok tt, with_ram s (set_word (ram s) (a + 8 * i) v)).
Proof.
  intros B1 B2 Hi. pose proof (hhdm_end virt_new HHDM LIMIT). unfold write_word, modify, virt_to_phys.
  unfold PAGE_SIZE in B1. rewrite (u64_small (8 * i)) by (unfold in_u64; lia).
  rewrite (u64_small (HHDM + a + 8 * i)) by (unfold in_u64; lia).
  rewrite (u64_small (_ - HHDM)) by (unfold in_u64; lia). replace (HHDM + a + 8 * i - HHDM) with (a + 8 * i) by lia. done.
Qed.

Lemma owner_bounds w s g os o : inv w s g os → o ∈ os → PAGE_SIZE <= (run_of o).1 ∧ (run_of o).1 + (run_of o).2 * 4096 <= LIMIT.
Proof.
  intros [I1 I2 _ _] Ho. destruct (I2 o Ho) as (_ & L & _). destruct (run_of o) as [a n].
  exact (lives_bounds virt_new HHDM LIMIT _ _ _ _ (m_inv _ _ _ _ _ I1) L).
Qed.

Lemma to_phys_run a : 0 <= a → a < LIMIT → virt_to_phys HHDM (HHDM + a) = a.
Proof.
  intros H1 H2. pose proof (hhdm_end virt_new HHDM LIMIT). unfold virt_to_phys. rewrite u64_small by (unfold in_u64; lia). lia.
Qed.

Lemma owned_new w s g os n : inv w s g os → 0 < n < 2 ^ 64 →
  page_new virt_new HHDM n s = (Err OutOfMemory, s) ∨
  ∃ p s' g', page_new virt_new HHDM n s = (Ok p, s') ∧ start p = HHDM + phys p ∧
    inv w s' g' (mkOwner (phys p, count p) false (λ _, 0) :: os).
Proof.
  intros Hi Hn. unfold page_new, total, mbind, M_bind, map_errM.
  destruct (inv_alloc w s g os n false Hi Hn) as [->|(a & s' & g' & -> & B1 & B2 & Hi')]; [by left|right].
  cbn. unfold PAGE_SIZE in B1. rewrite to_phys_run by lia. by eexists _, s', g'.
Qed.

Lemma frame_aligned w s g os a b v : inv w s g (mkOwner (a, 1) b v :: os) → (4096 | a).
Proof.
  intros [I1 I2 _ _]. destruct (I2 (mkOwner (a, 1) b v)) as (_ & L & _); [by left|].
  exact (Buddy.lives_aligned virt_new 12 19 true HHDM PAGE_SIZE LIMIT Physical.page_min Physical.page_orders
    Physical.page_width g (a, 1) (Buddy.inv_geo _ _ _ _ _ _ _ _ _ (m_inv _ _ _ _ _ I1)) L).
Qed.

Lemma inv_frame w s g os : inv w s g os →
  allocate_frame virt_new HHDM s = (Ok None, s) ∨
  ∃ f s' g', allocate_frame virt_new HHDM s = (Ok (Some f), s') ∧ inv w s' g' (mkOwner (f, 1) true (λ _, 0) :: os).
Proof.
  intros Hi. unfold allocate_frame, mbind, M_bind.
  destruct (inv_alloc w s g os 1 true Hi ltac:(lia)) as [->|(a & s' & g' & -> & B1 & B2 & Hi')]; [by left|right].
  unfold PAGE_SIZE in B1. rewrite to_phys_run by lia. exists a, s', g'. split; [|done].
  unfold Virt.align_down. pose proof (frame_aligned _ _ _ _ _ _ _ Hi') as [q ->]. rewrite Z.mod_mul by lia. by rewrite Z.sub_0_r.
Qed.

Lemma inv_zero w s g os1 o os2 : inv w s g (os1 ++ o :: os2) →
  ∃ s', page_zero HHDM (page_of HHDM o) s = (Ok tt, s') ∧ inv w s' g (os1 ++ mkOwner (run_of o) (raw o) (λ _, 0) :: os2).
Proof.
  intros Hi. destruct (i_live _ _ _ _ Hi o) as (P & _); [set_solver|].
  destruct (owner_bounds _ _ _ _ o Hi) as [B1 B2]; [set_solver|].
  destruct (zero_pages_spec virt_new HHDM LIMIT Hlo (run_of o).1 (run_of o).2 s B1 ltac:(lia) B2) as (m & E & Hz & Hk).
  eexists. split; [unfold page_zero, page_of; cbn [start count]; rewrite Z.add_comm; exact E|]. by apply owner_writes.
Qed.

Lemma inv_store w s g os1 o os2 i v : inv w s g (os1 ++ o :: os2) → 0 <= i < (run_of o).2 * 512 →
  ∃ s', write_word HHDM (start (page_of HHDM o) ⊞ 8 ⊠ i) v s = (Ok tt, s') ∧
    inv w s' g (os1 ++ mkOwner (run_of o) (raw o) (λ j, if j =? i then v else view o j) :: os2).
Proof.
  intros Hi Hii. destruct (i_live _ _ _ _ Hi o) as (P & _ & _ & S); [set_solver|].
  destruct (owner_bounds _ _ _ _ o Hi) as [B1 B2]; [set_solver|].
  eexists. split; [by eapply store_at|]. apply owner_writes; [done| |].
  - intros x Hx. unfold set_word. rewrite (proj2 (Z.eqb_neq _ _)); [done|]. intros ->. apply Hx. unfold owner_at. lia.
  - intros j Hj. unfold set_word. destruct (Z.eqb_spec j i) as [->|Hne]; [by rewrite Z.eqb_refl|].
    rewrite (proj2 (Z.eqb_neq _ _)) by lia. by apply S.
Qed.

Lemma owned_step w st st' g : inv w st.1 g st.2 → step virt_new HHDM roots st st' → ∃ g', inv w st'.1 g' st'.2.
Proof.
  intros Hi Hs. destruct Hs as [n s os p s' Hn E|n s os e s' Hn E|s os f s' E|s os s' E|s os1 o os2 s' Hr E
    |s os1 o os2 v p n Hr E|s os1 o os2 s' Hr H1 E|s os1 o os2 s' E|s os1 o os2 i v s' Hii E|s os m Ho Ht];
    cbn [fst snd] in *.
  - destruct (owned_new _ _ _ _ n Hi Hn) as [E'|(p' & s1 & g' & E' & _ & Hi')]; rewrite E in E'; simplify_eq. by exists g'.
  - destruct (owned_new _ _ _ _ n Hi Hn) as [E'|(p' & s1 & g' & E' & _ & Hi')]; rewrite E in E'; simplify_eq. by exists g.
  - destruct (inv_frame _ _ _ _ Hi) as [E'|(f' & s1 & g' & E' & Hi')]; rewrite E in E'; simplify_eq. by exists g'.
  - destruct (inv_frame _ _ _ _ Hi) as [E'|(f' & s1 & g' & E' & Hi')]; rewrite E in E'; simplify_eq. by exists g.
  - destruct (inv_free _ _ _ _ _ _ Hi) as (s1 & g' & E' & Hi'). unfold page_drop, page_of in E. cbn [phys count] in E.
    rewrite E in E'. simplify_eq. by exists g'.
  - injection E as <- <- <-. exists g. assert (s = with_ram s (ram s)) as -> by by destruct s.
    rewrite <-surjective_pairing. apply owner_writes; [by destruct s|done|]. apply (i_live _ _ _ _ Hi). set_solver.
  - destruct (inv_free _ _ _ _ _ _ Hi) as (s1 & g' & E' & Hi'). unfold deallocate_frame in E. rewrite H1, E in E'.
    simplify_eq. by exists g'.
  - destruct (inv_zero _ _ _ _ _ _ Hi) as (s1 & E' & Hi'). rewrite E in E'. simplify_eq. by exists g.
  - destruct (inv_store _ _ _ _ _ _ i v Hi Hii) as (s1 & E' & Hi'). rewrite E in E'. simplify_eq. by exists g.
  - exists g. eapply inv_ram; [done|done|done|]. intros o Hin i Hii. cbn [with_ram ram]. rewrite (Ho o).
    + by apply (i_live _ _ _ _ Hi).
    + done.
    + unfold owner_at. lia.
Qed.

Lemma owned_steps w st st' : rtc (step virt_new HHDM roots) st st' → ∀ g, inv w st.1 g st.2 → ∃ g', inv w st'.1 g' st'.2.
Proof.
  induction 1 as [st|st st1 st2 Hs _ IH]; intros g Hi; [by exists g|].
  destruct (owned_step _ _ _ _ Hi Hs) as [g1 Hi1]. by eapply IH.
Qed.

Lemma inv_begin s g : mapped s g → inv (walk (ram s) 4) s g [].
Proof. intros Hm. split; [done|by intros o ?%elem_of_nil|apply NoDup_nil_2|done]. Qed.

Lemma inv_disjoint w s g os i j o o' : inv w s g os → i ≠ j → os !! i = Some o → os !! j = Some o' →
  idisj ((run_of o).1, (run_of o).2 * 4096) ((run_of o').1, (run_of o').2 * 4096).
Proof.
  intros [I1 I2 I3 _] Hij Hi Hj.
  destruct (I2 o) as (_ & L & _); [by eapply list_elem_of_lookup_2|].
  destruct (I2 o') as (_ & L' & _); [by eapply list_elem_of_lookup_2|].
  apply (lives_apart _ _ _ _ (m_inv _ _ _ _ _ I1) L L'). intros E. apply Hij.
  eapply (NoDup_lookup _ i j (run_of o)); [exact I3| |]; rewrite list_lookup_fmap, ?Hi, ?Hj; cbn; congruence.
Qed.

(** [from_current_l4] and [l4] are inverse on the tables in use, and the page
    tables' frames are reached where [phys_to_virt] puts them. *)
Lemma l4_current space s g : mapped s g → ∃ v, from_current_l4 virt_new HHDM space s = (Ok v, s) ∧ l4 HHDM v = cr3 s ∧
  page_table v = frame_to_pointer HHDM (cr3 s).
Proof.
  intros Hm. destruct (m_tables _ _ _ _ _ Hm (cr3 s) 0 4%nat (cr3 s) (m_root _ _ _ _ _ Hm)) as (B1 & B2 & _); [by left|].
  unfold from_current_l4. rewrite gets_bind. mstep (phys_to_virt_at virt_new HHDM LIMIT Hlo (cr3 s) s ltac:(lia)).
  rewrite gets_bind. eexists. split; [reflexivity|]. unfold l4, frame_to_pointer. cbn [page_table].
  pose proof (hhdm_end virt_new HHDM LIMIT). unfold PAGE_SIZE in B1.
  rewrite (Z.add_comm (cr3 s)), to_phys_run, u64_small by (try unfold in_u64; destruct Ar; lia). done.
Qed.
End proofs.

(** C4. What [PhysPage] promises its owners.  Pages and frames are allocated, dropped, leaked, freed,
    zeroed and written in any order, and memory that nobody owns and no table is in changes at will.
    Then the runs owned never overlap; each holds zeros but for what its owner wrote since; each can be
    dropped, without a panic; [PhysPage::new] fails with [OutOfMemory] only, or returns a run apart from
    all others; and every address of every address space still has its translation. *)
Theorem pages_owned (virt_new : Z → option Z) (HHDM LIMIT : Z)
    `{Ar : !Slab.Arena virt_new HHDM PAGE_SIZE LIMIT (2 ^ 12)} (roots : list Z) s0 g0 s os :
  (2 ^ 30 | HHDM) → 2 ^ 64 - 2 ^ 47 <= HHDM → DirectMap.mapped HHDM LIMIT roots s0 g0 →
  rtc (step virt_new HHDM roots) (s0, []) (s, os) →
  (∀ i j o o', i ≠ j → os !! i = Some o → os !! j = Some o' →
    idisj ((run_of o).1, (run_of o).2 * 4096) ((run_of o').1, (run_of o').2 * 4096)) ∧
  (∀ o k, o ∈ os → 0 <= k < (run_of o).2 * 512 → ram s ((run_of o).1 + 8 * k) = view o k) ∧
  (∀ o, o ∈ os → ∃ s', page_drop virt_new (page_of HHDM o) s = (Ok tt, s')) ∧
  (∀ n, 0 < n < 2 ^ 64 → page_new virt_new HHDM n s = (Err OutOfMemory, s) ∨
    ∃ p s', page_new virt_new HHDM n s = (Ok p, s') ∧ start p = HHDM + phys p ∧
      ∀ o, o ∈ os → idisj (phys p, count p * 4096) ((run_of o).1, (run_of o).2 * 4096)) ∧
  (∀ r a, r ∈ roots → walk (ram s) 4 r a = walk (ram s0) 4 r a).
Proof.
  intros H30 Hlo Hm Hs.
  destruct (owned_steps virt_new HHDM LIMIT roots H30 Hlo _ _ _ Hs g0 (inv_begin HHDM LIMIT roots s0 g0 Hm)) as [g Hi].
  cbn [fst snd] in Hi. split_and!.
  - intros i j o o'. by apply (inv_disjoint virt_new HHDM LIMIT roots _ _ _ _ _ _ _ _ Hi).
  - intros o k Ho. by apply (i_live _ _ _ _ _ _ _ Hi).
  - intros o (os1 & os2 & ->)%list_elem_of_split.
    destruct (inv_free virt_new HHDM LIMIT roots H30 Hlo _ _ _ _ _ _ Hi) as (s' & g' & E & _). by exists s'.
  - intros n Hn. destruct (owned_new virt_new HHDM LIMIT roots H30 Hlo _ _ _ _ n Hi Hn)
      as [?|(p & s' & g' & E & Hp & Hi')]; [by left|right]. exists p, s'. split_and!; [done..|].
    intros o [k Ho]%list_elem_of_lookup_1.
    exact (inv_disjoint virt_new HHDM LIMIT roots _ _ _ _ 0%nat (S k) _ _ Hi' ltac:(done) eq_refl Ho).
  - intros r a Hr. by apply (i_walk _ _ _ _ _ _ _ Hi).
Qed.

(** A run of 2 MiB in the memory of a boot loader, and one word written to it. *)
Import DirectMapExamples.
#[local] Existing Instance limit_arena.
Abbreviation canonical := Physical.canonical.
Abbreviation hhdm := Physical.HHDM.

Lemma new_returns n s g : mapped hhdm LIMIT [0x1000] s g → 0 < n < 2 ^ 64 →
  (Physical.alloc_pages_raw canonical n (frames s)).1 ≠ Ok None → ∃ p s', page_new canonical hhdm n s = (Ok p, s').
Proof.
  intros Hm Hn Hr. destruct (owned_new canonical hhdm LIMIT [0x1000] ltac:(by exists (hhdm / 2 ^ 30)) ltac:(done)
    _ _ _ _ n (inv_begin _ _ _ _ _ Hm) Hn) as [E|(p & s' & g' & E & _)]; [|by exists p, s'].
  exfalso. apply Hr. apply (alloc_none n s s). unfold page_new, total, mbind, M_bind, map_errM in E.
  destruct (alloc_pages canonical hhdm n s) as [[[]|[]| |] s1]; cbn in E; try discriminate E. by injection E as ->.
Qed.

Lemma page_new_count virt_new off n s p s' : page_new virt_new off n s = (Ok p, s') → count p = n.
Proof.
  unfold page_new, mbind, M_bind. destruct (total _ _) as [[[]| | |] ?]; intros E; try discriminate E. by injection E as <- _.
Qed.

Lemma raw_returns : (Physical.alloc_pages_raw canonical 512 (frames dm0)).1 = Ok (Some 0x200000).
Proof. vm_compute. reflexivity. Qed.

Lemma pages_owned_witness : ∃ p s1 s2, page_new canonical hhdm 512 dm0 = (Ok p, s1) ∧
  write_word hhdm (hhdm + phys p ⊞ 8 ⊠ 3) 7 s1 = (Ok tt, s2) ∧ ram s2 (phys p + 8 * 3) = 7 ∧ ram s2 (phys p + 8 * 4) = 0 ∧
  ∃ s3, page_drop canonical (mkPage (hhdm + phys p) (count p) (phys p)) s2 = (Ok tt, s3).
Proof.
  destruct loader_mapped as [g Hm].
  destruct (new_returns 512 dm0 g Hm ltac:(lia)) as (p & s1 & E); [by rewrite raw_returns|].
  pose proof (page_new_count _ _ _ _ _ _ E) as Hc.
  set (o := mkOwner (phys p, count p) false (λ _, 0)).
  assert (step canonical hhdm [0x1000] (dm0, []) (s1, [o])) as S1
    by exact (Step_new canonical hhdm [0x1000] 512 dm0 [] p s1 ltac:(lia) E).
  assert (∃ s2, write_word hhdm (start (page_of hhdm o) ⊞ 8 ⊠ 3) 7 s1 = (Ok tt, s2)) as [s2 E2]
    by (eexists; reflexivity).
  assert (step canonical hhdm [0x1000] (s1, [o]) (s2, [mkOwner (run_of o) false (λ j, if j =? 3 then 7 else 0)])) as S2.
  { eapply (Step_store canonical hhdm [0x1000] s1 [] o [] 3 7 s2); [cbn; lia|exact E2]. }
  destruct (pages_owned canonical hhdm LIMIT [0x1000] dm0 g s2 _ ltac:(by exists (hhdm / 2 ^ 30)) ltac:(done) Hm
    (rtc_l _ _ _ _ S1 (rtc_once _ _ S2))) as (_ & Hv & Hd & _).
  destruct (Hd _ (list_elem_of_here _ _)) as [s3 E3].
  exists p, s1, s2. split; [exact E|]. split; [exact E2|].
  split; [apply (Hv _ 3 (list_elem_of_here _ _)); cbn; lia|].
  split; [apply (Hv _ 4 (list_elem_of_here _ _)); cbn; lia|]. exists s3. exact E3.
Defined.
End Owned.
