(* ===== verification/Ps2.v ===== *)
(** * The PS/2 controller and keyboard (src/kernel/src/drivers/ps2/)

    The driver talks to the controller through two ports, which are parameters
    ([Ports]) with the documented behaviour of an 8042 ([I8042]): a command or a
    byte for the keyboard is taken when the status says that the input buffer is
    empty, and an answer can be read once the status says so.  Both may take a
    while.  The loops on the status have fuel; one more than the longest delay is
    enough.  Decoding scan codes is the work of the [pc_keyboard] crate. *)

From S2P Require Import Prelude Errors.
Import Errors.

Module Ps2.

Definition DATA_PORT : Z := 0x60.
Definition CMD_PORT : Z := 0x64.

Class Ports (W : Type) := {
  port_read : Z → W → Z * W;
  port_write : Z → Z → W → W
}.

Section driver.
Context {W : Type} {PO : Ports W}.
(** Fuel of the loops on the status. *)
Variable fuel : nat.
(** [add_idt_entry] of descriptors/idt.rs with the handler, and [redirect] and
    [unmask] of acpi/apic/ioapic.rs. *)
Variables (add_idt_entry : Z → M W KernelError unit)
  (redirect_ioapic : Z → Z → Z → Z → M W ACPIError unit) (unmask_ioapic : Z → M W ACPIError unit).

Abbreviation P A := (M W PS2Error A).

Definition read_port (port : Z) : P Z := λ w, let '(v, w') := port_read port w in (Ok v, w').
Definition write_port (port v : Z) : P unit := modify (port_write port v).

Definition read_status : P Z := read_port CMD_PORT.

(** [while cond(read_status()) { spin_loop() }] *)
Fixpoint spin (n : nat) (cond : Z → bool) : P unit :=
  match n with
  | O => lift Loop
  | S n => s ← read_status; if cond s then spin n cond else mret tt
  end.

Definition write_command (cmd : Z) : P unit :=
  spin fuel (λ s, negb (Z.land s 2 =? 0));; write_port CMD_PORT cmd.
Definition write_data (data : Z) : P unit :=
  spin fuel (λ s, negb (Z.land s 2 =? 0));; write_port DATA_PORT data.
Definition read_data : P Z :=
  spin fuel (λ s, Z.land s 1 =? 0);; read_port DATA_PORT.

Definition update_config (f : Z → Z) : P unit :=
  write_command 0x20;;
  config ← read_data;
  write_command 0x60;;
  write_data (f config).

(** [while read_status() & 1 != 0 { read_data(); }] *)
Fixpoint drain (n : nat) : P unit :=
  match n with
  | O => lift Loop
  | S n => s ← read_status; if Z.land s 1 =? 0 then mret tt else read_data;; drain n
  end.

Definition Keyboard : Z := 33.

Definition keyboard_config (c : Z) : Z :=
  Z.lor (Z.land c (255 - Z.shiftl 1 4)) (Z.lor (Z.shiftl 1 6) 1).

Definition expect (v : Z) : P unit :=
  b ← read_data; if negb (b =? v) then fail KeyboardACKFailed else mret tt.

Definition keyboard_init : P unit :=
  update_config keyboard_config;;
  write_data 0xFF;;
  expect 0xFA;;
  expect 0xAA;;
  write_data 0xF4;;
  expect 0xFA;;
  map_errM (λ _, IRQFail) (add_idt_entry Keyboard);;
  map_errM (λ _, IRQFail) (redirect_ioapic 1 Keyboard 0 0);;
  map_errM (λ _, IRQFail) (unmask_ioapic 1).

Definition init : P unit :=
  s ← read_status;
  if s =? 0xFF then fail FloatingController else
  write_command 0xAD;;
  write_command 0xA7;;
  drain fuel;;
  write_command 0xAA;;
  b ← read_data;
  if negb (b =? 0x55) then fail ControllerTestFailed else
  update_config (λ c, Z.lor c (Z.shiftl 3 4));;
  write_command 0xAE;;
  write_command 0xA8;;
  keyboard_init.
End driver.

(** ** The keys *)

Section keys.
(** The decoder of the [pc_keyboard] crate with its state: [None] is an error or
    an incomplete code. *)
Context {D KeyEvent : Type} (add_byte : Z → D → option KeyEvent * D) (is_up : KeyEvent → bool).

Record Keys := mkKeys { decoder : D; key_buffer : list KeyEvent; eois : nat }.

(** The handler from the scan code on. *)
Definition on_scancode (scancode : Z) (k : Keys) : Keys :=
  let '(key, d) := add_byte scancode (decoder k) in
  let buffer := match key with
    | Some key => if is_up key then key_buffer k else key_buffer k ++ [key]
    | None => key_buffer k
    end in
  mkKeys d buffer (S (eois k)).

Definition keyboard_handler {W} `{PO : Ports W} (fuel : nat) : M (W * Keys) PS2Error unit := λ s,
  let '(r, w) := read_data fuel s.1 in
  match r with
  | Ok scancode => (Ok tt, (w, on_scancode scancode s.2))
  | Err e => (Err e, (w, s.2))
  | Panic => (Panic, (w, s.2))
  | Loop => (Loop, (w, s.2))
  end.

(** One round of the loop of [kmain]: the key it prints. *)
Definition pop_front (k : Keys) : option KeyEvent * Keys :=
  match key_buffer k with
  | [] => (None, k)
  | key :: l => (Some key, mkKeys (decoder k) l (eois k))
  end.

(** Interrupts and rounds of the loop in any order, with what was printed. *)
Inductive KeyOp := Scancode (b : Z) | Round.

Definition key_op (s : list KeyEvent * Keys) (o : KeyOp) : list KeyEvent * Keys :=
  match o with
  | Scancode b => (s.1, on_scancode b s.2)
  | Round => let '(key, k) := pop_front s.2 in (s.1 ++ option_list key, k)
  end.

(** The keys pressed, from the scan codes. *)
Fixpoint pressed (ops : list KeyOp) (d : D) : list KeyEvent :=
  match ops with
  | [] => []
  | Round :: ops => pressed ops d
  | Scancode b :: ops =>
      let '(key, d) := add_byte b d in
      match key with
      | Some key => if is_up key then pressed ops d else key :: pressed ops d
      | None => pressed ops d
      end
  end.

(** No key is lost, doubled or out of order, and every interrupt is ended. *)
Lemma keys_in_order ops printed k :
  let s := fold_left key_op ops (printed, k) in
  s.1 ++ key_buffer s.2 = printed ++ key_buffer k ++ pressed ops (decoder k) ∧
  eois s.2 = (eois k + length (omap (λ o, match o with Scancode b => Some b | Round => None end) ops))%nat.
Proof.
  revert printed k. induction ops as [|o ops IH]; intros printed k; cbn [fold_left pressed].
  { rewrite app_nil_r. split; [done|cbn; lia]. }
  destruct o as [b|].
  - specialize (IH printed (on_scancode b k)). cbn [key_op fst snd].
    destruct IH as [IH1 IH2]. split.
    + rewrite IH1. unfold on_scancode. destruct (add_byte b (decoder k)) as [[key|] d]; [|done].
      cbn [decoder key_buffer]. destruct (is_up key); [done|]. by rewrite <- (app_assoc _ [key]).
    + rewrite IH2. unfold on_scancode. destruct (add_byte b (decoder k)). cbn. lia.
  - destruct (key_buffer k) as [|key l] eqn:E.
    + assert (key_op (printed, k) Round = (printed, k)) as ->
        by (unfold key_op, pop_front; cbn [snd]; rewrite E; cbn; by rewrite app_nil_r).
      specialize (IH printed k). by rewrite E in IH.
    + assert (key_op (printed, k) Round = (printed ++ [key], mkKeys (decoder k) l (eois k))) as ->
        by (unfold key_op, pop_front; cbn [snd]; by rewrite E).
      specialize (IH (printed ++ [key]) (mkKeys (decoder k) l (eois k))). cbn [key_buffer decoder eois] in IH.
      by rewrite <- app_assoc in IH.
Qed.
End keys.

(** ** The controller *)

(** The configuration byte, the bytes on their way to the processor, whether a
    configuration byte is expected next, and whether the keyboard scans. *)
Record Ctl := mkCtl { cfg : Z; out : list Z; config_next : bool; scanning : bool }.

Section controller.
(** What the self test and the keyboard answer. *)
Variables (test_result : Z) (reset_ack reset_result scan_ack : Z).

Definition say (l : list Z) (v : Ctl) : Ctl := mkCtl (cfg v) (out v ++ l) (config_next v) (scanning v).
Definition set_cfg (c : Z) (v : Ctl) : Ctl := mkCtl c (out v) (config_next v) (scanning v).

Definition ctl_command (c : Z) (v : Ctl) : Ctl :=
  if c =? 0x20 then say [cfg v] v
  else if c =? 0x60 then mkCtl (cfg v) (out v) true (scanning v)
  else if c =? 0xA7 then set_cfg (Z.setbit (cfg v) 5) v
  else if c =? 0xA8 then set_cfg (Z.clearbit (cfg v) 5) v
  else if c =? 0xAA then say [test_result] v
  else if c =? 0xAD then set_cfg (Z.setbit (cfg v) 4) v
  else if c =? 0xAE then set_cfg (Z.clearbit (cfg v) 4) v
  else v.

Definition ctl_data (d : Z) (v : Ctl) : Ctl :=
  if config_next v then mkCtl d (out v) false (scanning v)
  else if d =? 0xFF then say [reset_ack; reset_result] (mkCtl (cfg v) (out v) false false)
  else if d =? 0xF4 then say [scan_ack] (mkCtl (cfg v) (out v) false true)
  else v.

(** An 8042 behind the ports: [in_delay] and [out_delay] are the numbers of
    status reads until a byte is taken and until the next answer is there. *)
Class I8042 (W : Type) `{PO : Ports W} := {
  view : W → Ctl;
  in_delay : W → nat;
  out_delay : W → nat;
  longest : nat;
  delays_bounded w : (in_delay w <= longest)%nat ∧ (out_delay w <= longest)%nat;
  status_law w : let '(s, w') := port_read CMD_PORT w in
    s ≠ 0xFF ∧ (Z.land s 2 = 0 ↔ in_delay w = 0%nat) ∧ (Z.land s 1 = 0 ↔ out (view w) = [] ∨ out_delay w ≠ 0%nat) ∧
    view w' = view w ∧ in_delay w' = pred (in_delay w) ∧ out_delay w' = pred (out_delay w);
  data_law w b l : out (view w) = b :: l → out_delay w = 0%nat →
    let '(v, w') := port_read DATA_PORT w in
    v = b ∧ view w' = mkCtl (cfg (view w)) l (config_next (view w)) (scanning (view w));
  command_law c w : in_delay w = 0%nat → view (port_write CMD_PORT c w) = ctl_command c (view w);
  byte_law d w : in_delay w = 0%nat → view (port_write DATA_PORT d w) = ctl_data d (view w);
  stays_law p v w : out (view w) ≠ [] → out_delay w = 0%nat → out_delay (port_write p v w) = 0%nat
}.

Section proofs.
Context {W : Type} {PO : Ports W} {CT : I8042 W}.
Variable fuel : nat.
Hypothesis Hfuel : (longest < fuel)%nat.

Abbreviation ERR := (λ (_ : PS2Error) (_ : W), False).

(** An answer that is there stays there. *)
Definition keeps (w w' : W) : Prop := out (view w) ≠ [] → out_delay w = 0%nat → out_delay w' = 0%nat.

Lemma spin_in n w : (in_delay w < n)%nat →
  wp (spin n (λ s, negb (Z.land s 2 =? 0))) (λ _ w', view w' = view w ∧ in_delay w' = 0%nat ∧ keeps w w') ERR w.
Proof.
  revert w. induction n as [|n IH]; intros w Hn; [lia|]. cbn [spin]. apply wp_bind. unfold wp, read_status, read_port.
  pose proof (status_law w) as Hs. destruct (port_read CMD_PORT w) as [s w'].
  destruct Hs as (_ & Hin & _ & Hv & Hi & Ho). destruct (Z.eqb_spec (Z.land s 2) 0) as [E|E]; cbn [negb].
  - apply Hin in E. split_and!; [done|rewrite Hi, E; lia|]. intros _ H0. by rewrite Ho, H0.
  - assert (in_delay w ≠ 0%nat) by (intros H0; by apply E, Hin).
    eapply wp_mono; [apply IH; lia|..|done]. intros [] w'' (H1 & H2 & H3). split_and!; [by rewrite H1|lia|].
    intros Hne H0. apply H3; [by rewrite Hv|by rewrite Ho, H0].
Qed.

Lemma write_command_wp c w :
  wp (write_command fuel c) (λ _ w', view w' = ctl_command c (view w) ∧ keeps w w') ERR w.
Proof.
  unfold write_command. apply wp_bind. destruct (delays_bounded w) as [Hd _].
  eapply wp_mono; [apply spin_in; lia|..|done]. intros [] w1 (H1 & H2 & H3). cbn beta. unfold wp, write_port, modify.
  split; [rewrite command_law by lia; by rewrite H1|]. intros Hne H0. apply stays_law; [by rewrite H1|by apply H3].
Qed.

Lemma send_data_wp d w :
  wp (write_data fuel d) (λ _ w', view w' = ctl_data d (view w) ∧ keeps w w') ERR w.
Proof.
  unfold write_data. apply wp_bind. destruct (delays_bounded w) as [Hd _].
  eapply wp_mono; [apply spin_in; lia|..|done]. intros [] w1 (H1 & H2 & H3). cbn beta. unfold wp, write_port, modify.
  split; [rewrite byte_law by lia; by rewrite H1|]. intros Hne H0. apply stays_law; [by rewrite H1|by apply H3].
Qed.

Lemma spin_out n w : (out_delay w < n)%nat → out (view w) ≠ [] →
  wp (spin n (λ s, Z.land s 1 =? 0)) (λ _ w', view w' = view w ∧ out_delay w' = 0%nat) ERR w.
Proof.
  revert w. induction n as [|n IH]; intros w Hn Hne; [lia|]. cbn [spin]. apply wp_bind. unfold wp, read_status, read_port.
  pose proof (status_law w) as Hs. destruct (port_read CMD_PORT w) as [s w'].
  destruct Hs as (_ & _ & Hout & Hv & _ & Ho). destruct (Z.eqb_spec (Z.land s 1) 0) as [E|E].
  - apply Hout in E as [E|E]; [done|]. eapply wp_mono; [apply IH; [lia|by rewrite Hv]|..|done].
    intros [] w'' (H1 & H2). by rewrite H1.
  - split; [done|]. destruct (out_delay w) as [|k] eqn:Ek; [by rewrite Ho|]. exfalso. apply E, Hout. right. lia.
Qed.

Lemma take_data_wp w b l (Q : Z → W → Prop) : out (view w) = b :: l →
  (∀ w', view w' = mkCtl (cfg (view w)) l (config_next (view w)) (scanning (view w)) → Q b w') →
  wp (read_data fuel) Q ERR w.
Proof.
  intros Hout HQ. unfold read_data. apply wp_bind. destruct (delays_bounded w) as [_ Hd].
  eapply wp_mono; [apply spin_out; [lia|by rewrite Hout]|..|done]. intros [] w1 [H1 H2]. cbn beta. unfold wp, read_port.
  pose proof (data_law w1 b l) as Hl. rewrite H1 in Hl. specialize (Hl Hout H2). destruct (port_read DATA_PORT w1) as [v w2].
  destruct Hl as [-> Hl]. by apply HQ.
Qed.

Lemma update_config_wp f w : out (view w) = [] →
  wp (update_config fuel f) (λ _ w', view w' = mkCtl (f (cfg (view w))) [] false (scanning (view w))) ERR w.
Proof.
  intros Hout. unfold update_config.
  apply wp_bind. eapply wp_mono; [apply write_command_wp|..|done]. intros [] w1 [H1 _].
  apply wp_bind. eapply take_data_wp; [rewrite H1; cbn; by rewrite Hout|]. intros w2 H2.
  apply wp_bind. eapply wp_mono; [apply write_command_wp|..|done]. intros [] w3 [H3 _].
  eapply wp_mono; [apply send_data_wp|..|done]. intros [] w4 [H4 _]. by rewrite H4, H3, H2, H1.
Qed.

(** At most the one byte of the output buffer waits at the start. *)
Definition at_rest (w : W) : Prop :=
  config_next (view w) = false ∧ (out (view w) = [] ∨ ∃ b, out (view w) = [b] ∧ out_delay w = 0%nat).

Lemma drain_wp n w : (2 <= n)%nat → at_rest w →
  wp (drain fuel n) (λ _ w', view w' = mkCtl (cfg (view w)) [] false (scanning (view w))) ERR w.
Proof.
  assert (∀ n w, (1 <= n)%nat → config_next (view w) = false → out (view w) = [] →
    wp (drain fuel n) (λ _ w', view w' = mkCtl (cfg (view w)) [] false (scanning (view w))) ERR w) as Hempty.
  { intros [|k] w' Hk Hc Ho; [lia|]. cbn [drain]. apply wp_bind. unfold wp, read_status, read_port.
    pose proof (status_law w') as Hs. destruct (port_read CMD_PORT w') as [s w1].
    destruct Hs as (_ & _ & Hout & Hv & _). rewrite (proj2 Hout) by (by left). cbn.
    rewrite Hv. destruct (view w') as [? ? ? ?]. cbn in *. by subst. }
  intros Hn [Hc [Ho|(b & Ho & Hd)]]; [by apply Hempty; [lia|..]|]. destruct n as [|n]; [lia|]. cbn [drain].
  apply wp_bind. unfold wp at 1, read_status, read_port. pose proof (status_law w) as Hs. destruct (port_read CMD_PORT w) as [s w1].
  destruct Hs as (_ & _ & Hout & Hv & _). destruct (Z.eqb_spec (Z.land s 1) 0) as [E|_].
  { apply Hout in E as [E|E]; [by rewrite Ho in E|done]. }
  apply wp_bind. apply (take_data_wp w1 b []); [by rewrite Hv|]. intros w2 H2.
  eapply wp_mono; [apply Hempty; [lia|by rewrite H2, Hv|by rewrite H2]|..|done]. intros [] w3 H3. by rewrite H3, H2, Hv.
Qed.

Lemma expect_wp v w b l (Q : W → Prop) (R : PS2Error → W → Prop) : out (view w) = b :: l →
  (b ≠ v → ∀ w', R KeyboardACKFailed w') →
  (b = v → ∀ w', view w' = mkCtl (cfg (view w)) l (config_next (view w)) (scanning (view w)) → Q w') →
  wp (expect fuel v) (λ _, Q) R w.
Proof.
  intros Hout HR HQ. unfold expect. apply wp_bind.
  eapply wp_mono; [apply (take_data_wp w b l (λ x w', x = b ∧
    view w' = mkCtl (cfg (view w)) l (config_next (view w)) (scanning (view w))) Hout)|..|done]; [by intros w' H'|].
  intros x w' [-> H']. destruct (Z.eqb_spec b v) as [E|E]; cbn [negb]; [by apply HQ|by apply HR].
Qed.

Variables (add_idt_entry : Z → M W KernelError unit)
  (redirect_ioapic : Z → Z → Z → Z → M W ACPIError unit) (unmask_ioapic : Z → M W ACPIError unit).
(** Routing the interrupt has nothing to do with the controller. *)
Hypothesis Hidt : ∀ v w, wp (add_idt_entry v) (λ _ w', view w' = view w) (λ _ _, True) w.
Hypothesis Hredirect : ∀ g v c f w, wp (redirect_ioapic g v c f) (λ _ w', view w' = view w) (λ _ _, True) w.
Hypothesis Hunmask : ∀ g w, wp (unmask_ioapic g) (λ _ w', view w' = view w) (λ _ _, True) w.

Definition keyboard_answers : Prop := reset_ack = 0xFA ∧ reset_result = 0xAA ∧ scan_ack = 0xFA.

Lemma irq_wp {E} (m : M W E unit) w (Q : W → Prop) (R : PS2Error → W → Prop) :
  wp m (λ _ w', view w' = view w) (λ _ _, True) w → (∀ w', view w' = view w → Q w') → (∀ w', R IRQFail w') →
  wp (map_errM (λ _, IRQFail) m) (λ _, Q) R w.
Proof. intros Hm HQ HR. apply wp_map_errM. eapply wp_mono; [exact Hm|..]; auto. Qed.

Lemma keyboard_init_wp w : out (view w) = [] →
  wp (keyboard_init fuel add_idt_entry redirect_ioapic unmask_ioapic)
    (λ _ w', keyboard_answers ∧ view w' = mkCtl (keyboard_config (cfg (view w))) [] false true)
    (λ e _, (e = KeyboardACKFailed ∧ ¬ keyboard_answers) ∨ (e = IRQFail ∧ keyboard_answers)) w.
Proof.
  intros Hout. unfold keyboard_init, keyboard_answers.
  apply wp_bind. eapply wp_mono; [by apply update_config_wp|..|done]. intros [] w1 H1.
  apply wp_bind. eapply wp_mono; [apply send_data_wp|..|done]. intros [] w2 [H2 _]. rewrite H1 in H2. cbn in H2.
  apply wp_bind. eapply expect_wp; [by rewrite H2|intros; left; tauto|]. intros A1 w3 H3. rewrite H2 in H3. cbn in H3.
  apply wp_bind. eapply expect_wp; [by rewrite H3|intros; left; tauto|]. intros A2 w4 H4. rewrite H3 in H4. cbn in H4.
  apply wp_bind. eapply wp_mono; [apply send_data_wp|..|done]. intros [] w5 [H5 _]. rewrite H4 in H5. cbn in H5.
  apply wp_bind. eapply expect_wp; [by rewrite H5|intros; left; tauto|]. intros A3 w6 H6. rewrite H5 in H6. cbn in H6.
  apply wp_bind, irq_wp; [apply Hidt| |by right]. intros w7 H7.
  apply wp_bind, irq_wp; [apply Hredirect| |by right]. intros w8 H8.
  apply irq_wp; [apply Hunmask| |by right]. intros w9 H9. split; [done|]. by rewrite H9, H8, H7, H6.
Qed.

Lemma init_config c :
  Z.testbit (keyboard_config (Z.clearbit (Z.clearbit (Z.lor c (Z.shiftl 3 4)) 4) 5)) 0 = true ∧
  Z.testbit (keyboard_config (Z.clearbit (Z.clearbit (Z.lor c (Z.shiftl 3 4)) 4) 5)) 4 = false ∧
  Z.testbit (keyboard_config (Z.clearbit (Z.clearbit (Z.lor c (Z.shiftl 3 4)) 4) 5)) 5 = false.
Proof.
  unfold keyboard_config. rewrite !Z.lor_spec, !Z.land_spec, !Z.clearbit_eqb by lia. split_and!.
  - apply orb_true_r.
  - change (Z.testbit (255 - Z.shiftl 1 4) 4) with false. by rewrite andb_false_r.
  - change (Z.eqb 5 5) with true. by rewrite andb_false_r.
Qed.

Lemma ps2_init_spec w : at_rest w → (2 <= fuel)%nat →
  wp (init fuel add_idt_entry redirect_ioapic unmask_ioapic)
    (λ _ w', test_result = 0x55 ∧ keyboard_answers ∧ out (view w') = [] ∧ scanning (view w') = true ∧
      Z.testbit (cfg (view w')) 0 = true ∧ Z.testbit (cfg (view w')) 4 = false ∧ Z.testbit (cfg (view w')) 5 = false)
    (λ e _, (e = ControllerTestFailed ∧ test_result ≠ 0x55) ∨
      (e = KeyboardACKFailed ∧ test_result = 0x55 ∧ ¬ keyboard_answers) ∨
      (e = IRQFail ∧ test_result = 0x55 ∧ keyboard_answers)) w.
Proof.
  intros [Hc Ho] Hf. unfold init. apply wp_bind. unfold wp at 1, read_status, read_port.
  pose proof (status_law w) as Hs. destruct (port_read CMD_PORT w) as [s w0].
  destruct Hs as (Hs & _ & _ & Hv & _ & Hd). rewrite (proj2 (Z.eqb_neq _ _) Hs).
  apply wp_bind. eapply wp_mono; [apply write_command_wp|..|done]. intros [] w1 [H1 K1]. rewrite Hv in H1. cbn in H1.
  apply wp_bind. eapply wp_mono; [apply write_command_wp|..|done]. intros [] w2 [H2 K2]. rewrite H1 in H2. cbn in H2.
  apply wp_bind. eapply wp_mono; [apply (drain_wp fuel w2 Hf)|..|done].
  { split; [by rewrite H2|]. rewrite H2. cbn. destruct Ho as [Ho|(b & Ho & H0)]; [by left|right]. exists b. split; [done|].
    unfold keeps in *. rewrite Hv, H1 in *. cbn in *. rewrite Ho in *. apply K2; [done|]. apply K1; [done|]. by rewrite Hd, H0. }
  intros [] w3 H3. rewrite H2 in H3. cbn in H3.
  apply wp_bind. eapply wp_mono; [apply write_command_wp|..|done]. intros [] w4 [H4 _]. rewrite H3 in H4. cbn in H4.
  apply wp_bind. eapply wp_mono; [eapply (take_data_wp w4 test_result [] (λ x w', x = test_result ∧ out (view w') = []))|..|done];
    [by rewrite H4|by intros w' ->|].
  intros x w5 [-> H5]. destruct (Z.eqb_spec test_result 0x55) as [Ht|Ht]; cbn [negb]; [|by left].
  apply wp_bind. eapply wp_mono; [by apply update_config_wp|..|done]. intros [] w6 H6.
  apply wp_bind. eapply wp_mono; [apply write_command_wp|..|done]. intros [] w7 [H7 _]. rewrite H6 in H7. cbn in H7.
  apply wp_bind. eapply wp_mono; [apply write_command_wp|..|done]. intros [] w8 [H8 _]. rewrite H7 in H8. cbn in H8.
  eapply wp_mono; [apply keyboard_init_wp; by rewrite H8|..].
  - intros [] w9 [Ha H9]. rewrite H9, H8. cbn [out scanning cfg]. split_and!; [done..|apply init_config|apply init_config|apply init_config].
  - intros e _ [[-> Ha]|[-> Ha]]; auto.
Qed.
End proofs.
End controller.
Arguments view {_ _ _ _ _ _ _} _.
Arguments longest {_ _ _ _ _ _ _}.

(** Whatever the controller and the keyboard answer and however long they
    take, initialising them ends, with one turn of fuel more than the longest
    delay.  It succeeds only if the self test passed and the keyboard
    acknowledged its commands; then no byte is left over, the keyboard scans and
    its clock and interrupt are on.  Each error says what went wrong. *)
Theorem keyboard_ready (test_result reset_ack reset_result scan_ack : Z) {W} {PO : Ports W}
    {CT : I8042 test_result reset_ack reset_result scan_ack W} fuel add_idt_entry redirect_ioapic unmask_ioapic w :
  (longest < fuel)%nat → (2 <= fuel)%nat → at_rest test_result reset_ack reset_result scan_ack w →
  (∀ v w, wp (add_idt_entry v) (λ _ w', view w' = view w) (λ (_ : KernelError) _, True) w) →
  (∀ g v c f w, wp (redirect_ioapic g v c f) (λ _ w', view w' = view w) (λ (_ : ACPIError) _, True) w) →
  (∀ g w, wp (unmask_ioapic g) (λ _ w', view w' = view w) (λ (_ : ACPIError) _, True) w) →
  wp (init fuel add_idt_entry redirect_ioapic unmask_ioapic)
    (λ _ w', test_result = 0x55 ∧ keyboard_answers reset_ack reset_result scan_ack ∧
      out (view w') = [] ∧ scanning (view w') = true ∧
      Z.testbit (cfg (view w')) 0 = true ∧ Z.testbit (cfg (view w')) 4 = false ∧ Z.testbit (cfg (view w')) 5 = false)
    (λ e _, (e = ControllerTestFailed ∧ test_result ≠ 0x55) ∨
      (e = KeyboardACKFailed ∧ test_result = 0x55 ∧ ¬ keyboard_answers reset_ack reset_result scan_ack) ∨
      (e = IRQFail ∧ test_result = 0x55 ∧ keyboard_answers reset_ack reset_result scan_ack)) w.
Proof. intros. by apply ps2_init_spec. Qed.

(** ** A controller that is busy for a turn after each byte *)

Record Chip := mkChip { chip : Ctl; busy_in : bool; busy_out : bool }.

Definition turns (b : bool) : nat := if b then 1 else 0.

Definition chip_status (c : Chip) : Z :=
  (if busy_in c then 2 else 0) + (match out (chip c) with [] => 0 | _ => if busy_out c then 0 else 1 end).

#[local] Instance chip_ports : Ports Chip := {
  port_read p c :=
    if p =? CMD_PORT then (chip_status c, mkChip (chip c) false false)
    else match out (chip c) with
         | b :: l => (b, mkChip (mkCtl (cfg (chip c)) l (config_next (chip c)) (scanning (chip c))) (busy_in c) true)
         | [] => (0, c)
         end;
  port_write p v c :=
    mkChip (if p =? CMD_PORT then ctl_command 0x55 v (chip c) else ctl_data 0xFA 0xAA 0xFA v (chip c)) true
      (match out (chip c) with [] => true | _ => busy_out c end)
}.

#[local] Instance chip_laws : I8042 0x55 0xFA 0xAA 0xFA Chip.
Proof.
  refine {| view := chip; in_delay c := turns (busy_in c); out_delay c := turns (busy_out c); longest := 1 |}.
  - intros [v [] []]; cbn; lia.
  - intros [[c [|b l] n k] [] []]; cbn; unfold chip_status; cbn; naive_solver lia.
  - intros [v [] []] b l Ho Hd; cbn in *; try done; by rewrite Ho.
  - intros c [v [] []] Hd; cbn in *; done.
  - intros d [v [] []] Hd; cbn in *; done.
  - intros p x [v [] []] Ho Hd; cbn in *; try done; by destruct (out v).
Defined.

Definition chip0 : Chip := mkChip (mkCtl 0x47 [0x1C] false true) false false.
Definition quiet {E} : M Chip E unit := mret tt.

Lemma chip_runs : init 2 (λ _, quiet) (λ _ _ _ _, quiet) (λ _, quiet) chip0 =
  (Ok tt, mkChip (mkCtl 0x47 [] false true) false true).
Proof. vm_compute. reflexivity. Qed.

(** It has a stale byte at the start and ends with an empty buffer. *)
Lemma keyboard_ready_witness :
  ∃ c, init 2 (λ _, quiet) (λ _ _ _ _, quiet) (λ _, quiet) chip0 = (Ok tt, c) ∧
    out (chip c) = [] ∧ scanning (chip c) = true ∧ Z.testbit (cfg (chip c)) 0 = true.
Proof.
  assert (at_rest 0x55 0xFA 0xAA 0xFA chip0) as Hr by (split; [done|right; by exists 0x1C]).
  pose proof (keyboard_ready 0x55 0xFA 0xAA 0xFA 2 (λ _, quiet) (λ _ _ _ _, quiet) (λ _, quiet) chip0
    (le_n 2) (le_n 2) Hr (λ _ _, eq_refl) (λ _ _ _ _ _, eq_refl) (λ _ _, eq_refl)) as Hw.
  destruct (wp_use _ _ _ _ _ _ Hw (chip_runs)) as (_ & _ & H1 & H2 & H3 & _). exists (mkChip (mkCtl 0x47 [] false true) false true). split; [exact chip_runs|]. split_and!; [exact H1|exact H2|exact H3].
Defined.
End Ps2.
