(* ===== verification/Syscalls.v ===== *)
(** * System calls (src/kernel/src/syscalls/)

    The entry point is assembly, so the model has the registers, the memory in
    cells of 8 bytes and the instructions of [entry] one by one, between the
    [syscall] and [sysretq] of the processor.  [call] is the compiled [dispatch];
    what is assumed of it is the calling convention ([Abi]). *)

From S2P Require Import Prelude Errors Helpers Scheduler Descriptors Terminal.
Import Descriptors.

Module Syscalls.

Inductive Reg := rax | rbx | rcx | rdx | rsi | rdi | rbp | rsp | r8 | r9 | r10 | r11 | r12 | r13 | r14 | r15.

#[export] Instance Reg_eq_dec : EqDecision Reg.
Proof. solve_decision. Defined.

(** [sce] is the enable bit of EFER; the two halves of STAR are [sysret_base] and
    [syscall_base]. *)
Record Mach := mkMach {
  regs : Reg → Z; mem : Z → Z; rip : Z; rflags : Z; cs : Z; ss : Z; ring : Z; gs_base : Z;
  sce : bool; sysret_base : Z; syscall_base : Z; lstar : Z; sfmask : Z
}.

Definition set_reg (r : Reg) (v : Z) (m : Mach) : Mach :=
  mkMach (λ r', if decide (r' = r) then v else regs m r') (mem m) (rip m) (rflags m) (cs m) (ss m) (ring m)
    (gs_base m) (sce m) (sysret_base m) (syscall_base m) (lstar m) (sfmask m).
Definition store (a v : Z) (m : Mach) : Mach :=
  mkMach (regs m) (λ a', if a' =? a then v else mem m a') (rip m) (rflags m) (cs m) (ss m) (ring m)
    (gs_base m) (sce m) (sysret_base m) (syscall_base m) (lstar m) (sfmask m).

(** ** [init] *)

Definition INTERRUPT_FLAG : Z := 0x200.
Definition DIRECTION_FLAG : Z := 0x400.

Section init.
Context {TB : Tables}.

(** [None] is the panic for selectors that [Star::write] refuses. *)
Definition init (selectors : Selectors) (entry : Z) (m : Mach) : option Mach :=
  if negb (star_write (user_code_intel selectors) (user_data selectors) (kernel_code selectors) (kernel_data selectors))
  then None
  else Some (mkMach (regs m) (mem m) (rip m) (rflags m) (cs m) (ss m) (ring m) (gs_base m)
    true (user_code_intel selectors - 16) (kernel_code selectors) entry (Z.lor INTERRUPT_FLAG DIRECTION_FLAG)).
End init.

(** ** The processor *)

(** [syscall], [next] being the address of the next instruction. *)
Definition do_syscall (next : Z) (m : Mach) : option Mach :=
  if negb (sce m) then None
  else
    let m := set_reg r11 (rflags m) (set_reg rcx next m) in
    Some (mkMach (regs m) (mem m) (lstar m) (Z.ldiff (rflags m) (sfmask m)) (syscall_base m) (syscall_base m + 8) 0
      (gs_base m) (sce m) (sysret_base m) (syscall_base m) (lstar m) (sfmask m)).

(** [sysretq]; some flags cannot be restored. *)
Definition do_sysret (m : Mach) : Mach :=
  mkMach (regs m) (mem m) (regs m rcx) (Z.lor (Z.land (regs m r11) 0x3C7FD7) 2) (Z.lor (sysret_base m + 16) 3)
    (Z.lor (sysret_base m + 8) 3) 3 (gs_base m) (sce m) (sysret_base m) (syscall_base m) (lstar m) (sfmask m).

(** ** [entry] *)

Inductive Instr := XchgGs (offset : Z) | Push (r : Reg) | Pop (r : Reg) | Mov (dst src : Reg) | CallDispatch | Sysretq.

Definition entry (offset : Z) : list Instr :=
  [XchgGs offset; Push rcx; Push r11; Push rbx; Push rdx; Push rsi; Push rdi; Push rbp; Push r8; Push r9; Push r10;
   Push r12; Push r13; Push r14; Push r15; Mov rdi rax; Mov rsi rbx; CallDispatch;
   Pop r15; Pop r14; Pop r13; Pop r12; Pop r10; Pop r9; Pop r8; Pop rbp; Pop rdi; Pop rsi; Pop rdx; Pop rbx; Pop r11;
   Pop rcx; XchgGs offset; Sysretq].

Section machine.
Variable call : Mach → Mach.

Definition instr (i : Instr) (m : Mach) : Mach :=
  match i with
  | XchgGs offset =>
      let a := gs_base m + offset in store a (regs m rsp) (set_reg rsp (mem m a) m)
  | Push r => let sp := regs m rsp - 8 in store sp (regs m r) (set_reg rsp sp m)
  | Pop r => set_reg r (mem m (regs m rsp)) (set_reg rsp (regs m rsp + 8) m)
  | Mov dst src => set_reg dst (regs m src) m
  | CallDispatch => call m
  | Sysretq => do_sysret m
  end.

Definition run (l : list Instr) (m : Mach) : Mach := fold_left (λ m i, instr i m) l m.

(** The calling convention: [rax] is the result, the registers below survive,
    and nothing is written to the caller's part of the stack. *)
Class Abi (keep : Z → Prop) := {
  call_saved m r : r ∈ [rbx; rbp; rsp; r12; r13; r14; r15] → regs (call m) r = regs m r;
  call_stack m a : regs m rsp <= a ∨ keep a → mem (call m) a = mem m a;
  call_machine m : gs_base (call m) = gs_base m ∧ sysret_base (call m) = sysret_base m ∧
    ring (call m) = ring m
}.
End machine.
Arguments call_saved {call keep _}.
Arguments call_stack {call keep _}.
Arguments call_machine {call keep _}.

(** ** [dispatch] *)

(** "Hello!" *)
Definition HELLO : list Z := [72; 101; 108; 108; 111; 33].

Definition dispatch {FO : Terminal.Font} (syscall_number : Z) : M Terminal.Stdout Empty_set Z :=
  (if syscall_number =? 1 then Terminal.stdout_print HELLO;; Terminal.stdout_print [10] else mret tt);;
  mret 0.

(** ** A call and its return *)

Section roundtrip.
Context (call : Mach → Mach) (keep : Z → Prop) {AB : Abi call keep}.
Variables (offset top : Z).

(** The state of the machine before [call], and after it. *)
Definition pushed : list Reg := [rcx; r11; rbx; rdx; rsi; rdi; rbp; r8; r9; r10; r12; r13; r14; r15].

Lemma run_app l1 l2 m : run call (l1 ++ l2) m = run call l2 (run call l1 m).
Proof. apply fold_left_app. Qed.

Definition with_regs (m m' : Mach) : Prop :=
  gs_base m' = gs_base m ∧ sysret_base m' = sysret_base m ∧ ring m' = ring m ∧ rflags m' = rflags m.

Lemma with_regs_trans m1 m2 m3 : with_regs m1 m2 → with_regs m2 m3 → with_regs m1 m3.
Proof. intros (A1 & A2 & A3 & A4) (B1 & B2 & B3 & B4). split_and!; congruence. Qed.

Lemma push_reg_spec r m : r ≠ rsp → let m' := instr call (Push r) m in
  regs m' rsp = regs m rsp - 8 ∧ (∀ r', r' ≠ rsp → regs m' r' = regs m r') ∧
  mem m' (regs m rsp - 8) = regs m r ∧ (∀ a, a ≠ regs m rsp - 8 → mem m' a = mem m a) ∧ with_regs m m'.
Proof.
  intros Hr. cbn. split_and!; [done|by intros r' H; rewrite decide_False|by rewrite Z.eqb_refl| |done].
  intros a Ha. by rewrite (proj2 (Z.eqb_neq _ _)).
Qed.

(** The stack after pushing a list of registers. *)
Lemma pushes_spec l m : rsp ∉ l →
  let m' := run call (Push <$> l) m in
  regs m' rsp = regs m rsp - 8 * Z.of_nat (length l) ∧ (∀ r, r ≠ rsp → regs m' r = regs m r) ∧
  (∀ i r, l !! i = Some r → mem m' (regs m rsp - 8 * (Z.of_nat i + 1)) = regs m r) ∧
  (∀ a, ¬ (regs m rsp - 8 * Z.of_nat (length l) <= a < regs m rsp) → mem m' a = mem m a) ∧ with_regs m m'.
Proof.
  revert m. induction l as [|r l IH]; intros m Hl; [cbn; split_and!; [lia|done|done|done|done]|].
  apply not_elem_of_cons in Hl as [Hr Hl]. cbn [fmap list_fmap run fold_left].
  destruct (push_reg_spec r m (not_eq_sym Hr)) as (P1 & P2 & P3 & P4 & P5). set (m1 := instr call (Push r) m) in *.
  destruct (IH m1 Hl) as (I1 & I2 & I3 & I4 & I5). unfold run in *. set (m' := fold_left _ _ m1) in *. cbv zeta.
  rewrite P1 in *. cbn [length]. split_and!.
  - rewrite I1. lia.
  - intros r' Hr'. by rewrite I2, P2.
  - intros [|i] r' Hi.
    + injection Hi as <-. rewrite I4 by lia. by replace (regs m rsp - 8 * (Z.of_nat 0 + 1)) with (regs m rsp - 8) by lia.
    + cbn in Hi. assert (r' ≠ rsp) by (intros ->; apply Hl; by eapply list_elem_of_lookup_2). rewrite <- (P2 r') by done.
      rewrite <- (I3 i r' Hi). f_equal. lia.
  - intros a Ha. rewrite I4, P4 by lia. done.
  - exact (with_regs_trans _ _ _ P5 I5).
Qed.

Lemma pop_reg_spec r m : r ≠ rsp → let m' := instr call (Pop r) m in
  regs m' rsp = regs m rsp + 8 ∧ regs m' r = mem m (regs m rsp) ∧ (∀ r', r' ≠ rsp → r' ≠ r → regs m' r' = regs m r') ∧
  mem m' = mem m ∧ with_regs m m'.
Proof.
  intros Hr. cbn. split_and!; [by rewrite decide_False, decide_True by done|by rewrite decide_True| |done|done].
  intros r' H1 H2. by rewrite !decide_False.
Qed.

(** Popping in the opposite order gives the registers back. *)
Lemma pop_regs_spec l (v : Reg → Z) B m : NoDup l → rsp ∉ l →
  regs m rsp = B - 8 * Z.of_nat (length l) →
  (∀ i r, l !! i = Some r → mem m (B - 8 * (Z.of_nat i + 1)) = v r) →
  let m' := run call (Pop <$> rev l) m in
  regs m' rsp = B ∧ (∀ r, r ∈ l → regs m' r = v r) ∧ (∀ r, r ≠ rsp → r ∉ l → regs m' r = regs m r) ∧
  mem m' = mem m ∧ with_regs m m'.
Proof.
  revert m. induction l as [|r l IH] using rev_ind; intros m Hnd Hsp Hs Hc.
  { cbn in *. split_and!; [lia|by intros r ?%elem_of_nil|done|done|done]. }
  apply NoDup_app in Hnd as (Hnd & Hdis & _). rewrite rev_app_distr. cbn [rev app fmap list_fmap]. unfold run. cbn [fold_left].
  apply not_elem_of_app in Hsp as [Hsp Hr%not_elem_of_cons]. destruct Hr as [Hr%not_eq_sym _].
  destruct (pop_reg_spec r m Hr) as (P1 & P2 & P3 & P4 & P5). set (m1 := instr call (Pop r) m) in *.
  rewrite length_app in Hs. cbn [length] in Hs.
  destruct (IH m1) as (I1 & I2 & I3 & I4 & I5); [done|done|rewrite P1, Hs; lia| |].
  { intros i r' Hi. rewrite P4. apply Hc. by apply lookup_app_l_Some. }
  unfold run in *. set (m' := fold_left _ _ m1) in *.
  assert (r ∉ l) as Hrl by (intros H; apply (Hdis r H); by left).
  split_and!.
  - exact I1.
  - intros r' [Hr'|Hr'%list_elem_of_singleton]%elem_of_app; [by apply I2|]. subst r'. rewrite I3 by done. rewrite P2, Hs.
    rewrite <- (Hc (length l) r) by (by apply list_lookup_middle). f_equal. lia.
  - intros r' H1 H2. apply not_elem_of_app in H2 as [H2 [H3 _]%not_elem_of_cons]. by rewrite I3, P3.
  - by rewrite I4.
  - exact (with_regs_trans _ _ _ P5 I5).
Qed.

Lemma entry_parts : entry offset =
  [XchgGs offset] ++ (Push <$> pushed) ++ [Mov rdi rax; Mov rsi rbx; CallDispatch] ++ (Pop <$> rev pushed) ++
  [XchgGs offset; Sysretq].
Proof. done. Qed.

Lemma pushed_spec : NoDup pushed ∧ (rsp ∉ pushed) ∧ (rax ∉ pushed) ∧ (∀ r, r = rsp ∨ r = rax ∨ r ∈ pushed).
Proof.
  split_and!; [apply (bool_decide_unpack _); by vm_compute|..]; try (apply (bool_decide_unpack _); by vm_compute).
  intros []; first [by left|by right; left|right; right; apply (bool_decide_unpack _); by vm_compute].
Qed.

Lemma xchg_spec m : ∃ m', run call [XchgGs offset] m = m' ∧ regs m' rsp = mem m (gs_base m + offset) ∧
  (∀ r, r ≠ rsp → regs m' r = regs m r) ∧ mem m' (gs_base m + offset) = regs m rsp ∧
  (∀ a, a ≠ gs_base m + offset → mem m' a = mem m a) ∧ with_regs m m'.
Proof.
  eexists. split; [reflexivity|]. cbn. split_and!; [done|by intros r H; rewrite decide_False|by rewrite Z.eqb_refl| |done].
  intros a Ha. by rewrite (proj2 (Z.eqb_neq _ _)).
Qed.

Lemma movs_spec m : ∃ m', run call [Mov rdi rax; Mov rsi rbx] m = m' ∧ regs m' rsp = regs m rsp ∧
  regs m' rdi = regs m rax ∧ regs m' rsi = regs m rbx ∧ (∀ r, r ≠ rdi → r ≠ rsi → regs m' r = regs m r) ∧
  mem m' = mem m ∧ with_regs m m'.
Proof.
  eexists. split; [reflexivity|]. cbn. split_and!; [done..| |done|done]. intros r H1 H2. by rewrite !decide_False.
Qed.

(** The machine at the call, from the one the processor leaves in [entry]. *)
Definition called (m : Mach) : Mach := run call ([XchgGs offset] ++ (Push <$> pushed) ++ [Mov rdi rax; Mov rsi rbx]) m.

Lemma called_spec m :
  mem m (gs_base m + offset) = top → ¬ (top - 112 <= gs_base m + offset < top) →
  ∃ c, called m = c ∧ regs c rsp = top - 112 ∧ regs c rdi = regs m rax ∧ regs c rsi = regs m rbx ∧
  (∀ r, r ∉ [rsp; rdi; rsi] → regs c r = regs m r) ∧
  (∀ i r, pushed !! i = Some r → mem c (top - 8 * (Z.of_nat i + 1)) = regs m r) ∧
  mem c (gs_base m + offset) = regs m rsp ∧ with_regs m c.
Proof.
  intros Hslot Hout. unfold called. rewrite !run_app.
  destruct (xchg_spec m) as (m1 & -> & X1 & X2 & X3 & _ & X4). rewrite Hslot in X1.
  destruct pushed_spec as (_ & Hsp & _). pose proof (pushes_spec pushed m1 Hsp) as Hpush. cbv zeta in Hpush.
  generalize dependent (run call (Push <$> pushed) m1). intros m2 (P1 & P2 & P3 & P4 & P5).
  rewrite X1 in *. change (8 * Z.of_nat (length pushed)) with 112 in *.
  destruct (movs_spec m2) as (m3 & -> & M1 & M2 & M3 & M4 & M5 & M6). exists m3. split; [done|]. rewrite M5. split_and!.
  - by rewrite M1.
  - by rewrite M2, P2, X2.
  - by rewrite M3, P2, X2.
  - intros r [N1 [N2 [N3 _]%not_elem_of_cons]%not_elem_of_cons]%not_elem_of_cons. by rewrite M4, P2, X2.
  - intros i r Hi. rewrite (P3 i r Hi). apply X2. intros ->. apply Hsp. by eapply list_elem_of_lookup_2.
  - by rewrite P4.
  - exact (with_regs_trans _ _ _ X4 (with_regs_trans _ _ _ P5 M6)).
Qed.

Lemma entry_run m : run call (entry offset) m =
  do_sysret (run call [XchgGs offset] (run call (Pop <$> rev pushed) (call (called m)))).
Proof.
  rewrite entry_parts. unfold called. rewrite !run_app.
  generalize (run call (Push <$> pushed) (run call [XchgGs offset] m)) as x. intros x.
  change (run call [Mov rdi rax; Mov rsi rbx; CallDispatch] x) with (call (run call [Mov rdi rax; Mov rsi rbx] x)).
  generalize (run call (Pop <$> rev pushed) (call (run call [Mov rdi rax; Mov rsi rbx] x))) as y. intros y. done.
Qed.

(** What [entry] leaves: the registers of the caller but for the result, its
    stack pointer, and the slot for the next call. *)
Lemma entry_spec m :
  mem m (gs_base m + offset) = top → ¬ (top - 112 <= gs_base m + offset < top) → keep (gs_base m + offset) →
  ∃ e, run call (entry offset) m = do_sysret e ∧ (∀ r, r ≠ rax → regs e r = regs m r) ∧
    regs e rax = regs (call (called m)) rax ∧ mem e (gs_base m + offset) = top ∧
    gs_base e = gs_base m ∧ sysret_base e = sysret_base m.
Proof.
  intros Hslot Hout Hkeep. rewrite entry_run.
  destruct (called_spec m Hslot Hout) as (c & -> & C1 & _ & _ & _ & C2 & C3 & C4 & C5 & _).
  destruct (call_machine c) as (K1 & K2 & _).
  pose proof (call_saved c rsp ltac:(apply (bool_decide_unpack _); by vm_compute)) as Ksp.
  assert (∀ a, top - 112 <= a → mem (call c) a = mem c a) as Kst by (intros a Ha; apply call_stack; left; lia).
  pose proof (call_stack c _ (or_intror Hkeep)) as Kslot. generalize dependent (call c). intros m4 K1 K2 Ksp Kst Kslot.
  destruct pushed_spec as (Hnd & Hsp & Hrax & Hall).
  pose proof (pop_regs_spec pushed (regs m) top m4 Hnd Hsp) as Hpop. cbv zeta in Hpop.
  generalize dependent (run call (Pop <$> rev pushed) m4). intros m5 Hpop.
  destruct Hpop as (P1 & P2 & P3 & P4 & P5 & P6 & _).
  { rewrite Ksp, C1. done. }
  { intros i r Hi. rewrite Kst; [by apply C2|]. apply lookup_lt_Some in Hi. cbn [length pushed] in Hi. lia. }
  destruct (xchg_spec m5) as (m6 & -> & X1 & X2 & X3 & _ & X5 & X6 & _). rewrite P5, K1, C4, P1 in *.
  exists m6. split_and!; [done| | |done|congruence|congruence].
  - intros r Hr. destruct (Hall r) as [-> |[->|Hin]]; [|done|].
    + rewrite X1, P4, Kslot. done.
    + rewrite X2 by (intros ->; done). by apply P2.
  - rewrite X2, P3 by done. done.
Qed.
End roundtrip.

(** C11. A system call comes back: [entry] runs on the kernel stack of the task,
    with interrupts off, the stack aligned for [dispatch] and its arguments in
    place; afterwards user code goes on behind its [syscall] with its flags, its
    stack pointer and every register but the result and the two that the
    instruction itself overwrites, in a user code segment, and the kernel stack
    is where the next call looks for it.  The compiled [dispatch] keeps to the
    calling convention. *)
Theorem system_call_returns {TB : Tables} {TL : TableLaws} call keep {AB : Abi call keep} offset top entry_addr m0 u next :
  init ready_selectors entry_addr m0 = Some u → ring u = 3 → Z.lor (Z.land (rflags u) 0x3C7FD7) 2 = rflags u →
  mem u (gs_base u + offset) = top → (16 | top) → ¬ (top - 112 <= gs_base u + offset < top) → keep (gs_base u + offset) →
  ∃ m, do_syscall next u = Some m ∧
    (let c := called call offset m in
     ring c = 0 ∧ Z.land (rflags c) INTERRUPT_FLAG = 0 ∧ (16 | regs c rsp) ∧
     regs c rdi = regs u rax ∧ regs c rsi = regs u rbx ∧ regs c rdx = regs u rdx) ∧
    (let r := run call (entry offset) m in
     rip r = next ∧ rflags r = rflags u ∧ ring r = 3 ∧ cs r = 0x2B ∧ ss r = 0x23 ∧
     (∀ x, x ∉ [rax; rcx; r11] → regs r x = regs u x) ∧ mem r (gs_base u + offset) = top).
Proof.
  intros Hinit Hring Hfl Hslot Hal Hout Hkeep. unfold init in Hinit. rewrite star_accepts in Hinit. cbn [negb] in Hinit.
  injection Hinit as <-. cbn [gs_base mem rflags ring] in *. unfold do_syscall. cbn [sce negb]. eexists. split; [reflexivity|].
  match goal with |- context [called call offset ?x] => set (m := x) end.
  assert (gs_base m = gs_base m0 ∧ mem m = mem m0 ∧ ring m = 0 ∧ sysret_base m = 0x1B ∧
    rflags m = Z.ldiff (rflags m0) (Z.lor INTERRUPT_FLAG DIRECTION_FLAG) ∧ regs m rcx = next ∧ regs m r11 = rflags m0 ∧
    ∀ r, r ≠ rcx → r ≠ r11 → regs m r = regs m0 r) as (G1 & G2 & G3 & G4 & G5 & G6 & G7 & G8).
  { subst m. cbn. split_and!; [done..|]. intros r H1 H2. by rewrite !decide_False. }
  clearbody m. rewrite <- G1, <- G2 in *.
  destruct (called_spec call offset top m Hslot Hout) as (c & Ec & C1 & C2 & C3 & C4 & _ & _ & _ & _ & C5 & C6).
  destruct (entry_spec call keep offset top m Hslot Hout Hkeep) as (e & -> & E1 & E2 & E3 & E4 & E5).
  rewrite Ec. cbn [do_sysret rip rflags ring cs ss regs mem]. split; split_and!.
  - by rewrite C5.
  - rewrite C6, G5. apply Z.bits_inj'. intros i Hi. rewrite Z.land_spec, Z.ldiff_spec, Z.lor_spec, Z.bits_0.
    by destruct (Z.testbit (rflags m0) i), (Z.testbit INTERRUPT_FLAG i), (Z.testbit DIRECTION_FLAG i).
  - rewrite C1. apply Z.divide_sub_r; [done|by exists 7].
  - by rewrite C2, G8.
  - by rewrite C3, G8.
  - rewrite C4, G8; [done|done|done|apply (bool_decide_unpack _); by vm_compute].
  - by rewrite E1.
  - by rewrite E1, G7.
  - done.
  - by rewrite E5, G4.
  - by rewrite E5, G4.
  - intros x [N1 [N2 [N3 _]%not_elem_of_cons]%not_elem_of_cons]%not_elem_of_cons. by rewrite E1, G8.
  - done.
Qed.

(** The entry relies on the GS base of the kernel, which user code can change by
    loading a selector: with the base at 0 the kernel takes its stack pointer
    from a low address, from the caller's own memory. *)
Lemma stack_from_user call offset m v :
  gs_base m = 0 → mem m offset = v → regs (run call [XchgGs offset] m) rsp = v.
Proof. intros H1 <-. cbn. by rewrite H1. Qed.

(** What a call of [dispatch] prints. *)
Lemma dispatch_prints {FO : Terminal.Font} {FL : Terminal.FontLaws} F n s t :
  Terminal.fb_ok F → Terminal.displays F s t →
  wp (dispatch n) (λ r s', r = 0 ∧ Terminal.displays F s' (if n =? 1 then Terminal.text_str (HELLO ++ [10]) t else t))
    (λ _ _, False) s.
Proof.
  intros HF Hd. unfold dispatch. apply wp_bind. destruct (n =? 1); [|done]. generalize HELLO as l. intros l.
  apply wp_bind. eapply wp_mono; [eapply (Terminal.locked_wp F _ s t _ Hd); intros s1 Hs1; by apply Terminal.print_str_wp|..|done].
  intros [] s1 Hs1. eapply wp_mono; [eapply (Terminal.locked_wp F _ s1 _ _ Hs1); intros s2 Hs2; by apply Terminal.print_str_wp|..|done].
  intros [] s2 Hs2. split; [done|]. unfold Terminal.text_str in *. by rewrite fold_left_app.
Qed.

(** ** A processor with the tables as lists *)

#[local] Existing Instance list_tables.
#[local] Existing Instance list_table_laws.

Definition SLOT : Z := 0x9000.

(** A [dispatch] that uses its stack and leaves [rcx] and [rdx] changed. *)
Definition small_dispatch (m : Mach) : Mach :=
  let m := set_reg rdx 7 (set_reg rcx 7 (set_reg rax 0 m)) in
  if regs m rsp - 8 =? SLOT then m else store (regs m rsp - 8) 5 m.

#[local] Instance small_abi : Abi small_dispatch (λ a, a = SLOT).
Proof.
  split.
  - intros m r Hr. unfold small_dispatch. destruct (_ =? SLOT); cbn;
      by repeat (apply elem_of_cons in Hr as [->|Hr]; [done|]); apply elem_of_nil in Hr.
  - intros m a Ha. unfold small_dispatch. cbv zeta.
    change (regs (set_reg rdx 7 (set_reg rcx 7 (set_reg rax 0 m))) rsp) with (regs m rsp). destruct (Z.eqb_spec (regs m rsp - 8) SLOT) as [E|E]; cbn in *.
    + done.
    + rewrite (proj2 (Z.eqb_neq a _)); [done|]. lia.
  - intros m. unfold small_dispatch. by destruct (_ =? SLOT).
Qed.

Definition user0 : Mach :=
  mkMach (λ r, match r with rsp => 0x7000 | rax => 1 | rbx => 22 | rdx => 33 | r15 => 44 | _ => 0 end)
    (λ a, if a =? SLOT then 0x8000 else 0) 0x400000 0x202 0x2B 0x23 3 0x8FC0 false 0 0 0 0.

Lemma system_call_returns_witness : ∃ u m,
  init ready_selectors 0x100 user0 = Some u ∧ do_syscall 0x400002 u = Some m ∧
  regs (run small_dispatch (entry 0x40) m) rdx = 33 ∧ regs (run small_dispatch (entry 0x40) m) rsp = 0x7000.
Proof.
  eexists.
  destruct (system_call_returns small_dispatch (λ a, a = SLOT) 0x40 0x8000 0x100 user0
    (mkMach (regs user0) (mem user0) 0x400000 0x202 0x2B 0x23 3 0x8FC0 true 0x1B 0x08 0x100 0x600) 0x400002)
    as (m & E & _ & _ & _ & _ & _ & _ & Hr & _); [by vm_compute|done|done|done|by exists 0x800|cbn; lia|done|].
  exists m. split_and!; [by vm_compute|exact E| |].
  - apply (Hr rdx). apply (bool_decide_unpack _). by vm_compute.
  - apply (Hr rsp). apply (bool_decide_unpack _). by vm_compute.
Defined.
End Syscalls.
