(* ===== verification/Smp.v ===== *)
(** * Bringing up the processors (src/kernel/src/smp/)

    [init_bsp] makes the data of every processor the boot loader lists, [boot]
    starts the others and hands each a pointer to its own, here an index of
    [CPUS], and [ap_entry] is what they run.  Memory, task ids and the
    instructions that load tables are operations on the rest of the machine
    ([Kernel]). *)

From S2P Require Import Prelude Errors FreeList Helpers Scheduler Descriptors Pages Context.
Import Errors Helpers Descriptors.
#[local] Existing Instance FreeList.disj_perm.

Module Smp.

(** The rest of the kernel: [Stack::new] with the bottom and the top,
    [PhysPage::new] with the address and the zeroed pages, the next task id, the
    address of a boxed task state segment, and the loads. *)
Class Kernel (W : Type) `{TB : Tables} := {
  stack_new : M W KernelError (Z * Z);
  page_new : Z → M W KernelError (Z * Pages.PhysPage);
  next_id : M W KernelError Z;
  new_tss_box : M W KernelError Z;
  load_tables : Gdt → Selectors → W → W;
  descriptors_init : W → W;
  ipi_init : M W KernelError unit;
  syscalls_init : M W KernelError unit;
  idt_load : W → W;
  lapic_init : W → W;
  init_timer_ap : W → W;
  interrupts_enable : W → W
}.

Section smp.
Context {TB : Tables} {W : Type} {KN : Kernel W}.

Record CPUData := mkCPUData {
  id : Z; lapic_id : Z; gdt : Gdt; tss : TaskStateSegment; selectors : Selectors;
  scheduler : Scheduler.Sched; idle : Scheduler.Task; priv_stack : Z * Z; ipi_ack : bool;
  tlb_addresses : list Z; syscall_stack : Z
}.

(** The statics [CPUS] and [ONLINE_APS], the GS base as an index of [CPUS], and
    the processors that were started, each with the index it was given. *)
Record St := mkSt {
  world : W; cpus : LateInit (list CPUData); online_aps : Z; gs_base : option nat; started : list (Z * nat)
}.

Abbreviation S A := (M St KernelError A).

Definition on_world {A} (m : M W KernelError A) : S A := λ s,
  let '(r, w) := m (world s) in (r, mkSt w (cpus s) (online_aps s) (gs_base s) (started s)).
Definition touch (f : W → W) : S unit := on_world (modify f).

Definition on_cpus {A} (m : M (LateInit (list CPUData)) KernelError A) : S A := λ s,
  let '(r, c) := m (cpus s) in (r, mkSt (world s) c (online_aps s) (gs_base s) (started s)).

Definition gs_write (i : option nat) : S unit := modify (λ s, mkSt (world s) (cpus s) (online_aps s) i (started s)).

(** The data of one processor; [load] is done by the processor that boots once
    its tables are there.  [entry] is the address of [idle_task]. *)
Definition new_cpu (idle_entry : Z) (load : Gdt → Selectors → W → W) (id lapic_id : Z) : S CPUData :=
  box ← on_world new_tss_box;
  r ← on_world (new_gdt stack_new box);
  let '(gdt, tss, selectors) := r in
  priv_stack ← on_world stack_new;
  let tss := mkTss (interrupt_stack_table tss) (<[0%nat := priv_stack.2]> (privilege_stack_table tss)) in
  let cs := kernel_code selectors in
  let ds := kernel_data selectors in
  touch (load gdt selectors);;
  stack ← on_world (page_new 4);
  nid ← on_world next_id;
  let idle := (Context.new_kernel nid idle_entry stack.1 stack.2 cs ds).1 in
  mret (mkCPUData id lapic_id gdt tss selectors (Scheduler.sched_new idle) idle priv_stack false [] 0).

(** [Vec::swap_remove] *)
Definition swap_remove {A} (i : nat) (l : list A) : list A :=
  match last l with
  | Some x => <[i := x]> (take (length l - 1) l)
  | None => l
  end.

Definition position {A} (f : A → bool) (l : list A) : option nat := fst <$> list_find (λ x, f x = true) l.

Fixpoint new_aps (idle_entry : Z) (id : Z) (cpus : list Z) : S (list CPUData) :=
  match cpus with
  | [] => mret []
  | cpu :: cpus =>
      info ← new_cpu idle_entry (λ _ _ w, w) id cpu;
      rest ← new_aps idle_entry (id + 1) cpus;
      mret (info :: rest)
  end.

(** [mp] are the local APIC ids of the boot loader's list. *)
Definition init_bsp (idle_entry : Z) (mp : list Z) (bsp_lapic_id : Z) : S unit :=
  bsp_info ← new_cpu idle_entry (λ g sel w, descriptors_init (load_tables g sel w)) 0 bsp_lapic_id;
  match position (λ e, e =? bsp_lapic_id) mp with
  | None => panic
  | Some pos_bsp =>
      aps ← new_aps idle_entry 1 (swap_remove pos_bsp mp);
      on_cpus (late_init (bsp_info :: aps));;
      on_world ipi_init;;
      gs_write (Some 0%nat);;
      on_world syscalls_init
  end.

(** [cpu.bootstrap(ap_entry, addr)] *)
Definition bootstrap (lapic : Z) (idx : nat) : S unit :=
  modify (λ s, mkSt (world s) (cpus s) (online_aps s) (gs_base s) (started s ++ [(lapic, idx)])).

Definition start_aps (mp : list Z) (bsp_lapic_id : Z) : S unit :=
  forM mp (λ cpu,
    if cpu =? bsp_lapic_id then mret tt
    else
      all ← on_cpus late_get;
      match position (λ c, lapic_id c =? cpu) all with
      | None => panic
      | Some idx => bootstrap cpu idx
      end).

Definition boot (passed_nanos : S Z) (fuel : nat) (mp : list Z) (bsp_lapic_id : Z) : S unit :=
  start_aps mp bsp_lapic_id;;
  all ← on_cpus late_get;
  let total_aps := Z.of_nat (length all) - 1 in
  status ← wait_timeout passed_nanos (gets (λ s, online_aps s <? total_aps)) fuel (Seconds 5);
  if status : bool then mret tt else panic.

(** What processor [idx] of [CPUS] does when it is started, up to [idle_task]. *)
Definition ap_entry (idx : nat) : S unit :=
  gs_write (Some idx);;
  all ← on_cpus late_get;
  match all !! idx with
  | None => panic
  | Some data =>
      touch (load_tables (gdt data) (selectors data));;
      touch idt_load;;
      touch lapic_init;;
      touch init_timer_ap;;
      on_world syscalls_init;;
      modify (λ s, mkSt (world s) (cpus s) (online_aps s ⊞ 1) (gs_base s) (started s));;
      touch interrupts_enable
  end.

(** [current_cpu]: the index in [CPUS]; [msr_id] is the id in the local APIC. *)
Definition current_cpu (msr_id : Z) : S nat :=
  g ← gets gs_base;
  match g with
  | Some i => mret i
  | None =>
      all ← on_cpus late_get;
      match position (λ c, lapic_id c =? msr_id) all with Some i => mret i | None => panic end
  end.

Definition cpu_count : S Z := all ← on_cpus late_get; mret (Z.of_nat (length all)).

Definition alter_cpu (i : nat) (f : CPUData → CPUData) : S unit := modify (λ s,
  mkSt (world s) (mkLateInit (init_ (cpus s)) (alter f i <$> data_ (cpus s))) (online_aps s) (gs_base s) (started s)).

Definition set_rsp0 (msr_id sp : Z) : S unit :=
  i ← current_cpu msr_id;
  alter_cpu i (λ c, mkCPUData (id c) (lapic_id c) (gdt c)
    (mkTss (interrupt_stack_table (tss c)) (<[0%nat := sp]> (privilege_stack_table (tss c)))) (selectors c)
    (scheduler c) (idle c) (priv_stack c) (ipi_ack c) (tlb_addresses c) (syscall_stack c)).

Definition set_syscall_stack (msr_id sp : Z) : S unit :=
  i ← current_cpu msr_id;
  alter_cpu i (λ c, mkCPUData (id c) (lapic_id c) (gdt c) (tss c) (selectors c)
    (scheduler c) (idle c) (priv_stack c) (ipi_ack c) (tlb_addresses c) sp).
End smp.

Arguments St {TB} W.

(** ** Lists *)

Lemma swap_remove_perm {A} (l : list A) i x : l !! i = Some x → x :: swap_remove i l ≡ₚ l.
Proof.
  intros Hi. destruct l as [|y l _] using rev_ind; [done|]. unfold swap_remove.
  rewrite last_snoc, length_app. cbn [length]. rewrite Nat.add_sub, take_app_length.
  apply lookup_lt_Some in Hi as Hlt. rewrite length_app in Hlt. cbn [length] in Hlt.
  destruct (decide (i = length l)) as [->|Hne].
  - rewrite list_lookup_middle in Hi by done. injection Hi as <-. rewrite list_insert_ge by lia.
    by rewrite Permutation_app_comm.
  - rewrite lookup_app_l in Hi by lia. rewrite (Permutation_app_comm l). cbn [app].
    rewrite <- (take_drop_middle l i x Hi) at 2. rewrite insert_take_drop by lia.
    rewrite <- (Permutation_middle (take i l) _ x), <- (Permutation_middle (take i l) _ y). apply perm_swap.
Qed.

Lemma position_at {A} (f : A → bool) l i :
  position f l = Some i → ∃ x, l !! i = Some x ∧ f x = true.
Proof.
  unfold position. intros ([j x] & Hl & ->)%fmap_Some. apply list_find_Some in Hl as (H1 & H2 & _). by exists x.
Qed.

Lemma position_find {A} (f : A → bool) l x : x ∈ l → f x = true → ∃ i, position f l = Some i.
Proof.
  intros Hx Hf. unfold position. destruct (list_find _ l) as [[i y]|] eqn:E; [by exists i|].
  apply list_find_None in E. rewrite Forall_forall in E. by specialize (E x Hx Hf).
Qed.

(** ** Every processor has its data *)

(** The bytes of a [Stack], and the memory of one by its top. *)
Definition STACK_SIZE : Z := 5 * PAGE_SIZE.
Definition stack_of (top : Z) : Z * Z := (top - STACK_SIZE, STACK_SIZE).

(** What the rest of the kernel promises, with an invariant [good]: a new stack
    is apart from those handed out before ([taken]), which nothing else changes. *)
Class KernelLaws (W : Type) `{KN : Kernel W} := {
  good : W → Prop;
  taken : W → list (Z * Z);
  stack_law w : good w →
    wp stack_new (λ s w', good w' ∧ (∀ y, y ∈ taken w → FreeList.idisj (stack_of s.2) y) ∧ taken w' = stack_of s.2 :: taken w)
      (λ _ _, True) w;
  page_law n w : 0 < n < 2 ^ 64 → good w → wp (page_new n) (λ _ w', good w' ∧ taken w' = taken w) (λ _ _, True) w;
  id_law w : good w → wp next_id (λ _ w', good w' ∧ taken w' = taken w) (λ _ _, True) w;
  box_law w : good w → wp new_tss_box (λ _ w', good w' ∧ taken w' = taken w) (λ _ _, True) w;
  ipi_law w : good w → wp ipi_init (λ _ w', good w' ∧ taken w' = taken w) (λ _ _, True) w;
  syscalls_law w : good w → wp syscalls_init (λ _ w', good w' ∧ taken w' = taken w) (λ _ _, True) w;
  load_law g sel w : good w → good (load_tables g sel w) ∧ taken (load_tables g sel w) = taken w;
  descriptors_law w : good w → good (descriptors_init w) ∧ taken (descriptors_init w) = taken w;
  ap_law w : good w → good (init_timer_ap (lapic_init (idt_load w)))
}.

Section proofs.
Context {TB : Tables} {TL : TableLaws} {W : Type} {KN : Kernel W} {KL : KernelLaws W}.
Implicit Types s : St W.

(** The stacks for interrupts and for entering the kernel. *)
Definition tops (c : CPUData) : list Z :=
  take 3 (interrupt_stack_table (tss c)) ++ take 1 (privilege_stack_table (tss c)).

(** The stacks handed out are apart. *)
Definition sound (w : W) : Prop := good w ∧ FreeList.disj (taken w).

(** [s'] is [s] after new stacks with the tops [l]. *)
Definition grew (l : list Z) s s' : Prop :=
  taken (world s') = rev (stack_of <$> l) ++ taken (world s) ∧ sound (world s') ∧
  cpus s' = cpus s ∧ online_aps s' = online_aps s ∧ gs_base s' = gs_base s ∧ started s' = started s.

Lemma grew_refl s : sound (world s) → grew [] s s.
Proof. done. Qed.
Lemma grew_trans l1 l2 s1 s2 s3 : grew l1 s1 s2 → grew l2 s2 s3 → grew (l1 ++ l2) s1 s3.
Proof.
  intros (A1 & A2 & A3 & A4 & A5 & A6) (B1 & B2 & B3 & B4 & B5 & B6).
  split_and!; [|done|congruence..]. by rewrite B1, A1, fmap_app, rev_app_distr, app_assoc.
Qed.

Lemma same_wp {A} (m : M W KernelError A) s (Q : A → St W → Prop) :
  sound (world s) → wp m (λ _ w', good w' ∧ taken w' = taken (world s)) (λ _ _, True) (world s) →
  (∀ a s', grew [] s s' → Q a s') → wp (on_world m) Q (λ _ _, True) s.
Proof.
  intros [_ Hd] Hm HQ. unfold wp, on_world in *. destruct (m (world s)) as [[a| | |] w']; try done.
  destruct Hm as [Hg Ht]. apply HQ. unfold grew, sound. cbn. by rewrite Ht.
Qed.

Lemma stack_wp s (Q : Z * Z → St W → Prop) :
  sound (world s) → (∀ a s', grew [a.2] s s' → Q a s') → wp (on_world stack_new) Q (λ _ _, True) s.
Proof.
  intros [Hg Hd] HQ. unfold wp, on_world. pose proof (stack_law (world s) Hg) as Hl. unfold wp in Hl.
  destruct (stack_new (world s)) as [[a| | |] w']; try done. destruct Hl as (H1 & H2 & H3). apply HQ.
  unfold grew, sound. cbn. rewrite H3. split_and!; [done|done|by apply FreeList.disj_cons|done..].
Qed.

Lemma gdt_wp box s (Q : Gdt * TaskStateSegment * Selectors → St W → Prop) :
  sound (world s) →
  (∀ g a b c s', grew [a; b; c] s s' →
     Q (g, mkTss [a; b; c; 0; 0; 0; 0] [0; 0; 0], ready_selectors) s') →
  wp (on_world (new_gdt stack_new box)) Q (λ _ _, True) s.
Proof.
  intros Hs HQ. set (I := λ (l : list (Z * Z)) w, taken w = rev (stack_of <$> l.*2) ++ taken (world s) ∧ sound w).
  assert (∀ l w, I l w → wp stack_new (λ x, I (l ++ [x])) (λ _ _, True) w) as Hstep.
  { intros l w [Ht [Hg Hd]]. eapply wp_mono; [by apply stack_law| |done]. intros x w' (H1 & H2 & H3). unfold I, sound.
    rewrite H3, !fmap_app, rev_app_distr, Ht. cbn. rewrite <- Ht. split_and!; [done|done|by apply FreeList.disj_cons]. }
  pose proof (new_gdt_wp stack_new box (world s) I (conj eq_refl Hs) Hstep) as Hw. unfold wp, on_world in *.
  destruct (new_gdt stack_new box (world s)) as [[[[g t] sel]| | |] w']; try done.
  destruct Hw as (_ & -> & s0 & s1 & s2 & [Ht Hn] & ->). apply HQ. by split_and!.
Qed.

(** The data of one processor. *)
Lemma new_cpu_wp e load n lap s (Q : CPUData → St W → Prop) :
  (∀ g sel w, good w → good (load g sel w) ∧ taken (load g sel w) = taken w) → sound (world s) →
  (∀ c s', grew (tops c) s s' → id c = n → lapic_id c = lap → selectors c = ready_selectors →
     scheduler c = Scheduler.sched_new (idle c) → length (tops c) = 4%nat → Q c s') →
  wp (new_cpu e load n lap) Q (λ _ _, True) s.
Proof.
  intros Hload Hnd HQ. unfold new_cpu.
  apply wp_bind, same_wp; [done|by apply box_law, Hnd|]. intros box s1 G1. pose proof (proj1 (proj2 G1)) as N1.
  apply wp_bind, gdt_wp; [done|]. intros g a b c s2 G2. pose proof (proj1 (proj2 G2)) as N2. cbv beta iota zeta.
  apply wp_bind, stack_wp; [done|]. intros p s3 G3. pose proof (proj1 (proj2 G3)) as N3.
  apply wp_bind, same_wp; [done|by apply (Hload g ready_selectors), N3|]. intros [] s4 G4. pose proof (proj1 (proj2 G4)) as N4.
  apply wp_bind, same_wp; [done|by apply page_law, N4|]. intros st s5 G5. pose proof (proj1 (proj2 G5)) as N5.
  apply wp_bind, same_wp; [done|by apply id_law, N5|]. intros nid s6 G6. apply HQ; try done.
  unfold tops. cbn. change [a; b; c; p.2] with ([] ++ [a; b; c] ++ [p.2] ++ [] ++ [] ++ []).
  do 5 (eapply grew_trans; [eassumption|]). exact G6.
Qed.

Lemma new_aps_wp e n laps s (Q : list CPUData → St W → Prop) :
  sound (world s) →
  (∀ l s', grew (l ≫= tops) s s' → id <$> l = seqZ n (Z.of_nat (length laps)) → lapic_id <$> l = laps →
     Forall (λ c, selectors c = ready_selectors ∧ scheduler c = Scheduler.sched_new (idle c)) l → Q l s') →
  wp (new_aps e n laps) Q (λ _ _, True) s.
Proof.
  revert n s Q. induction laps as [|lap laps IH]; intros n s Q Hnd HQ; cbn [new_aps].
  { by apply (HQ []); [apply grew_refl| | |]. }
  apply wp_bind, new_cpu_wp; [done|done|]. intros c s1 G1 I1 L1 S1 C1 _. pose proof (proj1 (proj2 G1)) as N1.
  apply wp_bind, IH; [done|]. intros l s2 G2 I2 L2 F2. apply HQ.
  - cbn. by eapply grew_trans.
  - rewrite fmap_cons, I1, I2. cbn [length]. rewrite (seqZ_cons n) by lia. f_equal. f_equal; lia.
  - by rewrite fmap_cons, L1, L2.
  - by constructor.
Qed.

(** The boot processor comes first, the ids are the positions, and the local
    APIC ids are those of the boot loader; no stack is used twice. *)
Definition enumerated (mp : list Z) (bsp : Z) (l : list CPUData) : Prop :=
  id <$> l = seqZ 0 (Z.of_nat (length mp)) ∧ (lapic_id <$> l) ≡ₚ mp ∧ (lapic_id <$> head l) = Some bsp ∧
  FreeList.disj (stack_of <$> (l ≫= tops)) ∧
  Forall (λ c, selectors c = ready_selectors ∧ scheduler c = Scheduler.sched_new (idle c)) l.

Lemma bsp_load g sel w : good w →
  good (descriptors_init (load_tables g sel w)) ∧ taken (descriptors_init (load_tables g sel w)) = taken w.
Proof. intros [Hg Ht]%(load_law g sel). destruct (descriptors_law _ Hg) as [Hg' Ht']. by rewrite Ht'. Qed.

Lemma init_bsp_wp e mp bsp s :
  bsp ∈ mp → cpus s = late_new → sound (world s) →
  wp (init_bsp e mp bsp) (λ _ s', ∃ l, cpus s' = mkLateInit true (Some l) ∧ enumerated mp bsp l ∧
    gs_base s' = Some 0%nat ∧ started s' = started s ∧ online_aps s' = online_aps s ∧
    taken (world s') = rev (stack_of <$> (l ≫= tops)) ++ taken (world s) ∧ sound (world s')) (λ _ _, True) s.
Proof.
  intros Hb Hc Hnd. unfold init_bsp.
  apply wp_bind, new_cpu_wp; [by apply bsp_load|done|].
  intros c s1 G1 I1 L1 S1 C1 _. pose proof (proj1 (proj2 G1)) as N1.
  destruct (position_find (λ e, e =? bsp) mp bsp Hb (Z.eqb_refl bsp)) as [i Hi]. rewrite Hi.
  apply position_at in Hi as (x & Hx & ->%Z.eqb_eq). pose proof (swap_remove_perm mp i bsp Hx) as Hp.
  apply wp_bind, new_aps_wp; [done|]. intros l s2 G2 I2 L2 F2. pose proof (grew_trans _ _ _ _ _ G1 G2) as (G & N & Gc & Go & Gg & Gs).
  assert (enumerated mp bsp (c :: l)) as He.
  { unfold enumerated. rewrite !fmap_cons, I1, I2, L1, L2. split_and!; [|done|cbn; by rewrite L1| |by constructor].
    - apply Permutation_length in Hp. rewrite <- Hp. cbn [length]. rewrite (seqZ_cons 0) by lia. f_equal. f_equal; lia.
    - destruct N as [_ N]. rewrite G in N. apply FreeList.disj_app in N as (N & _ & _). by rewrite <- Permutation_rev in N. }
  eapply wp_step.
  { unfold on_cpus, late_init. rewrite Gc, Hc. reflexivity. }
  apply wp_bind, same_wp; [exact N|by apply ipi_law, N|]. intros [] s3 (T3 & N3 & C3 & O3 & B3 & S3).
  eapply wp_step; [reflexivity|]. apply same_wp; [exact N3|by apply syscalls_law, N3|].
  intros [] s4 (T4 & N4 & C4 & O4 & B4 & S4). cbn in *. exists (c :: l). split_and!; [by rewrite C4, C3|done|done|congruence|congruence|by rewrite T4, T3, G|exact N4].
Qed.

(** ** Every processor is started with its own data *)

Lemma enumerated_position mp bsp l x :
  NoDup mp → enumerated mp bsp l → x ∈ mp →
  ∃ i c, position (λ c, lapic_id c =? x) l = Some i ∧ l !! i = Some c ∧ lapic_id c = x.
Proof.
  intros Hnd (_ & Hp & _) Hx. rewrite <- Hp in Hx. apply list_elem_of_fmap in Hx as (c & -> & Hc).
  destruct (position_find (λ c', lapic_id c' =? lapic_id c) l c Hc (Z.eqb_refl _)) as [i Hi].
  exists i. apply position_at in Hi as Hi'. destruct Hi' as (d & Hd & E%Z.eqb_eq). exists d. done.
Qed.

Lemma get_cpus l s : cpus s = mkLateInit true (Some l) → on_cpus late_get s = (Ok l, s).
Proof. intros Hc. unfold on_cpus, late_get. rewrite Hc. cbn. rewrite <- Hc. by destruct s. Qed.

Lemma cpu_count_spec mp bsp l s : enumerated mp bsp l → cpus s = mkLateInit true (Some l) →
  cpu_count s = (Ok (Z.of_nat (length mp)), s).
Proof.
  intros (_ & Hp & _) Hc. unfold cpu_count. mstep (get_cpus _ _ Hc).
  apply Permutation_length in Hp. rewrite length_fmap in Hp. by rewrite Hp.
Qed.

(** What [boot] starts: each of the others with the index of its own data. *)
Definition starts (bsp : Z) (l : list CPUData) (mp : list Z) : list (Z * nat) :=
  omap (λ x, if x =? bsp then None else pair x <$> position (λ c, lapic_id c =? x) l) mp.

Lemma start_aps_spec mp bsp l xs s :
  NoDup mp → enumerated mp bsp l → (∀ x, x ∈ xs → x ∈ mp) → cpus s = mkLateInit true (Some l) →
  start_aps xs bsp s =
    (Ok tt, mkSt (world s) (cpus s) (online_aps s) (gs_base s) (started s ++ starts bsp l xs)).
Proof.
  intros Hnd He Hin Hc. revert s Hc. induction xs as [|x xs IH]; intros s Hc.
  { cbn. rewrite app_nil_r. by destruct s. }
  assert (∀ x, x ∈ xs → x ∈ mp) as Hin' by (intros y Hy; apply Hin; by right).
  unfold start_aps in *. cbn [forM starts omap list_omap]. destruct (x =? bsp) eqn:E.
  - erewrite bind_Ok by reflexivity. by apply IH.
  - destruct (enumerated_position mp bsp l x Hnd He) as (i & c & Hi & _); [apply Hin; by left|]. rewrite Hi. cbn [fmap option_fmap option_map].
    erewrite bind_Ok.
    2:{ mstep (get_cpus _ _ Hc). rewrite Hi. unfold bootstrap, modify. reflexivity. }
    cbv beta. rewrite IH; [|done|done]. cbn [world cpus online_aps gs_base started]. by rewrite <- app_assoc.
Qed.

Lemma starts_ids mp bsp l xs : NoDup mp → enumerated mp bsp l → (∀ x, x ∈ xs → x ∈ mp) →
  (starts bsp l xs).*1 = filter (λ x, x ≠ bsp) xs ∧
  Some <$> (starts bsp l xs).*1 = (λ i, lapic_id <$> l !! i) <$> (starts bsp l xs).*2.
Proof.
  intros Hnd He. induction xs as [|x xs IH]; intros Hin; [done|].
  destruct IH as [IH1 IH2]; [intros y Hy; apply Hin; by right|].
  rewrite filter_cons. unfold starts in *. cbn [omap list_omap]. destruct (Z.eqb_spec x bsp) as [->|Hne].
  - rewrite decide_False by (intros []; done). done.
  - destruct (enumerated_position mp bsp l x Hnd He) as (i & c & -> & Hc & Hx); [apply Hin; by left|].
    rewrite decide_True by done. cbn. rewrite Hc. cbn. split; [by rewrite <- IH1|]. rewrite Hx. f_equal. exact IH2.
Qed.

Lemma starts_distinct mp bsp l : NoDup mp → bsp ∈ mp → enumerated mp bsp l → NoDup (0%nat :: (starts bsp l mp).*2).
Proof.
  intros Hnd Hb He. destruct (starts_ids mp bsp l mp Hnd He) as [H1 H2]; [done|].
  apply (NoDup_fmap_1 (λ i, lapic_id <$> l !! i)). rewrite fmap_cons, <- H2, H1.
  destruct He as (_ & _ & Hh & _). rewrite <- head_lookup, Hh, <- fmap_cons. apply (NoDup_fmap_2 _).
  constructor; [|by apply NoDup_filter]. intros [Hx _]%list_elem_of_filter. done.
Qed.

Lemma starts_own mp bsp l x i :
  (x, i) ∈ starts bsp l mp → x ∈ mp ∧ x ≠ bsp ∧ position (λ c, lapic_id c =? x) l = Some i.
Proof.
  intros (y & Hy & E)%list_elem_of_omap. destruct (Z.eqb_spec y bsp); [done|].
  apply fmap_Some in E as (j & Hj & [= -> ->]). done.
Qed.

(** Before the GS base is set, a processor finds its data by the id in its
    local APIC. *)
Lemma current_cpu_found msr l i s :
  cpus s = mkLateInit true (Some l) → gs_base s = None → position (λ c, lapic_id c =? msr) l = Some i →
  current_cpu msr s = (Ok i, s).
Proof.
  intros Hc Hg Hi. unfold current_cpu. erewrite bind_Ok by reflexivity. rewrite Hg.
  mstep (get_cpus _ _ Hc). by rewrite Hi.
Qed.

(** A processor that is started sets its GS base and counts itself. *)
Lemma ap_entry_wp l i c s :
  good (world s) → cpus s = mkLateInit true (Some l) → l !! i = Some c →
  wp (ap_entry i) (λ _ s', cpus s' = cpus s ∧ gs_base s' = Some i ∧ online_aps s' = online_aps s ⊞ 1) (λ _ _, True) s.
Proof.
  intros Hg Hc Hi. unfold ap_entry. eapply wp_step; [reflexivity|]. eapply wp_step; [by apply get_cpus|].
  rewrite Hi. do 4 (eapply wp_step; [reflexivity|]). apply wp_bind.
  pose proof (syscalls_law _ (ap_law _ (proj1 (load_law (gdt c) (selectors c) _ Hg)))) as Hs.
  unfold wp, on_world in *. cbn. destruct (syscalls_init _) as [[] w']; try done.
Qed.

(** Every processor was started with its own data. *)
Definition running (mp : list Z) (bsp : Z) (l : list CPUData) s : Prop :=
  enumerated mp bsp l ∧ cpus s = mkLateInit true (Some l) ∧ gs_base s = Some 0%nat ∧
  started s = starts bsp l mp ∧ 0 <= online_aps s.

(** What the other processors do while the clock is read: [left] goes down until
    all of them have counted themselves, and [time] stays under five seconds. *)
Definition others_come (clock : M (St W) KernelError Z) (left : St W → nat) (time : St W → Z) (mp : list Z) (bsp : Z) : Prop :=
  ∀ l s, running mp bsp l s → ∃ s', clock s = (Ok (time s), s') ∧ running mp bsp l s' ∧
    0 <= time s <= time s' ∧ time s' <= 5 * 10 ^ 9 ∧
    ((left s' < left s)%nat ∨ Z.of_nat (length mp) - 1 <= online_aps s).

Lemma boot_loop clock left time mp bsp l fuel start s :
  others_come clock left time mp bsp → running mp bsp l s → (left s < fuel)%nat → 0 <= start <= time s →
  wp (timeout_loop clock (gets (λ s, online_aps s <? Z.of_nat (length mp) - 1)) fuel start (to_nanos (Seconds 5)))
    (λ b s', b = true ∧ running mp bsp l s' ∧ Z.of_nat (length mp) - 1 <= online_aps s') (λ _ _, True) s.
Proof.
  intros Ho. revert s. induction fuel as [|fuel IH]; intros s Hs Hf Ht; [lia|].
  cbn [timeout_loop]. eapply wp_step; [reflexivity|]. destruct (Z.ltb_spec (online_aps s) (Z.of_nat (length mp) - 1)) as [Hlt|]; [|done].
  destruct (Ho l s Hs) as (s' & E & Hs' & Ht0 & Ht1 & [Hl|?]); [|lia].
  eapply wp_step; [exact E|]. rewrite (proj2 (Z.ltb_ge _ _)).
  - apply IH; [done|lia|lia].
  - change (to_nanos (Seconds 5)) with (5 * 10 ^ 9). rewrite u64_small; unfold in_u64; lia.
Qed.

Lemma boot_wp clock left time mp bsp l fuel s :
  NoDup mp → others_come clock left time mp bsp → (∀ s, (left s < fuel)%nat) →
  enumerated mp bsp l → cpus s = mkLateInit true (Some l) → gs_base s = Some 0%nat → started s = [] → 0 <= online_aps s →
  wp (boot clock fuel mp bsp) (λ _ s', running mp bsp l s' ∧ Z.of_nat (length mp) - 1 <= online_aps s') (λ _ _, True) s.
Proof.
  intros Hnd Ho Hf He Hc Hg Hs H0. unfold boot.
  eapply wp_step; [exact (start_aps_spec mp bsp l mp s Hnd He (λ _ H, H) Hc)|].
  set (s1 := mkSt _ _ _ _ _). assert (running mp bsp l s1) as R1 by (unfold running, s1; cbn; rewrite Hs; done).
  eapply wp_step; [by apply (get_cpus l)|]. clearbody s1.
  assert (length l = length mp) as -> by (destruct He as (_ & Hp & _); apply Permutation_length in Hp; by rewrite length_fmap in Hp).
  destruct (Ho l s1 R1) as (s2 & E & R2 & Ht & _ & _). apply wp_bind. unfold wait_timeout. eapply wp_step; [exact E|].
  eapply wp_mono; [apply (boot_loop clock left time mp bsp l); [done|done|apply Hf|lia]|..|done].
  intros b s3 (-> & R3 & Ho3). done.
Qed.

(** C28. Bringing up the processors, as long as memory lasts and the others come
    up in five seconds: every processor the boot loader lists gets data of its
    own, the boot processor's first, with ids that are the positions, with the
    same selectors, a fresh scheduler and stacks that overlap no other stack;
    each of the others is started once, with the index of the data that has its
    local APIC id, which is also what it finds before its GS base is set; and
    [boot] returns when all of them have counted themselves. *)
Theorem cpus_enumerated e mp bsp clock left time fuel s :
  bsp ∈ mp → NoDup mp → cpus s = late_new → started s = [] → 0 <= online_aps s → sound (world s) →
  others_come clock left time mp bsp → (∀ s, (left s < fuel)%nat) →
  wp (init_bsp e mp bsp;; boot clock fuel mp bsp) (λ _ s', ∃ l,
    cpus s' = mkLateInit true (Some l) ∧ enumerated mp bsp l ∧ gs_base s' = Some 0%nat ∧
    (started s').*1 = filter (λ x, x ≠ bsp) mp ∧ NoDup (0%nat :: (started s').*2) ∧
    (∀ x i, (x, i) ∈ started s' → (∃ c, l !! i = Some c ∧ lapic_id c = x) ∧
       ∀ s'', cpus s'' = cpus s' → gs_base s'' = None → current_cpu x s'' = (Ok i, s'')) ∧
    Z.of_nat (length mp) - 1 <= online_aps s') (λ _ _, True) s.
Proof.
  intros Hb Hnd Hc Hst H0 Ht Ho Hf. apply wp_bind. eapply wp_mono; [by apply init_bsp_wp|..|done].
  intros [] s1 (l & Hc1 & He & Hg1 & Hs1 & Ho1 & _).
  eapply wp_mono; [apply (boot_wp clock left time mp bsp l); [done..|congruence|lia]|..|done].
  intros [] s2 ((_ & Hc2 & Hg2 & Hs2 & _) & Hon). exists l. rewrite Hs2.
  split_and!; [done|done|done|by apply (starts_ids mp bsp l mp)|by apply starts_distinct| |done].
  intros x i (_ & _ & Hp)%starts_own. split.
  - apply position_at in Hp as (c & H1 & H2%Z.eqb_eq). by exists c.
  - intros s3 Hs3 Hg3. by apply (current_cpu_found x l); [rewrite Hs3| |].
Qed.

(** A processor sets its own stacks and no other's. *)
Lemma set_syscall_stack_spec msr sp l i c s :
  cpus s = mkLateInit true (Some l) → gs_base s = Some i → l !! i = Some c →
  ∃ l' c', set_syscall_stack msr sp s = (Ok tt, mkSt (world s) (mkLateInit true (Some l')) (online_aps s) (gs_base s) (started s)) ∧
    l' !! i = Some c' ∧ syscall_stack c' = sp ∧ tss c' = tss c ∧ (∀ j, j ≠ i → l' !! j = l !! j).
Proof.
  intros Hc Hg Hi. unfold set_syscall_stack, current_cpu, alter_cpu, modify, gets, mbind, M_bind. rewrite Hg. cbn. rewrite Hc. cbn.
  eexists _, _. split_and!; [by rewrite Hg|by rewrite list_lookup_alter_eq, Hi|done|done|].
  intros j Hj. by rewrite list_lookup_alter_ne.
Qed.

Lemma set_rsp0_spec msr sp l i c s :
  cpus s = mkLateInit true (Some l) → gs_base s = Some i → l !! i = Some c →
  ∃ l' c', set_rsp0 msr sp s = (Ok tt, mkSt (world s) (mkLateInit true (Some l')) (online_aps s) (gs_base s) (started s)) ∧
    l' !! i = Some c' ∧ privilege_stack_table (tss c') = <[0%nat := sp]> (privilege_stack_table (tss c)) ∧
    interrupt_stack_table (tss c') = interrupt_stack_table (tss c) ∧ syscall_stack c' = syscall_stack c ∧
    (∀ j, j ≠ i → l' !! j = l !! j).
Proof.
  intros Hc Hg Hi. unfold set_rsp0, current_cpu, alter_cpu, modify, gets, mbind, M_bind. rewrite Hg. cbn. rewrite Hc. cbn.
  eexists _, _. split_and!; [by rewrite Hg|by rewrite list_lookup_alter_eq, Hi|done..|].
  intros j Hj. by rewrite list_lookup_alter_ne.
Qed.
End proofs.

(** ** A machine with three processors *)

#[local] Existing Instance list_tables.
#[local] Existing Instance list_table_laws.

(** A new stack is above the others; the world has the stacks and counts the
    tasks. *)
Definition above (w : list (Z * Z) * Z) : Z := foldr (λ iv a, Z.max (iv.1 + iv.2) a) 0 w.1.

#[local] Instance small_kernel : Kernel (list (Z * Z) * Z) := {
  stack_new w := (Ok (above w, above w + STACK_SIZE), (stack_of (above w + STACK_SIZE) :: w.1, w.2));
  page_new n w := (Ok (0x900000, Pages.zero_page n), w);
  next_id w := (Ok w.2, (w.1, w.2 + 1));
  new_tss_box := mret 0x5000;
  load_tables _ _ w := w; descriptors_init w := w; ipi_init := mret tt; syscalls_init := mret tt;
  idt_load w := w; lapic_init w := w; init_timer_ap w := w; interrupts_enable w := w
}.

Lemma above_le l n x : x ∈ l → x.1 + x.2 <= above (l, n).
Proof.
  induction l as [|y l IH]; [by intros ?%elem_of_nil|]. intros [->|H]%elem_of_cons; cbn; [lia|]. specialize (IH H).
  unfold above in IH. cbn in IH. lia.
Qed.

#[local] Instance small_laws : KernelLaws (list (Z * Z) * Z).
Proof.
  refine (Build_KernelLaws _ _ _ (λ _, True) fst _ _ _ _ _ _ _ _ _); try done.
  intros [l n] _. split_and!; [done| |done]. intros y Hy%(above_le l n). right. unfold stack_of. cbn [fst snd]. lia.
Defined.

(** While the clock is read the next processor that was started runs. *)
Definition next_ap (s : St (list (Z * Z) * Z)) : St (list (Z * Z) * Z) :=
  match started s !! Z.to_nat (online_aps s) with
  | Some (_, i) =>
      let s' := (ap_entry i s).2 in mkSt (world s') (cpus s') (online_aps s') (gs_base s) (started s')
  | None => s
  end.

Definition polled : M (St (list (Z * Z) * Z)) KernelError Z := λ s, (Ok 0, next_ap s).

Lemma polled_come : others_come polled (λ s, 2 - Z.to_nat (online_aps s))%nat (λ _, 0) [4; 0; 2] 0.
Proof.
  intros l s (He & Hc & Hg & Hs & H0). exists (next_ap s). split; [done|].
  cut (running [4; 0; 2] 0 l (next_ap s) ∧ (online_aps s < 2 → online_aps (next_ap s) = online_aps s + 1)).
  { intros [Hr Ho]. split_and!; [done|lia..|]. cbn [length]. destruct (Z.lt_ge_cases (online_aps s) 2); [left|right]; lia. }
  assert (NoDup [4; 0; 2]) as Hnd by (apply (bool_decide_unpack _); by vm_compute).
  destruct (starts_ids [4; 0; 2] 0 l [4; 0; 2] Hnd He (λ _ H, H)) as [Hids _].
  assert (length (starts 0 l [4; 0; 2]) = 2%nat) as Hlen by (rewrite <- (length_fmap fst), Hids; by vm_compute).
  unfold next_ap. destruct (started s !! Z.to_nat (online_aps s)) as [[x i]|] eqn:E.
  - apply lookup_lt_Some in E as Hlt. rewrite Hs in E, Hlt. rewrite Hlen in Hlt.
    apply list_elem_of_lookup_2, starts_own in E as (_ & _ & (c & Hi & _)%position_at).
    unfold ap_entry. erewrite bind_Ok by reflexivity. erewrite bind_Ok by (by apply (get_cpus l)). rewrite Hi.
    split.
    + split_and!; try done. apply Z.mod_pos_bound. lia.
    + intros Ho. change (u64 (online_aps s + 1) = online_aps s + 1). apply u64_small. unfold in_u64. lia.
  - apply lookup_ge_None in E. rewrite Hs, Hlen in E. split; [done|lia].
Qed.

Lemma cpus_enumerated_witness : ∃ s' : St (list (Z * Z) * Z),
  (init_bsp 0x1234 [4; 0; 2] 0;; boot polled 3 [4; 0; 2] 0) (mkSt ([], 7) late_new 0 None []) = (Ok tt, s') ∧
  (started s').*1 = [4; 2] ∧ 2 <= online_aps s'.
Proof.
  assert (wp (init_bsp 0x1234 [4; 0; 2] 0;; boot polled 3 [4; 0; 2] 0) (λ _ s', (started s').*1 = [4; 2] ∧ 2 <= online_aps s')
    (λ _ _, True) (mkSt ([], 7) late_new 0 None [])) as Hw.
  { eapply wp_mono; [apply (cpus_enumerated 0x1234 [4; 0; 2] 0 polled (λ s, 2 - Z.to_nat (online_aps s))%nat (λ _, 0) 3)|..|done].
    - apply (bool_decide_unpack _). by vm_compute.
    - apply (bool_decide_unpack _). by vm_compute.
    - done.
    - done.
    - done.
    - split; [done|constructor].
    - apply polled_come.
    - intros s. lia.
    - intros [] s' (l & _ & _ & _ & Hs & _ & _ & Ho). split; [exact Hs|exact Ho]. }
  destruct ((init_bsp 0x1234 [4; 0; 2] 0;; boot polled 3 [4; 0; 2] 0) (mkSt ([], 7) late_new 0 None [])) as [r s'] eqn:E.
  assert (r = Ok tt) as -> by (apply (f_equal fst) in E; vm_compute in E; by rewrite <- E).
  exists s'. split; [done|]. exact (wp_use _ _ _ _ _ _ Hw E).
Defined.
End Smp.
