(* ===== verification/SmpMemory.v ===== *)
(** * The memory of the processors (src/kernel/src/memory/wrappers.rs)

    [Stack::new] and [PhysPage::new] on the page allocator of [DirectMap] keep
    what the bring-up of processors relies on ([Smp.KernelLaws]): the page runs
    in use never overlap, so neither do the stacks, whatever else is allocated
    and however the direct map changes on the way.  Seen from memory the other
    operations do nothing; the boxes of the heap have an address [box]. *)

From S2P Require Import Prelude Errors FreeList Slab Buddy Physical Virt DirectMap Helpers Descriptors Pages Smp.
Import Errors FreeList Descriptors.

Module SmpMemory.

(** Memory with the static [ID], and the stacks handed out so far. *)
Record W := mkW { memory : DirectMap.St; ID : Z; stacks : list (Z * Z) }.

Section memory.
Context `{AD : Virt.Addresses} (HHDM : Z).

Definition on_memory {A} (m : K DirectMap.St A) : M W KernelError A := λ w,
  match m (memory w) with
  | (Ok a, d) => (Ok a, mkW d (ID w) (stacks w))
  | (Err e, _) => match e with end
  | (Panic, d) => (Panic, mkW d (ID w) (stacks w))
  | (Loop, d) => (Loop, mkW d (ID w) (stacks w))
  end.

(** [PhysPage::new]: the address of the pages. *)
Definition phys_page (count : Z) : M W KernelError Z :=
  r ← on_memory (DirectMap.alloc_pages Virt.virt_new HHDM count);
  match r with None => fail (KMemory OutOfMemory) | Some start => mret start end.

(** [Stack::new], [bottom] and [top]; the model keeps the stack in [stacks]. *)
Definition new_stack : M W KernelError (Z * Z) :=
  bottom ← phys_page 5;
  top ← Virt.opt_panic (Virt.virt_add bottom (5 * PAGE_SIZE));
  modify (λ w, mkW (memory w) (ID w) (Smp.stack_of top :: stacks w));;
  mret (bottom, top).

Definition fetch_id : M W KernelError Z := λ w, (Ok (ID w), mkW (memory w) (ID w ⊞ 1) (stacks w)).
End memory.

Section laws.
Context `{AD : Virt.Addresses} {AL : Virt.AddressLaws} {TB : Tables} (HHDM LIMIT box : Z)
  `{Ar : !Slab.Arena Virt.virt_new HHDM PAGE_SIZE LIMIT (2 ^ 12)} (roots : list Z).
Hypotheses (H30 : (2 ^ 30 | HHDM)) (Hlo : 2 ^ 64 - 2 ^ 47 <= HHDM).

(** The kernel as memory sees it. *)
Definition memory_kernel : Smp.Kernel W := {|
  Smp.stack_new := new_stack HHDM;
  Smp.page_new n := start ← phys_page HHDM n; mret (start, Pages.zero_page n);
  Smp.next_id := fetch_id;
  Smp.new_tss_box := mret box;
  Smp.load_tables _ _ w := w; Smp.descriptors_init w := w; Smp.ipi_init := mret tt; Smp.syscalls_init := mret tt;
  Smp.idt_load w := w; Smp.lapic_init w := w; Smp.init_timer_ap w := w; Smp.interrupts_enable w := w
|}.

(** The allocator and the tables are in order, and the stacks are in use. *)
Definition in_use (g : Buddy.Ghost) (l : list (Z * Z)) : Prop :=
  ∀ iv, iv ∈ l → ∃ a, iv = (HHDM + a, Smp.STACK_SIZE) ∧ (a, 5) ∈ Buddy.lives g.
Definition healthy (w : W) : Prop := ∃ g, DirectMap.mapped HHDM LIMIT roots (memory w) g ∧ in_use g (stacks w).

(** New pages are apart from the stacks. *)
Lemma phys_page_wp n w (Q : Z → W → Prop) : 0 < n < 2 ^ 64 → healthy w →
  (∀ a d g, DirectMap.mapped HHDM LIMIT roots d g → in_use g (stacks w) → (a, n) ∈ Buddy.lives g →
     0 <= a → HHDM + a + n * 4096 < 2 ^ 64 →
     (∀ iv, iv ∈ stacks w → idisj (HHDM + a, n * 4096) iv) → Q (HHDM + a) (mkW d (ID w) (stacks w))) →
  wp (phys_page HHDM n) Q (λ _ _, True) w.
Proof.
  intros Hn (g & Hm & Hu) HQ. unfold phys_page, wp, mbind, M_bind, on_memory.
  destruct (DirectMap.alloc_pages_spec Virt.virt_new HHDM LIMIT roots (memory w) g n H30 Hlo Hm ltac:(lia))
    as [->|(a & d & g' & F & -> & Hin & Hnew & _ & _ & Hk & Hmap)]; [done|]. cbn.
  destruct (Hmap (DirectMap.ram d)) as [Hd _]; [done|].
  assert (DirectMap.with_ram d (DirectMap.ram d) = d) as Ed by (by destruct d). rewrite Ed in Hd.
  pose proof (DirectMap.lives_bounds Virt.virt_new HHDM LIMIT _ _ _ _ (DirectMap.m_inv _ _ _ _ _ Hd) Hin) as [B1 B2].
  pose proof (DirectMap.hhdm_end Virt.virt_new HHDM LIMIT) as He. unfold PAGE_SIZE in B1.
  apply (HQ a d g'); [done| |done|lia| |].
  - intros iv Hiv. destruct (Hu iv Hiv) as (b & -> & Hb). exists b. split; [done|]. apply Hk; [done|]. intros t _ [= _ ?].
  - destruct Ar. lia.
  - intros iv Hiv. destruct (Hu iv Hiv) as (b & -> & Hb). specialize (Hnew _ Hb). unfold idisj in *. cbn in *.
    unfold Smp.STACK_SIZE, PAGE_SIZE. lia.
Qed.

Lemma new_stack_wp w : healthy w →
  wp (new_stack HHDM) (λ s w', healthy w' ∧ (∀ y, y ∈ stacks w → idisj (Smp.stack_of s.2) y) ∧
    stacks w' = Smp.stack_of s.2 :: stacks w) (λ _ _, True) w.
Proof.
  intros Hw. unfold new_stack. apply wp_bind, phys_page_wp; [lia|done|]. intros a d g Hd Hu Hin Ha Hend Hnew.
  assert (Smp.stack_of (HHDM + a + 5 * PAGE_SIZE) = (HHDM + a, Smp.STACK_SIZE)) as Es
    by (unfold Smp.stack_of, Smp.STACK_SIZE; f_equal; lia).
  eapply wp_step; [unfold Virt.opt_panic; rewrite Virt.virt_add_ok; [reflexivity|done|]|].
  { right. unfold PAGE_SIZE. lia. }
  eapply wp_step; [reflexivity|]. apply wp_ret. cbn [memory stacks snd]. rewrite Es. split_and!; [|done|done].
  exists g. split; [done|]. intros iv [->|Hiv]%elem_of_cons; [|by apply Hu]. by exists a.
Qed.

(** The stacks of the page allocator are apart, as [Smp] assumes. *)
Definition memory_laws : @Smp.KernelLaws W TB memory_kernel.
Proof.
  refine (@Smp.Build_KernelLaws W TB memory_kernel healthy stacks _ _ _ _ _ _ _ _ _); try (by intros w Hw; split).
  - apply new_stack_wp.
  - intros n w Hn Hw. apply wp_bind, phys_page_wp; [done|done|]. intros a d g Hd Hu _ _ _ _. split; [by exists g|done].
  - done.
Defined.

(** So on this memory the processors get stacks that are page runs in use, none
    of which overlaps another, or memory runs out. *)
Lemma stacks_in_memory {TL : TableLaws} e mp bsp (s : Smp.St W) :
  bsp ∈ mp → Smp.cpus s = Helpers.late_new → healthy (Smp.world s) → stacks (Smp.world s) = [] →
  wp (Smp.init_bsp (KN := memory_kernel) e mp bsp) (λ _ s', ∃ l g, Smp.cpus s' = Helpers.mkLateInit true (Some l) ∧
    Smp.enumerated mp bsp l ∧ DirectMap.mapped HHDM LIMIT roots (memory (Smp.world s')) g ∧
    ∀ c top, c ∈ l → top ∈ Smp.tops c → (top - Smp.STACK_SIZE - HHDM, 5) ∈ Buddy.lives g) (λ _ _, True) s.
Proof.
  intros Hb Hc Hw Hs. eapply wp_mono; [apply (@Smp.init_bsp_wp _ _ _ _ memory_laws); [done|done|]| |done].
  - split; [done|]. unfold Smp.taken, memory_laws. rewrite Hs. constructor.
  - intros [] s' (l & Hc' & He & _ & _ & _ & Ht & [(g & Hm & Hu) _]). exists l, g. split_and!; [done..|].
    intros c top Hcl Htop. destruct (Hu (Smp.stack_of top)) as (a & [= Ea] & Ha).
    + change (stacks (Smp.world s')) with (@Smp.taken _ _ _ memory_laws (Smp.world s')). rewrite Ht.
      apply elem_of_app. left. rewrite <- Permutation_rev. apply list_elem_of_fmap_2, list_elem_of_bind. by exists c.
    + by replace (top - Smp.STACK_SIZE - HHDM) with a by lia.
Qed.
End laws.
End SmpMemory.
