(* ===== verification/Startup.v ===== *)
(** * Start-up (src/kernel/src/main.rs, requests.rs, memory/mod.rs)

    [requests::init] and the order in which [kmain] initialises the kernel.  The
    initialisers of the other files are operations of the class [Parts], and what
    is proved of [kmain] holds for any of them.  The part of [kmain] that finds the
    drive of the file system runs on the drivers of [Drivers]. *)

From S2P Require Import Prelude Errors Virt Helpers Hardware RangeAllocator Pci PciScan Ahci Drivers VirtExamples PciExamples.
Import Errors Virt.

Module Startup.

(** The [LateInit] statics that one part writes and another reads. *)
Inductive Static :=
| FB_RESPONSE | MMAP_RESPONSE | HHDM_RESPONSE | RSDP_RESPONSE | MP_RESPONSE
| HHDM_OFFSET | KERNEL_L4 | HEAP_PAGES | KERNEL_ALLOCATOR
| IDT | CPUS | HPET_REGS | LAPIC_TIMER_VECTOR | SEGMENTS.

#[export] Instance Static_eq_dec : EqDecision Static.
Proof. solve_decision. Defined.

(** What was written, the interrupt flag, the tasks handed to the scheduler and
    the rest of the machine. *)
Record St (W : Type) := mkSt { written : Static → option Z; interrupts : bool; tasks : list Z; world : W }.
Arguments mkSt {W}.
Arguments written {W}.
Arguments interrupts {W}.
Arguments tasks {W}.
Arguments world {W}.

(** [Result::expect] and [Result::unwrap] *)
Definition expect {S E A} (m : M S E A) : M S Empty_set A := λ s,
  match m s with
  | (Ok a, s) => (Ok a, s)
  | (Err _, s) | (Panic, s) => (Panic, s)
  | (Loop, s) => (Loop, s)
  end.

(** [if let Err(e) = m { log_warn!("{e}") }] *)
Definition or_warn {S E} (log_warn : E → M S Empty_set unit) (m : M S E unit) : M S Empty_set unit := λ s,
  match m s with
  | (Ok _, s) => (Ok tt, s)
  | (Err e, s) => log_warn e s
  | (Panic, s) => (Panic, s)
  | (Loop, s) => (Loop, s)
  end.

(** [Option::unwrap] *)
Definition unwrap {S A} (o : option A) : M S Empty_set A := match o with Some a => mret a | None => panic end.

Section startup.
Context {W : Type}.

Definition static_init {E} (x : Static) (v : Z) : M (St W) E unit := λ s,
  match written s x with
  | Some _ => (Panic, s)
  | None => (Ok tt, mkSt (λ y, if decide (x = y) then Some v else written s y) (interrupts s) (tasks s) (world s))
  end.

Definition static_get {E} (x : Static) : M (St W) E Z := λ s,
  match written s x with Some v => (Ok v, s) | None => (Panic, s) end.

Definition set_interrupts {E} (b : bool) : M (St W) E unit := modify (λ s, mkSt (written s) b (tasks s) (world s)).

(** [response] is what the boot loader answers to a request. *)
Fixpoint init_responses (response : Static → option Z) (l : list Static) : M (St W) KernelError unit :=
  match l with
  | [] => mret tt
  | x :: l => match response x with None => fail BadLimineResp | Some v => static_init x v;; init_responses response l end
  end.

Definition requests : list Static := [FB_RESPONSE; MMAP_RESPONSE; HHDM_RESPONSE; RSDP_RESPONSE; MP_RESPONSE].
Definition requests_init (response : Static → option Z) : M (St W) KernelError unit := init_responses response requests.
End startup.

Class Parts (W : Type) := {
  PartError : Type;
  offset_of : Z → Z;
  cr3 : W → Z;
  physical_init : M (St W) Empty_set unit;
  heap_init : M (St W) KernelError unit;
  virt_init : M (St W) Empty_set unit;
  stdout_init : M (St W) Empty_set unit;
  smp_init : M (St W) KernelError unit;
  acpi_init : M (St W) KernelError unit;
  scheduling_init : M (St W) KernelError unit;
  smp_boot : M (St W) Empty_set unit;
  ps2_init : M (St W) PartError unit;
  pci_init : M (St W) PartError unit;
  storage_init : M (St W) PartError unit;
  log_warn : PartError → M (St W) Empty_set unit;
  log_success : M (St W) Empty_set unit;
  claim_drive : M (St W) Empty_set (option Z);
  fs_init : Z → M (St W) PartError (list Z);
  load : Z → M (St W) PartError Z;
  from_binary : Z → M (St W) PartError Z
}.

Section kmain.
Context {W : Type} {P : Parts W}.

(** No error is possible, so the code cannot fail with one. *)
Definition total {E A} (m : M (St W) Empty_set A) : M (St W) E A := map_errM (λ e : Empty_set, match e with end) m.

Definition memory_init : M (St W) KernelError unit :=
  hhdm ← static_get HHDM_RESPONSE;
  static_init HHDM_OFFSET (offset_of hhdm);;
  total physical_init;;
  heap_init;;
  total virt_init;;
  frame ← gets (λ s, cr3 (world s));
  static_init KERNEL_L4 frame.

Definition add_task (t : Z) : M (St W) Empty_set unit :=
  modify (λ s, mkSt (written s) (interrupts s) (t :: tasks s) (world s)).

(** [kmain] up to the loop that prints keys. *)
Definition kmain (response : Static → option Z) : M (St W) Empty_set unit :=
  set_interrupts false;;
  expect (requests_init response);;
  stdout_init;;
  expect memory_init;;
  expect smp_init;;
  expect acpi_init;;
  expect scheduling_init;;
  smp_boot;;
  set_interrupts true;;
  or_warn log_warn ps2_init;;
  or_warn log_warn pci_init;;
  or_warn log_warn storage_init;;
  o ← claim_drive;
  drive ← unwrap o;
  l ← expect (fs_init drive);
  fs ← unwrap (last l);
  log_success;;
  bin ← expect (load fs);
  task ← expect (from_binary bin);
  add_task task.
End kmain.

(** ** Without the boot loader's answers *)

Section answers.
Context {W : Type}.

(** A missing answer is the only error of [requests::init]. *)
Lemma missing_response response xs (s : St W) : NoDup xs → (∀ x, x ∈ xs → written s x = None) →
  wp (init_responses response xs) (λ _ _, ∀ x, x ∈ xs → is_Some (response x))
    (λ e s', e = BadLimineResp ∧ (∃ x, x ∈ xs ∧ response x = None) ∧
      interrupts s' = interrupts s ∧ tasks s' = tasks s ∧ world s' = world s) s.
Proof.
  revert s. induction xs as [|x xs IH]; intros s Hnd Hw; cbn [init_responses].
  { intros x Hx. by apply elem_of_nil in Hx. }
  apply NoDup_cons in Hnd as [Hn Hnd]. destruct (response x) as [v|] eqn:E.
  2:{ split_and!; [done|exists x; split; [by left|done]|done..]. }
  eapply wp_step; [unfold static_init; rewrite Hw by (by left); reflexivity|].
  eapply wp_mono; [apply IH; [done|]|..].
  - intros y Hy. cbn. rewrite decide_False; [apply Hw; by right|]. by intros ->.
  - intros u s' H y Hy. apply elem_of_cons in Hy as [->|Hy]; [by rewrite E|by apply H].
  - intros e s' (-> & (y & Hy & ?) & ?). split_and!; [done|exists y; split; [by right|done]|naive_solver..].
Qed.

(** Without one of the answers the kernel stops with interrupts off, before any of
    its parts has run. *)
Theorem kmain_needs_answers {P : Parts W} response x w :
  x ∈ requests → response x = None →
  ∃ s', kmain response (mkSt (λ _, None) true [] w) = (Panic, s') ∧ interrupts s' = false ∧ tasks s' = [] ∧ world s' = w.
Proof.
  intros Hx Hn. pose proof (missing_response response requests (mkSt (λ _, None) false [] w)
    ltac:(apply (bool_decide_unpack _); by vm_compute) ltac:(done)) as H. unfold wp in H.
  destruct (init_responses response requests (mkSt (λ _, None) false [] w)) as [[u|e| |] s'] eqn:E; [| |done..].
  { destruct (H x Hx) as [v Hv]. congruence. }
  destruct H as (_ & _ & Hi & Ht & Hw). exists s'. split; [|done]. unfold kmain.
  mstep (eq_refl (set_interrupts (E := Empty_set) false (mkSt (λ _, None) true [] w))).
  unfold mbind, M_bind, expect, requests_init. cbn [written interrupts tasks world]. by rewrite E.
Qed.
End answers.

(** ** The drive of the file system *)

Section drive.
Context {W P : Type} {AD : Addresses} {BU : Hardware.Bus W} {MP : Mapper W}.
Context (ahci_init : list Pci.Segment → Pci.PCIFunction → M (VMemAllocator (W := W)) StorageError (list Ahci.AHCIDrive)).
Context (gpt_init : Ahci.AHCIDrive → M (VMemAllocator (W := W)) KernelError (list P)).

(** Lines 48 to 51 of [kmain]; what is logged is left out. *)
Definition find_drive (entries : list Pci.MCFGEntry) : M (Drivers.State (W := W) (P := P)) Empty_set (Drivers.Drive P) :=
  or_warn (λ _, mret tt) (Drivers.pci_init entries);;
  or_warn (λ _, mret tt) (Drivers.storage_init ahci_init gpt_init);;
  o ← Drivers.claim_drive (λ _, true);
  unwrap o.
End drive.

(** *** What holds when a part comes back *)

Definition back {S E A} (m : M S E A) (Q : A → S → Prop) (R : E → S → Prop) (s : S) : Prop :=
  match m s with
  | (Ok a, s') => Q a s'
  | (Err e, s') => R e s'
  | _ => True
  end.

Lemma back_bind {S E A B} (m : M S E A) (f : A → M S E B) Q R s :
  back m (λ a s', back (f a) Q R s') R s → back (m ≫= f) Q R s.
Proof. unfold back, mbind, M_bind. by destruct (m s) as [[] ?]. Qed.

Lemma back_mono {S E A} (m : M S E A) (Q Q' : A → S → Prop) (R R' : E → S → Prop) s :
  back m Q R s → (∀ a s', Q a s' → Q' a s') → (∀ e s', R e s' → R' e s') → back m Q' R' s.
Proof. unfold back. intros H HQ HR. destruct (m s) as [[] ?]; auto. Qed.

Lemma back_attempt {S E F A} (m : M S E A) (Q : E + A → S → Prop) (R : F → S → Prop) s :
  back m (λ a, Q (inr a)) (λ e, Q (inl e)) s → back (attempt m) Q R s.
Proof. unfold back, attempt. by destruct (m s) as [[] ?]. Qed.

Section proofs.
Context {W P : Type} {AD : Addresses} {BU : Hardware.Bus W} {MP : Mapper W}.
Context (ahci_init : list Pci.Segment → Pci.PCIFunction → M (VMemAllocator (W := W)) StorageError (list Ahci.AHCIDrive)).
Context (gpt_init : Ahci.AHCIDrive → M (VMemAllocator (W := W)) KernelError (list P)).
Implicit Types s : Drivers.State (W := W) (P := P).
#[local] Existing Instance Pci.DeviceType_eq_dec.

(** A function among [l] that [find_devices] and [claim_device] take for an AHCI
    controller: one of them has that type and its identifier. *)
Definition ahci_of (l : list Pci.PCIFunction) (f : Pci.PCIFunction) : Prop :=
  f ∈ l ∧ ∃ g, g ∈ l ∧ Pci.device_type g = Pci.Ahci ∧ Pci.id g = Pci.id f.

Definition ahci_id (l : list Pci.PCIFunction) (i : Pci.PciID) : Prop :=
  ∃ g, g ∈ l ∧ Pci.device_type g = Pci.Ahci ∧ Pci.id g = i.

(** All functions are from [l], and the controllers of drives are such. *)
Definition from (l : list Pci.PCIFunction) s : Prop :=
  (∀ f, f ∈ Drivers.DEVICES s → f ∈ l) ∧ (∀ d, d ∈ Drivers.DRIVES s → ahci_of l (Drivers.controller d)).

Lemma on_space_back {E A} (m : M (VMemAllocator (W := W)) E A) (Q : A → _ → Prop) R s :
  (∀ a s', Drivers.same_lists s s' → Q a s') → (∀ e s', Drivers.same_lists s s' → R e s') → back (Drivers.on_space m) Q R s.
Proof. intros HQ HR. unfold back, Drivers.on_space. destruct (m (Drivers.space s)) as [[] v]; [by apply HQ|by apply HR|done..]. Qed.

Lemma from_same l s s' : Drivers.same_lists s s' → from l s → from l s'.
Proof. unfold from. by intros (_ & -> & ->). Qed.

Lemma from_drop {E} l f s (Q : unit → _ → Prop) (R : E → _ → Prop) :
  f ∈ l → from l s → (∀ s', from l s' → Q tt s') → back (Drivers.on_devices (Pci.function_drop f)) Q R s.
Proof.
  intros Hf [Hd Hv] HQ. apply HQ. split; [|done]. cbn. intros g Hg. apply elem_of_app in Hg as [?| ->%list_elem_of_singleton]; auto.
Qed.

Lemma controllers_from l ids : ∀ s, Forall (ahci_id l) ids → from l s →
  back (Drivers.controllers ahci_init ids) (λ cs s', Forall (λ c, ahci_of l c.1) cs ∧ from l s') (λ _, from l) s.
Proof.
  induction ids as [|i ids IH]; intros s Hids Hs; cbn [Drivers.controllers]; [done|].
  apply Forall_cons in Hids as [Hi Hids]. apply back_bind. unfold back at 1, Drivers.on_devices, Pci.claim_device.
  destruct (list_find _ _) as [[k f]|] eqn:Hf.
  2:{ apply IH; [done|]. destruct s. exact Hs. }
  apply list_find_Some in Hf as (Hk & Hid & _). destruct Hs as [Hd Hv].
  assert (f ∈ l) as Hfl by (by eapply Hd, list_elem_of_lookup_2).
  assert (ahci_of l f) as Hfa by (destruct Hi as (g & ? & ? & ?); split; [done|]; exists g; by rewrite Hid).
  set (s1 := Drivers.mkState _ _ _ _). assert (from l s1) as H1.
  { split; [|done]. cbn. intros g Hg. apply Hd. rewrite (delete_Permutation _ _ _ Hk). by right. }
  clearbody s1. apply back_bind. unfold back at 1, Drivers.on_segments.
  destruct (Helpers.late_get (Drivers.SEGMENTS s1)) as [[sg|e| |] lt]; [| |done..]; [|split; apply H1].
  apply back_bind, on_space_back; [|by intros e s2 H2; eapply from_same; [exact H2|split; apply H1]].
  intros r s2 H2. apply (from_same l) in H2; [|split; apply H1].
  destruct r as [e|[|d ds]].
  1,2: apply back_bind; apply (from_drop l); [done|done|]; intros s3 H3; by apply IH.
  apply back_bind. eapply back_mono; [by apply IH| |done]. intros cs s3 [Hcs H3]. split; [by constructor|done].
Qed.

Lemma drop_drives_from {E} l ds s (Q : unit → _ → Prop) (R : E → _ → Prop) :
  from l s → (∀ s', from l s' → Q tt s') → (∀ e s', from l s' → R e s') → back (Drivers.drop_drives ds) Q R s.
Proof.
  intros Hs HQ HR. apply on_space_back; [intros [] s' H|intros e s' H]; [apply HQ|apply HR]; by eapply from_same.
Qed.

Lemma register_from l f kept ds : ∀ s, ahci_of l f → from l s →
  back (Drivers.register_drives gpt_init f kept ds) (λ _, from l) (λ _, from l) s.
Proof.
  revert kept. induction ds as [|d ds IH]; intros kept s Hf Hs; cbn [Drivers.register_drives]; [done|].
  apply back_bind, on_space_back; [|by intros e s' H; eapply from_same]. intros r s1 H1. apply (from_same l) in H1; [|done].
  destruct r as [e|parts].
  - apply back_bind, (drop_drives_from l); [done| |done]. intros s2 H2. apply back_bind. destruct kept; [done|].
    apply (from_drop l); [apply Hf|done|done].
  - apply back_bind. apply IH; [done|]. destruct H1 as [Hd Hv]. split; [done|]. cbn. intros d' Hd'.
    apply elem_of_app in Hd' as [?| ->%list_elem_of_singleton]; [by apply Hv|done].
Qed.

Lemma drop_controllers_from {E} l cs : ∀ s, Forall (λ c, ahci_of l c.1) cs → from l s →
  back (E := E) (Drivers.drop_controllers cs) (λ _, from l) (λ _, from l) s.
Proof.
  induction cs as [|[f ds] cs IH]; intros s Hcs Hs; cbn [Drivers.drop_controllers]; [done|].
  apply Forall_cons in Hcs as [Hf Hcs]. apply back_bind, (drop_drives_from l); [done| |done]. intros s1 H1.
  apply back_bind, (from_drop l); [apply Hf|done|]. intros s2 H2. by apply IH.
Qed.

Lemma register_all_from l cs : ∀ s, Forall (λ c, ahci_of l c.1) cs → from l s →
  back (Drivers.register_all gpt_init cs) (λ _, from l) (λ _, from l) s.
Proof.
  induction cs as [|[f ds] cs IH]; intros s Hcs Hs; cbn [Drivers.register_all]; [done|].
  apply Forall_cons in Hcs as [Hf Hcs]. apply back_bind, back_attempt.
  eapply back_mono; [by apply register_from|..]; intros r s1 H1; [by apply IH|].
  apply back_bind. eapply back_mono; [by apply (drop_controllers_from l)|done|done].
Qed.

Lemma storage_from s : Drivers.DRIVES s = [] →
  back (Drivers.storage_init ahci_init gpt_init) (λ _, from (Drivers.DEVICES s)) (λ _, from (Drivers.DEVICES s)) s.
Proof.
  intros Hv. unfold Drivers.storage_init. apply back_bind. cbn. destruct s as [v sg dv dr]. cbn in *. subst dr.
  apply back_bind. eapply back_mono; [apply (controllers_from dv)| |done].
  - apply Forall_forall. intros i Hi. apply list_elem_of_fmap in Hi as (g & -> & Hg).
    apply list_elem_of_In, filter_In in Hg as [Hg Ht%bool_decide_eq_true]. exists g. by apply list_elem_of_In in Hg.
  - split; [done|]. cbn. intros d Hd. by apply elem_of_nil in Hd.
  - intros cs s1 [Hcs H1]. by apply register_all_from.
Qed.

(** Without an AHCI controller there is nothing to do. *)
Lemma storage_none s : Forall (λ f, Pci.device_type f ≠ Pci.Ahci) (Drivers.DEVICES s) →
  ∃ s', Drivers.storage_init ahci_init gpt_init s = (Ok tt, s') ∧ Drivers.DRIVES s' = Drivers.DRIVES s.
Proof.
  intros Hn. unfold Drivers.storage_init, mbind, M_bind, Drivers.on_devices, gets. cbn.
  assert (Pci.find_devices (λ d, bool_decide (Pci.device_type d = Pci.Ahci)) (Drivers.DEVICES s) = []) as ->; [|by eexists].
  unfold Pci.find_devices. induction Hn as [|f l Hf _ IH]; [done|]. cbn. by rewrite bool_decide_eq_false_2.
Qed.

(** An error of [pci::init] leaves the lists as they were. *)
Lemma pci_error entries s e s' : Drivers.pci_init entries s = (Err e, s') →
  Drivers.DEVICES s' = Drivers.DEVICES s ∧ Drivers.DRIVES s' = Drivers.DRIVES s.
Proof.
  intros E. assert (back (Drivers.pci_init entries) (λ _ _, True)
    (λ _ s', Drivers.DEVICES s' = Drivers.DEVICES s ∧ Drivers.DRIVES s' = Drivers.DRIVES s) s) as H; [|by unfold back in H; rewrite E in H].
  unfold Drivers.pci_init. apply back_bind, on_space_back; [|by intros ? ? (_ & -> & ->)]. intros sg s1 (_ & D1 & V1).
  apply back_bind. unfold back at 1, Drivers.on_segments. destruct (Helpers.late_init _ _) as [[v| | |] lt]; [|by split|done..].
  apply back_bind, on_space_back; [done|intros ? ? (_ & -> & ->); by split].
Qed.
Lemma pci_drives entries s s' : Drivers.pci_init entries s = (Ok tt, s') → Drivers.DRIVES s' = Drivers.DRIVES s.
Proof.
  intros E. assert (back (Drivers.pci_init entries) (λ _ s', Drivers.DRIVES s' = Drivers.DRIVES s) (λ _ _, True) s) as H;
    [|by unfold back in H; rewrite E in H].
  unfold Drivers.pci_init. apply back_bind, on_space_back; [|done]. intros sg s1 (_ & D1 & V1).
  apply back_bind. unfold back at 1, Drivers.on_segments. destruct (Helpers.late_init _ _) as [[v| | |] lt]; try done.
  apply back_bind, on_space_back; [|done]. intros dv s2 (_ & D2 & V2). cbn in *. congruence.
Qed.

(** [find_drive] by the outcomes of its parts. *)
Lemma find_drive_eq entries s : find_drive ahci_init gpt_init entries s =
  match Drivers.pci_init entries s with
  | (Ok _, s1) | (Err _, s1) =>
      match Drivers.storage_init ahci_init gpt_init s1 with
      | (Ok _, s2) | (Err _, s2) => match Drivers.DRIVES s2 with [] => (Panic, s2) | d :: _ => (Ok d, s2) end
      | (Panic, s2) => (Panic, s2)
      | (Loop, s2) => (Loop, s2)
      end
  | (Panic, s1) => (Panic, s1)
  | (Loop, s1) => (Loop, s1)
  end.
Proof.
  unfold find_drive, or_warn, Drivers.claim_drive, gets, mbind, M_bind.
  destruct (Drivers.pci_init entries s) as [[[]|e| |] s1]; try done;
    cbn; destruct (Drivers.storage_init ahci_init gpt_init s1) as [[[]|e'| |] s2]; try done; cbn; by destruct (Drivers.DRIVES s2).
Qed.
End proofs.

(** C38. The drive that [kmain] starts from, whatever [ahci::init] and [gpt::init] do.  When lines 48 to 51
    return, [pci::init] has succeeded, the drive is the first that [storage::init] registered, and its controller
    is a function of the scan whose identifier is that of an AHCI controller.  The errors that [kmain] only logs
    are fatal: if [pci::init] returns one, or if the scan finds no AHCI controller, the kernel stops at line 51.
    If [storage::init] returns one, it stops unless a drive was registered before the error. *)
Theorem drive_found {W P : Type} {AD : Addresses} {BU : Hardware.Bus W} {MP : Mapper W}
    (ahci_init : list Pci.Segment → Pci.PCIFunction → M (VMemAllocator (W := W)) StorageError (list Ahci.AHCIDrive))
    (gpt_init : Ahci.AHCIDrive → M (VMemAllocator (W := W)) KernelError (list P)) entries s :
  Drivers.DEVICES s = [] → Drivers.DRIVES s = [] →
  let r := find_drive ahci_init gpt_init entries s in
  (∀ d s', r = (Ok d, s') → ∃ s1, Drivers.pci_init entries s = (Ok tt, s1) ∧
     head (Drivers.DRIVES s') = Some d ∧ ahci_of (Drivers.DEVICES s1) (Drivers.controller d)) ∧
  (∀ e s1, Drivers.pci_init entries s = (Err e, s1) → r.1 = Panic) ∧
  (∀ s1, Drivers.pci_init entries s = (Ok tt, s1) → Forall (λ f, Pci.device_type f ≠ Pci.Ahci) (Drivers.DEVICES s1) → r.1 = Panic) ∧
  (∀ s1 e s2, Drivers.pci_init entries s = (Ok tt, s1) → Drivers.storage_init ahci_init gpt_init s1 = (Err e, s2) →
     r = match Drivers.DRIVES s2 with [] => (Panic, s2) | d :: _ => (Ok d, s2) end).
Proof.
  intros Hd Hv r. subst r. rewrite find_drive_eq. split_and!.
  - intros d s' E. destruct (Drivers.pci_init entries s) as [[[]|e| |] s1] eqn:Ep; [| |done..].
    + exists s1. split; [done|]. pose proof (storage_from ahci_init gpt_init s1) as Hs.
      rewrite (pci_drives _ _ _ Ep) in Hs. specialize (Hs Hv). unfold back in Hs.
      destruct (Drivers.storage_init ahci_init gpt_init s1) as [[[]|e| |] s2]; [| |done..].
      all: destruct (Drivers.DRIVES s2) as [|d' l] eqn:Ed; [done|]; injection E as <- <-.
      all: rewrite Ed; split; [done|]; apply Hs; rewrite Ed; by left.
    + apply pci_error in Ep as [D1 V1]. destruct (storage_none ahci_init gpt_init s1) as (s2 & Es & V2); [by rewrite D1, Hd|].
      by rewrite Es, V2, V1, Hv in E.
  - intros e s1 Ep. rewrite Ep. apply pci_error in Ep as [D1 V1].
    destruct (storage_none ahci_init gpt_init s1) as (s2 & Es & V2); [by rewrite D1, Hd|]. by rewrite Es, V2, V1, Hv.
  - intros s1 Ep Hn. rewrite Ep. apply pci_drives in Ep as V1.
    destruct (storage_none ahci_init gpt_init s1 Hn) as (s2 & Es & V2). by rewrite Es, V2, V1, Hv.
  - intros s1 e s2 Ep Es. by rewrite Ep, Es.
Qed.

(** ** A machine with one AHCI controller *)

Import VirtExamples PciExamples.

#[local] Instance regs_mapper : Mapper Regs := {|
  map_to _ _ _ _ := mret tt; unmap_page _ _ := mret 0; clean_up_addr_range _ _ := mret tt
|}.

(** The controller of [PciExamples.machine] with its class. *)
Definition sata : Regs := <[PciScan.reg seg0 1 0 0 8 := 0x01060100]> machine.
Definition sata_state : Drivers.State (W := Regs) (P := unit) :=
  Drivers.mkState (mkVMem sata (Ranges.mkAllocator [Ranges.mkRange WIN (2 ^ 30)])) Helpers.late_new [] [].
Definition sata_drive : Ahci.AHCIDrive :=
  let p := Hardware.mkPhysPage 0 0 0 in Ahci.mkDrive (mkRegion 0 0) 0 p p p 512 8 1.
Definition sata_run := find_drive (λ _ _, mret [sata_drive]) (λ _, mret [tt]) [Pci.mkMCFG 0xB0000000 0 0 1] sata_state.

Lemma sata_found : ∃ d s', sata_run = (Ok d, s') ∧ Pci.id (Drivers.controller d) = Pci.mkID 0 1 0.
Proof.
  assert ((λ r : res Empty_set (Drivers.Drive unit) * _, match r with
    | (Ok d, _) => Some (Pci.id (Drivers.controller d))
    | _ => None
    end) sata_run = Some (Pci.mkID 0 1 0)) as Hi by (vm_compute; reflexivity).
  revert Hi. generalize sata_run. intros [[d|[]| |] s'] Hi; [|discriminate Hi..].
  exists d, s'. split; [reflexivity|]. by apply (inj Some) in Hi.
Qed.

Lemma drive_found_witness : ∃ d s' s1, sata_run = (Ok d, s') ∧ Pci.id (Drivers.controller d) = Pci.mkID 0 1 0 ∧
  Drivers.pci_init (W := Regs) (P := unit) [Pci.mkMCFG 0xB0000000 0 0 1] sata_state = (Ok tt, s1) ∧
  head (Drivers.DRIVES s') = Some d ∧ ahci_of (Drivers.DEVICES s1) (Drivers.controller d).
Proof.
  destruct sata_found as (d & s' & E & Hi).
  destruct (proj1 (drive_found (λ _ _, mret [sata_drive]) (λ _, mret [tt]) [Pci.mkMCFG 0xB0000000 0 0 1] sata_state
    eq_refl eq_refl) d s' E) as (s1 & H1 & H2 & H3).
  exists d, s', s1. exact (conj E (conj Hi (conj H1 (conj H2 H3)))).
Defined.
End Startup.
