(* ===== verification/Xtask.v ===== *)
(** * The build tool (src/xtask/src/main.rs)

    [cargo xtask] builds the kernel, assembles the programs of bins/, makes the
    disk image and boots it.  The tool's state is what it can see of the host: the
    files, what it has done and the daemon it has started.  An absolute path is the
    list of its components.

    The programs it runs (cargo, sgdisk, nasm, ld, lemonmnt and so on) and the
    host's file system driver are the operations of [Host]: any command may
    change any file, and any call may fail.  The daemon runs beside the tool: it may
    change files before each of the tool's calls, from the moment it is started and
    also when it has been killed, since the tool does not wait for its end.
    [ToolLaws] has what the manuals of the tools say of a command that succeeds, and
    that the daemon only writes the image and what is mounted.  A copy that fails may
    leave a part of the file and a removal a part of the directory.  A directory is
    listed when it is opened.  What the tool prints is left out. *)

From stdpp Require Import strings.
From S2P Require Import Prelude.

Module Xtask.
#[local] Open Scope string_scope.
#[local] Open Scope list_scope.

Abbreviation path := (list string).

Inductive Node := File (data : string) | Dir.
Abbreviation Files := (gmap path Node).
#[export] Instance Node_eq_dec : EqDecision Node.
Proof. solve_decision. Defined.

(** The argument of [Path::join]. *)
Inductive Joined := Absolute (p : path) | Relative (l : list string).
Definition join (p : path) (q : Joined) : path :=
  match q with Absolute q => q | Relative l => (p ++ l) end.
Definition parent (p : path) : option path :=
  match p with [] => None | _ => Some (removelast p) end.

(** Words of a command line; a path is kept as one, as is the name that mtools
    gives a partition at an offset of an image. *)
Inductive Arg := Word (s : string) | AtPath (p : path) | PathAt (p : path) (offset : Z).
Record Command := mkCommand { program : string; args : list Arg; cwd : path }.

Inductive Op := Create | Copy | RemoveFile | RemoveDir | Rename | ReadDir | Kill.

(** [exec] is the exit status ([None] when the program cannot be started) and
    the files afterwards, [spawn] whether a program can be started, and [daemon] what
    such a program has done to the files at a moment of its life.  [leftover] and
    [remains] are what a copy and a removal leave when they fail. *)
Class Host := {
  exec : Command → Files → option bool * Files;
  spawn : Command → Files → bool;
  daemon : Command → nat → Files → Files;
  listing : Files → path → list (option string);
  rename_dir : path → path → Files → option Files;
  io : Op → path → Files → bool;
  leftover : path → Files → option string;
  remains : path → Files → path → bool;
}.

(** What the tool does: a command that it waits for and its success, the start and
    the end of the daemon, a directory made and a file written by a copy. *)
Inductive Event :=
| Ran (c : Command) (ok : bool) | Started (c : Command) | Killed | Made (p : path) | Copied (p : path) (data : string).
Record St := mkSt { files : Files; log : list Event; running : option Command; moment : nat }.

Inductive XError := Io | Bail (program : string) | Exit (code : Z).

Inductive CLICommand := Build | Disk | Run | Clean | BuildRun.

Definition KERNEL_ELF : string := "kernel.elf".
Definition DISK_FILE : string := "disk.img".
Definition LEMONFS_GUID : string := "8CBD0D4E-FE62-49CC-A982-FBD6F69ED888".
Definition MOUNT_DIR : string := "mount".
Definition COMPILED_DIR : string := "compiled".
Definition OVMF : string := "/usr/share/edk2/x64/OVMF.4m.fd".
Definition QEMU_RAM_MB : string := "128".
Definition CORES : string := "4".
Definition FILE_ARTIFACTS : list string := [KERNEL_ELF; DISK_FILE].
Definition DIR_ARTIFACTS : list string := [MOUNT_DIR; COMPILED_DIR].

(** [str::strip_suffix]; [str::ends_with] is its success. *)
Fixpoint strip_suffix (suf s : string) : option string :=
  if decide (s = suf) then Some EmptyString else
  match s with
  | EmptyString => None
  | String c s => String c <$> strip_suffix suf s
  end.

(** [path + suffix], on the text of a path. *)
Fixpoint add_text (p : path) (t : string) : path :=
  match p with
  | [] => []
  | [n] => [n +:+ t]
  | n :: p => n :: add_text p t
  end.

(** The files without a directory and all below it. *)
Definition prune (p : path) (fs : Files) : Files := filter (λ q, ¬ p `prefix_of` q.1) fs.

Section tool.
Context `{H : Host} (ROOT : path) (CARGO : string).

Definition Tool := M St XError.

(** ** The host, as [std::fs] and [std::process] have it *)

Definition is_dir (p : path) (fs : Files) : bool :=
  bool_decide (p = [] ∨ fs !! p = Some Dir).
Definition can_hold (p : path) (fs : Files) : bool :=
  bool_decide (fs !! p ≠ Some Dir) && match parent p with Some q => is_dir q fs | None => false end.

(** The daemon goes on. *)
Definition pass (s : St) : St :=
  match running s with
  | Some c => mkSt (daemon c (moment s) (files s)) (log s) (running s) (S (moment s))
  | None => s
  end.

Definition did (l : list Event) (fs : Files) (s : St) : St := mkSt fs (log s ++ l) (running s) (moment s).

Definition exists_ (p : path) : Tool bool := λ s,
  let s := pass s in (Ok (bool_decide (is_Some (files s !! p))), s).

(** What a call leaves behind when it fails. *)
Definition spoil (op : Op) (p : path) (fs : Files) : Files :=
  match op with
  | Copy => match leftover p fs with Some d => <[p := File d]> fs | None => fs end
  | RemoveDir => filter (λ q, ¬ p `prefix_of` q.1 ∨ remains p fs q.1 = true) fs
  | _ => fs
  end.

(** A call that gives new files, or none when it cannot be done. *)
Definition fs_call (op : Op) (p : path) (f : Files → option (Files * list Event)) : Tool unit := λ s,
  let s := pass s in
  match f (files s) with
  | Some (fs, l) => if io op p (files s) then (Ok tt, did l fs s) else (Err Io, did [] (spoil op p (files s)) s)
  | None => (Err Io, s)
  end.

Definition create_dir (p : path) : Tool unit := fs_call Create p (λ fs,
  if decide (fs !! p = None) then if can_hold p fs then Some (<[p := Dir]> fs, [Made p]) else None else None).
Definition copy (a b : path) : Tool unit := fs_call Copy b (λ fs,
  match fs !! a with
  | Some (File d) => if can_hold b fs then Some (<[b := File d]> fs, [Copied b d]) else None
  | _ => None
  end).
Definition remove_file (p : path) : Tool unit := fs_call RemoveFile p (λ fs,
  match fs !! p with Some (File _) => Some (delete p fs, []) | _ => None end).
Definition remove_dir_all (p : path) : Tool unit := fs_call RemoveDir p (λ fs,
  match fs !! p with Some Dir => Some (prune p fs, []) | _ => None end).
Definition rename (a b : path) : Tool unit := fs_call Rename b (λ fs,
  match fs !! a with
  | Some (File d) => if can_hold b fs then Some (<[b := File d]> (delete a fs), []) else None
  | Some Dir => fs' ← rename_dir a b fs; Some (fs', [])
  | None => None
  end).
Definition read_dir (p : path) : Tool (list (option string)) := λ s,
  let s := pass s in
  if is_dir p (files s) && io ReadDir p (files s) then (Ok (listing (files s) p), s) else (Err Io, s).
(** [let file = file?] *)
Definition entry (e : option string) : Tool string :=
  match e with Some n => mret n | None => fail Io end.

Definition status (c : Command) : Tool bool := λ s,
  let s := pass s in
  let '(r, fs) := exec c (files s) in
  match r with
  | Some b => (Ok b, did [Ran c b] fs s)
  | None => (Err Io, did [Ran c false] (files s) s)
  end.

(** ** The tool *)

Definition sh (program : string) (args : list Arg) (cwd : path) : Tool unit :=
  success ← status (mkCommand program args cwd);
  if success : bool then mret tt else fail (Bail program).

Definition build (proj_root : path) : Tool unit :=
  let kernel_path := join proj_root (Relative ["kernel"]) in
  success ← status (mkCommand CARGO [Word "build"; Word "--release"] kernel_path);
  if success : bool then
    let kernel_executable := join kernel_path (Relative ["target"; "x86_64-unknown-none"; "release"; "kernel"]) in
    let destination := join proj_root (Relative [KERNEL_ELF]) in
    map_errM (λ _, Exit 1) (copy kernel_executable destination)
  else fail (Exit 1).

Definition clean (proj_root : path) : Tool unit :=
  let kernel_path := join proj_root (Relative ["kernel"]) in
  status (mkCommand CARGO [Word "clean"] kernel_path) ≫= λ _,
  forM FILE_ARTIFACTS (λ artifact,
    let artifact_path := join proj_root (Relative [artifact]) in
    there ← exists_ artifact_path;
    if there : bool then remove_file artifact_path else mret tt) ≫= λ _,
  forM DIR_ARTIFACTS (λ artifact,
    let artifact_path := join proj_root (Relative [artifact]) in
    there ← exists_ artifact_path;
    if there : bool then remove_dir_all artifact_path else mret tt).

Definition compile_file (bin_folder compiled_bins : path) (e : option string) : Tool unit :=
  name ← entry e;
  let p := join bin_folder (Relative [name]) in
  let output := add_text p ".o" in
  match strip_suffix ".s" name with
  | None => mret tt
  | Some bin_name =>
      let bin_path := join bin_folder (Relative [bin_name]) in
      let out_path := join compiled_bins (Relative [bin_name +:+ ".elf"]) in
      sh "nasm" [Word "-f"; Word "elf64"; AtPath p; Word "-o"; AtPath output] bin_folder ≫= λ _,
      sh "ld" [AtPath output; Word "-o"; Word bin_name] bin_folder ≫= λ _,
      remove_file (join bin_folder (Absolute output)) ≫= λ _,
      rename bin_path out_path
  end.

Definition compile (proj_root : path) : Tool unit :=
  let bin_folder := join proj_root (Relative ["bins"]) in
  let compiled_bins := join proj_root (Relative ["compiled"]) in
  made ← exists_ compiled_bins;
  (if made : bool then mret tt else create_dir compiled_bins) ≫= λ _,
  present ← exists_ bin_folder;
  if present : bool then read_dir bin_folder ≫= λ entries, forM entries (compile_file bin_folder compiled_bins)
  else mret tt.

(** The partitions and the boot files of the image: the commands before the
    mount. *)
Definition partition_commands (proj_root : path) : list (string * list Arg) :=
  let img := AtPath (join proj_root (Relative [DISK_FILE])) in
  let kernel := AtPath (join proj_root (Relative [KERNEL_ELF])) in
  let esp := PathAt (join proj_root (Relative [DISK_FILE])) (2048 * 512) in
  [("truncate", [Word "-s"; Word "512M"; img]);
   ("sgdisk", [Word "-o"; img]);
   ("sgdisk", [Word "-n"; Word "1:2048:+64M"; Word "-t"; Word "1:EF00"; Word "-c"; Word "1:ESP"; img]);
   ("mformat", [Word "-F"; Word "-i"; esp; Word "-T"; Word "131072"]);
   ("mmd", [Word "-i"; esp; Word "::/EFI"; Word "::/EFI/BOOT"; Word "::/boot"]);
   ("mcopy", [Word "-o"; Word "-i"; esp; Word "limine-files/BOOTX64.EFI"; Word "::/EFI/BOOT/BOOTX64.EFI"]);
   ("mcopy", [Word "-o"; Word "-i"; esp; Word "limine-files/limine.conf"; Word "::/boot/limine.conf"]);
   ("mcopy", [Word "-o"; Word "-i"; esp; kernel; Word "::/boot/kernel.elf"]);
   ("sgdisk", [Word "-n"; Word "2:0:0"; Word "-t"; Word ("2:" +:+ LEMONFS_GUID); Word "-c"; Word "2:LemonFS"; img])].

(** [Command::spawn] and [Child::kill] of the mount daemon.  Neither waits: the
    daemon's first step may come at any time after the start, and [kill] only asks for
    its end. *)
Definition spawn_child (c : Command) : Tool unit := λ s,
  let s := pass s in
  if spawn c (files s) then (Ok tt, mkSt (files s) (log s ++ [Started c]) (Some c) 0) else (Err Io, s).
Definition kill_child : Tool unit := λ s,
  let s := pass s in
  if io Kill [] (files s) then (Ok tt, did [Killed] (files s) s) else (Err Io, s).

Definition copy_file (compile_path bin_path : path) (e : option string) : Tool unit :=
  filename ← entry e;
  copy (join compile_path (Relative [filename])) (join bin_path (Relative [filename])).

Definition disk (proj_root : path) : Tool unit :=
  forM (partition_commands proj_root) (λ '(p, a), sh p a proj_root) ≫= λ _,
  let mount_point := join proj_root (Relative [MOUNT_DIR]) in
  there ← exists_ mount_point;
  (if there : bool then mret tt else create_dir mount_point) ≫= λ _,
  spawn_child (mkCommand "lemonmnt"
    [AtPath (join proj_root (Relative [DISK_FILE])); Word MOUNT_DIR; Word "--format"] proj_root) ≫= λ _,
  compile proj_root ≫= λ _,
  let compile_path := join proj_root (Relative ["compiled"]) in
  let bin_path := join mount_point (Relative ["bin"]) in
  create_dir bin_path ≫= λ _,
  entries ← read_dir compile_path;
  forM entries (copy_file compile_path bin_path) ≫= λ _,
  kill_child ≫= λ _,
  sh "fusermount" [Word "-u"; Word MOUNT_DIR] proj_root.

Definition qemu_args : list Arg :=
  Word <$> ["-bios"; OVMF; "-m"; QEMU_RAM_MB +:+ "M"; "-cpu"; "max"; "-machine"; "q35";
            "-drive"; "if=none,id=sata0,file=" +:+ DISK_FILE +:+ ",format=raw"; "-device"; "ich9-ahci,id=ahci";
            "-device"; "ide-hd,bus=ahci.0,drive=sata0"; "-smp"; CORES].
Definition run (proj_root : path) : Tool unit := sh "qemu-system-x86_64" qemu_args proj_root.

Definition main (command : CLICommand) : Tool unit :=
  match parent ROOT with
  | None => fail (Bail "Failed to get project root!")
  | Some proj_root =>
      match command with
      | Build => build proj_root
      | Clean => clean proj_root
      | Disk => disk proj_root
      | Run => run proj_root
      | BuildRun => build proj_root ≫= λ _, disk proj_root ≫= λ _, run proj_root
      end
  end.

(** ** Nothing runs after a failure *)

Definition ok (e : Event) : Prop := match e with Ran _ b => b = true | _ => True end.
Definition all_ok (s : St) : Prop := Forall ok (log s).
Definition stopped (s : St) : Prop := ∃ l, Forall ok l ∧ (log s = l ∨ ∃ e, log s = (l ++ [e])).
Definition careful {A} (m : Tool A) : Prop := ∀ s, all_ok s → wp m (λ _, all_ok) (λ _, stopped) s.

Lemma log_pass s : log (pass s) = log s.
Proof. unfold pass. by destruct (running s). Qed.
Lemma running_pass s : running (pass s) = running s.
Proof. unfold pass. by destruct (running s) eqn:E. Qed.
Lemma all_ok_pass s : all_ok s → all_ok (pass s).
Proof. unfold all_ok. by rewrite log_pass. Qed.
Lemma all_ok_did l fs s : all_ok s → Forall ok l → all_ok (did l fs s).
Proof. intros. by apply Forall_app. Qed.
Lemma all_ok_stopped s : all_ok s → stopped s.
Proof. intros Hs. exists (log s). auto. Qed.

Lemma careful_ret {A} (a : A) : careful (mret a).
Proof. by intros s Hs. Qed.
Lemma careful_exists p : careful (exists_ p).
Proof. intros s Hs. by apply all_ok_pass. Qed.
Lemma careful_fail {A} e : careful (fail (A := A) e).
Proof. intros s Hs. by apply all_ok_stopped. Qed.
Lemma careful_bind {A B} (m : Tool A) (f : A → Tool B) : careful m → (∀ a, careful (f a)) → careful (m ≫= f).
Proof. intros Hm Hf s Hs. apply wp_bind. eapply wp_mono; [by apply Hm| |done]. intros a s' Hs'. by apply Hf. Qed.
Lemma careful_forM {A} (l : list A) f : (∀ x, careful (f x)) → careful (forM l f).
Proof.
  intros Hf. induction l as [|x l IH]; [apply careful_ret|]. cbn [forM]. apply careful_bind; [done|]. by intros _.
Qed.
Lemma careful_map_errM {A} g (m : Tool A) : careful m → careful (map_errM g m).
Proof. intros Hm s Hs. apply wp_map_errM. by apply Hm. Qed.
Lemma careful_fs_call op p f : (∀ fs fs' l, f fs = Some (fs', l) → Forall ok l) → careful (fs_call op p f).
Proof.
  intros Hf s Hs%all_ok_pass. unfold wp, fs_call. cbv zeta. destruct (f (files (pass s))) as [[fs l]|] eqn:E.
  - destruct (io _ _ _); [apply all_ok_did|apply all_ok_stopped, all_ok_did]; eauto.
  - by apply all_ok_stopped.
Qed.
Lemma careful_create_dir p : careful (create_dir p).
Proof. apply careful_fs_call. intros. repeat case_match; simplify_eq. by repeat constructor. Qed.
Lemma careful_copy a b : careful (copy a b).
Proof. apply careful_fs_call. intros. repeat case_match; simplify_eq. by repeat constructor. Qed.
Lemma careful_remove_file p : careful (remove_file p).
Proof. apply careful_fs_call. intros. repeat case_match; simplify_eq. by repeat constructor. Qed.
Lemma careful_rename a b : careful (rename a b).
Proof.
  apply careful_fs_call. intros fs fs' l. repeat case_match; intros E; simplify_eq; [by repeat constructor|].
  destruct (rename_dir a b fs); [|done]. injection E as <- <-. by constructor.
Qed.
Lemma careful_read_dir p : careful (read_dir p).
Proof.
  intros s Hs%all_ok_pass. unfold wp, read_dir. pose proof (all_ok_stopped _ Hs). cbv zeta. by destruct (is_dir _ _ && _).
Qed.
Lemma careful_spawn c : careful (spawn_child c).
Proof.
  intros s Hs%all_ok_pass. unfold wp, spawn_child. pose proof (all_ok_stopped _ Hs). cbv zeta. destruct (spawn _ _); [|done].
  apply Forall_app. by repeat constructor.
Qed.
Lemma careful_kill : careful kill_child.
Proof.
  intros s Hs%all_ok_pass. unfold wp, kill_child. pose proof (all_ok_stopped _ Hs). cbv zeta. destruct (io _ _ _); [|done].
  apply all_ok_did; [done|]. by repeat constructor.
Qed.

(** A command whose failure is looked at. *)
Lemma careful_status c (A : Type) (m : Tool A) e : careful m →
  careful (success ← status c; if success : bool then m else fail e).
Proof.
  intros Hm s Hs%all_ok_pass. unfold wp, mbind, M_bind, status. cbv zeta.
  destruct (exec c (files (pass s))) as [[[]|] fs]; cbn.
  - apply Hm. apply all_ok_did; [done|]. by repeat constructor.
  - exists (log (pass s)). eauto.
  - exists (log (pass s)). eauto.
Qed.
Lemma careful_sh p a d : careful (sh p a d).
Proof. apply careful_status, careful_ret. Qed.
End tool.

Create HintDb careful discriminated.
#[export] Hint Resolve careful_ret careful_exists careful_fail careful_bind careful_forM careful_map_errM
  careful_create_dir careful_copy careful_remove_file careful_rename careful_read_dir careful_spawn careful_kill
  careful_sh : careful.
#[export] Hint Extern 1 (careful (if ?b then _ else _)) => destruct b : careful.
#[export] Hint Extern 1 (careful (match ?b with _ => _ end)) => destruct b : careful.

Section careful.
Context `{H : Host} (ROOT : path) (CARGO : string).

Lemma careful_build r : careful (build CARGO r).
Proof. apply careful_status. eauto with careful. Qed.
Lemma careful_compile r : careful (compile r).
Proof. unfold compile, compile_file, entry. eauto 20 with careful. Qed.
#[local] Hint Resolve careful_build careful_compile : careful.
Lemma careful_disk r : careful (disk r).
Proof. unfold disk, copy_file, entry. eauto 30 with careful. Qed.

#[local] Hint Resolve careful_disk : careful.
Lemma careful_main c : c ≠ Clean → careful (main ROOT CARGO c).
Proof. intros Hc. unfold main, run. destruct (parent ROOT); [|eauto with careful]. destruct c; try done; eauto 10 with careful. Qed.

(** [cargo xtask] stops at the first failure: under every command but [clean], whatever the tools
    and the host do, a run that returns has run only commands that succeeded, and one that stops with an
    error has run none after the first that failed.  So [build-run] starts the emulator only after the
    build and every step of the image have succeeded. *)
Theorem main_stops c s : c ≠ Clean → log s = [] →
  wp (main ROOT CARGO c) (λ _, all_ok) (λ _, stopped) s.
Proof. intros Hc Hl. apply careful_main; [done|]. unfold all_ok. by rewrite Hl. Qed.
End careful.

(** ** Text *)

Lemma string_app_length a b : String.length (a +:+ b) = (String.length a + String.length b)%nat.
Proof. induction a as [|c a IH]; [done|]. cbn. by rewrite <-IH. Qed.

Lemma string_app_inj a b c d : String.length c = String.length d → a +:+ c = b +:+ d → a = b ∧ c = d.
Proof.
  intros Hl. revert b. induction a as [|x a IH]; intros [|y b] E; [done| | |].
  1,2: apply (f_equal String.length) in E; rewrite !string_app_length in E; cbn in E; lia.
  injection E as -> E. by destruct (IH b E) as [-> ->].
Qed.

Lemma strip_suffix_app suf b : strip_suffix suf (b +:+ suf) = Some b.
Proof.
  induction b as [|c b IH].
  - change (EmptyString +:+ suf) with suf. destruct suf; cbn; by rewrite decide_True.
  - change (String c b +:+ suf) with (String c (b +:+ suf)). cbn [strip_suffix]. rewrite decide_False, IH; [done|].
    intros E. apply (f_equal String.length) in E. cbn [String.length] in E. rewrite string_app_length in E. lia.
Qed.

Lemma strip_suffix_Some suf s b : strip_suffix suf s = Some b → s = b +:+ suf.
Proof.
  revert b. induction s as [|c s IH]; intros b E; cbn in E; case_decide; simplify_eq; [done|done|].
  apply fmap_Some in E as (b' & E & ->). by rewrite (IH _ E).
Qed.

Lemma add_text_app d n t : add_text (d ++ [n]) t = (d ++ [n +:+ t]).
Proof. induction d as [|m d IH]; [done|]. cbn. rewrite IH. by destruct d. Qed.

(** ** Files *)

(** What contains something is a directory. *)
Definition tree (fs : Files) : Prop :=
  ∀ p q, p ≠ [] → q ≠ [] → is_Some (fs !! (p ++ q)) → fs !! p = Some Dir.

Lemma tree_below fs p q : tree fs → p ≠ [] → fs !! p ≠ Some Dir → q ≠ [] → fs !! (p ++ q) = None.
Proof. intros Ht Hp Hn Hq. apply eq_None_not_Some. intros Hs. by apply Hn, (Ht p q). Qed.

Lemma tree_delete fs p : tree fs → fs !! p ≠ Some Dir → tree (delete p fs).
Proof.
  intros Ht Hn q t Hq Hqt [x Hx]. apply lookup_delete_Some in Hx as [Hne Hx].
  assert (fs !! q = Some Dir) as Hd by (apply (Ht q t); [done|done|by eexists]).
  rewrite lookup_delete_ne; [done|]. by intros ->.
Qed.

Lemma tree_prune fs p : tree fs → tree (prune p fs).
Proof.
  intros Ht q t Hq Hqt [x Hx]. apply map_lookup_filter_Some in Hx as [Hx Hne].
  apply map_lookup_filter_Some. split; [by apply (Ht q t); [| |eexists]|].
  cbn in *. intros Hp. apply Hne. by apply prefix_app_r.
Qed.

Lemma prune_absent fs p : tree fs → p ≠ [] → fs !! p = None → prune p fs = fs.
Proof.
  intros Ht Hp Hn. apply map_filter_id. intros q x Hx [t Ht']. cbn in Ht'. subst q. destruct t as [|n t].
  - rewrite app_nil_r in Hx. congruence.
  - rewrite (tree_below fs p (n :: t)) in Hx; [done|done|done| |done]. by rewrite Hn.
Qed.

Create HintDb untouched discriminated.

Section clean.
Context `{H : Host} (CARGO : string).

(** What [clean] is to remove. *)
Definition artifact (r p : path) : Prop :=
  p = r ++ [KERNEL_ELF] ∨ p = r ++ [DISK_FILE] ∨ (r ++ [MOUNT_DIR]) `prefix_of` p ∨ (r ++ [COMPILED_DIR]) `prefix_of` p.
#[export] Instance artifact_dec r p : Decision (artifact r p).
Proof. unfold artifact. apply _. Defined.

Definition clean_command (r : path) : Command := mkCommand CARGO [Word "clean"] (r ++ ["kernel"]).
Lemma pass_none s : running s = None → pass s = s.
Proof. intros E. unfold pass. by rewrite E. Qed.

Lemma remove_file_wp p s : tree (files s) → running s = None →
  wp (there ← exists_ p; if there : bool then remove_file p else mret tt)
    (λ _ s', files s' = delete p (files s) ∧ tree (files s') ∧ running s' = None) (λ _ s', files s' = files s) s.
Proof.
  intros Ht Hn. unfold exists_. eapply wp_step; [rewrite pass_none by done; reflexivity|]. case_bool_decide as Hp.
  - unfold wp, remove_file, fs_call. rewrite pass_none by done. cbv zeta.
    destruct (files s !! p) as [[d|]|] eqn:E; [|done..].
    destruct (io _ _ _); [|done]. cbn. split_and!; [done| |done]. apply tree_delete; [done|]. by rewrite E.
  - apply wp_ret. apply eq_None_not_Some in Hp. by rewrite delete_id.
Qed.

(** Files that agree but for a directory. *)
Definition same_but (p : path) (fs fs' : Files) : Prop := ∀ q, ¬ p `prefix_of` q → fs' !! q = fs !! q.

Lemma spoil_same p fs : same_but p fs (spoil RemoveDir p fs).
Proof.
  intros q Hq. cbn. rewrite map_lookup_filter. destruct (fs !! q); [|done]. cbn. by rewrite option_guard_True by auto.
Qed.

Lemma remove_dir_wp p s : tree (files s) → p ≠ [] → running s = None →
  wp (there ← exists_ p; if there : bool then remove_dir_all p else mret tt)
    (λ _ s', files s' = prune p (files s) ∧ tree (files s') ∧ running s' = None) (λ _ s', same_but p (files s) (files s')) s.
Proof.
  intros Ht Hnil Hn. unfold exists_. eapply wp_step; [rewrite pass_none by done; reflexivity|]. case_bool_decide as Hp.
  - unfold wp, remove_dir_all, fs_call. rewrite pass_none by done. cbv zeta.
    destruct (files s !! p) as [[d|]|] eqn:E; [done| |done].
    destruct (io _ _ _); [|apply spoil_same]. cbn. split_and!; [done|by apply tree_prune|done].
  - apply wp_ret. apply eq_None_not_Some in Hp. by rewrite prune_absent.
Qed.

Lemma lookup_prune (fs : Files) (p q : path) : prune p fs !! q = if decide (p `prefix_of` q) then None else fs !! q.
Proof.
  unfold prune. rewrite map_lookup_filter. destruct (fs !! q); cbn; [|by case_decide].
  case_guard; case_decide; naive_solver.
Qed.

Lemma cleaned_lookup (fs : Files) (r q : path) :
  prune (r ++ [COMPILED_DIR]) (prune (r ++ [MOUNT_DIR]) (delete (r ++ [DISK_FILE]) (delete (r ++ [KERNEL_ELF]) fs))) !! q =
  if decide (artifact r q) then None else fs !! q.
Proof.
  rewrite !lookup_prune, !lookup_delete. unfold artifact. repeat case_decide; naive_solver.
Qed.

(** Files that differ in artifacts only. *)
Definition untouched (r : path) (fs fs' : Files) : Prop := ∀ q, ¬ artifact r q → fs' !! q = fs !! q.
Lemma untouched_refl r fs : untouched r fs fs.
Proof. by intros q Hq. Qed.
Lemma untouched_delete r fs fs' n : n ∈ FILE_ARTIFACTS → untouched r fs fs' → untouched r fs (delete (r ++ [n]) fs').
Proof.
  intros Hn Hu q Hq. rewrite lookup_delete_ne; [by apply Hu|]. intros <-. apply Hq. unfold artifact.
  repeat (apply elem_of_cons in Hn as [->|Hn]; [by auto|]). by apply not_elem_of_nil in Hn.
Qed.
Lemma untouched_prune r fs fs' n : n ∈ DIR_ARTIFACTS → untouched r fs fs' → untouched r fs (prune (r ++ [n]) fs').
Proof.
  intros Hn Hu q Hq. rewrite lookup_prune, decide_False; [by apply Hu|]. intros Hp. apply Hq. unfold artifact.
  repeat (apply elem_of_cons in Hn as [->|Hn]; [by auto|]). by apply not_elem_of_nil in Hn.
Qed.

Lemma untouched_same r fs fs' fs'' n : n ∈ DIR_ARTIFACTS → same_but (r ++ [n]) fs' fs'' → untouched r fs fs' → untouched r fs fs''.
Proof.
  intros Hn Hs Hu q Hq. rewrite Hs; [by apply Hu|]. intros Hp. apply Hq. unfold artifact.
  repeat (apply elem_of_cons in Hn as [->|Hn]; [by auto|]). by apply not_elem_of_nil in Hn.
Qed.

(** An error leaves other files as the step found them. *)
Ltac clean_rest := repeat match goal with E : files _ = _ |- _ => rewrite E end; eauto with untouched.
Ltac clean_failed := intros _ ? ->; clean_rest.
Ltac clean_failed_dir := intros _ ? ?; eapply untouched_same; [|eassumption|]; clean_rest.

#[local] Hint Resolve untouched_refl untouched_delete untouched_prune list_elem_of_here list_elem_of_further : untouched.

(** [cargo xtask clean]: whatever [cargo clean] did, and even where it failed, a clean that
    returns has removed kernel.elf, disk.img and all of mount/ and compiled/ from what was there, and
    nothing else.  One that stops at an error has not touched any other file either. *)
Theorem clean_exact (r : path) s ok fs :
  running s = None → exec (clean_command r) (files s) = (Some ok, fs) → tree fs →
  wp (clean CARGO r)
    (λ _ s', ∀ q, files s' !! q = if decide (artifact r q) then None else fs !! q)
    (λ _ s', untouched r fs (files s')) s.
Proof.
  intros Hn Hx Ht. unfold clean. eapply wp_step.
  { unfold status. rewrite pass_none by done. cbn [join]. fold (clean_command r). cbv zeta. by rewrite Hx. }
  assert (∀ n : string, r ++ [n] ≠ []) as Hnil by (intros n; by destruct r).
  cbn [forM FILE_ARTIFACTS DIR_ARTIFACTS join].
  do 2 apply wp_bind. eapply wp_mono; [by apply remove_file_wp| |by cbn; clean_failed].
  intros [] s1 (E1 & H1 & N1); cbn in E1. apply wp_bind. eapply wp_mono; [by apply remove_file_wp| |by cbn; clean_failed].
  intros [] s2 (E2 & H2 & N2); cbn in E2. apply wp_ret. apply wp_bind.
  eapply wp_mono; [by apply remove_dir_wp| |by cbn; clean_failed_dir].
  intros [] s3 (E3 & H3 & N3); cbn in E3. apply wp_bind. eapply wp_mono; [by apply remove_dir_wp| |by cbn; clean_failed_dir].
  intros [] s4 (E4 & H4 & N4); cbn in E4. apply wp_ret. intros q. rewrite E4, E3, E2, E1. apply cleaned_lookup.
Qed.
End clean.

(** ** The programs reach the image *)

Definition mount_command (r : path) : Command :=
  mkCommand "lemonmnt" [AtPath (r ++ [DISK_FILE]); Word MOUNT_DIR; Word "--format"] r.
Definition unmount_command (r : path) : Command := mkCommand "fusermount" [Word "-u"; Word MOUNT_DIR] r.

(** Where the daemon does not write. *)
Definition outside (r q : path) : Prop := ¬ (r ++ [MOUNT_DIR]) `prefix_of` q ∧ q ≠ r ++ [DISK_FILE].

(** What the tools do when they succeed.  The partition tools write the image;
    the daemon writes the image and what is below its mount point, at any time and
    in any way; [nasm] and [ld] write the file they are told to; a listing has the
    names of a directory. *)
Class ToolLaws `{Host} := {
  assemble : string → string;
  link : string → string;
  image_law : ∀ r p a fs fs', (p, a) ∈ partition_commands r → exec (mkCommand p a r) fs = (Some true, fs') →
    ∀ q, q ≠ r ++ [DISK_FILE] → fs' !! q = fs !! q;
  daemon_law : ∀ r n fs q, outside r q → daemon (mount_command r) n fs !! q = fs !! q;
  nasm_law : ∀ p o d fs fs',
    exec (mkCommand "nasm" [Word "-f"; Word "elf64"; AtPath p; Word "-o"; AtPath o] d) fs = (Some true, fs') →
    ∃ src, fs !! p = Some (File src) ∧ fs' = <[o := File (assemble src)]> fs;
  ld_law : ∀ o b d fs fs', exec (mkCommand "ld" [AtPath o; Word "-o"; Word b] d) fs = (Some true, fs') →
    ∃ obj, fs !! o = Some (File obj) ∧ fs' = <[d ++ [b] := File (link obj)]> fs;
  listing_law : ∀ fs d n, Some n ∈ listing fs d ↔ is_Some (fs !! (d ++ [n]));
}.

Section populate.
Context `{L : ToolLaws} (r : path).

Definition source (x : string) : path := (r ++ ["bins"]) ++ [x +:+ ".s"].
Definition compiled (x : string) : path := (r ++ [COMPILED_DIR]) ++ [x +:+ ".elf"].
Definition installed (x : string) : path := ((r ++ [MOUNT_DIR]) ++ ["bin"]) ++ [x +:+ ".elf"].

(** No program is named like the source of another. *)
Definition no_clash (fs : Files) : Prop := ∀ x, is_Some (fs !! source x) → strip_suffix ".s" x = None.

(** Nothing but the daemon runs beside the tool. *)
Definition quiet (s : St) : Prop := running s = None ∨ running s = Some (mount_command r).

Lemma pass_outside s q : quiet s → outside r q → files (pass s) !! q = files s !! q.
Proof. unfold pass. intros [->| ->] Hq; [done|]. cbn. by apply daemon_law. Qed.
Lemma quiet_pass s : quiet s → quiet (pass s).
Proof. unfold quiet. by rewrite running_pass. Qed.

(** *** What the calls do when they succeed *)

Lemma sh_wp p a d s Q R :
  (∀ fs, exec (mkCommand p a d) (files (pass s)) = (Some true, fs) → Q tt (did [Ran (mkCommand p a d) true] fs (pass s))) →
  (∀ e s', R e s') → wp (sh p a d) Q R s.
Proof.
  intros HQ HR. unfold wp, sh, mbind, M_bind, status. cbv zeta. destruct (exec _ _) as [[[]|] fs]; cbn; auto.
Qed.

Lemma fs_call_wp op p f s Q R : (∀ fs l, f (files (pass s)) = Some (fs, l) → Q tt (did l fs (pass s))) → (∀ e s', R e s') →
  wp (fs_call op p f) Q R s.
Proof. intros HQ HR. unfold wp, fs_call. cbv zeta. destruct (f _) as [[]|]; [destruct (io _ _ _)|]; auto. Qed.

Lemma create_dir_wp p s Q R :
  Q tt (did [Made p] (<[p := Dir]> (files (pass s))) (pass s)) → (∀ e s', R e s') → wp (create_dir p) Q R s.
Proof. intros HQ HR. apply fs_call_wp; [|done]. intros fs l. repeat case_match; intros ?; simplify_eq. auto. Qed.

Lemma copy_wp a b s Q R :
  (∀ d, files (pass s) !! a = Some (File d) → Q tt (did [Copied b d] (<[b := File d]> (files (pass s))) (pass s))) →
  (∀ e s', R e s') → wp (copy a b) Q R s.
Proof. intros HQ HR. apply fs_call_wp; [|done]. intros fs l. repeat case_match; intros ?; simplify_eq. auto. Qed.

Lemma read_dir_wp d s Q R : Q (listing (files (pass s)) d) (pass s) → (∀ e s', R e s') → wp (read_dir d) Q R s.
Proof. intros HQ HR. unfold wp, read_dir. cbv zeta. destruct (is_dir _ _ && _); auto. Qed.

Lemma exists_wp p (Q : bool → St → Prop) R s :
  Q (bool_decide (is_Some (files (pass s) !! p))) (pass s) → wp (exists_ p) Q R s.
Proof. done. Qed.

(** *** What the tool has done only grows *)

Definition grew (s s' : St) : Prop := running s' = running s ∧ log s `prefix_of` log s'.
#[local] Instance grew_po : PreOrder grew.
Proof. split; [by intros s|]. intros s1 s2 s3 [? ?] [? ?]. split; [congruence|by etrans]. Qed.
Definition growing {A} (m : Tool A) : Prop := ∀ s, wp m (λ _, grew s) (λ _ _, True) s.

Lemma grew_pass s : grew s (pass s).
Proof. split; [apply running_pass|by rewrite log_pass]. Qed.
Lemma grew_did s l fs : grew s (did l fs (pass s)).
Proof. split; [apply running_pass|]. cbn. rewrite log_pass. by apply prefix_app_r. Qed.
Lemma growing_ret {A} (a : A) : growing (mret a).
Proof. by intros s. Qed.
Lemma growing_fail {A} e : growing (fail (A := A) e).
Proof. by intros s. Qed.
Lemma growing_bind {A B} (m : Tool A) (f : A → Tool B) : growing m → (∀ a, growing (f a)) → growing (m ≫= f).
Proof.
  intros Hm Hf s. apply wp_bind. eapply wp_mono; [by apply Hm| |done]. intros a s' Hs'.
  eapply wp_mono; [by apply Hf| |done]. intros b s'' Hs''. by trans s'.
Qed.
Lemma growing_forM {A} (l : list A) f : (∀ x, growing (f x)) → growing (forM l f).
Proof. intros Hf. induction l as [|x l IH]; [apply growing_ret|]. cbn [forM]. apply growing_bind; [done|]. by intros _. Qed.
Lemma growing_exists p : growing (exists_ p).
Proof. intros s. apply exists_wp, grew_pass. Qed.
Lemma growing_fs_call op p f : growing (fs_call op p f).
Proof. intros s. apply fs_call_wp; [|done]. intros. apply grew_did. Qed.
Lemma growing_read_dir p : growing (read_dir p).
Proof. intros s. apply read_dir_wp; [|done]. apply grew_pass. Qed.
Lemma growing_sh p a d : growing (sh p a d).
Proof. intros s. apply sh_wp; [|done]. intros. apply grew_did. Qed.

#[local] Hint Resolve growing_ret growing_fail growing_bind growing_forM growing_exists growing_fs_call growing_read_dir
  growing_sh : careful.
#[local] Hint Extern 1 (growing (if ?b then _ else _)) => destruct b : careful.
#[local] Hint Extern 1 (growing (match ?b with _ => _ end)) => destruct b : careful.
Lemma growing_compile_file b c e : growing (compile_file b c e).
Proof. unfold compile_file, rename, remove_file, entry. eauto 20 with careful. Qed.
#[local] Hint Resolve growing_compile_file : careful.
Lemma growing_compile p : growing (compile p).
Proof. unfold compile, create_dir. eauto 20 with careful. Qed.

Lemma grew_quiet s s' : grew s s' → quiet s → quiet s'.
Proof. unfold quiet. by intros [-> _]. Qed.

Lemma wp_growing {A} (m : Tool A) (Q : A → St → Prop) s :
  growing m → wp m Q (λ _ _, True) s → wp m (λ a s', Q a s' ∧ grew s s') (λ _ _, True) s.
Proof. intros Hg Hm. eapply wp_mono; [exact (wp_and _ _ _ _ _ _ Hm (Hg s))|done|done]. Qed.

(** Distinct names stay distinct. *)
Lemma source_inj x y : source x = source y → x = y.
Proof. intros E. apply app_inv_head in E. injection E as E. by apply string_app_inj in E as [-> _]. Qed.
Lemma object_not_source x y : (r ++ ["bins"]) ++ [(x +:+ ".s") +:+ ".o"] ≠ source y.
Proof. intros E. apply app_inv_head in E. injection E as E. by apply string_app_inj in E as [_ ?]. Qed.
Lemma compiled_inj x y : compiled x = compiled y → x = y.
Proof. intros E. apply app_inv_head in E. injection E as E. by apply string_app_inj in E as [-> _]. Qed.

Lemma object_ne x : (r ++ ["bins"]) ++ [(x +:+ ".s") +:+ ".o"] ≠ (r ++ ["bins"]) ++ [x].
Proof.
  intros E. apply app_inv_head in E. injection E as E. apply (f_equal String.length) in E.
  rewrite !string_app_length in E. cbn in E. lia.
Qed.
(** Paths in directories of different names. *)
Lemma dirs_ne m n x y : m ≠ n → (r ++ [m]) ++ [x] ≠ (r ++ [n]) ++ [y].
Proof. intros Hmn E. rewrite <-!app_assoc in E. apply app_inv_head in E. by injection E. Qed.

Lemma app_snoc_ne (d : path) m x n : (d ++ [m]) ++ [x] ≠ d ++ [n].
Proof. intros E. apply (f_equal length) in E. rewrite !length_app in E. cbn in E. lia. Qed.
Lemma mount_ne m n x y : (r ++ [m]) ++ [x] ≠ ((r ++ [n]) ++ ["bin"]) ++ [y].
Proof. intros E. apply (f_equal length) in E. rewrite !length_app in E. cbn in E. lia. Qed.

Lemma outside_dir m l : m ≠ MOUNT_DIR → m ≠ DISK_FILE → outside r ((r ++ [m]) ++ l).
Proof.
  intros Hm Hd. split.
  - intros [t E]. rewrite <-!app_assoc in E. apply app_inv_head in E. by injection E.
  - intros E. rewrite <-!app_assoc in E. apply app_inv_head in E. by injection E.
Qed.
Lemma outside_bins : outside r (r ++ ["bins"]).
Proof. rewrite <-(app_nil_r (r ++ ["bins"])). by apply outside_dir. Qed.
#[local] Hint Resolve outside_bins : careful.
#[local] Hint Extern 1 (outside _ _) => by apply outside_dir : careful.

(** One source: its program is there, and no other source or program has
    changed. *)
Lemma compile_file_wp (P : string → Prop) x s : quiet s → (∀ y, P y → x ≠ y +:+ ".s") →
  wp (compile_file (r ++ ["bins"]) (r ++ [COMPILED_DIR]) (Some (x +:+ ".s")))
    (λ _ s', ∃ src, files s !! source x = Some (File src) ∧
       files s' !! compiled x = Some (File (link (assemble src))) ∧
       (∀ y, P y → files s' !! source y = files s !! source y) ∧
       (∀ y, y ≠ x → files s' !! compiled y = files s !! compiled y)) (λ _ _, True) s.
Proof.
  intros Hq Hx. unfold compile_file, entry. apply wp_bind, wp_ret. cbv zeta. rewrite strip_suffix_app. cbn [join].
  rewrite add_text_app.
  set (o := (r ++ ["bins"]) ++ [(x +:+ ".s") +:+ ".o"]) in *. set (b := (r ++ ["bins"]) ++ [x]) in *.
  assert (outside r o) as Ho by by apply outside_dir. assert (outside r b) as Hb by by apply outside_dir.
  apply wp_bind, sh_wp; [|done]. intros fs1 E1. apply nasm_law in E1 as (src & Hsrc & ->).
  set (s1 := did _ _ _). assert (quiet s1) as Hq1 by by apply quiet_pass.
  apply wp_bind, sh_wp; [|done]. intros fs2 E2. apply ld_law in E2 as (obj & Hobj & ->).
  rewrite pass_outside in Hobj by done. unfold s1 in Hobj. cbn in Hobj. rewrite lookup_insert_eq in Hobj. injection Hobj as <-.
  set (s2 := did _ _ (pass s1)). assert (quiet s2) as Hq2 by by apply quiet_pass.
  apply wp_bind, fs_call_wp; [|done]. intros fs3 l3 E3.
  assert (fs3 = delete o (files (pass s2))) as -> by (repeat case_match; by simplify_eq). clear E3.
  set (s3 := did _ _ (pass s2)). assert (quiet s3) as Hq3 by by apply quiet_pass.
  assert (files s3 !! b = Some (File (link (assemble src)))) as Hb3.
  { unfold s3. cbn. rewrite lookup_delete_ne by by apply object_ne. rewrite pass_outside by done. apply lookup_insert_eq. }
  assert (∀ q, outside r q → b ≠ q → o ≠ q → files s3 !! q = files s !! q) as Hrest.
  { intros q Hq' ??. unfold s3, s2, s1. cbn. rewrite lookup_delete_ne, pass_outside by done. cbn.
    rewrite lookup_insert_ne, pass_outside by done. cbn. by rewrite lookup_insert_ne, pass_outside. }
  rewrite pass_outside in Hsrc by (done || by apply outside_dir). clearbody s3. clear Hq2 Hq1 s2 s1.
  unfold rename. apply fs_call_wp; [|done]. intros fs4 l4 E4. rewrite pass_outside, Hb3 in E4 by done.
  case_match; [|done]. injection E4 as <- _. fold (compiled x). cbn [files did].
  exists src. split_and!; [done|by rewrite lookup_insert_eq| |]; intros y Hy.
  - rewrite lookup_insert_ne, lookup_delete_ne, pass_outside; try done; [apply Hrest|..]; try by apply outside_dir.
    all: try by apply dirs_ne. all: try apply object_not_source.
    all: intros E; apply app_inv_head in E; injection E as E; by apply (Hx y).
  - rewrite lookup_insert_ne, lookup_delete_ne, pass_outside; try done; [apply Hrest|..]; try by apply outside_dir.
    all: try by apply dirs_ne. intros E. by apply Hy, eq_sym, compiled_inj.
Qed.

(** What a run of [compile] is to achieve. *)
Definition compiled_all (fs fs' : Files) : Prop := ∀ x src, fs !! source x = Some (File src) →
  fs' !! source x = Some (File src) ∧ fs' !! compiled x = Some (File (link (assemble src))).

Lemma compile_loop es s : quiet s → no_clash (files s) → (∀ x, Some (x +:+ ".s") ∈ es ↔ is_Some (files s !! source x)) →
  wp (forM es (compile_file (r ++ ["bins"]) (r ++ [COMPILED_DIR])))
    (λ _ s', compiled_all (files s) (files s')) (λ _ _, True) s.
Proof.
  intros Hq Hc Hes.
  set (I := λ (k : nat) (s' : St), quiet s' ∧
    (∀ y, is_Some (files s !! source y) → files s' !! source y = files s !! source y) ∧
    ∀ x src, files s !! source x = Some (File src) → Some (x +:+ ".s") ∈ take k es →
      files s' !! compiled x = Some (File (link (assemble src)))).
  eapply wp_mono; [apply (wp_forM I _ (λ _ _, True))| |done].
  - split_and!; [done|done|]. intros x src _ Hx. by apply not_elem_of_nil in Hx.
  - intros k e s1 Hk (Hq1 & Hs & Hp). assert (e ∈ es) as He by by eapply list_elem_of_lookup_2.
    unfold I. rewrite (take_S_r _ _ _ Hk). destruct e as [n|]; [|exact Logic.I].
    destruct (strip_suffix ".s" n) as [x|] eqn:En.
    + apply strip_suffix_Some in En as ->. apply Hes in He as Hx. eapply wp_mono.
      * apply wp_growing; [apply growing_compile_file|].
        apply (compile_file_wp (λ y, is_Some (files s !! source y))); [done|]. intros y _ ->.
        apply Hc in Hx. by rewrite strip_suffix_app in Hx.
      * intros [] s2 [(src & Hsrc & Hx2 & Hs2 & Hp2) Hg].
        split_and!; [by apply (grew_quiet s1)|intros y Hy; rewrite Hs2; auto|].
        intros z src' Hz. destruct (decide (z = x)) as [->|Hzx].
        -- intros _. rewrite Hs in Hsrc by done. congruence.
        -- rewrite elem_of_app, list_elem_of_singleton. intros [Hin|E]; [rewrite Hp2; eauto|].
           injection E as E. by apply string_app_inj in E as [-> _].
      * done.
    + unfold compile_file, entry. apply wp_bind, wp_ret. rewrite En. apply wp_ret. split_and!; [done|done|].
      intros x src Hx. rewrite elem_of_app, list_elem_of_singleton. intros [Hin|E]; [by eapply Hp|].
      injection E as <-. by rewrite strip_suffix_app in En.
  - intros [] s' (_ & Hs & Hp) x src Hx. rewrite firstn_all in Hp. split; [by rewrite Hs; [|eexists]|].
    apply Hp; [done|]. apply Hes. by eexists.
Qed.

Lemma compile_wp s : quiet s → is_Some (files s !! (r ++ ["bins"])) → no_clash (files s) →
  wp (compile r) (λ _ s', compiled_all (files s) (files s')) (λ _ _, True) s.
Proof.
  intros Hq Hbins Hc. unfold compile. cbn [join]. apply wp_bind, exists_wp, wp_bind.
  eapply (wp_mono _ (λ _ s', quiet s' ∧ ∀ q, outside r q → q ≠ r ++ [COMPILED_DIR] → files s' !! q = files s !! q) _ (λ _ _, True)); [| |done].
  { case_bool_decide; [apply wp_ret; split; [by apply quiet_pass|]; intros; by apply pass_outside|].
    apply create_dir_wp; [|done]. split; [by do 2 apply quiet_pass|]. intros q Hq' Hne. cbn.
    rewrite lookup_insert_ne by done. by rewrite !pass_outside by (done || by apply quiet_pass). }
  intros [] s1 [Hq1 H1]. apply wp_bind, exists_wp.
  assert (∀ x, outside r (source x)) as Hout by (intros; by apply outside_dir).
  assert (∀ x, files (pass s1) !! source x = files s !! source x) as Hsrc.
  { intros x. rewrite pass_outside by done. apply H1; [done|]. intros E. by apply (app_snoc_ne r) in E. }
  assert (files (pass s1) !! (r ++ ["bins"]) = files s !! (r ++ ["bins"])) as Hb.
  { rewrite pass_outside by eauto with careful. apply H1; [eauto with careful|]. intros E. by apply app_inv_head in E. }
  rewrite Hb, bool_decide_eq_true_2 by done. apply wp_bind, read_dir_wp; [|done].
  assert (∀ x, files (pass (pass s1)) !! source x = files s !! source x) as Hsrc2.
  { intros x. by rewrite pass_outside by (done || by apply quiet_pass). }
  eapply wp_mono; [apply compile_loop| |done].
  - by do 2 apply quiet_pass.
  - intros x. rewrite Hsrc2. apply Hc.
  - intros x. apply listing_law.
  - intros [] s2 H2 x src Hx. apply H2. by rewrite Hsrc2.
Qed.

(** Each program is handed to the file system at the mount point. *)
Lemma copy_files_wp es s : quiet s → (∀ n, Some n ∈ es ↔ is_Some (files s !! ((r ++ [COMPILED_DIR]) ++ [n]))) →
  wp (forM es (copy_file (r ++ [COMPILED_DIR]) ((r ++ [MOUNT_DIR]) ++ ["bin"])))
    (λ _ s', running s' = running s ∧ ∃ l, log s' = log s ++ l ∧
      ∀ x d, files s !! compiled x = Some (File d) → Copied (installed x) d ∈ l) (λ _ _, True) s.
Proof.
  intros Hq Hes.
  set (I := λ (k : nat) (s' : St), running s' = running s ∧
    (∀ n, files s' !! ((r ++ [COMPILED_DIR]) ++ [n]) = files s !! ((r ++ [COMPILED_DIR]) ++ [n])) ∧
    ∃ l, log s' = log s ++ l ∧
      ∀ n d, Some n ∈ take k es → files s !! ((r ++ [COMPILED_DIR]) ++ [n]) = Some (File d) →
        Copied (((r ++ [MOUNT_DIR]) ++ ["bin"]) ++ [n]) d ∈ l).
  eapply wp_mono; [apply (wp_forM I _ (λ _ _, True))| |done].
  - split_and!; [done|done|]. exists []. rewrite app_nil_r. split; [done|]. intros n d Hn. by apply not_elem_of_nil in Hn.
  - intros k e s1 Hk (Hr & Hs & l & Hl & Hp). unfold I. rewrite (take_S_r _ _ _ Hk). destruct e as [n|]; [|exact Logic.I].
    assert (quiet s1) as Hq1 by (unfold quiet; by rewrite Hr).
    assert (∀ m, files (pass s1) !! ((r ++ [COMPILED_DIR]) ++ [m]) = files s !! ((r ++ [COMPILED_DIR]) ++ [m])) as Hs1.
    { intros m. rewrite pass_outside; [done|done|by apply outside_dir]. }
    unfold copy_file, entry. apply wp_bind, wp_ret, copy_wp; [|done]. cbn [join]. intros d Hd. split_and!; cbn [running log files did].
    + by rewrite running_pass.
    + intros m. rewrite lookup_insert_ne; [done|]. apply not_eq_sym, mount_ne.
    + rewrite log_pass, Hl, <-app_assoc. eexists. split; [done|]. intros m d'. rewrite !elem_of_app, !list_elem_of_singleton.
      intros [Hin|[= ->]] Hm; [eauto|]. right. rewrite Hs1 in Hd. congruence.
  - intros [] s' (Hr & _ & l & Hl & Hp). rewrite firstn_all in Hp. split; [done|]. exists l. split; [done|].
    intros x d Hx. apply Hp; [|done]. apply Hes. by eexists.
Qed.

(** The commands before the mount. *)
Definition partitioned : list Event := (λ '(p, a), Ran (mkCommand p a r) true) <$> partition_commands r.

Lemma partitions_wp s : running s = None →
  wp (forM (partition_commands r) (λ '(p, a), sh p a r))
    (λ _ s', running s' = None ∧ log s' = log s ++ partitioned ∧ ∀ q, outside r q → files s' !! q = files s !! q)
    (λ _ _, True) s.
Proof.
  intros Hn. eapply wp_mono.
  - apply (wp_forM (λ k s', running s' = None ∧
      log s' = log s ++ ((λ '(p, a), Ran (mkCommand p a r) true) <$> take k (partition_commands r)) ∧
      ∀ q, outside r q → files s' !! q = files s !! q) _ (λ _ _, True)); [by rewrite app_nil_r|].
    intros k [p a] s' Hk (Hn' & Hl & HK). apply sh_wp; [|done]. rewrite (pass_none s' Hn'). intros fs E.
    split_and!; [done| |].
    + cbn [log did]. by rewrite (take_S_r _ _ _ Hk), fmap_app, Hl, app_assoc.
    + intros q Hq. cbn [files did].
      rewrite (image_law _ _ _ _ _ (list_elem_of_lookup_2 _ _ _ Hk) E) by apply Hq. by apply HK.
  - intros [] s' (Hn' & Hl & HK). by rewrite firstn_all in Hl.
  - done.
Qed.

Definition bin_dir : path := (r ++ [MOUNT_DIR]) ++ ["bin"].

(** C37. The programs of bins/ are handed to the mounted file system.  When [cargo xtask disk] returns,
    all commands that make the partitions have succeeded, in their order, and only then was lemonmnt started;
    then the directory bin was made at the mount point, and after it, for every source bins/x.s, the
    program that [nasm] and [ld] make of it was copied there as x.elf -- the kernel starts /bin/init.elf, the
    program of bins/init.s; then the daemon was killed and the unmount, the last command, succeeded.  The daemon
    may do anything to the image and below the mount point at any time, and each call may fail.
    The sources are in a directory bins, and none is named x.s.s. *)
Theorem disk_populates s :
  running s = None → is_Some (files s !! (r ++ ["bins"])) → no_clash (files s) →
  wp (disk r)
    (λ _ s', ∃ l0 l1 l2, (l0 = [] ∨ l0 = [Made (r ++ [MOUNT_DIR])]) ∧
      log s' = log s ++ partitioned ++ l0 ++ Started (mount_command r) :: l1 ++ Made bin_dir :: l2 ++
        [Killed; Ran (unmount_command r) true] ∧
      ∀ x src, files s !! source x = Some (File src) → Copied (installed x) (link (assemble src)) ∈ l2)
    (λ _ _, True) s.
Proof.
  intros Hn Hbins Hc. unfold disk. apply wp_bind. eapply wp_mono; [by apply partitions_wp| |done].
  intros [] s1 (N1 & L1 & K1). cbn [join]. apply wp_bind, exists_wp, wp_bind. rewrite (pass_none s1 N1).
  eapply (wp_mono _ (λ _ s', running s' = None ∧ (∃ l0, (l0 = [] ∨ l0 = [Made (r ++ [MOUNT_DIR])]) ∧ log s' = log s1 ++ l0) ∧
    ∀ q, outside r q → files s' !! q = files s !! q) _ (λ _ _, True)); [| |done].
  { case_bool_decide; [apply wp_ret; split_and!; [done| |done]; exists []; rewrite app_nil_r; by auto|].
    apply create_dir_wp; [|done]. rewrite (pass_none s1 N1). split_and!; [done|eexists; by auto|].
    intros q Hq. cbn. rewrite lookup_insert_ne; [by apply K1|]. intros <-. by destruct Hq as [[] _]. }
  intros [] s2 (N2 & (l0 & Hl0 & L2) & K2). apply wp_bind. unfold wp at 1, spawn_child. fold (mount_command r).
  rewrite (pass_none s2 N2). cbv zeta. destruct (spawn _ _); [|done]. set (s3 := mkSt _ _ _ _).
  assert (quiet s3) as Q3 by by right. assert (∀ x, outside r (source x)) as Hout by (intros; by apply outside_dir).
  apply wp_bind. eapply wp_mono; [apply wp_growing; [apply growing_compile|apply compile_wp; [done|..]]| |done].
  { cbn. rewrite K2 by eauto with careful. done. }
  { intros x. cbn. rewrite K2 by done. apply Hc. }
  intros [] s4 [Hall Hg]. pose proof (grew_quiet _ _ Hg Q3) as Q4. destruct Hg as [R4 [l1 L4]].
  apply wp_bind, create_dir_wp; [|done]. fold bin_dir. set (s5 := did _ _ _).
  assert (quiet s5) as Q5 by by apply quiet_pass. apply wp_bind, read_dir_wp; [|done].
  apply wp_bind. eapply wp_mono; [apply copy_files_wp; [by apply quiet_pass|intros n; apply listing_law]| |done].
  intros [] s6 (R6 & l2 & L6 & H6). apply wp_bind. unfold wp at 1, kill_child. cbv zeta. destruct (io _ _ _); [|done].
  apply sh_wp; [|done]. intros fs _. exists l0, l1, l2. split_and!; [done| |].
  - cbn [log did]. rewrite !log_pass. cbn [log did]. rewrite log_pass, L6, log_pass. unfold s5. cbn [log did].
    rewrite log_pass, L4. unfold s3. cbn [log]. rewrite L2, L1, <-!app_assoc. done.
  - intros x src Hx. apply H6. rewrite pass_outside by (done || by apply outside_dir). unfold s5. cbn.
    rewrite lookup_insert_ne by (intros E; by apply dirs_ne in E). rewrite pass_outside by (done || by apply outside_dir).
    apply Hall. cbn. by rewrite K2.
Qed.
End populate.

(** ** A host *)

(** The tools on a small host: [nasm] and [ld] mark what they read, the program
    named [broken] fails, and the others succeed and change nothing.  The daemon
    mounts an empty file system at the moment [late], which hides what was in the
    directory. *)
Definition sample_exec (broken : string) (c : Command) (fs : Files) : option bool * Files :=
  if decide (program c = broken) then (Some false, fs) else
  if decide (program c = "nasm") then
    match args c with
    | [_; _; AtPath p; _; AtPath o] =>
        match fs !! p with Some (File src) => (Some true, <[o := File ("asm " +:+ src)]> fs) | _ => (Some false, fs) end
    | _ => (Some false, fs)
    end
  else if decide (program c = "ld") then
    match args c with
    | [AtPath o; _; Word b] =>
        match fs !! o with Some (File obj) => (Some true, <[cwd c ++ [b] := File ("elf " +:+ obj)]> fs) | _ => (Some false, fs) end
    | _ => (Some false, fs)
    end
  else (Some true, fs).

Definition name_in (d q : path) : option (option string) :=
  match reverse q with
  | n :: t => if decide (reverse t = d) then Some (Some n) else None
  | [] => None
  end.

#[local] Instance sample (broken : string) (late : nat) : Host := {|
  exec := sample_exec broken;
  spawn := λ _ _, true;
  daemon := λ c n fs,
    if decide (n = late) then filter (λ q, ¬ (cwd c ++ [MOUNT_DIR]) `prefix_of` q.1 ∨ q.1 = cwd c ++ [MOUNT_DIR]) fs else fs;
  listing := λ fs d, omap (λ e, name_in d e.1) (map_to_list fs);
  rename_dir := λ _ _ _, None;
  io := λ _ _ _, true;
  leftover := λ _ _, None;
  remains := λ _ _ _, false;
|}.

Lemma sample_image broken r p a fs fs' : (p, a) ∈ partition_commands r →
  sample_exec broken (mkCommand p a r) fs = (Some true, fs') → fs' = fs.
Proof.
  intros Hin. unfold sample_exec. cbn [program]. case_decide; [by intros [=]|].
  rewrite !decide_False; [by intros [=]| |]; intros ->; unfold partition_commands in Hin;
    repeat (apply elem_of_cons in Hin as [[=]|Hin]); by apply not_elem_of_nil in Hin.
Qed.

#[local] Instance sample_laws broken late : @ToolLaws (sample broken late).
Proof.
  refine (@Build_ToolLaws (sample broken late) (λ src, "asm " +:+ src) (λ obj, "elf " +:+ obj) _ _ _ _ _).
  - intros r p a fs fs' Hin E q _. by rewrite (sample_image _ _ _ _ _ _ Hin E).
  - intros r n fs q [Hq _]. cbn. case_decide; [|done]. rewrite map_lookup_filter. destruct (fs !! q); [|done].
    cbn. by rewrite option_guard_True by auto.
  - intros p o d fs fs'. cbn. unfold sample_exec. cbn. case_decide; [by intros [=]|].
    destruct (fs !! p) as [[src|]|]; intros [=]; eauto.
  - intros o b d fs fs'. cbn. unfold sample_exec. cbn. case_decide; [by intros [=]|].
    destruct (fs !! o) as [[obj|]|]; intros [=]; eauto.
  - intros fs d n. cbn. rewrite list_elem_of_omap. unfold name_in. split.
    + intros ([q x] & Hq & E). apply elem_of_map_to_list in Hq. cbn [fst] in E.
      destruct (reverse q) as [|m t] eqn:Er; [done|]. case_decide; simplify_eq.
      apply (f_equal reverse) in Er. rewrite reverse_involutive, reverse_cons in Er. subst q. by eexists.
    + intros [x Hx]. exists (d ++ [n], x). rewrite elem_of_map_to_list. split; [done|]. cbn [fst].
      by rewrite reverse_snoc, reverse_involutive, decide_True.
Defined.

Definition sample_root : path := ["maram"].
Definition sample_files : Files := list_to_map
  [(["maram"], Dir); (["maram"; "kernel"; "target"; "x86_64-unknown-none"; "release"; "kernel"], File "kernel");
   (["maram"; "bins"], Dir); (["maram"; "bins"; "init.s"], File "init"); (["maram"; "bins"; "shell.s"], File "shell");
   (["maram"; "bins"; "notes.txt"], File "notes")].
Definition sample_state : St := mkSt sample_files [] None 0.

(** The state after a run that returns. *)
Lemma wp_result {A} (m : Tool A) Q R s a : wp m Q R s → (m s).1 = Ok a → Q a (m s).2.
Proof. unfold wp. by destruct (m s) as [[] ?]; intros ? [= <-]. Qed.

Definition sample_run (broken : string) (late : nat) (c : CLICommand) : res XError () * St :=
  main (H := sample broken late) ["maram"; "xtask"] "cargo" c sample_state.

Lemma name_in_snoc d n : name_in d (d ++ [n]) = Some (Some n).
Proof. unfold name_in. by rewrite reverse_snoc, reverse_involutive, decide_True. Qed.

Definition no_clashb (r : path) (fs : Files) : bool :=
  forallb (λ e, match name_in (r ++ ["bins"]) e.1 with
                | Some (Some n) => bool_decide ((x ← strip_suffix ".s" n; strip_suffix ".s" x) = None)
                | _ => true
                end) (map_to_list fs).
Lemma no_clashb_spec r fs : no_clashb r fs = true → no_clash r fs.
Proof.
  intros Hb x [n Hx]. unfold no_clashb in Hb. rewrite forallb_forall in Hb.
  specialize (Hb (source r x, n)). cbn [fst] in Hb. unfold source in Hb at 2. rewrite name_in_snoc in Hb. cbn in Hb.
  rewrite strip_suffix_app in Hb. cbn in Hb. eapply bool_decide_eq_true, Hb. apply list_elem_of_In, elem_of_map_to_list, Hx.
Qed.

Lemma disk_populates_witness : ∃ s', disk (H := sample "false" 0) sample_root sample_state = (Ok tt, s') ∧
  Copied ["maram"; "mount"; "bin"; "init.elf"] "elf asm init" ∈ log s' ∧ length (log s') = 21%nat.
Proof.
  assert ((disk (H := sample "false" 0) sample_root sample_state).1 = Ok tt) as E by (vm_compute; reflexivity).
  assert (length (log (disk (H := sample "false" 0) sample_root sample_state).2) = 21%nat) as El by (vm_compute; reflexivity).
  assert (is_Some (sample_files !! (sample_root ++ ["bins"]))) as Hb by (exists Dir; vm_compute; reflexivity).
  pose proof (no_clashb_spec sample_root sample_files ltac:(vm_compute; reflexivity)) as Hc.
  pose proof (wp_result _ _ _ _ _ (disk_populates (L := sample_laws "false" 0) sample_root sample_state eq_refl Hb Hc) E)
    as (l0 & l1 & l2 & _ & He & Hx).
  assert (Copied ["maram"; "mount"; "bin"; "init.elf"] "elf asm init" ∈ l2) as Hin.
  { apply (Hx "init" "init"). vm_compute. reflexivity. }
  assert (Copied ["maram"; "mount"; "bin"; "init.elf"] "elf asm init" ∈ log (disk (H := sample "false" 0) sample_root sample_state).2) as Hl.
  { rewrite He, !elem_of_app, elem_of_cons, elem_of_app, elem_of_cons, elem_of_app. tauto. }
  clear He Hx. revert E El Hl. destruct (disk (H := sample "false" 0) sample_root sample_state) as [[] s']; cbn [fst snd]; intros [=] El Hl.
  exists s'. split; [by destruct a|exact (conj Hl El)].
Defined.

Lemma main_stops_witness : ∃ s', sample_run "false" 0 BuildRun = (Ok tt, s') ∧ all_ok s' ∧ length (log s') = 24%nat.
Proof.
  pose proof (main_stops (H := sample "false" 0) ["maram"; "xtask"] "cargo" BuildRun sample_state
    ltac:(discriminate) eq_refl) as W.
  assert (((sample_run "false" 0 BuildRun).1, length (log (sample_run "false" 0 BuildRun).2)) = (Ok tt, 24%nat)) as E
    by (vm_compute; reflexivity).
  unfold wp in W. fold (sample_run "false" 0 BuildRun) in W.
  destruct (sample_run "false" 0 BuildRun) as [[] s']; cbn [fst snd] in E; try discriminate E.
  exists s'. injection E as -> E. exact (conj eq_refl (conj W E)).
Defined.

(** [tree], by the directory of each entry. *)
Definition treeb (fs : Files) : bool :=
  forallb (λ e, match parent e.1 with None | Some [] => true | Some q => bool_decide (fs !! q = Some Dir) end) (map_to_list fs).
Lemma treeb_spec fs : treeb fs = true → tree fs.
Proof.
  intros Hb. assert (∀ p n, p ≠ [] → is_Some (fs !! (p ++ [n])) → fs !! p = Some Dir) as Hp.
  { intros p n Hp [x Hx]. unfold treeb in Hb. rewrite forallb_forall in Hb. specialize (Hb (p ++ [n], x)).
    assert (parent (p ++ [n]) = Some p) as E by (unfold parent; rewrite removelast_last; by destruct p).
    cbn [fst] in Hb. rewrite E in Hb. destruct p as [|m p]; [done|].
    eapply bool_decide_eq_true, Hb. apply list_elem_of_In, elem_of_map_to_list, Hx. }
  intros p q Hpn. induction q as [|n q IH] using rev_ind; [done|]. intros _ Hs. rewrite app_assoc in Hs.
  apply Hp in Hs; [|by destruct p]. destruct q as [|m q]; [by rewrite app_nil_r in Hs|]. apply IH; [done|by eexists].
Qed.

Definition dirty : Files := list_to_map
  [(["maram"], Dir); (["maram"; "README.md"], File "readme"); (["maram"; "kernel.elf"], File "kernel");
   (["maram"; "compiled"], Dir); (["maram"; "compiled"; "init.elf"], File "elf")].

Lemma clean_exact_witness : (clean (H := sample "cargo" 0) "cargo" sample_root (mkSt dirty [] None 0)).1 = Ok tt ∧
  ∀ q, files (clean (H := sample "cargo" 0) "cargo" sample_root (mkSt dirty [] None 0)).2 !! q =
    if decide (artifact sample_root q) then None else dirty !! q.
Proof.
  assert ((clean (H := sample "cargo" 0) "cargo" sample_root (mkSt dirty [] None 0)).1 = Ok tt) as E
    by (vm_compute; reflexivity).
  split; [exact E|].
  exact (wp_result _ _ _ _ _ (clean_exact (H := sample "cargo" 0) "cargo" sample_root (mkSt dirty [] None 0) false dirty
    eq_refl eq_refl (treeb_spec dirty ltac:(vm_compute; reflexivity))) E).
Defined.

(** A program that does not assemble leaves the image mounted and the daemon
    running: [disk] returns before it comes to [kill] and fusermount. *)
Lemma disk_leaves_mount :
  let s' := (sample_run "nasm" 0 Disk).2 in
  (sample_run "nasm" 0 Disk).1 = Err (Bail "nasm") ∧ running s' = Some (mount_command sample_root) ∧
  forallb (λ e, match e with Killed => false | _ => true end) (log s') = true.
Proof. by vm_compute. Qed.

(** [disk] does not wait until lemonmnt has mounted the file system.  If that takes
    as long as the tool needs for its other work, the programs are copied into the
    directory beneath, the file system stays empty, and [disk] reports success. *)
Lemma late_mount :
  let at_end late := files (sample_run "false" late Disk).2 !! ["maram"; "mount"; "bin"; "init.elf"] in
  (sample_run "false" 17 Disk).1 = Ok tt ∧ at_end 17%nat = None ∧
  (sample_run "false" 0 Disk).1 = Ok tt ∧ at_end 0%nat = Some (File "elf asm init").
Proof. by vm_compute. Qed.

(** With a.s and a.s.s, linking the second takes the place of the source of the
    first, which is lost. *)
Lemma compile_overwrites :
  let s := mkSt (<[["maram"; "bins"; "a.s"] := File "a"]> (<[["maram"; "bins"; "a.s.s"] := File "b"]> sample_files)) [] None 0 in
  files (compile (H := sample "false" 0) sample_root s).2 !! ["maram"; "bins"; "a.s"] = None.
Proof. by vm_compute. Qed.
End Xtask.
