(* ===== verification/Text.v ===== *)
(** * Text for people (gpt/headers.rs, gpt/mod.rs, pci/mod.rs)

    The [Debug] and [Display] implementations: GUIDs, partition types, partition
    entries and kinds of PCI devices, with the number formats of the core library
    that they use.  Text is a list of bytes ([Names]). *)

From stdpp Require Import strings.
From S2P Require Import Prelude Names Storage Gpt Pci Xtask.
Import Names Storage.

Module Text.

(** ** Numbers *)

(** The digit of a value below sixteen. *)
Definition digit (d : Z) : Z := if d <? 10 then 48 + d else 55 + d.

(** The digits of a number of at most [k + 1] digits, without leading zeros. *)
Fixpoint digits (base : Z) (k : nat) (x : Z) : Str :=
  match k with
  | O => [digit (x mod base)]
  | S k => if x <? base then [digit x] else digits base k (x / base) ++ [digit (x mod base)]
  end.

(** At least [width] characters, filled on the left. *)
Definition pad (fill : Z) (width : nat) (s : Str) : Str := repeat fill (width - length s) ++ s.

Definition ZERO_CHAR : Z := 48.
Definition BLANK : Z := 32.
Definition DASH : Z := 45.

(** [{:0wX}], [{:wX}] and [{}] of an integer of at most 64 bits. *)
Definition hex_zeros (width : nat) (x : Z) : Str := pad ZERO_CHAR width (digits 16 63 x).
Definition hex_blanks (width : nat) (x : Z) : Str := pad BLANK width (digits 16 63 x).
Definition decimal (x : Z) : Str := digits 10 63 x.

(** ** GUIDs, partitions and devices *)

(** [from_be_bytes] *)
Definition from_be (l : list Z) : Z := le_val (rev l).

Definition guid_debug (g : Guid) : Str :=
  let clock := from_be (clock_seq g) in
  let arr := [0; 0] ++ node g in
  let node := from_be arr in
  hex_zeros 8 (time_low g) ++ [DASH] ++ hex_zeros 4 (time_mid g) ++ [DASH] ++ hex_zeros 4 (time_high_ver g) ++
  [DASH] ++ hex_zeros 4 clock ++ [DASH] ++ hex_blanks 12 node.

Definition partition_type_display (t : PartitionType) : Str :=
  match t with
  | Efi => str "EFI"
  | LemonFS => str "LemonFS"
  | Unknown guid => str "Unknown: " ++ guid_debug guid
  end.

Definition partition_entry_debug (e : Gpt.PartitionEntry) : Str :=
  let t := Gpt.from_guid (Gpt.entry_type_guid e) in
  let name := Gpt.utf16_lossy (Gpt.until_zero (Gpt.entry_name e)) in
  str "Name: " ++ name ++ [10] ++ str "Type: " ++ partition_type_display t ++ [10] ++
  str "Part Guid: " ++ guid_debug (Gpt.partition_guid e) ++ str ", start: " ++ decimal (Gpt.start_block e) ++
  str ", end: " ++ decimal (Gpt.end_block e).

Definition device_type_display (t : Pci.DeviceType) : Str :=
  match t with
  | Pci.Ahci => str "AHCI Storage"
  | Pci.Nvme => str "NVMe Storage"
  | Pci.Eth => str "Ethernet"
  | Pci.Wifi => str "Wifi Card"
  | Pci.GPU3D => str "GPU"
  | Pci.Hda => str "Audio Device"
  | Pci.Vga => str "VGA Output"
  | Pci.UnknownDevice => str "Unknown"
  end.

(** ** Reading numbers back *)

(** The value of a character; a blank counts as a zero. *)
Definition undigit (c : Z) : Z := if c =? BLANK then 0 else if c <? 58 then c - 48 else c - 55.
Definition number (base : Z) (s : Str) : Z := fold_left (λ n c, n * base + undigit c) s 0.

Lemma undigit_digit d : 0 <= d < 16 → undigit (digit d) = d.
Proof. unfold undigit, digit, BLANK. intros Hd. repeat case_match; lia. Qed.

Lemma number_snoc base s c : number base (s ++ [c]) = number base s * base + undigit c.
Proof. unfold number. by rewrite fold_left_app. Qed.

Lemma number_digits base k x : 2 <= base <= 16 → 0 <= x < base ^ (Z.of_nat k + 1) → number base (digits base k x) = x.
Proof.
  intros Hb. revert x. induction k as [|k IH]; intros x Hx; cbn [digits].
  - rewrite Z.pow_1_r in Hx. unfold number. cbn. rewrite undigit_digit; rewrite Z.mod_small; lia.
  - destruct (Z.ltb_spec x base) as [Hlt|Hge].
    + unfold number. cbn. rewrite undigit_digit; lia.
    + rewrite number_snoc, IH, undigit_digit.
      * pose proof (Z.div_mod x base). lia.
      * pose proof (Z.mod_pos_bound x base). lia.
      * rewrite Nat2Z.inj_succ, Z.add_succ_l, Z.pow_succ_r in Hx by lia.
        split; [apply Z.div_pos; lia|]. apply Z.div_lt_upper_bound; lia.
Qed.

Lemma number_pad base fill width s : undigit fill = 0 → number base (pad fill width s) = number base s.
Proof.
  intros Hf. unfold pad, number. rewrite fold_left_app. f_equal.
  induction (width - length s)%nat as [|n IH]; [done|]. cbn. by rewrite Hf.
Qed.

Lemma length_digits base k x n : 2 <= base → 0 <= x < base ^ (Z.of_nat n + 1) → (length (digits base k x) <= n + 1)%nat.
Proof.
  intros Hb. revert x n. induction k as [|k IH]; intros x n Hx; cbn [digits]; [cbn; lia|].
  destruct (Z.ltb_spec x base) as [Hlt|Hge]; [cbn; lia|]. rewrite length_app. cbn.
  destruct n as [|n].
  - rewrite Z.pow_1_r in Hx. lia.
  - rewrite Nat2Z.inj_succ, Z.add_succ_l, Z.pow_succ_r in Hx by lia.
    enough (length (digits base k (x / base)) <= n + 1)%nat by lia.
    apply IH. split; [apply Z.div_pos; lia|]. apply Z.div_lt_upper_bound; lia.
Qed.

Lemma length_pad fill width s : (length s <= width)%nat → length (pad fill width s) = width.
Proof. intros Hs. unfold pad. rewrite length_app, repeat_length. lia. Qed.

(** A padded field of [n + 1] hexadecimal digits. *)
Lemma hex_field fill n x : undigit fill = 0 → (n < 16)%nat → 0 <= x < 16 ^ (Z.of_nat n + 1) →
  length (pad fill (n + 1) (digits 16 63 x)) = (n + 1)%nat ∧ number 16 (pad fill (n + 1) (digits 16 63 x)) = x.
Proof.
  intros Hf Hn Hx. split; [apply length_pad; apply length_digits; lia|].
  rewrite number_pad by done. apply number_digits; [lia|]. split; [lia|].
  eapply Z.lt_le_trans; [apply Hx|]. apply Z.pow_le_mono_r; lia.
Qed.

(** ** GUIDs are written so that they can be read *)

Definition guid_ok (g : Guid) : Prop :=
  in_u32 (time_low g) ∧ in_u16 (time_mid g) ∧ in_u16 (time_high_ver g) ∧
  bytes_ok (clock_seq g) ∧ length (clock_seq g) = 2%nat ∧ bytes_ok (node g) ∧ length (node g) = 6%nat.

(** The standard form of 36 characters, a blank read as a zero. *)
Definition guid_read (s : Str) : Guid :=
  let field off len := number 16 (slice off len s) in
  Gpt.guid_new (field 0%nat 8%nat) (field 9%nat 4%nat) (field 14%nat 4%nat) (field 19%nat 4%nat) (field 24%nat 12%nat).

Lemma from_be_range l : bytes_ok l → 0 <= from_be l < 256 ^ Z.of_nat (length l).
Proof. intros Hl. unfold from_be. rewrite <-length_rev. apply le_val_range. by apply Forall_rev. Qed.

Lemma be_bytes_from_be l : bytes_ok l → Gpt.be_bytes (length l) (from_be l) = l.
Proof.
  intros Hl. unfold Gpt.be_bytes, from_be. rewrite <-(length_rev l), le_bytes_val; [apply rev_involutive|]. by apply Forall_rev.
Qed.

Lemma from_be_zeros l : from_be ([0; 0] ++ l) = from_be l.
Proof.
  unfold from_be. cbn. rewrite <-app_assoc. cbn. induction (rev l) as [|b m IH]; [done|]. cbn. by rewrite IH.
Qed.

Lemma slice_skip (a s : Str) off off' len : off = (length a + off')%nat → slice off len (a ++ s) = slice off' len s.
Proof. intros ->. unfold slice. by rewrite drop_app_add. Qed.
Lemma slice_field (b c : Str) len : length b = len → slice 0 len (b ++ c) = b.
Proof. intros <-. unfold slice. by rewrite drop_0, take_app_length. Qed.

Lemma guid_fields (f1 f2 f3 f4 f5 : Str) :
  length f1 = 8%nat → length f2 = 4%nat → length f3 = 4%nat → length f4 = 4%nat → length f5 = 12%nat →
  let s := f1 ++ [DASH] ++ f2 ++ [DASH] ++ f3 ++ [DASH] ++ f4 ++ [DASH] ++ f5 in
  length s = 36%nat ∧ slice 0 8 s = f1 ∧ slice 9 4 s = f2 ∧ slice 14 4 s = f3 ∧ slice 19 4 s = f4 ∧ slice 24 12 s = f5.
Proof.
  intros L1 L2 L3 L4 L5 s. subst s. split; [rewrite !length_app; cbn; lia|].
  split; [by apply slice_field|].
  rewrite (slice_skip f1 _ 9 1), (slice_skip [DASH] _ 1 0) by (cbn; lia).
  rewrite (slice_skip f1 _ 14 6), (slice_skip [DASH] _ 6 5), (slice_skip f2 _ 5 1), (slice_skip [DASH] _ 1 0) by (cbn; lia).
  rewrite (slice_skip f1 _ 19 11), (slice_skip [DASH] _ 11 10), (slice_skip f2 _ 10 6), (slice_skip [DASH] _ 6 5),
    (slice_skip f3 _ 5 1), (slice_skip [DASH] _ 1 0) by (cbn; lia).
  rewrite (slice_skip f1 _ 24 16), (slice_skip [DASH] _ 16 15), (slice_skip f2 _ 15 11), (slice_skip [DASH] _ 11 10),
    (slice_skip f3 _ 10 6), (slice_skip [DASH] _ 6 5), (slice_skip f4 _ 5 1), (slice_skip [DASH] _ 1 0) by (cbn; lia).
  split_and!; [by apply slice_field..|]. rewrite <-(app_nil_r f5) at 1. by apply slice_field.
Qed.

(** A GUID's text has the standard form: 36 characters, from which the GUID can be read back -- so
    different GUIDs have different texts.  The last field is filled with blanks, not zeros. *)
Theorem guid_text_roundtrip g : guid_ok g → length (guid_debug g) = 36%nat ∧ guid_read (guid_debug g) = g.
Proof.
  destruct g as [tl tm th cs nd]. intros (Htl & Htm & Hth & Hcs & Lcs & Hnd & Lnd).
  cbn [time_low time_mid time_high_ver clock_seq node] in *.
  pose proof (from_be_range cs Hcs) as Rcs. pose proof (from_be_range nd Hnd) as Rnd. rewrite Lcs in Rcs. rewrite Lnd in Rnd.
  destruct (hex_field ZERO_CHAR 7 tl) as [L1 E1]; [done|lia|unfold_uint; lia|].
  destruct (hex_field ZERO_CHAR 3 tm) as [L2 E2]; [done|lia|unfold_uint; lia|].
  destruct (hex_field ZERO_CHAR 3 th) as [L3 E3]; [done|lia|unfold_uint; lia|].
  destruct (hex_field ZERO_CHAR 3 (from_be cs)) as [L4 E4]; [done|lia|lia|].
  destruct (hex_field BLANK 11 (from_be nd)) as [L5 E5]; [done|lia|lia|].
  unfold guid_debug. cbn [time_low time_mid time_high_ver clock_seq node]. rewrite from_be_zeros.
  destruct (guid_fields _ _ _ _ _ L1 L2 L3 L4 L5) as (L & S1 & S2 & S3 & S4 & S5).
  split; [exact L|]. unfold guid_read, hex_zeros, hex_blanks. cbn [Nat.add] in *. cbv zeta.
  rewrite S1, S2, S3, S4, S5, E1, E2, E3, E4, E5. unfold Gpt.guid_new. f_equal.
  - rewrite <-Lcs. by apply be_bytes_from_be.
  - rewrite <-from_be_zeros. change 8%nat with (2 + 6)%nat. rewrite <-Lnd at 2. change (2 + length nd)%nat with (length ([0; 0] ++ nd)).
    rewrite be_bytes_from_be by (by repeat constructor). rewrite (slice_skip [0; 0] _ 2 0) by done.
    rewrite <-(app_nil_r nd) at 1. by apply slice_field.
Qed.

Lemma guid_text_roundtrip_witness : guid_ok Gpt.LEMONFS_GUID ∧ length (guid_debug Gpt.LEMONFS_GUID) = 36%nat ∧
  guid_read (guid_debug Gpt.LEMONFS_GUID) = Gpt.LEMONFS_GUID.
Proof.
  assert (guid_ok Gpt.LEMONFS_GUID) as Hg by (vm_compute; intuition (try done; repeat constructor; done)).
  exact (conj Hg (guid_text_roundtrip _ Hg)).
Defined.

(** The type that the build tool gives to the partition it makes is the one the
    kernel looks for. *)
Lemma tool_makes_lemonfs : str Xtask.Xtask.LEMONFS_GUID = guid_debug Gpt.LEMONFS_GUID ∧
  Gpt.from_guid (guid_read (str Xtask.Xtask.LEMONFS_GUID)) = LemonFS.
Proof. by vm_compute. Qed.

(** The last field of a GUID is not filled with zeros: the type of an EFI system
    partition has two blanks in it. *)
Lemma efi_guid_blanks : guid_debug Gpt.EFI_GUID = str "C12A7328-F81F-11D2-BA4B-  A0C93EC93B".
Proof. by vm_compute. Qed.

Lemma entry_text_sample :
  partition_entry_debug (Gpt.mkEntry Gpt.LEMONFS_GUID Gpt.EFI_GUID 133120 1048542 0 [82; 111; 111; 116; 0; 65]) =
  str "Name: Root" ++ [10] ++ str "Type: LemonFS" ++ [10] ++
  str "Part Guid: C12A7328-F81F-11D2-BA4B-  A0C93EC93B, start: 133120, end: 1048542".
Proof. by vm_compute. Qed.
End Text.
